(** * Certificate / CA lifecycle and ACME issuance (middlewared [plugins/crypto.py])

    A shallow embedding of the parts of [crypto.py] that the specification
    talks about: the serial allocator, the name validator, the ACME
    orchestrator with its authorization loop and renewal scheduler, and the
    read-side enrichment hook [cert_extend] with the [RE_CERTIFICATE]
    pattern.

    Conventions.
    - A Python [str] is a list of Unicode code points ([pystr]).
    - A Python call that may raise returns a [result]; models of recursive
      or unbounded code take a fuel argument and answer [OutOfFuel] when it
      runs out.
    - External collaborators (datastore, OpenSSL, ACME client, DNS
      authenticators) are tables or functions passed as arguments or
      declared as [Variable]s of a [Section]. *)

From Stdlib Require Import ZArith NArith QArith List Bool String Ascii Lia.
From Stdlib Require DecimalString.
Import ListNotations.
Open Scope Z_scope.

(** ** Python strings *)

Definition pystr := list N.

Definition str (s : string) : pystr :=
  map N_of_ascii (list_ascii_of_string s).

Definition pystr_eqb (a b : pystr) : bool :=
  if list_eq_dec N.eq_dec a b then true else false.

Lemma pystr_eqb_eq (a b : pystr) : pystr_eqb a b = true <-> a = b.
Proof.
  unfold pystr_eqb. destruct (list_eq_dec N.eq_dec a b); split; congruence.
Qed.

Lemma pystr_eqb_refl (a : pystr) : pystr_eqb a a = true.
Proof. now apply pystr_eqb_eq. Qed.

Lemma pystr_eqb_neq (a b : pystr) : pystr_eqb a b = false <-> a <> b.
Proof.
  unfold pystr_eqb. destruct (list_eq_dec N.eq_dec a b); split; congruence.
Qed.

(** ** Exceptions and results *)

(** One entry of a [ValidationErrors] aggregate: attribute and message. *)
Definition verror := (string * pystr)%type.

Inductive exn : Type :=
| KeyError (key : string)
| MappingKeyError (key : pystr)
| AttributeError (what : string)
| TypeError
| ValueError
| UnboundLocalError (var : string)
| InstanceNotFound (id : Z)
| CryptoError
| ValidationErrors (errs : list verror)
| AcmeTimeoutError
| AcmeMessagesError (detail : pystr)
| AcmeUnexpectedUpdate (detail : pystr)
| OtherError (tag : string).

Inductive result (A : Type) : Type :=
| Ok (a : A)
| Raise (e : exn)
| OutOfFuel.

Arguments Ok {A} a.
Arguments Raise {A} e.
Arguments OutOfFuel {A}.

Definition bind {A B} (r : result A) (k : A -> result B) : result B :=
  match r with
  | Ok a => k a
  | Raise e => Raise e
  | OutOfFuel => OutOfFuel
  end.

Declare Scope py_scope.
Delimit Scope py_scope with py.
Notation "x <- c ;; k" := (bind c (fun x => k))
  (at level 61, c at next level, right associativity) : py_scope.
Open Scope py_scope.

Lemma bind_ok {A B} (r : result A) (k : A -> result B) (b : B) :
  bind r k = Ok b -> exists a, r = Ok a /\ k a = Ok b.
Proof. destruct r; simpl; intros H; try discriminate. eauto. Qed.

(** ** Serial allocator ([CertificateAuthorityService.get_serial_for_certificate]) *)

Module Serial.

(** What the allocator reads of an enriched record: its [id], the id of its
    resolved [signedby] record ([None] when the field is [None]) and its
    [serial], which [cert_extend] has passed through [int] unless it was
    [None]. *)
Record entry : Type := { id : Z; signedby : option Z; serial : option Z }.

(** The two tables, [system.certificateauthority] and [system.certificate]. *)
Record store : Type := { cas : list entry; certs : list entry }.

Definition signed_by (ca_id : Z) (e : entry) : bool :=
  match signedby e with
  | Some p => p =? ca_id
  | None => false
  end.

(** [self._get_instance(ca_id)] on the CA service. *)
Definition _get_instance (st : store) (ca_id : Z) : result entry :=
  match find (fun e => id e =? ca_id) (cas st) with
  | Some e => Ok e
  | None => Raise (InstanceNotFound ca_id)
  end.

(** The inner [cert_serials]: serials of the rows of [system.certificate]
    with [('signedby', '=', ca_id)]. *)
Definition cert_serials (st : store) (ca_id : Z) : list (option Z) :=
  map serial (filter (signed_by ca_id) (certs st)).

(** [self.query([('signedby', '=', ca_id)])]. *)
Definition children (st : store) (ca_id : Z) : list entry :=
  filter (signed_by ca_id) (cas st).

(** The [for child in children: serials.extend(...)] loop over a recursive
    call [rec]. *)
Fixpoint extend_each (rec : Z -> result (list (option Z)))
    (serials : list (option Z)) (cs : list entry) : result (list (option Z)) :=
  match cs with
  | [] => Ok serials
  | child :: rest =>
      sub <- rec (id child) ;;
      extend_each rec (serials ++ sub) rest
  end.

(** The inner [child_serials]. *)
Fixpoint child_serials (fuel : nat) (st : store) (ca_id : Z)
    : result (list (option Z)) :=
  match fuel with
  | O => OutOfFuel
  | S f =>
      serials <- extend_each (child_serials f st) [] (children st ca_id) ;;
      inst <- _get_instance st ca_id ;;
      Ok ((serials ++ cert_serials st ca_id) ++ [serial inst])
  end.

(** [int(x)] on a serial read from a record. *)
Definition py_int (x : option Z) : result Z :=
  match x with
  | Some z => Ok z
  | None => Raise TypeError
  end.

Fixpoint all_ints (l : list (option Z)) : option (list Z) :=
  match l with
  | [] => Some []
  | Some z :: t => option_map (cons z) (all_ints t)
  | None :: _ => None
  end.

Definition list_max (x : Z) (l : list Z) : Z := fold_right Z.max x l.

(** [max(l) + 1]: comparing or adding [None] raises [TypeError]. *)
Definition max_plus_one (l : list (option Z)) : result Z :=
  match all_ints l with
  | None => Raise TypeError
  | Some [] => Raise ValueError
  | Some (x :: t) => Ok (list_max x t + 1)
  end.

Fixpoint get_serial_for_certificate (fuel : nat) (st : store) (ca_id : Z)
    : result Z :=
  match fuel with
  | O => OutOfFuel
  | S f =>
      ca_data <- _get_instance st ca_id ;;
      match signedby ca_data with
      | Some parent => get_serial_for_certificate f st parent
      | None =>
          let ca_signed_certs := cert_serials st ca_id in
          sub <- child_serials f st ca_id ;;
          let ca_signed_certs := ca_signed_certs ++ sub in
          match ca_signed_certs with
          | [] =>
              inst <- _get_instance st ca_id ;;
              s <- py_int (serial inst) ;;
              Ok (s + 1)
          | _ => max_plus_one ca_signed_certs
          end
      end
  end.

(** The list on which the root branch decides between its two [return]s. *)
Definition collected_at_root (fuel : nat) (st : store) (root : Z)
    : result (list (option Z)) :=
  sub <- child_serials fuel st root ;;
  Ok (cert_serials st root ++ sub).

(** *** The allocator in the words of the specification

    "At the root, collect (a) the serials of every certificate directly
    signed by this CA, (b) recursively, the serials collected the same way
    for every CA this CA has signed (post-order), and (c) the root's own
    serial. Return max(collected) + 1; if the collected set is empty,
    return root.serial + 1." *)

Fixpoint spec_collect (fuel : nat) (st : store) (ca_id : Z)
    : result (list (option Z)) :=
  match fuel with
  | O => OutOfFuel
  | S f =>
      below <- extend_each (spec_collect f st) [] (children st ca_id) ;;
      inst <- _get_instance st ca_id ;;
      Ok (cert_serials st ca_id ++ below ++ [serial inst])
  end.

Fixpoint spec_allocate (fuel : nat) (st : store) (ca_id : Z) : result Z :=
  match fuel with
  | O => OutOfFuel
  | S f =>
      ca <- _get_instance st ca_id ;;
      match signedby ca with
      | Some parent => spec_allocate f st parent
      | None =>
          collected <- spec_collect f st ca_id ;;
          match collected with
          | [] => s <- py_int (serial ca) ;; Ok (s + 1)
          | _ => max_plus_one collected
          end
      end
  end.

(** Stored states on which the walk ends: signing references go down a
    rank bounded by [N], point at stored CAs, and every serial is set. *)
Record well_formed (st : store) (rank : Z -> nat) (N : nat) : Prop := {
  wf_rank : forall e p, In e (cas st) -> signedby e = Some p ->
      (rank p < rank (id e))%nat;
  wf_bound : forall e, In e (cas st) -> (rank (id e) < N)%nat;
  wf_parent : forall e p, In e (cas st) -> signedby e = Some p ->
      exists e', _get_instance st p = Ok e';
  wf_ca_serial : forall e, In e (cas st) -> serial e <> None;
  wf_cert_serial : forall c, In c (certs st) -> serial c <> None
}.

(** [root_of st c r]: ascending the signing references from [c] ends at [r]. *)
Inductive root_of (st : store) : Z -> Z -> Prop :=
| root_here : forall c inst,
    _get_instance st c = Ok inst -> signedby inst = None -> root_of st c c
| root_up : forall c inst p r,
    _get_instance st c = Ok inst -> signedby inst = Some p ->
    root_of st p r -> root_of st c r.

(** Two outcomes agree: the same failure, or lists with the same elements. *)
Definition same_outcome (r1 r2 : result (list (option Z))) : Prop :=
  match r1, r2 with
  | Ok l1, Ok l2 => incl l1 l2 /\ incl l2 l1
  | Raise e1, Raise e2 => e1 = e2
  | OutOfFuel, OutOfFuel => True
  | _, _ => False
  end.

(** *** Facts about [max] *)

Lemma all_ints_none (l : list (option Z)) : all_ints l = None <-> In None l.
Proof.
  induction l as [|[z|] t IH]; simpl.
  - split; [discriminate | tauto].
  - destruct (all_ints t); simpl; split; intros H.
    + discriminate.
    + destruct H as [H|H]; [discriminate | now apply IH in H].
    + right. now apply IH.
    + reflexivity.
  - split; auto.
Qed.

Lemma all_ints_some (l : list (option Z)) (zs : list Z) :
  all_ints l = Some zs -> l = map Some zs.
Proof.
  revert zs. induction l as [|[z|] t IH]; simpl; intros zs H.
  - now inversion H.
  - destruct (all_ints t) as [zs'|]; simpl in H; inversion H; subst.
    simpl. f_equal. now apply IH.
  - discriminate.
Qed.

Lemma all_ints_map_some (zs : list Z) : all_ints (map Some zs) = Some zs.
Proof. induction zs as [|z t IH]; simpl; [reflexivity | now rewrite IH]. Qed.

Lemma list_max_cons (x y : Z) (l : list Z) :
  list_max x (y :: l) = Z.max y (list_max x l).
Proof. reflexivity. Qed.

Lemma list_max_upper (x : Z) (l : list Z) :
  forall z, In z (x :: l) -> z <= list_max x l.
Proof.
  induction l as [|y t IH]; intros z H.
  - destruct H as [H|[]]. unfold list_max. simpl. lia.
  - rewrite list_max_cons. destruct H as [H|[H|H]].
    + specialize (IH z (or_introl H)). lia.
    + lia.
    + specialize (IH z (or_intror H)). lia.
Qed.

Lemma list_max_in (x : Z) (l : list Z) : In (list_max x l) (x :: l).
Proof.
  induction l as [|y t IH].
  - now left.
  - rewrite list_max_cons.
    destruct (Z.max_spec y (list_max x t)) as [[_ E]|[_ E]]; rewrite E.
    + destruct IH as [IH|IH]; [now left | right; now right].
    + right. now left.
Qed.

Lemma max_plus_one_ok (l : list (option Z)) (v : Z) :
  max_plus_one l = Ok v <->
  ~ In None l /\ In (Some (v - 1)) l /\ forall z, In (Some z) l -> z <= v - 1.
Proof.
  unfold max_plus_one. destruct (all_ints l) as [zs|] eqn:E.
  - apply all_ints_some in E. subst l.
    assert (Hn : ~ In None (map Some zs)).
    { intros H. apply in_map_iff in H. destruct H as [z [H _]]. discriminate. }
    destruct zs as [|x t].
    + split; [discriminate | intros [_ [[] _]]].
    + split.
      * intros H. inversion H; subst. clear H.
        replace (list_max x t + 1 - 1) with (list_max x t) by lia.
        split; [exact Hn | split].
        -- apply (in_map Some). apply list_max_in.
        -- intros z Hz. apply in_map_iff in Hz. destruct Hz as [z' [Hz' Hin]].
           inversion Hz'; subst. now apply list_max_upper.
      * intros [_ [Hin Hub]]. f_equal.
        apply in_map_iff in Hin. destruct Hin as [z' [Hz' Hin]].
        inversion Hz'; subst z'.
        pose proof (list_max_upper x t _ Hin) as H1.
        pose proof (Hub (list_max x t)
                      (in_map Some _ _ (list_max_in x t))) as H2.
        lia.
  - apply all_ints_none in E. split; [discriminate | intros [H _]; contradiction].
Qed.

Lemma max_plus_one_ext (l1 l2 : list (option Z)) :
  incl l1 l2 -> incl l2 l1 -> max_plus_one l1 = max_plus_one l2.
Proof.
  intros H12 H21.
  destruct (max_plus_one l1) as [v| |] eqn:E1.
  - symmetry. apply max_plus_one_ok. apply max_plus_one_ok in E1.
    destruct E1 as [Hn [Hin Hub]]. repeat split; auto.
  - destruct (max_plus_one l2) as [v| |] eqn:E2.
    + apply max_plus_one_ok in E2. destruct E2 as [Hn [Hin Hub]].
      assert (H : max_plus_one l1 = Ok v).
      { apply max_plus_one_ok. repeat split; auto. }
      congruence.
    + unfold max_plus_one in E1, E2.
      destruct (all_ints l1) as [[|x1 t1]|] eqn:A1;
        destruct (all_ints l2) as [[|x2 t2]|] eqn:A2;
        try discriminate; try congruence.
      * apply all_ints_some in A1. subst l1. apply all_ints_none in A2.
        apply H21 in A2. destruct A2.
      * apply all_ints_some in A2. subst l2. apply all_ints_none in A1.
        apply H12 in A1. destruct A1.
    + unfold max_plus_one in E2.
      destruct (all_ints l2) as [[|? ?]|]; discriminate.
  - unfold max_plus_one in E1.
    destruct (all_ints l1) as [[|? ?]|]; discriminate.
Qed.

(** *** The loop and the fuel *)

Lemma same_outcome_refl (r : result (list (option Z))) : same_outcome r r.
Proof. destruct r; simpl; auto using incl_refl. Qed.

Lemma extend_each_same (rec1 rec2 : Z -> result (list (option Z)))
    (cs : list entry) :
  (forall c, In c cs -> same_outcome (rec1 (id c)) (rec2 (id c))) ->
  forall acc1 acc2, incl acc1 acc2 -> incl acc2 acc1 ->
    same_outcome (extend_each rec1 acc1 cs) (extend_each rec2 acc2 cs).
Proof.
  induction cs as [|c rest IH]; intros Hrec acc1 acc2 H12 H21; simpl.
  - auto.
  - pose proof (Hrec c (or_introl eq_refl)) as Hc.
    destruct (rec1 (id c)) as [l1| |], (rec2 (id c)) as [l2| |];
      simpl in Hc |- *; try contradiction; auto.
    destruct Hc as [Ha Hb].
    apply IH.
    + intros c' Hin. apply Hrec. now right.
    + now apply incl_app_app.
    + now apply incl_app_app.
Qed.

Lemma child_serials_spec_collect (fuel : nat) (st : store) :
  forall ca_id, same_outcome (child_serials fuel st ca_id) (spec_collect fuel st ca_id).
Proof.
  induction fuel as [|f IH]; intros ca_id; simpl.
  - exact I.
  - pose proof (extend_each_same (child_serials f st) (spec_collect f st)
                  (children st ca_id) (fun c _ => IH (id c)) [] []
                  (incl_refl _) (incl_refl _)) as H.
    destruct (extend_each (child_serials f st) [] (children st ca_id)) as [l1| |],
             (extend_each (spec_collect f st) [] (children st ca_id)) as [l2| |];
      simpl in H |- *; try contradiction; auto.
    destruct H as [H12 H21].
    destruct (_get_instance st ca_id) as [inst| |]; simpl; auto.
    split; intros x Hx; rewrite !in_app_iff in *; simpl in *;
      destruct Hx as [Hx|Hx]; auto.
    + destruct Hx as [Hx|Hx]; auto.
    + destruct Hx as [Hx|Hx]; auto.
Qed.

(** More fuel does not change an answer. *)
Lemma extend_each_mono (rec1 rec2 : Z -> result (list (option Z)))
    (cs : list entry) :
  (forall c l, rec1 c = Ok l -> rec2 c = Ok l) ->
  forall acc l, extend_each rec1 acc cs = Ok l -> extend_each rec2 acc cs = Ok l.
Proof.
  intros Hrec. induction cs as [|c rest IH]; intros acc l; simpl; auto.
  intros H. apply bind_ok in H. destruct H as [sub [Hs Hk]].
  rewrite (Hrec _ _ Hs). simpl. now apply IH.
Qed.

Lemma child_serials_S (fuel : nat) (st : store) :
  forall ca_id l, child_serials fuel st ca_id = Ok l ->
                  child_serials (S fuel) st ca_id = Ok l.
Proof.
  induction fuel as [|f IH]; intros ca_id l H.
  - discriminate.
  - simpl in H. apply bind_ok in H. destruct H as [serials [Hs Hk]].
    change (child_serials (S (S f)) st ca_id) with
      (serials <- extend_each (child_serials (S f) st) [] (children st ca_id) ;;
       inst <- _get_instance st ca_id ;;
       Ok ((serials ++ cert_serials st ca_id) ++ [serial inst])).
    rewrite (extend_each_mono _ _ _ (IH) _ _ Hs). exact Hk.
Qed.

Lemma child_serials_mono (st : store) (ca_id : Z) (l : list (option Z)) :
  forall f f', (f <= f')%nat -> child_serials f st ca_id = Ok l ->
               child_serials f' st ca_id = Ok l.
Proof.
  intros f f' Hle. induction Hle; auto. intros H. apply child_serials_S. auto.
Qed.

Lemma get_serial_S (fuel : nat) (st : store) :
  forall ca_id v, get_serial_for_certificate fuel st ca_id = Ok v ->
                  get_serial_for_certificate (S fuel) st ca_id = Ok v.
Proof.
  induction fuel as [|f IH]; intros ca_id v H.
  - discriminate.
  - simpl in H. apply bind_ok in H. destruct H as [ca_data [Hca Hk]].
    change (get_serial_for_certificate (S (S f)) st ca_id) with
      (ca_data <- _get_instance st ca_id ;;
       match signedby ca_data with
       | Some parent => get_serial_for_certificate (S f) st parent
       | None =>
           sub <- child_serials (S f) st ca_id ;;
           match cert_serials st ca_id ++ sub with
           | [] => inst <- _get_instance st ca_id ;;
                   s <- py_int (serial inst) ;; Ok (s + 1)
           | _ => max_plus_one (cert_serials st ca_id ++ sub)
           end
       end).
    rewrite Hca. cbn [bind]. destruct (signedby ca_data) as [p|].
    + now apply IH.
    + apply bind_ok in Hk. destruct Hk as [sub [Hs Hk]].
      rewrite (child_serials_S _ _ _ _ Hs). rewrite Hca in Hk. exact Hk.
Qed.

Lemma get_serial_mono (st : store) (ca_id v : Z) :
  forall f f', (f <= f')%nat -> get_serial_for_certificate f st ca_id = Ok v ->
               get_serial_for_certificate f' st ca_id = Ok v.
Proof.
  intros f f' Hle. induction Hle; auto. intros H. apply get_serial_S. auto.
Qed.

(** *** What [child_serials] always returns *)

Lemma get_instance_in (st : store) (c : Z) (e : entry) :
  _get_instance st c = Ok e -> In e (cas st) /\ id e = c.
Proof.
  unfold _get_instance. destruct (find _ (cas st)) as [e'|] eqn:F; intros H.
  - inversion H; subst. apply find_some in F. destruct F as [Hin Heq].
    split; [exact Hin | now apply Z.eqb_eq].
  - discriminate.
Qed.

Lemma find_instance (st : store) (e : entry) :
  In e (cas st) -> exists e', _get_instance st (id e) = Ok e'.
Proof.
  intros Hin. unfold _get_instance.
  destruct (find (fun e0 => id e0 =? id e) (cas st)) as [e'|] eqn:F.
  - eauto.
  - exfalso. pose proof (find_none _ _ F e Hin) as H. simpl in H.
    rewrite Z.eqb_refl in H. discriminate.
Qed.

Lemma children_in (st : store) (c : Z) (ch : entry) :
  In ch (children st c) -> In ch (cas st) /\ signedby ch = Some c.
Proof.
  unfold children. rewrite filter_In. unfold signed_by.
  intros [Hin H]. split; [exact Hin|].
  destruct (signedby ch) as [p|]; [|discriminate].
  apply Z.eqb_eq in H. now subst.
Qed.

Lemma child_serials_holds (fuel : nat) (st : store) (c : Z) (l : list (option Z)) :
  child_serials fuel st c = Ok l ->
  incl (cert_serials st c) l /\
  exists inst, _get_instance st c = Ok inst /\ In (serial inst) l.
Proof.
  destruct fuel as [|f]; [discriminate|]. simpl. intros H.
  apply bind_ok in H. destruct H as [serials [_ H]].
  apply bind_ok in H. destruct H as [inst [Hi H]].
  inversion H; subst. split.
  - intros x Hx. rewrite !in_app_iff. auto.
  - exists inst. split; [exact Hi|]. rewrite in_app_iff. right. now left.
Qed.

(** At a root the second [return] is the one taken. *)
Lemma get_serial_at_root (f : nat) (st : store) (c : Z) (inst : entry) :
  _get_instance st c = Ok inst -> signedby inst = None ->
  get_serial_for_certificate (S f) st c =
  (l <- collected_at_root f st c ;; max_plus_one l).
Proof.
  intros Hi Hs. simpl. rewrite Hi. cbn [bind]. rewrite Hs.
  unfold collected_at_root.
  destruct (child_serials f st c) as [sub| |] eqn:E; cbn [bind]; auto.
  destruct (cert_serials st c ++ sub) as [|x t] eqn:L; auto.
  exfalso. apply child_serials_holds in E. destruct E as [_ [i [_ Hin]]].
  apply app_eq_nil in L. destruct L as [_ ->]. destruct Hin.
Qed.

Lemma collected_at_root_holds (f : nat) (st : store) (c : Z) (l : list (option Z)) :
  collected_at_root f st c = Ok l ->
  l <> [] /\ exists inst, _get_instance st c = Ok inst /\ In (serial inst) l.
Proof.
  unfold collected_at_root. intros H. apply bind_ok in H.
  destruct H as [sub [E H]]. inversion H; subst.
  apply child_serials_holds in E. destruct E as [_ [inst [Hi Hin]]].
  split.
  - intros L. apply app_eq_nil in L. destruct L as [_ ->]. destruct Hin.
  - exists inst. split; [exact Hi|]. rewrite in_app_iff. now right.
Qed.

Lemma get_serial_refines (fuel : nat) (st : store) :
  forall ca_id, get_serial_for_certificate fuel st ca_id = spec_allocate fuel st ca_id.
Proof.
  induction fuel as [|f IH]; intros ca_id; [reflexivity|].
  destruct (_get_instance st ca_id) as [inst| |] eqn:Hi;
    try (simpl; rewrite Hi; reflexivity).
  destruct (signedby inst) as [p|] eqn:Hs.
  - simpl. rewrite Hi. cbn [bind]. rewrite Hs. apply IH.
  - rewrite (get_serial_at_root _ _ _ _ Hi Hs). simpl. rewrite Hi. cbn [bind].
    rewrite Hs. unfold collected_at_root.
    pose proof (child_serials_spec_collect f st ca_id) as H.
    destruct (child_serials f st ca_id) as [l1| |] eqn:E1,
             (spec_collect f st ca_id) as [l2| |] eqn:E2;
      simpl in H |- *; try contradiction; try congruence.
    destruct H as [H12 H21].
    apply child_serials_holds in E1. destruct E1 as [Hc [i [_ Hin]]].
    destruct l2 as [|x t] eqn:L2.
    + destruct (H12 _ Hin).
    + rewrite <- L2 in *. apply max_plus_one_ext.
      * apply incl_app; [eapply incl_tran; eauto | exact H12].
      * intros y Hy. rewrite in_app_iff. right. now apply H21.
Qed.

(** The value returned exceeds the serial of the root of the chain. *)
Lemma get_serial_above_root (fuel : nat) (st : store) :
  forall ca_id v, get_serial_for_certificate fuel st ca_id = Ok v ->
  exists root inst s,
    root_of st ca_id root /\ _get_instance st root = Ok inst /\
    signedby inst = None /\ serial inst = Some s /\ s < v.
Proof.
  induction fuel as [|f IH]; intros ca_id v H; [discriminate|].
  destruct (_get_instance st ca_id) as [inst| |] eqn:Hi;
    try (simpl in H; rewrite Hi in H; discriminate).
  destruct (signedby inst) as [p|] eqn:Hs.
  - simpl in H. rewrite Hi in H. cbn [bind] in H. rewrite Hs in H.
    destruct (IH _ _ H) as [r [ri [s [Hr Hrest]]]].
    exists r, ri, s. split; [eapply root_up; eauto | exact Hrest].
  - rewrite (get_serial_at_root _ _ _ _ Hi Hs) in H.
    apply bind_ok in H. destruct H as [l [Hl Hm]].
    apply collected_at_root_holds in Hl. destruct Hl as [_ [i [Hi' Hin]]].
    rewrite Hi in Hi'. inversion Hi'; subst i.
    apply max_plus_one_ok in Hm. destruct Hm as [Hn [_ Hub]].
    destruct (serial inst) as [s|] eqn:Hser; [|contradiction].
    exists ca_id, inst, s. repeat split; auto.
    + eapply root_here; eauto.
    + specialize (Hub s Hin). lia.
Qed.

(** *** The walk ends on well-formed states *)

Section Totality.

Variable st : store.
Variable rank : Z -> nat.
Variable N : nat.
Hypothesis wf : well_formed st rank N.

Lemma cert_serials_set (c : Z) : ~ In None (cert_serials st c).
Proof.
  unfold cert_serials. intros H. apply in_map_iff in H.
  destruct H as [e [He Hin]]. apply filter_In in Hin. destruct Hin as [Hin _].
  exact (wf_cert_serial _ _ _ wf e Hin He).
Qed.

Lemma extend_each_total (rec : Z -> result (list (option Z))) (cs : list entry) :
  (forall c, In c cs -> exists l, rec (id c) = Ok l /\ ~ In None l) ->
  forall acc, ~ In None acc ->
    exists l, extend_each rec acc cs = Ok l /\ ~ In None l.
Proof.
  induction cs as [|c rest IH]; intros Hrec acc Hacc; simpl.
  - eauto.
  - destruct (Hrec c (or_introl eq_refl)) as [sub [Hsub Hn]].
    rewrite Hsub. cbn [bind]. apply IH.
    + intros c' Hc'. apply Hrec. now right.
    + rewrite in_app_iff. tauto.
Qed.

Lemma child_serials_total :
  forall fuel c, (N - rank c < fuel)%nat ->
    (exists e, _get_instance st c = Ok e) ->
    exists l, child_serials fuel st c = Ok l /\ ~ In None l.
Proof.
  induction fuel as [|f IH]; intros c Hf [e He]; [lia|].
  simpl.
  destruct (extend_each_total (child_serials f st) (children st c)) with (acc := @nil (option Z))
    as [serials [Hs Hn]].
  - intros ch Hch. apply children_in in Hch. destruct Hch as [Hin Hsb].
    pose proof (wf_rank _ _ _ wf _ _ Hin Hsb) as Hr.
    pose proof (wf_bound _ _ _ wf _ Hin) as Hb.
    apply IH; [lia | now apply find_instance].
  - intros [].
  - rewrite Hs, He. cbn [bind]. eexists. split; [reflexivity|].
    rewrite !in_app_iff. simpl. intros [[H|H]|[H|[]]].
    + contradiction.
    + now apply cert_serials_set in H.
    + apply get_instance_in in He. destruct He as [Hin _].
      exact (wf_ca_serial _ _ _ wf e Hin H).
Qed.

Lemma get_serial_total :
  forall fuel c, (N + rank c + 2 <= fuel)%nat ->
    (exists e, _get_instance st c = Ok e) ->
    exists v, get_serial_for_certificate fuel st c = Ok v.
Proof.
  induction fuel as [|f IH]; intros c Hf [e He]; [lia|].
  destruct (signedby e) as [p|] eqn:Hs.
  - simpl. rewrite He. cbn [bind]. rewrite Hs.
    pose proof (get_instance_in _ _ _ He) as [Hin Hid].
    pose proof (wf_rank _ _ _ wf _ _ Hin Hs) as Hr. rewrite Hid in Hr.
    apply IH; [lia | now apply (wf_parent _ _ _ wf e)].
  - rewrite (get_serial_at_root _ _ _ _ He Hs). unfold collected_at_root.
    destruct (child_serials_total f c) as [l [Hl Hn]]; [lia | eauto |].
    rewrite Hl. cbn [bind]. unfold max_plus_one.
    destruct (all_ints (cert_serials st c ++ l)) as [[|x t]|] eqn:A.
    + apply all_ints_some in A. simpl in A. apply app_eq_nil in A.
      destruct A as [_ ->]. apply child_serials_holds in Hl.
      destruct Hl as [_ [i [_ []]]].
    + eauto.
    + apply all_ints_none in A. rewrite in_app_iff in A. destruct A as [A|A].
      * now apply cert_serials_set in A.
      * contradiction.
Qed.

End Totality.

(** *** Examples *)

(** A root CA (id 1) with serial 3 that signed two certificates, serials 5
    and 7. *)
Definition two_certs (root_serial : Z) : store :=
  {| cas := [ {| id := 1; signedby := None; serial := Some root_serial |} ];
     certs := [ {| id := 10; signedby := Some 1; serial := Some 5 |};
                {| id := 11; signedby := Some 1; serial := Some 7 |} ] |}.

(** The same root with an intermediate CA (id 2, serial 6) below it, which
    signed a certificate with serial 9. *)
Definition with_intermediate : store :=
  {| cas := [ {| id := 1; signedby := None; serial := Some 3 |};
              {| id := 2; signedby := Some 1; serial := Some 6 |} ];
     certs := [ {| id := 10; signedby := Some 1; serial := Some 5 |};
                {| id := 11; signedby := Some 1; serial := Some 7 |};
                {| id := 12; signedby := Some 2; serial := Some 9 |} ] |}.

Definition two_certs_rank (c : Z) : nat := 0.
Definition with_intermediate_rank (c : Z) : nat := if c =? 1 then 0 else 1.

Example two_certs_small_root :
  get_serial_for_certificate 2 (two_certs 3) 1 = Ok 8.
Proof. reflexivity. Qed.

Example two_certs_large_root :
  get_serial_for_certificate 2 (two_certs 100) 1 = Ok 101.
Proof. reflexivity. Qed.

Example with_intermediate_from_leaf_ca :
  get_serial_for_certificate 4 with_intermediate 2 = Ok 10.
Proof. reflexivity. Qed.

Lemma two_certs_wf (s : Z) : well_formed (two_certs s) two_certs_rank 1.
Proof.
  split; simpl.
  - intros e p [<-|[]]. discriminate.
  - intros e [<-|[]]. unfold two_certs_rank. lia.
  - intros e p [<-|[]]. discriminate.
  - intros e [<-|[]]. discriminate.
  - intros c [<-|[<-|[]]]; discriminate.
Qed.

Lemma with_intermediate_wf : well_formed with_intermediate with_intermediate_rank 2.
Proof.
  split; simpl.
  - intros e p [<-|[<-|[]]]; simpl; intros H; inversion H; subst.
    unfold with_intermediate_rank. simpl. lia.
  - intros e [<-|[<-|[]]]; unfold with_intermediate_rank; simpl; lia.
  - intros e p [<-|[<-|[]]]; simpl; intros H; inversion H; subst.
    eexists. reflexivity.
  - intros e [<-|[<-|[]]]; discriminate.
  - intros c [<-|[<-|[<-|[]]]]; discriminate.
Qed.

(** *** Claims about the allocator *)

(** C1, the scenario as the claim states it, fails: with a root CA whose own
    serial is 100 and two signed certificates with serials 5 and 7, the
    allocation for a new intermediate CA under that root is 101, not 8. *)
Lemma scenario_5_7_counterexample :
  cert_serials (two_certs 100) 1 = [Some 5; Some 7] /\
  children (two_certs 100) 1 = [] /\
  get_serial_for_certificate 2 (two_certs 100) 1 = Ok 101 /\
  get_serial_for_certificate 2 (two_certs 100) 1 <> Ok 8.
Proof. repeat split; try reflexivity. discriminate. Qed.

(** C1 (amended). For every stored state, [get_serial_for_certificate]
    computes what the specification's words compute: it ascends to the root,
    collects the serials of the certificates the root signed, recursively
    those under every CA it signed, and the root's own serial, and returns
    the maximum plus one (the collected list is never empty, so the
    [root.serial + 1] return is never the one taken). On a well-formed
    state it returns a value, the same for every sufficient fuel. For a root
    without signed CAs whose signed certificates carry serials 5 and 7 the
    result is [max 7 s + 1] where [s] is the root's own serial: it is 8
    exactly when the root's serial is at most 7. *)
Theorem serial_allocation (st : store) :
  (forall fuel ca_id,
      get_serial_for_certificate fuel st ca_id = spec_allocate fuel st ca_id) /\
  (forall rank N ca_id,
      well_formed st rank N ->
      (exists e, _get_instance st ca_id = Ok e) ->
      exists v, forall fuel, (N + rank ca_id + 2 <= fuel)%nat ->
        get_serial_for_certificate fuel st ca_id = Ok v) /\
  (forall fuel root inst s,
      _get_instance st root = Ok inst -> signedby inst = None ->
      serial inst = Some s ->
      children st root = [] -> cert_serials st root = [Some 5; Some 7] ->
      get_serial_for_certificate (S (S fuel)) st root = Ok (Z.max 7 s + 1) /\
      (get_serial_for_certificate (S (S fuel)) st root = Ok 8 <-> s <= 7)).
Proof.
  split; [|split].
  - intros fuel ca_id. apply get_serial_refines.
  - intros rank N ca_id Hwf He.
    destruct (get_serial_total st rank N Hwf (N + rank ca_id + 2) ca_id
                (Nat.le_refl _) He) as [v Hv].
    exists v. intros fuel Hf. eapply get_serial_mono; eauto.
  - intros fuel root inst s Hi Hs Hser Hch Hcs.
    assert (E : get_serial_for_certificate (S (S fuel)) st root
                = Ok (Z.max 7 s + 1)).
    { rewrite (get_serial_at_root _ _ _ _ Hi Hs). unfold collected_at_root.
      simpl. rewrite Hch. simpl. rewrite Hi. simpl. rewrite Hcs, Hser.
      unfold max_plus_one, list_max. simpl. f_equal. lia. }
    split; [exact E|]. rewrite E. split.
    + intros H. inversion H. lia.
    + intros H. f_equal. lia.
Qed.

Lemma serial_allocation_witness :
  (get_serial_for_certificate 2 (two_certs 3) 1 = Ok (Z.max 7 3 + 1) /\
   (get_serial_for_certificate 2 (two_certs 3) 1 = Ok 8 <-> 3 <= 7)) /\
  exists v, forall fuel, (2 + with_intermediate_rank 2 + 2 <= fuel)%nat ->
    get_serial_for_certificate fuel with_intermediate 2 = Ok v.
Proof.
  split.
  - exact (proj2 (proj2 (serial_allocation (two_certs 3))) 0%nat 1
             {| id := 1; signedby := None; serial := Some 3 |} 3
             eq_refl eq_refl eq_refl eq_refl eq_refl).
  - apply (proj1 (proj2 (serial_allocation with_intermediate))
             with_intermediate_rank 2%nat 2 with_intermediate_wf).
    eexists. reflexivity.
Defined.

(** C10. The list collected at the root always holds the root's own serial
    and is never empty, so at a root the function is [max(collected) + 1]
    whatever the state (the [root.serial + 1] return is never taken); every
    value it returns is strictly greater than the serial of the root of the
    chain; and on a well-formed state it does return a value. *)
Theorem root_serial_always_collected (st : store) :
  (forall fuel root l,
      collected_at_root fuel st root = Ok l ->
      l <> [] /\
      exists inst, _get_instance st root = Ok inst /\ In (serial inst) l) /\
  (forall fuel root inst,
      _get_instance st root = Ok inst -> signedby inst = None ->
      get_serial_for_certificate (S fuel) st root =
      (l <- collected_at_root fuel st root ;; max_plus_one l)) /\
  (forall fuel ca_id v,
      get_serial_for_certificate fuel st ca_id = Ok v ->
      exists root inst s,
        root_of st ca_id root /\ _get_instance st root = Ok inst /\
        signedby inst = None /\ serial inst = Some s /\ s < v) /\
  (forall rank N ca_id,
      well_formed st rank N ->
      (exists e, _get_instance st ca_id = Ok e) ->
      exists v, get_serial_for_certificate (N + rank ca_id + 2) st ca_id = Ok v).
Proof.
  split; [|split; [|split]].
  - intros fuel root l. apply collected_at_root_holds.
  - intros fuel root inst. apply get_serial_at_root.
  - intros fuel ca_id v. apply get_serial_above_root.
  - intros rank N ca_id Hwf He.
    apply (get_serial_total st rank N Hwf); [apply Nat.le_refl | exact He].
Qed.

Lemma root_serial_always_collected_witness :
  (exists root inst s,
      root_of with_intermediate 2 root /\
      _get_instance with_intermediate root = Ok inst /\
      signedby inst = None /\ serial inst = Some s /\ s < 10) /\
  ([Some 5; Some 7; Some 9; Some 6; Some 5; Some 7; Some 3] <> [] /\
   exists inst, _get_instance with_intermediate 1 = Ok inst /\
     In (serial inst) [Some 5; Some 7; Some 9; Some 6; Some 5; Some 7; Some 3]) /\
  exists v, get_serial_for_certificate (2 + with_intermediate_rank 2 + 2)
              with_intermediate 2 = Ok v.
Proof.
  split; [|split].
  - apply (proj1 (proj2 (proj2 (root_serial_always_collected with_intermediate)))
             4%nat 2 10).
    reflexivity.
  - apply (proj1 (root_serial_always_collected with_intermediate) 2%nat 1).
    reflexivity.
  - apply (proj2 (proj2 (proj2 (root_serial_always_collected with_intermediate)))
             with_intermediate_rank 2%nat 2 with_intermediate_wf).
    eexists. reflexivity.
Defined.

(** *** The whole tree under a root *)

(** [under st root c]: the CA [c] is [root], or it was signed, through any
    number of CAs, by [root]. *)
Inductive under (st : store) (root : Z) : Z -> Prop :=
| under_here : under st root root
| under_signed : forall p ch,
    under st root p -> In ch (cas st) -> signedby ch = Some p ->
    under st root (id ch).

Lemma extend_each_covers (rec : Z -> result (list (option Z)))
    (cs : list entry) :
  forall acc l, extend_each rec acc cs = Ok l ->
    incl acc l /\
    forall c, In c cs -> exists sub, rec (id c) = Ok sub /\ incl sub l.
Proof.
  induction cs as [|c0 rest IH]; intros acc l H; simpl in H.
  - inversion H; subst. split; [apply incl_refl | intros c []].
  - apply bind_ok in H. destruct H as [sub [Hs Hk]].
    destruct (IH _ _ Hk) as [Ha Hc]. split.
    + intros x Hx. apply Ha. apply in_or_app. now left.
    + intros c [<-|Hin].
      * exists sub. split; [exact Hs|].
        intros x Hx. apply Ha. apply in_or_app. now right.
      * now apply Hc.
Qed.

Lemma child_serials_children (fuel : nat) (st : store) (c : Z)
    (l : list (option Z)) :
  child_serials fuel st c = Ok l ->
  forall ch, In ch (cas st) -> signedby ch = Some c ->
    exists f' sub, child_serials f' st (id ch) = Ok sub /\ incl sub l.
Proof.
  destruct fuel as [|f]; [discriminate|]. simpl. intros H ch Hin Hs.
  apply bind_ok in H. destruct H as [serials [He H]].
  apply bind_ok in H. destruct H as [inst [Hi H]]. inversion H; subst.
  destruct (extend_each_covers _ _ _ _ He) as [_ Hc].
  destruct (Hc ch) as [sub [Hsub Hincl]].
  { unfold children. apply filter_In. split; [exact Hin|].
    unfold signed_by. rewrite Hs. apply Z.eqb_refl. }
  exists f, sub. split; [exact Hsub|].
  intros x Hx. rewrite !in_app_iff. left. left. now apply Hincl.
Qed.

Lemma child_serials_under (st : store) (root d : Z) :
  under st root d ->
  forall fuel l, child_serials fuel st root = Ok l ->
    exists f' sub, child_serials f' st d = Ok sub /\ incl sub l.
Proof.
  induction 1 as [|p ch Hp IH Hin Hs]; intros fuel l H.
  - exists fuel, l. split; [exact H | apply incl_refl].
  - destruct (IH _ _ H) as [f' [sub [Hsub Hi]]].
    destruct (child_serials_children _ _ _ _ Hsub ch Hin Hs)
      as [f'' [sub' [Hsub' Hi']]].
    exists f'', sub'. split; [exact Hsub'|]. eapply incl_tran; eauto.
Qed.

(** The serial allocated for a CA is new in the whole tree of its root:
    whenever [get_serial_for_certificate] returns [v], every certificate
    signed by the root or by a CA below it, and each of these CAs, has a
    serial, and that serial is smaller than [v]. *)
Theorem allocated_serial_is_fresh (st : store) (fuel : nat) (ca_id v : Z) :
  get_serial_for_certificate fuel st ca_id = Ok v ->
  exists root,
    root_of st ca_id root /\
    forall d, under st root d ->
      (forall cert, In cert (certs st) -> signedby cert = Some d ->
         exists s, serial cert = Some s /\ s < v) /\
      (exists inst s,
         _get_instance st d = Ok inst /\ serial inst = Some s /\ s < v).
Proof.
  revert ca_id. induction fuel as [|f IH]; intros ca_id H; [discriminate|].
  destruct (_get_instance st ca_id) as [inst| |] eqn:Hi;
    try (simpl in H; rewrite Hi in H; discriminate).
  destruct (signedby inst) as [p|] eqn:Hs.
  - simpl in H. rewrite Hi in H. cbn [bind] in H. rewrite Hs in H.
    destruct (IH _ H) as [r [Hr Hrest]].
    exists r. split; [eapply root_up; eauto | exact Hrest].
  - rewrite (get_serial_at_root _ _ _ _ Hi Hs) in H.
    apply bind_ok in H. destruct H as [l [Hl Hm]].
    unfold collected_at_root in Hl. apply bind_ok in Hl.
    destruct Hl as [sub [Hsub Hl]]. inversion Hl; subst l. clear Hl.
    apply max_plus_one_ok in Hm. destruct Hm as [Hn [_ Hub]].
    assert (Hall : forall x, In x sub ->
              exists s, x = Some s /\ s < v).
    { intros [s|] Hx.
      - exists s. split; [reflexivity|].
        assert (s <= v - 1) by (apply Hub; apply in_or_app; now right). lia.
      - exfalso. apply Hn. apply in_or_app. now right. }
    exists ca_id. split; [eapply root_here; eauto|].
    intros d Hd.
    destruct (child_serials_under _ _ _ Hd _ _ Hsub) as [f' [sub' [Hs' Hi']]].
    apply child_serials_holds in Hs'. destruct Hs' as [Hc [i [Hgi Hin]]].
    split.
    + intros cert Hcert Hsigned. apply Hall. apply Hi'. apply Hc.
      unfold cert_serials. apply in_map. apply filter_In.
      split; [exact Hcert|]. unfold signed_by. rewrite Hsigned.
      apply Z.eqb_refl.
    + destruct (Hall _ (Hi' _ Hin)) as [s [Es Hlt]].
      exists i, s. auto.
Qed.

Lemma allocated_serial_is_fresh_witness :
  exists root,
    root_of with_intermediate 2 root /\
    forall d, under with_intermediate root d ->
      (forall cert, In cert (certs with_intermediate) ->
         signedby cert = Some d ->
         exists s, serial cert = Some s /\ s < 10) /\
      (exists inst s,
         _get_instance with_intermediate d = Ok inst /\
         serial inst = Some s /\ s < 10).
Proof.
  apply (allocated_serial_is_fresh with_intermediate 4 2 10). reflexivity.
Defined.

(** A store in which one signed certificate has no serial. *)
Definition with_unnumbered : store :=
  {| cas := [ {| id := 1; signedby := None; serial := Some 3 |};
              {| id := 2; signedby := Some 1; serial := Some 6 |} ];
     certs := [ {| id := 10; signedby := Some 1; serial := Some 5 |};
                {| id := 12; signedby := Some 2; serial := None |} ] |}.

(** One missing serial anywhere in the tree makes the allocation fail.
    If the serials under a root can be collected and some certificate
    signed by the root or by a CA below it, or one of these CAs, has no
    serial, then [get_serial_for_certificate] raises [TypeError] at the
    root ([max] cannot compare [None] with an integer). *)
Theorem missing_serial_is_a_type_error (st : store) (f : nat) (root d : Z)
    (inst : entry) (sub : list (option Z)) :
  _get_instance st root = Ok inst -> signedby inst = None ->
  child_serials f st root = Ok sub ->
  under st root d ->
  (exists cert, In cert (certs st) /\ signedby cert = Some d /\
                serial cert = None) \/
  (exists i, _get_instance st d = Ok i /\ serial i = None) ->
  get_serial_for_certificate (S f) st root = Raise TypeError.
Proof.
  intros Hi Hs Hsub Hd Hnone.
  rewrite (get_serial_at_root _ _ _ _ Hi Hs). unfold collected_at_root.
  rewrite Hsub. cbn [bind].
  destruct (child_serials_under _ _ _ Hd _ _ Hsub) as [f' [sub' [Hs' Hi']]].
  apply child_serials_holds in Hs'. destruct Hs' as [Hc [i0 [Hgi Hin]]].
  assert (N : In None (cert_serials st root ++ sub)).
  { apply in_or_app. right. apply Hi'.
    destruct Hnone as [[cert [Hcert [Hsigned Hser]]]|[i [Hgi' Hser]]].
    - apply Hc. rewrite <- Hser. unfold cert_serials. apply in_map.
      apply filter_In. split; [exact Hcert|]. unfold signed_by.
      rewrite Hsigned. apply Z.eqb_refl.
    - rewrite Hgi in Hgi'. inversion Hgi'; subst i. now rewrite <- Hser. }
  unfold max_plus_one. apply all_ints_none in N. now rewrite N.
Qed.

Lemma missing_serial_is_a_type_error_witness :
  get_serial_for_certificate 3 with_unnumbered 1 = Raise TypeError.
Proof.
  apply (missing_serial_is_a_type_error with_unnumbered 2 1 2
           {| id := 1; signedby := None; serial := Some 3 |}
           [None; Some 6; Some 5; Some 3]).
  - reflexivity.
  - reflexivity.
  - reflexivity.
  - apply (under_signed with_unnumbered 1 1
             {| id := 2; signedby := Some 1; serial := Some 6 |}).
    + apply under_here.
    + right. left. reflexivity.
    + reflexivity.
  - left. exists {| id := 12; signedby := Some 2; serial := None |}.
    split; [right; left; reflexivity | split; reflexivity].
Defined.

End Serial.

(** ** Name validation ([validate_cert_name]) *)

Module Names.

Open Scope N_scope.

Definition is_lower (c : N) : bool := (97 <=? c) && (c <=? 122).
Definition is_upper (c : N) : bool := (65 <=? c) && (c <=? 90).
Definition is_digit (c : N) : bool := (48 <=? c) && (c <=? 57).

(** The class as the pattern writes it, [[a-z0-9_\-]]. *)
Definition in_pattern_class (c : N) : bool :=
  is_lower c || is_digit c || (c =? 95) || (c =? 45).

(** The class of the claim, [[A-Za-z0-9_-]]. *)
Definition in_name_class (c : N) : bool :=
  is_upper c || in_pattern_class c.

(** The four letters outside ASCII that [re.I] makes [[a-z]] match on a
    [str] pattern: U+0130, U+0131 (both fold onto i), U+017F (onto s) and
    U+212A (onto k). *)
Definition casefold_extra (c : N) : bool :=
  (c =? 304) || (c =? 305) || (c =? 383) || (c =? 8490).

(** A character matched by [[a-z0-9_\-]] under [re.I]. *)
Definition class_ignorecase (c : N) : bool :=
  in_name_class c || casefold_extra c.

Definition LF : N := 10.

(** Without [re.M], [$] matches at the end of the string and just before a
    line feed that ends the string. *)
Definition strip_final_newline (s : pystr) : pystr :=
  match rev s with
  | c :: r => if c =? LF then rev r else s
  | [] => s
  end.

(** [re.search(r'^[a-z0-9_\-]+$', s, re.I)] finds a match. *)
Definition name_re_search (s : pystr) : bool :=
  match strip_final_newline s with
  | [] => false
  | body => forallb class_ignorecase body
  end.

Close Scope N_scope.

Definition reserved : list pystr :=
  [str "external"; str "self-signed"; str "external - signature pending"].

Definition is_reserved (cert_name : pystr) : bool :=
  existsb (pystr_eqb cert_name) reserved.

Definition quote : pystr := [34%N].

Definition msg_exists : pystr := str "A certificate with this name already exists".
Definition msg_reserved (cert_name : pystr) : pystr :=
  cert_name ++ str " is a reserved internal keyword for Certificate Management".
Definition msg_charset : pystr :=
  str "Use alphanumeric characters, " ++ quote ++ str "_" ++ quote
    ++ str " and " ++ quote ++ str "-" ++ quote ++ str ".".

(** [verrors.add(attribute, message)]. *)
Definition add (verrors : list verror) (attribute : string) (message : pystr)
    : list verror :=
  verrors ++ [(attribute, message)].

(** [validate_cert_name(middleware, cert_name, datastore, verrors, name)];
    [stored] lists the [cert_name] column of the table the query reads. *)
Definition validate_cert_name (stored : list pystr) (cert_name : pystr)
    (verrors : list verror) (name : string) : list verror :=
  let certs := filter (pystr_eqb cert_name) stored in
  let verrors :=
    match certs with
    | [] => verrors
    | _ => add verrors name msg_exists
    end in
  let verrors :=
    if is_reserved cert_name
    then add verrors name (msg_reserved cert_name)
    else verrors in
  if name_re_search cert_name
  then verrors
  else add verrors name msg_charset.

Example external_rejected :
  validate_cert_name [] (str "external") [] "certificate_create.name"
  = [("certificate_create.name"%string, msg_reserved (str "external"))].
Proof. reflexivity. Qed.

Example pending_rejected_twice :
  validate_cert_name [] (str "external - signature pending") [] "n"
  = [("n"%string, msg_reserved (str "external - signature pending"));
     ("n"%string, msg_charset)].
Proof. reflexivity. Qed.

Example space_rejected :
  validate_cert_name [] (str "my cert") [] "n" = [("n"%string, msg_charset)].
Proof. reflexivity. Qed.

Example plain_accepted :
  validate_cert_name [str "other"] (str "My_cert-01") [] "n" = [].
Proof. reflexivity. Qed.

Example duplicate_rejected :
  validate_cert_name [str "web"] (str "web") [] "n" = [("n"%string, msg_exists)].
Proof. reflexivity. Qed.

(** *** Facts about the pattern *)

Lemma strip_final_newline_cases (s : pystr) :
  (s = [] /\ strip_final_newline s = []) \/
  (exists body, s = body ++ [LF] /\ strip_final_newline s = body) \/
  (exists body c, s = body ++ [c] /\ c <> LF /\ strip_final_newline s = s).
Proof.
  unfold strip_final_newline.
  destruct (rev s) as [|c r] eqn:E.
  - left. apply (f_equal (@rev N)) in E. rewrite rev_involutive in E. auto.
  - right. apply (f_equal (@rev N)) in E. rewrite rev_involutive in E.
    simpl in E. destruct (N.eqb_spec c LF) as [->|Hc].
    + left. eauto.
    + right. eauto.
Qed.

Lemma name_re_search_chars (s : pystr) :
  name_re_search s = true ->
  forall pre c post, s = pre ++ c :: post -> class_ignorecase c = false ->
    c = LF /\ post = [].
Proof.
  unfold name_re_search. intros H pre c post Hs Hc.
  destruct (strip_final_newline_cases s)
    as [[_ E]|[[body [Hb E]]|[body [c' [Hb [Hn E]]]]]]; rewrite E in H.
  - discriminate.
  - assert (Hall : forallb class_ignorecase body = true)
      by (destruct body; [discriminate | exact H]).
    rewrite forallb_forall in Hall.
    destruct post as [|x post'] using rev_ind.
    + rewrite Hb in Hs. apply app_inj_tail in Hs. destruct Hs as [_ <-]. auto.
    + exfalso. clear IHpost'. rewrite Hb in Hs.
      change (pre ++ c :: post' ++ [x]) with (pre ++ (c :: post') ++ [x]) in Hs.
      rewrite app_assoc in Hs. apply app_inj_tail in Hs. destruct Hs as [-> _].
      rewrite Hall in Hc; [discriminate|].
      rewrite in_app_iff. right. now left.
  - assert (Hall : forallb class_ignorecase s = true)
      by (destruct s; [discriminate | exact H]).
    rewrite forallb_forall in Hall. rewrite Hall in Hc; [discriminate|].
    rewrite Hs, in_app_iff. right. now left.
Qed.

Lemma is_reserved_in (cert_name : pystr) :
  is_reserved cert_name = true <-> In cert_name reserved.
Proof.
  unfold is_reserved. rewrite existsb_exists. split.
  - intros [x [Hin Heq]]. apply pystr_eqb_eq in Heq. now subst.
  - intros H. exists cert_name. split; [exact H | apply pystr_eqb_refl].
Qed.

Lemma stored_filter_nil (stored : list pystr) (cert_name : pystr) :
  filter (pystr_eqb cert_name) stored = [] <-> ~ In cert_name stored.
Proof.
  split.
  - intros H Hin.
    assert (Hf : In cert_name (filter (pystr_eqb cert_name) stored))
      by (apply filter_In; split; [exact Hin | apply pystr_eqb_refl]).
    rewrite H in Hf. destruct Hf.
  - intros H. destruct (filter (pystr_eqb cert_name) stored) as [|x t] eqn:E; auto.
    exfalso. apply H.
    assert (Hx : In x (filter (pystr_eqb cert_name) stored))
      by (rewrite E; now left).
    apply filter_In in Hx. destruct Hx as [Hin Heq].
    apply pystr_eqb_eq in Heq. now subst.
Qed.

Lemma add_grows (verrors : list verror) (a : string) (m : pystr) :
  List.length (add verrors a m) = S (List.length verrors).
Proof. unfold add. rewrite length_app. simpl. lia. Qed.

Lemma validate_length (stored : list pystr) (cert_name : pystr)
    (verrors : list verror) (name : string) :
  List.length (validate_cert_name stored cert_name verrors name) =
  (List.length verrors
   + (match filter (pystr_eqb cert_name) stored with [] => 0 | _ => 1 end)
   + (if is_reserved cert_name then 1 else 0)
   + (if name_re_search cert_name then 0 else 1))%nat.
Proof.
  unfold validate_cert_name.
  destruct (filter (pystr_eqb cert_name) stored);
    destruct (is_reserved cert_name);
    destruct (name_re_search cert_name);
    rewrite ?add_grows; lia.
Qed.

(** *** Claims about the validator *)

(** C4, as stated, fails: the reserved words are compared by exact
    spelling, so in another letter case they pass whenever the pattern
    accepts them. *)
Lemma reserved_other_case_counterexample :
  validate_cert_name [] (str "External") [] "certificate_create.name" = [] /\
  validate_cert_name [] (str "SELF-SIGNED") [] "certificate_create.name" = [].
Proof. split; reflexivity. Qed.

(** C4 (amended). [validate_cert_name] reports the character-set error for
    the empty name and for every name holding a character outside
    [[A-Za-z0-9_-]], a line feed that ends the name and the four letters
    that [re.I] folds onto ASCII letters left aside; it reports the
    reserved-keyword error for [external], [self-signed] and
    [external - signature pending] in exactly that spelling; and it leaves
    [verrors] as it was exactly when the name is not stored yet, is not
    one of the three words as spelled, and matches the pattern. *)
Theorem name_validation (stored : list pystr) (cert_name : pystr)
    (verrors : list verror) (name : string) :
  (forall pre c post,
      cert_name = pre ++ c :: post ->
      in_name_class c = false -> casefold_extra c = false ->
      c <> LF \/ post <> [] ->
      In (name, msg_charset) (validate_cert_name stored cert_name verrors name)) /\
  (cert_name = [] ->
      In (name, msg_charset) (validate_cert_name stored cert_name verrors name)) /\
  (In cert_name reserved ->
      In (name, msg_reserved cert_name)
         (validate_cert_name stored cert_name verrors name)) /\
  (validate_cert_name stored cert_name verrors name = verrors <->
      ~ In cert_name stored /\ ~ In cert_name reserved /\
      name_re_search cert_name = true).
Proof.
  assert (Hre : name_re_search cert_name = false ->
    In (name, msg_charset) (validate_cert_name stored cert_name verrors name)).
  { intros H. unfold validate_cert_name. rewrite H. unfold add.
    rewrite in_app_iff. right. now left. }
  split; [|split; [|split]].
  - intros pre c post Hs Hc Hx Hlast. apply Hre.
    destruct (name_re_search cert_name) eqn:E; auto. exfalso.
    assert (Hci : class_ignorecase c = false)
      by (unfold class_ignorecase; rewrite Hc, Hx; reflexivity).
    destruct (name_re_search_chars _ E _ _ _ Hs Hci) as [H1 H2].
    destruct Hlast; contradiction.
  - intros ->. apply Hre. reflexivity.
  - intros Hr. apply is_reserved_in in Hr. unfold validate_cert_name.
    rewrite Hr. destruct (name_re_search cert_name); unfold add;
      rewrite !in_app_iff; simpl; auto.
  - split.
    + intros H. apply (f_equal (@List.length verror)) in H.
      rewrite validate_length in H.
      destruct (filter (pystr_eqb cert_name) stored) as [|x t] eqn:F;
        destruct (is_reserved cert_name) eqn:R;
        destruct (name_re_search cert_name) eqn:S; simpl in H; try lia.
      repeat split.
      * now apply stored_filter_nil.
      * intros Hr. apply is_reserved_in in Hr. congruence.
    + intros [Hs [Hr Hm]]. apply stored_filter_nil in Hs.
      unfold validate_cert_name. rewrite Hs, Hm.
      destruct (is_reserved cert_name) eqn:R; auto.
      apply is_reserved_in in R. contradiction.
Qed.

Lemma name_validation_witness :
  In ("n"%string, msg_charset) (validate_cert_name [] (str "my cert") [] "n") /\
  In ("n"%string, msg_reserved (str "self-signed"))
     (validate_cert_name [] (str "self-signed") [] "n") /\
  (validate_cert_name [str "web"] (str "mail-01") [] "n" = [] <->
     ~ In (str "mail-01") [str "web"] /\ ~ In (str "mail-01") reserved /\
     name_re_search (str "mail-01") = true).
Proof.
  split; [|split].
  - apply (proj1 (name_validation [] (str "my cert") [] "n")
             (str "my") 32%N (str "cert")); try reflexivity.
    left. discriminate.
  - apply (proj1 (proj2 (proj2 (name_validation [] (str "self-signed") [] "n")))).
    right. left. reflexivity.
  - exact (proj2 (proj2 (proj2 (name_validation [str "web"] (str "mail-01") [] "n")))).
Defined.

(** *** A line feed at the end *)

Lemma strip_final_newline_app (s : pystr) :
  strip_final_newline (s ++ [LF]) = s.
Proof.
  unfold strip_final_newline. rewrite rev_app_distr. simpl.
  apply rev_involutive.
Qed.

Lemma not_reserved_with_line_feed (s : pystr) : is_reserved (s ++ [LF]) = false.
Proof.
  unfold is_reserved, reserved. cbn [existsb].
  assert (H : forall r, last r 0%N <> LF -> pystr_eqb (s ++ [LF]) r = false).
  { intros r Hr. apply pystr_eqb_neq. intros E. apply Hr. rewrite <- E.
    apply last_last. }
  rewrite !H; [reflexivity | | |]; vm_compute; discriminate.
Qed.

(** The pattern ends in [$] without [re.M], so one line feed at the end
    of a name is not looked at: a name of letters, digits, [_] and [-]
    followed by a line feed is accepted (unless that very text is already
    stored), while two line feeds at the end are refused like any other
    character outside the class. *)
Theorem final_line_feed_is_accepted (stored : list pystr) (cert_name : pystr)
    (verrors : list verror) (name : string) :
  cert_name <> [] ->
  forallb class_ignorecase cert_name = true ->
  ~ In (cert_name ++ [LF]) stored ->
  validate_cert_name stored (cert_name ++ [LF]) verrors name = verrors /\
  In (name, msg_charset)
     (validate_cert_name stored ((cert_name ++ [LF]) ++ [LF]) verrors name).
Proof.
  intros Hne Hcl Hst. split.
  - unfold validate_cert_name.
    replace (filter (pystr_eqb (cert_name ++ [LF])) stored) with (@nil pystr).
    2:{ symmetry. induction stored as [|x rest IH]; [reflexivity|]. simpl.
        destruct (pystr_eqb (cert_name ++ [LF]) x) eqn:E.
        - apply pystr_eqb_eq in E. exfalso. apply Hst. now left.
        - apply IH. intros H. apply Hst. now right. }
    rewrite not_reserved_with_line_feed.
    unfold name_re_search. rewrite strip_final_newline_app.
    destruct cert_name; [contradiction|]. now rewrite Hcl.
  - unfold validate_cert_name, name_re_search.
    rewrite strip_final_newline_app.
    assert (F : forallb class_ignorecase (cert_name ++ [LF]) = false).
    { rewrite forallb_app. simpl. apply andb_false_r. }
    destruct (cert_name ++ [LF]) eqn:E.
    + apply app_eq_nil in E. destruct E as [_ E]. discriminate.
    + rewrite F. unfold add. apply in_or_app. right. now left.
Qed.

Lemma final_line_feed_is_accepted_witness :
  validate_cert_name [str "web"] (str "web" ++ [LF]) [] "n" = [] /\
  In ("n"%string, msg_charset)
     (validate_cert_name [str "web"] ((str "web" ++ [LF]) ++ [LF]) [] "n").
Proof.
  apply (final_line_feed_is_accepted [str "web"] (str "web") [] "n").
  - discriminate.
  - reflexivity.
  - intros [H|[]]. discriminate H.
Defined.

End Names.

(** ** The certificate pattern ([RE_CERTIFICATE])

    [re.compile(r"(-{5}BEGIN[\s\w]+-{5}[^-]+-{5}END[\s\w]+-{5})+", re.M | re.S)]

    The pattern has neither [^], [$] nor [.], so the two flags change
    nothing. The dash is in neither [\s] nor [\w] and each class run is
    followed by a dash in the pattern, so a run can only end where the
    text has its first dash: the greedy match of a run is the only one and
    the matcher never backtracks into it. *)

Module Pem.

(** [str.isalnum] and [str.isspace] outside ASCII, as the interpreter's
    Unicode tables have them. *)
Record unicode_tables : Type := {
  uni_isalnum : N -> bool;
  uni_isspace : N -> bool
}.

(** Tables that classify nothing outside ASCII (used in examples). *)
Definition ascii_only : unicode_tables :=
  {| uni_isalnum := fun _ => false; uni_isspace := fun _ => false |}.

Section Pattern.

Variable ucd : unicode_tables.

Open Scope N_scope.

Definition DASH : N := 45.

Definition ascii_word (c : N) : bool :=
  Names.is_lower c || Names.is_upper c || Names.is_digit c || (c =? 95).

Definition ascii_space (c : N) : bool :=
  ((9 <=? c) && (c <=? 13)) || ((28 <=? c) && (c <=? 32)).

(** [[\s\w]] on a [str] pattern. *)
Definition space_or_word (c : N) : bool :=
  if c <? 128 then ascii_space c || ascii_word c
  else uni_isspace ucd c || uni_isalnum ucd c.

(** [[^-]]. *)
Definition not_dash (c : N) : bool := negb (c =? DASH).

Close Scope N_scope.

Definition five_dashes : pystr := [DASH; DASH; DASH; DASH; DASH].
Definition begin_marker : pystr := five_dashes ++ str "BEGIN".
Definition end_marker : pystr := five_dashes ++ str "END".

Fixpoint strip_prefix (p s : pystr) : option pystr :=
  match p, s with
  | [], _ => Some s
  | a :: p', b :: s' => if N.eqb a b then strip_prefix p' s' else None
  | _ :: _, [] => None
  end.

(** The longest prefix of [s] in the class [f], and what follows it. *)
Fixpoint span (f : N -> bool) (s : pystr) : pystr * pystr :=
  match s with
  | c :: s' =>
      if f c then let (a, b) := span f s' in (c :: a, b) else ([], s)
  | [] => ([], [])
  end.

(** A class run with [+]: at least one character. *)
Definition run (f : N -> bool) (s : pystr) : option (pystr * pystr) :=
  match span f s with
  | ([], _) => None
  | (a, b) => Some (a, b)
  end.

(** One repetition of the group, matched at the head of [s]: the text the
    group captures and the rest of [s]. *)
Definition match_group (s : pystr) : option (pystr * pystr) :=
  match strip_prefix begin_marker s with
  | None => None
  | Some s1 =>
    match run space_or_word s1 with
    | None => None
    | Some (label1, s2) =>
      match strip_prefix five_dashes s2 with
      | None => None
      | Some s3 =>
        match run not_dash s3 with
        | None => None
        | Some (body, s4) =>
          match strip_prefix end_marker s4 with
          | None => None
          | Some s5 =>
            match run space_or_word s5 with
            | None => None
            | Some (label2, s6) =>
              match strip_prefix five_dashes s6 with
              | None => None
              | Some s7 =>
                  Some (begin_marker ++ label1 ++ five_dashes ++ body
                          ++ end_marker ++ label2 ++ five_dashes, s7)
              end
            end
          end
        end
      end
    end
  end.

(** The greedy [(...)+] after a first repetition: further repetitions as
    long as one matches; the group keeps the text of the last one. *)
Fixpoint more_groups (fuel : nat) (last rest : pystr) : pystr * pystr :=
  match fuel with
  | O => (last, rest)
  | S f =>
      match match_group rest with
      | Some (g, rest') => more_groups f g rest'
      | None => (last, rest)
      end
  end.

(** The whole pattern matched at the head of [s]. *)
Definition match_here (s : pystr) : option (pystr * pystr) :=
  match match_group s with
  | Some (g, rest) => Some (more_groups (List.length rest) g rest)
  | None => None
  end.

(** [RE_CERTIFICATE.findall]: the matches are searched from left to right
    without overlap, and with one group in the pattern the list holds what
    the group captured in each match. *)
Fixpoint findall_from (fuel : nat) (s : pystr) : list pystr :=
  match fuel with
  | O => []
  | S f =>
      match s with
      | [] => []
      | _ :: s' =>
          match match_here s with
          | Some (g, rest) => g :: findall_from f rest
          | None => findall_from f s'
          end
      end
  end.

Definition findall (s : pystr) : list pystr := findall_from (List.length s) s.

(** A text the group matches in full. *)
Definition is_block (b : pystr) : Prop :=
  exists label1 body label2,
    label1 <> [] /\ forallb space_or_word label1 = true /\
    body <> [] /\ forallb not_dash body = true /\
    label2 <> [] /\ forallb space_or_word label2 = true /\
    b = begin_marker ++ label1 ++ five_dashes ++ body
          ++ end_marker ++ label2 ++ five_dashes.

End Pattern.

Definition LF : pystr := [10%N].

(** Two blocks as OpenSSL writes them. *)
Definition block_a : pystr :=
  str "-----BEGIN CERTIFICATE-----" ++ LF ++ str "MIIBaaaa" ++ LF
    ++ str "-----END CERTIFICATE-----".
Definition block_b : pystr :=
  str "-----BEGIN CERTIFICATE-----" ++ LF ++ str "MIIBbbbb" ++ LF
    ++ str "-----END CERTIFICATE-----".

Example findall_two_blocks :
  findall ascii_only (block_a ++ LF ++ block_b ++ LF) = [block_a; block_b].
Proof. vm_compute. reflexivity. Qed.

Example findall_one_block :
  findall ascii_only (block_a ++ LF) = [block_a].
Proof. vm_compute. reflexivity. Qed.

Example findall_no_block :
  findall ascii_only (str "MIIBaaaa") = [].
Proof. vm_compute. reflexivity. Qed.

(** Without anything between the blocks the [+] takes both in one match,
    and the group keeps the last. *)
Example findall_glued_blocks :
  findall ascii_only (block_a ++ block_b) = [block_b].
Proof. vm_compute. reflexivity. Qed.

(** *** Facts about the matcher *)

Section PatternFacts.

Variable ucd : unicode_tables.

Lemma strip_prefix_app (p s : pystr) : strip_prefix p (p ++ s) = Some s.
Proof.
  induction p as [|a p IH]; simpl; [reflexivity|].
  now rewrite N.eqb_refl.
Qed.

Lemma strip_prefix_some (p s r : pystr) :
  strip_prefix p s = Some r -> s = p ++ r.
Proof.
  revert s. induction p as [|a p IH]; intros s H; simpl in *.
  - now inversion H.
  - destruct s as [|b s]; [discriminate|].
    destruct (N.eqb_spec a b) as [->|]; [|discriminate].
    simpl. f_equal. now apply IH.
Qed.

Lemma span_eq (f : N -> bool) (s a b : pystr) :
  span f s = (a, b) -> s = a ++ b /\ forallb f a = true.
Proof.
  revert a b. induction s as [|c s IH]; intros a b H; simpl in H.
  - inversion H. auto.
  - destruct (f c) eqn:F.
    + destruct (span f s) as [a' b'] eqn:E. inversion H; subst.
      destruct (IH _ _ eq_refl) as [-> Hall]. simpl. rewrite F. auto.
    + inversion H. auto.
Qed.

(** What stops a run: the end of the text or a character outside the class. *)
Definition stops (f : N -> bool) (rest : pystr) : Prop :=
  match rest with
  | [] => True
  | c :: _ => f c = false
  end.

Lemma span_app (f : N -> bool) (a rest : pystr) :
  forallb f a = true -> stops f rest -> span f (a ++ rest) = (a, rest).
Proof.
  intros Ha Hr. induction a as [|c a IH]; simpl in *.
  - destruct rest as [|c r]; [reflexivity|]. simpl in *. now rewrite Hr.
  - apply andb_prop in Ha. destruct Ha as [Hc Ha]. rewrite Hc, (IH Ha).
    reflexivity.
Qed.

Lemma run_app (f : N -> bool) (a rest : pystr) :
  a <> [] -> forallb f a = true -> stops f rest ->
  run f (a ++ rest) = Some (a, rest).
Proof.
  intros Hn Ha Hr. unfold run. rewrite (span_app _ _ _ Ha Hr).
  destruct a; [contradiction | reflexivity].
Qed.

Lemma run_some (f : N -> bool) (s a b : pystr) :
  run f s = Some (a, b) -> s = a ++ b /\ a <> [] /\ forallb f a = true.
Proof.
  unfold run. destruct (span f s) as [a' b'] eqn:E. intros H.
  destruct a' as [|c a']; [discriminate|]. inversion H; subst.
  destruct (span_eq _ _ _ _ E) as [-> Hall]. repeat split; auto. discriminate.
Qed.

Lemma dash_stops_label (rest : pystr) :
  stops (space_or_word ucd) (five_dashes ++ rest).
Proof. reflexivity. Qed.

Lemma dash_stops_body (rest : pystr) : stops not_dash (end_marker ++ rest).
Proof. reflexivity. Qed.

(** The group matches a block at the head of any text, whatever follows. *)
Lemma match_group_block (b rest : pystr) :
  is_block ucd b -> match_group ucd (b ++ rest) = Some (b, rest).
Proof.
  intros [l1 [body [l2 [H1 [A1 [Hb [Ab [H2 [A2 ->]]]]]]]]].
  unfold match_group.
  rewrite <- !app_assoc. rewrite strip_prefix_app.
  rewrite (run_app _ l1 _ H1 A1 (dash_stops_label _)).
  rewrite strip_prefix_app.
  rewrite (run_app _ body _ Hb Ab (dash_stops_body _)).
  rewrite strip_prefix_app.
  rewrite (run_app _ l2 _ H2 A2 (dash_stops_label _)).
  rewrite strip_prefix_app.
  reflexivity.
Qed.

(** Whatever the group matches is a block, and the text is the block
    followed by the rest. *)
Lemma match_group_some (s g rest : pystr) :
  match_group ucd s = Some (g, rest) -> s = g ++ rest /\ is_block ucd g.
Proof.
  unfold match_group. intros H.
  destruct (strip_prefix begin_marker s) as [s1|] eqn:E1; [|discriminate].
  destruct (run (space_or_word ucd) s1) as [[l1 s2]|] eqn:E2; [|discriminate].
  destruct (strip_prefix five_dashes s2) as [s3|] eqn:E3; [|discriminate].
  destruct (run not_dash s3) as [[body s4]|] eqn:E4; [|discriminate].
  destruct (strip_prefix end_marker s4) as [s5|] eqn:E5; [|discriminate].
  destruct (run (space_or_word ucd) s5) as [[l2 s6]|] eqn:E6; [|discriminate].
  destruct (strip_prefix five_dashes s6) as [s7|] eqn:E7; [|discriminate].
  inversion H; subst. clear H.
  apply strip_prefix_some in E1, E3, E5, E7.
  apply run_some in E2, E4, E6.
  destruct E2 as [E2 [N2 A2]], E4 as [E4 [N4 A4]], E6 as [E6 [N6 A6]].
  subst. split.
  - repeat (simpl; rewrite <- ?app_assoc). reflexivity.
  - exists l1, body, l2. repeat split; auto.
Qed.

Lemma block_not_empty (b : pystr) : is_block ucd b -> exists t, b = DASH :: t.
Proof.
  intros [l1 [body [l2 [_ [_ [_ [_ [_ [_ ->]]]]]]]]]. eexists. reflexivity.
Qed.

Lemma match_group_shorter (s g rest : pystr) :
  match_group ucd s = Some (g, rest) ->
  (List.length rest < List.length s)%nat.
Proof.
  intros H. apply match_group_some in H. destruct H as [-> Hb].
  apply block_not_empty in Hb. destruct Hb as [t ->].
  rewrite length_app. simpl. lia.
Qed.

Lemma match_group_no_dash (c : N) (s : pystr) :
  c <> DASH -> match_group ucd (c :: s) = None.
Proof.
  intros Hc. unfold match_group, begin_marker, five_dashes.
  cbn [app strip_prefix].
  destruct (N.eqb_spec DASH c) as [E|_]; [now subst | reflexivity].
Qed.

Lemma match_group_nil : match_group ucd [] = None.
Proof. reflexivity. Qed.

Lemma more_groups_stop (fuel : nat) (last rest : pystr) :
  match_group ucd rest = None -> more_groups ucd fuel last rest = (last, rest).
Proof. intros H. destruct fuel; simpl; [reflexivity | now rewrite H]. Qed.

(** The fuel given to [more_groups] by [match_here] is enough: any two
    amounts of fuel that cover the text give the same answer. *)
Lemma more_groups_fuel (f1 : nat) :
  forall f2 last rest,
    (List.length rest <= f1)%nat -> (List.length rest <= f2)%nat ->
    more_groups ucd f1 last rest = more_groups ucd f2 last rest.
Proof.
  induction f1 as [|f IH]; intros f2 last rest H1 H2.
  - destruct rest; [|simpl in H1; lia].
    now rewrite (more_groups_stop f2 last [] match_group_nil).
  - destruct (match_group ucd rest) as [[g rest']|] eqn:M.
    + pose proof (match_group_shorter _ _ _ M) as Hs.
      destruct f2 as [|f2']; [lia|]. simpl. rewrite M. apply IH; lia.
    + now rewrite !more_groups_stop.
Qed.

Lemma more_groups_shorter (fuel : nat) :
  forall last rest g rest',
    more_groups ucd fuel last rest = (g, rest') ->
    (List.length rest' <= List.length rest)%nat.
Proof.
  induction fuel as [|f IH]; intros last rest g rest' H; simpl in H.
  - inversion H. lia.
  - destruct (match_group ucd rest) as [[g1 r1]|] eqn:M.
    + apply IH in H. apply match_group_shorter in M. lia.
    + inversion H. lia.
Qed.

Lemma match_here_shorter (s g rest : pystr) :
  match_here ucd s = Some (g, rest) ->
  (List.length rest < List.length s)%nat.
Proof.
  unfold match_here. destruct (match_group ucd s) as [[g1 r1]|] eqn:M;
    [|discriminate].
  intros H. inversion H as [H']. apply more_groups_shorter in H'.
  apply match_group_shorter in M. lia.
Qed.

(** [findall] does not depend on the fuel once it covers the text. *)
Lemma findall_from_fuel (f1 : nat) :
  forall f2 s, (List.length s <= f1)%nat -> (List.length s <= f2)%nat ->
    findall_from ucd f1 s = findall_from ucd f2 s.
Proof.
  induction f1 as [|f IH]; intros f2 s H1 H2.
  - destruct s; [|simpl in H1; lia]. destruct f2; reflexivity.
  - destruct s as [|c s']; [destruct f2; reflexivity|].
    destruct f2 as [|f2']; [simpl in H2; lia|].
    simpl in H1, H2. cbn [findall_from].
    destruct (match_here ucd (c :: s')) as [[g rest]|] eqn:M.
    + apply match_here_shorter in M. simpl in M. f_equal. apply IH; lia.
    + apply IH; lia.
Qed.

(** The two equations of the scan. *)
Lemma findall_nil : findall ucd [] = [].
Proof. reflexivity. Qed.

Lemma findall_cons (c : N) (s : pystr) :
  findall ucd (c :: s) =
  match match_here ucd (c :: s) with
  | Some (g, rest) => g :: findall ucd rest
  | None => findall ucd s
  end.
Proof.
  unfold findall. cbn [List.length findall_from].
  destruct (match_here ucd (c :: s)) as [[g rest]|] eqn:M; [|reflexivity].
  apply match_here_shorter in M. simpl in M. f_equal.
  apply findall_from_fuel; lia.
Qed.

(** Text without a dash holds no match. *)
Lemma findall_skip (pre s : pystr) :
  forallb not_dash pre = true -> findall ucd (pre ++ s) = findall ucd s.
Proof.
  induction pre as [|c pre IH]; intros H; [reflexivity|].
  simpl in H. apply andb_prop in H. destruct H as [Hc H].
  simpl. rewrite findall_cons. unfold match_here.
  rewrite match_group_no_dash.
  - now apply IH.
  - intros ->. discriminate.
Qed.

Lemma match_group_dash_free (s : pystr) :
  forallb not_dash s = true -> match_group ucd s = None.
Proof.
  destruct s as [|c s]; intros H; [reflexivity|].
  simpl in H. apply andb_prop in H. destruct H as [Hc _].
  apply match_group_no_dash. intros ->. discriminate.
Qed.



(** Glued blocks are one match that keeps the second block. *)
Lemma findall_glued (b1 b2 post : pystr) :
  is_block ucd b1 -> is_block ucd b2 ->
  forallb not_dash post = true ->
  findall ucd (b1 ++ b2 ++ post) = [b2].
Proof.
  intros H1 H2 Hpost. destruct (block_not_empty _ H1) as [t Ht].
  pose proof (match_group_block b1 (b2 ++ post) H1) as M1.
  pose proof (match_group_block b2 post H2) as M2.
  rewrite Ht in *. simpl. rewrite findall_cons. unfold match_here.
  simpl in M1. rewrite M1.
  destruct (block_not_empty _ H2) as [t2 Ht2].
  assert (L : (List.length (b2 ++ post) = S (List.length (t2 ++ post)))%nat)
    by (rewrite Ht2; reflexivity).
  rewrite L. cbn [more_groups]. rewrite M2.
  rewrite (more_groups_stop _ _ _ (match_group_dash_free _ Hpost)).
  rewrite <- (app_nil_r post). rewrite (findall_skip _ _ Hpost). reflexivity.
Qed.

End PatternFacts.

Lemma block_a_is_block : is_block ascii_only block_a.
Proof.
  exists (str " CERTIFICATE"), (LF ++ str "MIIBaaaa" ++ LF), (str " CERTIFICATE").
  repeat split; try discriminate; reflexivity.
Qed.

Lemma block_b_is_block : is_block ascii_only block_b.
Proof.
  exists (str " CERTIFICATE"), (LF ++ str "MIIBbbbb" ++ LF), (str " CERTIFICATE").
  repeat split; try discriminate; reflexivity.
Qed.

(** *** What a match is, whatever the text *)

Section Matches.

Variable ucd : unicode_tables.

Lemma more_groups_inside (fuel : nat) :
  forall pre last rest g rest',
    is_block ucd last ->
    more_groups ucd fuel last rest = (g, rest') ->
    is_block ucd g /\ exists pre', pre ++ last ++ rest = pre' ++ g ++ rest'.
Proof.
  induction fuel as [|f IH]; intros pre last rest g rest' B H; simpl in H.
  - inversion H; subst. split; [exact B | now exists pre].
  - destruct (match_group ucd rest) as [[g1 r1]|] eqn:M.
    + apply match_group_some in M. destruct M as [-> B1].
      destruct (IH (pre ++ last) g1 r1 g rest' B1 H) as [Bg [pre' Hp]].
      split; [exact Bg|]. exists pre'. rewrite <- Hp.
      now rewrite <- app_assoc.
    + inversion H; subst. split; [exact B | now exists pre].
Qed.

Lemma match_here_inside (s g rest : pystr) :
  match_here ucd s = Some (g, rest) ->
  is_block ucd g /\ exists pre, s = pre ++ g ++ rest.
Proof.
  unfold match_here. destruct (match_group ucd s) as [[g0 r0]|] eqn:M;
    [|discriminate].
  intros H. inversion H as [H1]. clear H.
  apply match_group_some in M. destruct M as [-> B0].
  destruct (more_groups_inside _ [] g0 r0 g rest B0 H1) as [Bg [pre Hp]].
  split; [exact Bg|]. exists pre. exact Hp.
Qed.

Lemma findall_from_inside (fuel : nat) :
  forall s g, In g (findall_from ucd fuel s) ->
    is_block ucd g /\ exists pre post, s = pre ++ g ++ post.
Proof.
  induction fuel as [|f IH]; intros s g H; simpl in H; [destruct H|].
  destruct s as [|c s']; [destruct H|].
  destruct (match_here ucd (c :: s')) as [[g0 rest]|] eqn:M.
  - apply match_here_inside in M. destruct M as [B0 [pre Hs]].
    destruct H as [<-|H].
    + split; [exact B0|]. now exists pre, rest.
    + destruct (IH _ _ H) as [Bg [pre' [post' Hr]]].
      split; [exact Bg|]. exists (pre ++ g0 ++ pre'), post'.
      rewrite Hs, Hr. now rewrite <- !app_assoc.
  - destruct (IH _ _ H) as [Bg [pre' [post' Hr]]].
    split; [exact Bg|]. exists (c :: pre'), post'. rewrite Hr. reflexivity.
Qed.

End Matches.

(** Whatever the text, every entry of [RE_CERTIFICATE.findall(text)] is a
    piece of the text and has the shape of one block: five dashes and
    [BEGIN], a label, five dashes, a body without a dash, five dashes and
    [END], a label, five dashes. *)
Theorem findall_gives_blocks_of_the_text (ucd : unicode_tables)
    (text g : pystr) :
  In g (findall ucd text) ->
  is_block ucd g /\ exists pre post, text = pre ++ g ++ post.
Proof. unfold findall. apply findall_from_inside. Qed.

Lemma findall_gives_blocks_of_the_text_witness :
  is_block ascii_only block_b /\
  exists pre post, block_a ++ LF ++ block_b ++ LF = pre ++ block_b ++ post.
Proof.
  apply (findall_gives_blocks_of_the_text ascii_only
           (block_a ++ LF ++ block_b ++ LF) block_b).
  vm_compute. right. left. reflexivity.
Defined.

End Pem.

(** ** ACME orchestrator and renewal scheduler

    [issue_certificate], [handle_authorizations], [renew_certs],
    [__create_acme_certificate] and [do_create] of [CertificateService].

    Every call to a collaborator is written to a transcript together with
    what the collaborator answered; a collaborator answers as a function
    of its arguments and of the transcript so far. *)

Module Acme.

(** *** Data *)

(** A [dns_mapping] dict: domain name to DNS-authenticator id, in insertion
    order. *)
Definition mapping := list (pystr * Z).

Definition mapping_get (domain : pystr) (m : mapping) : option Z :=
  match find (fun kv => pystr_eqb domain (fst kv)) m with
  | Some kv => Some (snd kv)
  | None => None
  end.

Record challenge : Type := { typ : pystr; token : pystr }.

Record authorization_resource : Type := {
  identifier : pystr;              (* body.identifier.value *)
  challenges : list challenge      (* body.challenges *)
}.

Record order : Type := {
  order_csr : pystr;
  authorizations : list authorization_resource
}.

(** Times are microseconds, the resolution of [datetime]. *)
Record final_order : Type := {
  fullchain_pem : pystr;
  uri : pystr;
  expires : Z                      (* body.expires *)
}.

(** An enriched certificate record, as far as this code reads it. It is
    the [csr_data] of [issue_certificate] and the [cert] of
    [renew_certs]. *)
Record certificate : Type := {
  id : Z;
  name : pystr;
  common : pystr;
  san : list pystr;
  CSR : pystr;
  privatekey : option pystr;
  expire : Z;
  renew_days : Z;
  acme_directory : pystr;          (* cert['acme']['directory'] *)
  domains_authenticators : mapping
}.

(** The [data] argument of [issue_certificate]. *)
Record issue_data : Type := {
  tos : bool;
  acme_directory_uri : pystr;
  dns_mapping : mapping
}.

(** What [load_certificate] returns for a PEM it can parse. *)
Record cert_info : Type := {
  i_country : option pystr;
  i_state : option pystr;
  i_city : option pystr;
  i_organization : option pystr;
  i_common : option pystr;
  i_san : option pystr;
  i_email : option pystr;
  i_serial : Z;
  i_digest_algorithm : option pystr
}.

Definition CERT_TYPE_EXISTING : Z := 8.

(** The [cert_dict] built by [__create_acme_certificate]; [n_info] is the
    dict of [load_certificate] merged into it ([None] for [{}]). *)
Record new_certificate : Type := {
  n_acme : Z;
  n_acme_uri : pystr;
  n_certificate : pystr;
  n_CSR : pystr;
  n_privatekey : option pystr;
  n_name : pystr;
  n_expire : Z;
  n_chain : bool;
  n_type : Z;
  n_domains_authenticators : mapping;
  n_renew_days : Z;
  n_info : option cert_info
}.

(** The fields [renew_certs] writes back. *)
Record certificate_update : Type := {
  u_certificate : pystr;
  u_acme_uri : pystr;
  u_expire : Z;
  u_chain : bool
}.

Inductive create_type : Type :=
| CERTIFICATE_CREATE_INTERNAL
| CERTIFICATE_CREATE_IMPORTED
| CERTIFICATE_CREATE_IMPORTED_CSR
| CERTIFICATE_CREATE
| CERTIFICATE_CREATE_CSR
| CERTIFICATE_CREATE_ACME.

(** The [data] argument of [do_create], as far as the ACME strategy and
    [do_create] itself read it. *)
Record certificate_create : Type := {
  c_create_type : create_type;
  c_name : pystr;
  c_tos : bool;
  c_csr_id : Z;
  c_renew_days : Z;
  c_acme_directory_uri : pystr;
  c_dns_mapping : mapping
}.

(** *** Transcript *)

(** What a collaborator answers. *)
Inductive outcome (A : Type) : Type :=
| Returns (a : A)
| Raises (e : exn).

Arguments Returns {A} a.
Arguments Raises {A} e.

Inductive event : Type :=
| DnsAuthenticatorQuery (ids : list Z)
| GetAcmeClientAndKey (directory : pystr) (tos : bool) (answer : outcome pystr)
| NewOrder (csr : pystr) (answer : outcome order)
| UpdateTxtRecord (authenticator : Z) (chg : challenge) (domain key : pystr)
                  (answer : outcome bool)
| AnswerChallenge (chg : challenge) (key : pystr) (answer : outcome unit)
| PollAndFinalize (o : order) (deadline : Z) (answer : outcome final_order)
| SetProgress (percent : Q) (message : option pystr)
| LoggerDebug (message : pystr)
| CertificateQueryAcme (certs : list certificate)
| CertificateGetInstance (id : Z) (answer : outcome certificate)
| RegistrationQuery (directory : pystr) (ids : list Z)
| ValidateCommonAttributes (errs : list verror)
| StoredNamesQuery (names : list pystr)
| OtherStrategy (t : create_type) (answer : outcome new_certificate)
| DatastoreInsert (row : new_certificate) (san : pystr) (answer : outcome Z)
| DatastoreUpdate (id : Z) (fields : certificate_update) (answer : outcome unit)
| ServiceStart.

(** The collaborators. The first argument of each is the transcript at the
    time of the call. *)
Record world : Type := {
  dns_authenticator_query : list event -> list Z;
  get_acme_client_and_key : list event -> pystr -> bool -> outcome pystr;
  new_order : list event -> pystr -> outcome order;
  update_txt_record :
    list event -> Z -> challenge -> pystr -> pystr -> outcome bool;
  answer_challenge : list event -> challenge -> pystr -> outcome unit;
  poll_and_finalize : list event -> order -> Z -> outcome final_order;
  now : list event -> Z;                       (* datetime.datetime.now() *)
  utcnow : list event -> Z;                    (* now(timezone.utc) *)
  certificate_query_acme : list event -> list certificate;
  certificate_get_instance : list event -> Z -> outcome certificate;
  registration_query : list event -> pystr -> list Z;
  load_certificate : pystr -> option cert_info;
  unicode : Pem.unicode_tables;
  validate_common_attributes : list event -> certificate_create -> list verror;
  stored_names : list event -> list pystr;
  other_strategy :
    list event -> create_type -> certificate_create -> outcome new_certificate;
  datastore_insert : list event -> new_certificate -> pystr -> outcome Z;
  datastore_update : list event -> Z -> certificate_update -> outcome unit
}.

(** A computation reads the transcript so far and answers with the events
    it adds and its result. *)
Definition io (A : Type) : Type := list event -> list event * result A.

Definition ret {A} (a : A) : io A := fun _ => ([], Ok a).

Definition raise {A} (e : exn) : io A := fun _ => ([], Raise e).

Definition iobind {A B} (m : io A) (k : A -> io B) : io B :=
  fun h =>
    match m h with
    | (e1, Ok a) =>
        let (e2, r) := k a (h ++ e1) in (e1 ++ e2, r)
    | (e1, Raise e) => (e1, Raise e)
    | (e1, OutOfFuel) => (e1, OutOfFuel)
    end.

(** A call to a collaborator: [ask h] is its answer, [ev] the event that
    records the call with the answer. *)
Definition call {A} (ask : list event -> outcome A) (ev : outcome A -> event)
    : io A :=
  fun h =>
    match ask h with
    | Returns a => ([ev (Returns a)], Ok a)
    | Raises e => ([ev (Raises e)], Raise e)
    end.

(** A call that cannot raise. *)
Definition query {A} (ask : list event -> A) (ev : A -> event) : io A :=
  fun h => ([ev (ask h)], Ok (ask h)).

Definition emit (ev : event) : io unit := fun _ => ([ev], Ok tt).

(** [try: m  finally: f] where [f] does not raise. *)
Definition finally {A} (m : io A) (f : io unit) : io A :=
  fun h =>
    let (e1, r) := m h in
    let (e2, _) := f (h ++ e1) in
    (e1 ++ e2, r).

Declare Scope io_scope.
Notation "x <- c ;; k" := (iobind c (fun x => k))
  (at level 61, c at next level, right associativity) : io_scope.
Local Open Scope io_scope.

(** *** [handle_authorizations] *)

(** [for chg in ...challenges: if chg.typ == 'dns-01': challenge = chg]. *)
Definition find_dns01 (chs : list challenge) : option challenge :=
  fold_left
    (fun found chg => if pystr_eqb (typ chg) (str "dns-01") then Some chg else found)
    chs None.

Definition msg_no_challenge (domain : pystr) : pystr :=
  str "DNS Challenge not found for domain " ++ domain.

Definition msg_answer (domain detail : pystr) : pystr :=
  str "Error answering challenge for " ++ domain ++ str " : " ++ detail.

Definition msg_challenge (status : bool) (domain : pystr) : pystr :=
  str "DNS challenge " ++ (if status then str "completed" else str "failed")
    ++ str " for " ++ domain.

Definition authorization_domain : string := "acme_authorization.domain".

(** The [try] block of one turn of the loop, from the search for the
    challenge on. It answers with the events, the value of [status] when
    the block is left, and [verrors] or the exception that leaves it. *)
Definition authorize_try (w : world) (domain_names_dns_mapping : mapping)
    (key : pystr) (ar : authorization_resource) (verrors : list verror)
    (h : list event) : list event * bool * result (list verror) :=
  let domain := identifier ar in
  match find_dns01 (challenges ar) with
  | None =>
      ([], false,
       Ok (Names.add verrors authorization_domain (msg_no_challenge domain)))
  | Some chg =>
      match mapping_get domain domain_names_dns_mapping with
      | None => ([], false, Raise (MappingKeyError domain))
      | Some authenticator =>
          let a1 := update_txt_record w h authenticator chg domain key in
          let e1 := [UpdateTxtRecord authenticator chg domain key a1] in
          match a1 with
          | Raises (ValidationErrors v) => (e1, false, Ok (verrors ++ v))
          | Raises e => (e1, false, Raise e)
          | Returns status =>
              let a2 := answer_challenge w (h ++ e1) chg key in
              let e2 := e1 ++ [AnswerChallenge chg key a2] in
              match a2 with
              | Returns _ => (e2, status, Ok verrors)
              | Raises (AcmeUnexpectedUpdate detail) =>
                  (e2, status,
                   Ok (Names.add verrors authorization_domain
                         (msg_answer domain detail)))
              | Raises e => (e2, status, Raise e)
              end
          end
      end
  end.

(** One turn of the loop with its [finally]. The state is [progress] and
    [verrors]. *)
Definition authorize_one (w : world) (max_progress : Q) (n : nat)
    (domain_names_dns_mapping : mapping) (key : pystr)
    (st : Q * list verror) (ar : authorization_resource)
    : io (Q * list verror) :=
  fun h =>
    let progress := (fst st + max_progress / inject_Z (Z.of_nat n))%Q in
    match authorize_try w domain_names_dns_mapping key ar (snd st) h with
    | (evs, status, r) =>
        (evs ++ [SetProgress progress
                   (Some (msg_challenge status (identifier ar)))],
         match r with
         | Ok verrors => Ok (progress, verrors)
         | Raise e => Raise e
         | OutOfFuel => OutOfFuel
         end)
    end.

Fixpoint authorize_each (w : world) (max_progress : Q) (n : nat)
    (domain_names_dns_mapping : mapping) (key : pystr)
    (st : Q * list verror) (ars : list authorization_resource)
    : io (Q * list verror) :=
  match ars with
  | [] => ret st
  | ar :: rest =>
      st' <- authorize_one w max_progress n domain_names_dns_mapping key st ar ;;
      authorize_each w max_progress n domain_names_dns_mapping key st' rest
  end.

Definition max_progress_of (progress : Q) : Q :=
  (progress * inject_Z 4 - progress - progress * inject_Z 4 / inject_Z 5)%Q.

Definition handle_authorizations (w : world) (progress : Q) (o : order)
    (domain_names_dns_mapping : mapping) (key : pystr) : io unit :=
  st <- authorize_each w (max_progress_of progress)
          (List.length (authorizations o)) domain_names_dns_mapping key
          (progress, []) (authorizations o) ;;
  match snd st with
  | [] => ret tt
  | verrors => raise (ValidationErrors verrors)
  end.

(** *** [issue_certificate] *)

Definition get_domain_names (data : certificate) : list pystr :=
  common data :: san data.

Definition dns_mapping_attr : string := "acme_create.dns_mapping".

Definition msg_missing (domain : pystr) : pystr :=
  str "Please provide DNS authenticator id for " ++ domain.
Definition msg_unknown_authenticator (domain : pystr) : pystr :=
  str "Provided DNS Authenticator id for " ++ domain ++ str " does not exist".
Definition msg_not_in_csr (domain : pystr) : pystr :=
  domain ++ str " not specified in the CSR".

(** The two validation loops over [domains] and over the keys of
    [dns_mapping]. *)
Definition mapping_errors (dns_authenticator_ids : list Z)
    (domains : list pystr) (m : mapping) : list verror :=
  flat_map
    (fun domain =>
       match mapping_get domain m with
       | None => [(dns_mapping_attr, msg_missing domain)]
       | Some a =>
           if existsb (Z.eqb a) dns_authenticator_ids then []
           else [(dns_mapping_attr, msg_unknown_authenticator domain)]
       end)
    domains
  ++
  flat_map
    (fun domain =>
       if existsb (pystr_eqb domain) domains then []
       else [(dns_mapping_attr, msg_not_in_csr domain)])
    (map fst m).

Definition ten_minutes : Z := 10 * 60 * 1000000.

Definition timeout_error : verror :=
  ("acme_create.final_order"%string,
   str "Certificate request for final order timed out").

Definition new_order_error (detail : pystr) : verror :=
  ("acme_create.new_order"%string,
   str "Failed to issue a new order for Certificate : " ++ detail).

(** The [else] branch: the order is placed. It answers with [verrors] and
    the value of a [return], if there was one. *)
Definition issue_else (w : world) (progress : Q) (data : issue_data)
    (key : pystr) (o : order) : io (list verror * option final_order) :=
  _ <- emit (SetProgress progress
               (Some (str "New order for certificate issuance placed"))) ;;
  _ <- handle_authorizations w progress o (dns_mapping data) key ;;
  fun h =>
    let deadline := now w h + ten_minutes in
    let a := poll_and_finalize w h o deadline in
    let ev := [PollAndFinalize o deadline a] in
    match a with
    | Returns fo => (ev, Ok ([], Some fo))
    | Raises AcmeTimeoutError => (ev, Ok ([timeout_error], None))
    | Raises e => (ev, Raise e)
    end.

(** The [try ... except messages.Error ... else ...] statement. *)
Definition issue_try (w : world) (progress : Q) (data : issue_data)
    (csr_data : certificate) (key : pystr)
    : io (list verror * option final_order) :=
  fun h =>
    let a := new_order w h (CSR csr_data) in
    let e1 := [NewOrder (CSR csr_data) a] in
    match a with
    | Raises (AcmeMessagesError detail) =>
        (e1, Ok ([new_order_error detail], None))
    | Raises e => (e1, Raise e)
    | Returns o =>
        let (e2, r) := issue_else w progress data key o (h ++ e1) in
        (e1 ++ e2, r)
    end.

Definition issue_certificate (w : world) (progress : Q) (data : issue_data)
    (csr_data : certificate) : io (option final_order) :=
  let domains := get_domain_names csr_data in
  dns_authenticator_ids <-
    query (dns_authenticator_query w) DnsAuthenticatorQuery ;;
  match mapping_errors dns_authenticator_ids domains (dns_mapping data) with
  | (_ :: _) as verrors => raise (ValidationErrors verrors)
  | [] =>
      key <- call (fun h => get_acme_client_and_key w h
                              (acme_directory_uri data) (tos data))
                  (GetAcmeClientAndKey (acme_directory_uri data) (tos data)) ;;
      out <- issue_try w progress data csr_data key ;;
      (* finally: if verrors: raise verrors *)
      match fst out with
      | [] => ret (snd out)
      | verrors => raise (ValidationErrors verrors)
      end
  end.

(** *** [renew_certs] *)

Definition day : Z := 86400 * 1000000.

(** [(expire - now).days]: whole days, rounded down. *)
Definition days_left (expire now_utc : Z) : Z := (expire - now_utc) / day.

(** [expires.astimezone(pytz.utc).strftime('%Y-%m-%d')], kept as the
    instant at which that UTC day starts. *)
Definition expire_date (expires : Z) : Z := (expires / day) * day.

(** [True if len(RE_CERTIFICATE.findall(pem)) > 1 else False]. *)
Definition chain_flag (w : world) (pem : pystr) : bool :=
  (1 <? List.length (Pem.findall (unicode w) pem))%nat.

Definition update_of (w : world) (fo : final_order) : certificate_update :=
  {| u_certificate := fullchain_pem fo;
     u_acme_uri := uri fo;
     u_expire := expire_date (expires fo);
     u_chain := chain_flag w (fullchain_pem fo) |}.

(** The [if] statement of the loop body: renew the certificate if it is
    due. *)
Definition renew_if_due (w : world) (progress : Q) (cert : certificate)
    : io unit :=
  fun h =>
    if days_left (expire cert) (utcnow w h) <? renew_days cert then
      (_ <- emit (LoggerDebug (str "Renewing certificate " ++ name cert)) ;;
       final_order <-
         issue_certificate w (progress / inject_Z 4)
           {| tos := true;
              acme_directory_uri := acme_directory cert;
              dns_mapping := domains_authenticators cert |}
           cert ;;
       match final_order with
       | None => raise (AttributeError "fullchain_pem")
       | Some fo =>
           call (fun h' => datastore_update w h' (id cert) (update_of w fo))
                (DatastoreUpdate (id cert) (update_of w fo))
       end) h
    else ([], Ok tt).

(** One turn of the loop; the state is [progress]. *)
Definition renew_one (w : world) (n : nat) (progress : Q) (cert : certificate)
    : io Q :=
  let progress := (progress + inject_Z 100 / inject_Z (Z.of_nat n))%Q in
  _ <- renew_if_due w progress cert ;;
  _ <- emit (SetProgress progress None) ;;
  ret progress.

Fixpoint renew_each (w : world) (n : nat) (progress : Q)
    (certs : list certificate) : io Q :=
  match certs with
  | [] => ret progress
  | cert :: rest =>
      progress' <- renew_one w n progress cert ;;
      renew_each w n progress' rest
  end.

Definition renew_certs (w : world) : io unit :=
  certs <- query (certificate_query_acme w) CertificateQueryAcme ;;
  _ <- renew_each w (List.length certs) (inject_Z 0) certs ;;
  ret tt.

(** *** [__create_acme_certificate] and [do_create] *)

Definition create_acme_certificate (w : world) (data : certificate_create)
    : io new_certificate :=
  csr_data <- call (fun h => certificate_get_instance w h (c_csr_id data))
                   (CertificateGetInstance (c_csr_id data)) ;;
  final_order <-
    issue_certificate w (inject_Z 25)
      {| tos := c_tos data;
         acme_directory_uri := c_acme_directory_uri data;
         dns_mapping := c_dns_mapping data |}
      csr_data ;;
  _ <- emit (SetProgress (inject_Z 95)
               (Some (str "Final order received from ACME server"))) ;;
  registrations <-
    query (fun h => registration_query w h (c_acme_directory_uri data))
          (RegistrationQuery (c_acme_directory_uri data)) ;;
  match registrations, final_order with
  | [], _ => raise (OtherError "IndexError")
  | _ :: _, None => raise (AttributeError "uri")
  | acme_id :: _, Some fo =>
      ret {| n_acme := acme_id;
             n_acme_uri := uri fo;
             n_certificate := fullchain_pem fo;
             n_CSR := CSR csr_data;
             n_privatekey := privatekey csr_data;
             n_name := c_name data;
             n_expire := expire_date (expires fo);
             n_chain := chain_flag w (fullchain_pem fo);
             n_type := CERT_TYPE_EXISTING;
             n_domains_authenticators := c_dns_mapping data;
             n_renew_days := c_renew_days data;
             n_info := load_certificate w (fullchain_pem fo) |}
  end.

(** [self.map_functions[create_type](job, data)]. [do_create] has dropped
    an empty [dns_mapping] from [data], and the schema of the ACME strategy
    requires the attribute; the other strategies are collaborators here. *)
Definition map_functions (w : world) (t : create_type)
    (data : certificate_create) : io new_certificate :=
  match t with
  | CERTIFICATE_CREATE_ACME =>
      match c_dns_mapping data with
      | [] => raise (ValidationErrors
                       [("acme_create.dns_mapping"%string,
                         str "attribute required")])
      | _ => create_acme_certificate w data
      end
  | _ => call (fun h => other_strategy w h t data) (OtherStrategy t)
  end.

(** [' '.join(x)] on the characters of a string. *)
Fixpoint join_chars (s : pystr) : pystr :=
  match s with
  | [] => []
  | [c] => [c]
  | c :: rest => c :: 32%N :: join_chars rest
  end.

(** [' '.join(data.pop('san', []) or [])] on what [load_certificate] put
    under ['san']: the subject's [subjectAltName] string, or nothing. *)
Definition join_san (row : new_certificate) : pystr :=
  match n_info row with
  | Some info =>
      match i_san info with
      | Some s => join_chars s
      | None => []
      end
  | None => []
  end.

Definition do_create (w : world) (data : certificate_create) : io certificate :=
  verrors <- query (fun h => validate_common_attributes w h data)
                   ValidateCommonAttributes ;;
  stored <- query (stored_names w) StoredNamesQuery ;;
  match Names.validate_cert_name stored (c_name data) verrors
          "certificate_create.name" with
  | (_ :: _) as verrors => raise (ValidationErrors verrors)
  | [] =>
      _ <- emit (SetProgress (inject_Z 10)
                   (Some (str "Initial validation complete"))) ;;
      row <- map_functions w (c_create_type data) data ;;
      pk <- call (fun h => datastore_insert w h row (join_san row))
                 (DatastoreInsert row (join_san row)) ;;
      _ <- emit ServiceStart ;;
      _ <- emit (SetProgress (inject_Z 100)
                   (Some (str "Certificate created successfully"))) ;;
      call (fun h => certificate_get_instance w h pk) (CertificateGetInstance pk)
  end.

(** *** Reading a transcript *)

Definition is_insert (ev : event) : bool :=
  match ev with DatastoreInsert _ _ _ => true | _ => false end.

Definition is_poll (ev : event) : bool :=
  match ev with PollAndFinalize _ _ _ => true | _ => false end.

(** Calls that reach the ACME directory. *)
Definition is_acme_call (ev : event) : bool :=
  match ev with
  | GetAcmeClientAndKey _ _ _ | NewOrder _ _ | AnswerChallenge _ _ _
  | PollAndFinalize _ _ _ => true
  | _ => false
  end.

(** Calls that leave the machine. *)
Definition is_network_call (ev : event) : bool :=
  match ev with
  | UpdateTxtRecord _ _ _ _ _ => true
  | _ => is_acme_call ev
  end.

(** The messages given to [set_progress], in order. *)
Definition progress_messages (evs : list event) : list pystr :=
  flat_map
    (fun ev => match ev with SetProgress _ (Some m) => [m] | _ => [] end)
    evs.

(** *** Example worlds *)

Definition dns01 : challenge := {| typ := str "dns-01"; token := str "tok" |}.
Definition http01 : challenge := {| typ := str "http-01"; token := str "tok" |}.

Definition authorization_for (domain : pystr) : authorization_resource :=
  {| identifier := domain; challenges := [http01; dns01] |}.

Definition issued : final_order :=
  {| fullchain_pem := Pem.block_a ++ Pem.LF ++ Pem.block_b ++ Pem.LF;
     uri := str "https://acme.example/order/1";
     expires := 100 * day |}.

(** A world with one DNS authenticator (id 1) whose directory opens an
    authorization for every name in [domains]; [txt], [answer] and [poll]
    are what the DNS authenticator, the challenge endpoint and the
    finalization answer, and [certs] the ACME-managed records. *)
Definition example_world (domains : list pystr) (txt : pystr -> outcome bool)
    (answer : outcome unit) (poll : outcome final_order)
    (certs : list certificate) : world :=
  {| dns_authenticator_query := fun _ => [1];
     get_acme_client_and_key := fun _ _ _ => Returns (str "key");
     new_order := fun _ csr =>
       Returns {| order_csr := csr;
                  authorizations := map authorization_for domains |};
     update_txt_record := fun _ _ _ domain _ => txt domain;
     answer_challenge := fun _ _ _ => answer;
     poll_and_finalize := fun _ _ _ => poll;
     now := fun _ => 0;
     utcnow := fun _ => 0;
     certificate_query_acme := fun _ => certs;
     certificate_get_instance := fun _ i =>
       match find (fun c => id c =? i) certs with
       | Some c => Returns c
       | None => Raises (InstanceNotFound i)
       end;
     registration_query := fun _ _ => [7];
     load_certificate := fun _ => None;
     unicode := Pem.ascii_only;
     validate_common_attributes := fun _ _ => [];
     stored_names := fun _ => map name certs;
     other_strategy := fun _ _ _ => Raises (OtherError "not modelled");
     datastore_insert := fun _ _ _ => Returns 42;
     datastore_update := fun _ _ _ => Returns tt |}.

Definition a_example : pystr := str "a.example.com".
Definition b_example : pystr := str "b.example.com".

(** A stored CSR for [a.example.com] and [b.example.com]. *)
Definition csr_ab : certificate :=
  {| id := 3; name := str "csr"; common := a_example; san := [b_example];
     CSR := str "-----BEGIN CERTIFICATE REQUEST-----"; privatekey := None;
     expire := 0; renew_days := 10; acme_directory := str "https://acme.example/dir";
     domains_authenticators := [] |}.

(** *** Facts about the monad *)

Lemma iobind_inv {A B} (m : io A) (k : A -> io B) (h evs : list event)
    (r : result B) :
  iobind m k h = (evs, r) ->
  (exists e1 a e2, m h = (e1, Ok a) /\ k a (h ++ e1) = (e2, r) /\ evs = e1 ++ e2) \/
  (exists e, m h = (evs, Raise e) /\ r = Raise e) \/
  (m h = (evs, OutOfFuel) /\ r = OutOfFuel).
Proof.
  unfold iobind. destruct (m h) as [e1 [a|e|]] eqn:E.
  - destruct (k a (h ++ e1)) as [e2 r2] eqn:K. intros H. inversion H; subst.
    left. exists e1, a, e2. auto.
  - intros H. inversion H; subst. right. left. eauto.
  - intros H. inversion H; subst. right. right. auto.
Qed.

Lemma iobind_ok {A B} (m : io A) (k : A -> io B) (h e1 : list event) (a : A) :
  m h = (e1, Ok a) ->
  iobind m k h = (let (e2, r) := k a (h ++ e1) in (e1 ++ e2, r)).
Proof. intros H. unfold iobind. now rewrite H. Qed.

Lemma iobind_raise {A B} (m : io A) (k : A -> io B) (h e1 : list event) (e : exn) :
  m h = (e1, Raise e) -> iobind m k h = (e1, Raise e).
Proof. intros H. unfold iobind. now rewrite H. Qed.

(** *** The check of the domain mapping (C3) *)

Lemma mapping_errors_missing (ids : list Z) (domains : list pystr) (m : mapping)
    (d : pystr) :
  In d domains -> mapping_get d m = None ->
  In (dns_mapping_attr, msg_missing d) (mapping_errors ids domains m).
Proof.
  intros Hin Hget. unfold mapping_errors. rewrite in_app_iff. left.
  apply in_flat_map. exists d. split; [exact Hin|]. rewrite Hget. now left.
Qed.

Lemma existsb_pystr (d : pystr) (l : list pystr) :
  existsb (pystr_eqb d) l = true <-> In d l.
Proof.
  rewrite existsb_exists. split.
  - intros [x [Hin Heq]]. apply pystr_eqb_eq in Heq. now subst.
  - intros H. exists d. split; [exact H | apply pystr_eqb_refl].
Qed.

Lemma mapping_errors_not_in_csr (ids : list Z) (domains : list pystr)
    (m : mapping) (d : pystr) :
  In d (map fst m) -> ~ In d domains ->
  In (dns_mapping_attr, msg_not_in_csr d) (mapping_errors ids domains m).
Proof.
  intros Hin Hnot. unfold mapping_errors. rewrite in_app_iff. right.
  apply in_flat_map. exists d. split; [exact Hin|].
  destruct (existsb (pystr_eqb d) domains) eqn:E.
  - apply existsb_pystr in E. contradiction.
  - now left.
Qed.

(** C3. If a domain of the CSR (its common name or one of its
    subject-alternative names) has no entry in [dns_mapping], or an entry of
    [dns_mapping] names a domain that is not in the CSR, then
    [issue_certificate] raises one [ValidationErrors] that holds an entry
    naming each such domain, and the only call it has made is the local
    query for the DNS authenticators: the ACME directory is not contacted
    and no order is placed. *)
Theorem domain_mapping_symmetry (w : world) (progress : Q) (data : issue_data)
    (csr_data : certificate) (h : list event) :
  (exists d, In d (get_domain_names csr_data) /\
             mapping_get d (dns_mapping data) = None) \/
  (exists d, In d (map fst (dns_mapping data)) /\
             ~ In d (get_domain_names csr_data)) ->
  exists errs,
    issue_certificate w progress data csr_data h =
      ([DnsAuthenticatorQuery (dns_authenticator_query w h)],
       Raise (ValidationErrors errs)) /\
    (forall d, In d (get_domain_names csr_data) ->
               mapping_get d (dns_mapping data) = None ->
               In (dns_mapping_attr, msg_missing d) errs) /\
    (forall d, In d (map fst (dns_mapping data)) ->
               ~ In d (get_domain_names csr_data) ->
               In (dns_mapping_attr, msg_not_in_csr d) errs) /\
    forallb is_network_call [DnsAuthenticatorQuery (dns_authenticator_query w h)]
      = false.
Proof.
  intros H.
  exists (mapping_errors (dns_authenticator_query w h)
            (get_domain_names csr_data) (dns_mapping data)).
  split; [|split; [|split]].
  - unfold issue_certificate, iobind, query.
    destruct (mapping_errors (dns_authenticator_query w h)
                (get_domain_names csr_data) (dns_mapping data)) as [|x t] eqn:E.
    + exfalso. destruct H as [[d [Hin Hget]]|[d [Hin Hnot]]].
      * pose proof (mapping_errors_missing (dns_authenticator_query w h) _ _ _
                      Hin Hget) as F. rewrite E in F. destruct F.
      * pose proof (mapping_errors_not_in_csr (dns_authenticator_query w h) _ _ _
                      Hin Hnot) as F. rewrite E in F. destruct F.
    + reflexivity.
  - intros d. apply mapping_errors_missing.
  - intros d. apply mapping_errors_not_in_csr.
  - reflexivity.
Qed.

Example mapping_a_only :
  issue_certificate
    (example_world [a_example; b_example] (fun _ => Returns true)
       (Returns tt) (Returns issued) [])
    (inject_Z 25)
    {| tos := true; acme_directory_uri := str "https://acme.example/dir";
       dns_mapping := [(a_example, 1)] |}
    csr_ab []
  = ([DnsAuthenticatorQuery [1]],
     Raise (ValidationErrors [(dns_mapping_attr, msg_missing b_example)])).
Proof. reflexivity. Qed.

Lemma domain_mapping_symmetry_witness :
  exists errs,
    issue_certificate
      (example_world [a_example; b_example] (fun _ => Returns true)
         (Returns tt) (Returns issued) [])
      (inject_Z 25)
      {| tos := true; acme_directory_uri := str "https://acme.example/dir";
         dns_mapping := [(a_example, 1)] |}
      csr_ab []
    = ([DnsAuthenticatorQuery [1]], Raise (ValidationErrors errs)) /\
    (forall d, In d [a_example; b_example] ->
               mapping_get d [(a_example, 1)] = None ->
               In (dns_mapping_attr, msg_missing d) errs) /\
    (forall d, In d (map fst [(a_example, 1)]) ->
               ~ In d [a_example; b_example] ->
               In (dns_mapping_attr, msg_not_in_csr d) errs) /\
    forallb is_network_call [DnsAuthenticatorQuery [1]] = false.
Proof.
  apply (domain_mapping_symmetry
           (example_world [a_example; b_example] (fun _ => Returns true)
              (Returns tt) (Returns issued) [])
           (inject_Z 25)
           {| tos := true; acme_directory_uri := str "https://acme.example/dir";
              dns_mapping := [(a_example, 1)] |}
           csr_ab []).
  left. exists b_example. split; [right; left; reflexivity | reflexivity].
Defined.

(** *** The authorization loop (C6) *)

(** One turn of the loop for [ar], started with the transcript [h]: the
    calls it makes with the answers of the collaborators, the value of
    [status] when the [try] block is left, the errors it adds to
    [verrors], and the exception that leaves the loop, if any. *)
Inductive turn (w : world) (m : mapping) (key : pystr)
    (ar : authorization_resource) (h : list event)
    : list event -> bool -> list verror -> option exn -> Prop :=
| turn_no_challenge :
    find_dns01 (challenges ar) = None ->
    turn w m key ar h [] false
      [(authorization_domain, msg_no_challenge (identifier ar))] None
| turn_no_authenticator : forall chg,
    find_dns01 (challenges ar) = Some chg ->
    mapping_get (identifier ar) m = None ->
    turn w m key ar h [] false [] (Some (MappingKeyError (identifier ar)))
| turn_txt_raised : forall a chg v,
    find_dns01 (challenges ar) = Some chg ->
    mapping_get (identifier ar) m = Some a ->
    update_txt_record w h a chg (identifier ar) key
      = Raises (ValidationErrors v) ->
    turn w m key ar h
      [UpdateTxtRecord a chg (identifier ar) key (Raises (ValidationErrors v))]
      false v None
| turn_txt_other : forall a chg e,
    find_dns01 (challenges ar) = Some chg ->
    mapping_get (identifier ar) m = Some a ->
    update_txt_record w h a chg (identifier ar) key = Raises e ->
    (forall v, e <> ValidationErrors v) ->
    turn w m key ar h
      [UpdateTxtRecord a chg (identifier ar) key (Raises e)]
      false [] (Some e)
| turn_answered : forall a chg status u,
    find_dns01 (challenges ar) = Some chg ->
    mapping_get (identifier ar) m = Some a ->
    update_txt_record w h a chg (identifier ar) key = Returns status ->
    answer_challenge w
      (h ++ [UpdateTxtRecord a chg (identifier ar) key (Returns status)])
      chg key = Returns u ->
    turn w m key ar h
      [UpdateTxtRecord a chg (identifier ar) key (Returns status);
       AnswerChallenge chg key (Returns u)]
      status [] None
| turn_answer_raised : forall a chg status detail,
    find_dns01 (challenges ar) = Some chg ->
    mapping_get (identifier ar) m = Some a ->
    update_txt_record w h a chg (identifier ar) key = Returns status ->
    answer_challenge w
      (h ++ [UpdateTxtRecord a chg (identifier ar) key (Returns status)])
      chg key = Raises (AcmeUnexpectedUpdate detail) ->
    turn w m key ar h
      [UpdateTxtRecord a chg (identifier ar) key (Returns status);
       AnswerChallenge chg key (Raises (AcmeUnexpectedUpdate detail))]
      status [(authorization_domain, msg_answer (identifier ar) detail)] None
| turn_answer_other : forall a chg status e,
    find_dns01 (challenges ar) = Some chg ->
    mapping_get (identifier ar) m = Some a ->
    update_txt_record w h a chg (identifier ar) key = Returns status ->
    answer_challenge w
      (h ++ [UpdateTxtRecord a chg (identifier ar) key (Returns status)])
      chg key = Raises e ->
    (forall detail, e <> AcmeUnexpectedUpdate detail) ->
    turn w m key ar h
      [UpdateTxtRecord a chg (identifier ar) key (Returns status);
       AnswerChallenge chg key (Raises e)]
      status [] (Some e).

(** The turns of the whole loop, started with the transcript [h], in the
    order of the authorizations: each is closed by its [set_progress],
    whose message is chosen by the [status] of the turn (the percentage is
    left open); the errors are those of the turns. A turn that an
    exception leaves is the last one: nothing is recorded for the
    authorizations after it. *)
Inductive turns (w : world) (m : mapping) (key : pystr)
    : list event -> list authorization_resource -> list event
      -> list verror -> option exn -> Prop :=
| turns_nil : forall h, turns w m key h [] [] [] None
| turns_cons : forall h ar rest e1 status n1 p e2 n2 leave,
    turn w m key ar h e1 status n1 None ->
    turns w m key
      (h ++ e1 ++ [SetProgress p (Some (msg_challenge status (identifier ar)))])
      rest e2 n2 leave ->
    turns w m key h (ar :: rest)
      (e1 ++ SetProgress p (Some (msg_challenge status (identifier ar))) :: e2)
      (n1 ++ n2) leave
| turns_leave : forall h ar rest e1 status p e,
    turn w m key ar h e1 status [] (Some e) ->
    turns w m key h (ar :: rest)
      (e1 ++ [SetProgress p (Some (msg_challenge status (identifier ar)))])
      [] (Some e).

(** What [handle_authorizations] answers after turns that added [errs] and
    were left by [leave]. *)
Definition loop_result (errs : list verror) (leave : option exn)
    : result unit :=
  match leave with
  | Some e => Raise e
  | None =>
      match errs with
      | [] => Ok tt
      | _ :: _ => Raise (ValidationErrors errs)
      end
  end.

(** The result of the [try] block after a turn. *)
Definition try_result (verrors new : list verror) (leave : option exn)
    : result (list verror) :=
  match leave with
  | Some e => Raise e
  | None => Ok (verrors ++ new)
  end.

Lemma authorize_try_turn (w : world) (m : mapping) (key : pystr)
    (ar : authorization_resource) (verrors : list verror) (h : list event) :
  exists evs status new leave,
    authorize_try w m key ar verrors h
      = (evs, status, try_result verrors new leave) /\
    turn w m key ar h evs status new leave /\
    (leave <> None -> new = []).
Proof.
  unfold authorize_try.
  destruct (find_dns01 (challenges ar)) as [chg|] eqn:F.
  - destruct (mapping_get (identifier ar) m) as [a|] eqn:G.
    + destruct (update_txt_record w h a chg (identifier ar) key)
        as [status|e] eqn:U.
      * destruct (answer_challenge w _ chg key) as [u|e] eqn:A.
        -- exists [UpdateTxtRecord a chg (identifier ar) key (Returns status);
                   AnswerChallenge chg key (Returns u)], status, [], None.
           cbn [try_result]. rewrite app_nil_r.
           split; [reflexivity |
             split; [now apply turn_answered | reflexivity]].
        -- destruct e;
             try (eexists _, status, [], (Some _); cbn [try_result];
                  split; [reflexivity |
                    split; [apply turn_answer_other;
                              [exact F | exact G | exact U | exact A
                              | discriminate]
                           | reflexivity]]).
           eexists _, status, _, None. cbn [try_result].
           split; [reflexivity |
             split; [now apply turn_answer_raised | congruence]].
      * destruct e;
          try (eexists _, false, [], (Some _); cbn [try_result];
               split; [reflexivity |
                 split; [apply turn_txt_other;
                           [exact F | exact G | exact U | discriminate]
                        | reflexivity]]).
        eexists _, false, errs, None. cbn [try_result].
        split; [reflexivity |
          split; [now apply turn_txt_raised | congruence]].
    + eexists [], false, [], (Some _). cbn [try_result].
      split; [reflexivity |
        split; [now apply (turn_no_authenticator w m key ar h chg)
               | reflexivity]].
  - eexists [], false, _, None. cbn [try_result].
    split; [reflexivity |
      split; [now apply turn_no_challenge | congruence]].
Qed.

Lemma authorize_each_turns (w : world) (maxp : Q) (n : nat) (m : mapping)
    (key : pystr) (ars : list authorization_resource) :
  forall st h, exists evs new leave,
    turns w m key h ars evs new leave /\
    match leave with
    | Some e => authorize_each w maxp n m key st ars h = (evs, Raise e)
    | None => exists p,
        authorize_each w maxp n m key st ars h = (evs, Ok (p, snd st ++ new))
    end.
Proof.
  induction ars as [|ar rest IH]; intros st h.
  - exists [], [], None. split; [constructor|]. exists (fst st).
    rewrite app_nil_r. now destruct st.
  - destruct (authorize_try_turn w m key ar (snd st) h)
      as [e1 [status [n1 [leave1 [T1 [Tn Hn]]]]]].
    cbn [authorize_each]. unfold iobind, authorize_one. rewrite T1.
    destruct leave1 as [e|]; cbn [try_result].
    + rewrite (Hn ltac:(discriminate)) in Tn.
      eexists _, [], (Some e).
      split; [apply turns_leave; exact Tn | reflexivity].
    + match goal with
      | |- context [authorize_each w maxp n m key ?s rest ?hh] =>
          destruct (IH s hh) as [e2 [n2 [leave [Ts T2]]]]
      end.
      eexists _, (n1 ++ n2), leave. split.
      * apply turns_cons; [exact Tn | exact Ts].
      * destruct leave as [e|].
        -- rewrite T2. rewrite <- app_assoc. reflexivity.
        -- destruct T2 as [p T2]. exists p. rewrite T2. cbn [snd].
           rewrite <- !app_assoc. reflexivity.
Qed.

(** What the shape of the turns says about the transcript and the errors. *)

Lemma turn_no_progress (w : world) (m : mapping) (key : pystr)
    (ar : authorization_resource) (h evs : list event) (status : bool)
    (new : list verror) (leave : option exn) :
  turn w m key ar h evs status new leave -> progress_messages evs = [].
Proof. intros T. destruct T; reflexivity. Qed.

Lemma progress_messages_app (e1 e2 : list event) :
  progress_messages (e1 ++ e2) = progress_messages e1 ++ progress_messages e2.
Proof. unfold progress_messages. apply flat_map_app. Qed.

Lemma turns_all_reported (w : world) (m : mapping) (key : pystr)
    (ars : list authorization_resource) (h evs : list event)
    (errs : list verror) (leave : option exn) :
  turns w m key h ars evs errs leave -> leave = None ->
  List.length (progress_messages evs) = List.length ars.
Proof.
  induction 1 as [h|h ar rest e1 status n1 p e2 n2 leave T1 _ IH|]; intros L.
  - reflexivity.
  - rewrite progress_messages_app, (turn_no_progress _ _ _ _ _ _ _ _ _ T1).
    simpl. now rewrite IH.
  - discriminate.
Qed.

Lemma turns_no_challenge (w : world) (m : mapping) (key : pystr)
    (ars : list authorization_resource) (h evs : list event)
    (errs : list verror) (leave : option exn) :
  turns w m key h ars evs errs leave -> leave = None ->
  forall ar, In ar ars -> find_dns01 (challenges ar) = None ->
    In (authorization_domain, msg_no_challenge (identifier ar)) errs.
Proof.
  induction 1 as [h|h ar rest e1 status n1 p e2 n2 leave T1 _ IH|];
    intros L ar' Hin Hnone.
  - destruct Hin.
  - rewrite in_app_iff. destruct Hin as [<-|Hin].
    + left. destruct T1; try congruence. now left.
    + right. now apply IH.
  - discriminate.
Qed.

Lemma turns_txt_raised (w : world) (m : mapping) (key : pystr)
    (ars : list authorization_resource) (h evs : list event)
    (errs : list verror) (leave : option exn) :
  turns w m key h ars evs errs leave -> leave = None ->
  forall a chg d k v,
    In (UpdateTxtRecord a chg d k (Raises (ValidationErrors v))) evs ->
    incl v errs.
Proof.
  induction 1 as [h|h ar rest e1 status n1 p e2 n2 leave T1 _ IH|];
    intros L a chg d k v Hin.
  - destruct Hin.
  - rewrite in_app_iff in Hin. simpl in Hin. destruct Hin as [Hin|[Hin|Hin]].
    + apply incl_appl.
      inversion T1; subst; simpl in Hin;
        repeat (destruct Hin as [Hin|Hin]; try discriminate Hin);
        try contradiction.
      inversion Hin; subst. apply incl_refl.
    + discriminate.
    + apply incl_appr. eapply IH; eauto.
  - discriminate.
Qed.

Lemma turns_answer_raised (w : world) (m : mapping) (key : pystr)
    (ars : list authorization_resource) (h evs : list event)
    (errs : list verror) (leave : option exn) :
  turns w m key h ars evs errs leave -> leave = None ->
  forall chg k detail,
    In (AnswerChallenge chg k (Raises (AcmeUnexpectedUpdate detail))) evs ->
    exists ar, In ar ars /\
      In (authorization_domain, msg_answer (identifier ar) detail) errs.
Proof.
  induction 1 as [h|h ar rest e1 status n1 p e2 n2 leave T1 _ IH|];
    intros L chg k detail Hin.
  - destruct Hin.
  - rewrite in_app_iff in Hin. simpl in Hin. destruct Hin as [Hin|[Hin|Hin]].
    + exists ar. split; [now left|]. rewrite in_app_iff. left.
      inversion T1; subst; simpl in Hin;
        repeat (destruct Hin as [Hin|Hin]; try discriminate Hin);
        try contradiction.
      inversion Hin; subst. now left.
    + discriminate.
    + destruct (IH L _ _ _ Hin) as [ar' [Hin' He]].
      exists ar'. split; [now right|]. rewrite in_app_iff. now right.
  - discriminate.
Qed.

Lemma turns_sources (w : world) (m : mapping) (key : pystr)
    (ars : list authorization_resource) (h evs : list event)
    (errs : list verror) (leave : option exn) :
  turns w m key h ars evs errs leave ->
  forall x, In x errs ->
    (exists ar, In ar ars /\ find_dns01 (challenges ar) = None /\
       x = (authorization_domain, msg_no_challenge (identifier ar))) \/
    (exists a chg d k v,
       In (UpdateTxtRecord a chg d k (Raises (ValidationErrors v))) evs /\
       In x v) \/
    (exists ar chg k detail, In ar ars /\
       In (AnswerChallenge chg k (Raises (AcmeUnexpectedUpdate detail))) evs /\
       x = (authorization_domain, msg_answer (identifier ar) detail)).
Proof.
  induction 1 as [h|h ar rest e1 status n1 p e2 n2 leave T1 _ IH|]; intros x Hin.
  - destruct Hin.
  - rewrite in_app_iff in Hin. destruct Hin as [Hin|Hin].
    + inversion T1; subst; simpl in Hin.
      * destruct Hin as [<-|[]]. left. exists ar. repeat split; auto. now left.
      * right. left. exists a, chg, (identifier ar), key, n1.
        split; [now left | exact Hin].
      * destruct Hin.
      * destruct Hin as [<-|[]]. right. right.
        exists ar, chg, key, detail. repeat split; [now left|].
        rewrite in_app_iff. left. right. now left.
    + destruct (IH _ Hin) as [[ar' [Ha [Hn Hx]]]|[[a [chg [d [k [v [He Hx]]]]]]|
                                [ar' [chg [k [detail [Ha [He Hx]]]]]]]].
      * left. exists ar'. repeat split; auto. now right.
      * right. left. exists a, chg, d, k, v. split; [|exact Hx].
        rewrite in_app_iff. right. now right.
      * right. right. exists ar', chg, k, detail. repeat split; auto.
        -- now right.
        -- rewrite in_app_iff. right. now right.
  - destruct Hin.
Qed.

(** The message tells the status and the domain. *)
Lemma msg_challenge_inj (s s' : bool) (d d' : pystr) :
  msg_challenge s d = msg_challenge s' d' -> s = s' /\ d = d'.
Proof.
  unfold msg_challenge. intros H. apply app_inv_head in H.
  destruct s, s'.
  - apply app_inv_head in H. apply app_inv_head in H. auto.
  - cbn in H. discriminate H.
  - cbn in H. discriminate H.
  - apply app_inv_head in H. apply app_inv_head in H. auto.
Qed.

(** The answer of [update_txt_record] in a turn is the status of its
    message. *)
Lemma turns_status_reported (w : world) (m : mapping) (key : pystr)
    (ars : list authorization_resource) (h evs : list event)
    (errs : list verror) (leave : option exn) :
  turns w m key h ars evs errs leave ->
  forall a chg d k status,
    In (UpdateTxtRecord a chg d k (Returns status)) evs ->
    In (msg_challenge status d) (progress_messages evs).
Proof.
  induction 1 as [h|h ar rest e1 status n1 p e2 n2 leave T1 _ IH
                  |h ar rest e1 status p e T1];
    intros a chg d k st Hin.
  - destruct Hin.
  - rewrite progress_messages_app, (turn_no_progress _ _ _ _ _ _ _ _ _ T1).
    rewrite in_app_iff in Hin. simpl in Hin. simpl.
    destruct Hin as [Hin|[Hin|Hin]].
    + left. inversion T1; subst; simpl in Hin;
        repeat (destruct Hin as [Hin|Hin]; try discriminate Hin);
        try contradiction; inversion Hin; subst; reflexivity.
    + discriminate.
    + right. eapply IH; eauto.
  - rewrite progress_messages_app, (turn_no_progress _ _ _ _ _ _ _ _ _ T1).
    rewrite in_app_iff in Hin. simpl in Hin. simpl.
    destruct Hin as [Hin|[Hin|[]]]; [|discriminate].
    left. inversion T1; subst; simpl in Hin;
      repeat (destruct Hin as [Hin|Hin]; try discriminate Hin);
      try contradiction; inversion Hin; subst; reflexivity.
Qed.

(** A turn is reported as completed only when [update_txt_record]
    returned true in it. *)
Lemma turns_completed (w : world) (m : mapping) (key : pystr)
    (ars : list authorization_resource) (h evs : list event)
    (errs : list verror) (leave : option exn) :
  turns w m key h ars evs errs leave ->
  forall d, In (msg_challenge true d) (progress_messages evs) ->
    exists a chg, In (UpdateTxtRecord a chg d key (Returns true)) evs.
Proof.
  assert (One : forall ar h0 e1 st new lv,
            turn w m key ar h0 e1 st new lv -> st = true ->
            exists a chg,
              In (UpdateTxtRecord a chg (identifier ar) key (Returns true)) e1).
  { intros ar h0 e1 st new lv T S. destruct T; try discriminate S;
      subst; eexists _, _; left; reflexivity. }
  induction 1 as [h|h ar rest e1 status n1 p e2 n2 leave T1 _ IH
                  |h ar rest e1 status p e T1];
    intros d Hin.
  - destruct Hin.
  - rewrite progress_messages_app, (turn_no_progress _ _ _ _ _ _ _ _ _ T1) in Hin.
    simpl in Hin. destruct Hin as [Hin|Hin].
    + apply msg_challenge_inj in Hin. destruct Hin as [-> <-].
      destruct (One _ _ _ _ _ _ T1 eq_refl) as [a [chg Ha]].
      exists a, chg. apply in_or_app. now left.
    + destruct (IH _ Hin) as [a [chg Ha]]. exists a, chg.
      apply in_or_app. right. now right.
  - rewrite progress_messages_app, (turn_no_progress _ _ _ _ _ _ _ _ _ T1) in Hin.
    simpl in Hin. destruct Hin as [Hin|[]].
    apply msg_challenge_inj in Hin. destruct Hin as [-> <-].
    destruct (One _ _ _ _ _ _ T1 eq_refl) as [a [chg Ha]].
    exists a, chg. apply in_or_app. now left.
Qed.

(** A loop that an exception leaves stops at the turn that raised it. *)
Lemma turns_left (w : world) (m : mapping) (key : pystr)
    (ars : list authorization_resource) (h evs : list event)
    (errs : list verror) (leave : option exn) :
  turns w m key h ars evs errs leave ->
  forall e, leave = Some e ->
  exists before ar after earlier calls status p,
    ars = before ++ ar :: after /\
    turn w m key ar (h ++ earlier) calls status [] (Some e) /\
    evs = earlier ++ calls
            ++ [SetProgress p (Some (msg_challenge status (identifier ar)))] /\
    List.length (progress_messages evs) = S (List.length before).
Proof.
  induction 1 as [h|h ar rest e1 status n1 p e2 n2 leave T1 _ IH
                  |h ar rest e1 status p e' T1];
    intros e L.
  - discriminate.
  - destruct (IH e L)
      as [before [ar' [after [earlier [calls [st [p' [Ha [Tl [He Hl]]]]]]]]]].
    exists (ar :: before), ar', after,
      (e1 ++ SetProgress p (Some (msg_challenge status (identifier ar)))
          :: earlier), calls, st, p'.
    split; [simpl; now rewrite Ha|]. split.
    + replace (h ++ e1
                 ++ SetProgress p (Some (msg_challenge status (identifier ar)))
                 :: earlier)
        with ((h ++ e1
                 ++ [SetProgress p (Some (msg_challenge status (identifier ar)))])
                ++ earlier)
        by (rewrite <- !app_assoc; reflexivity).
      exact Tl.
    + split.
      * rewrite He. rewrite <- !app_assoc. reflexivity.
      * rewrite progress_messages_app, (turn_no_progress _ _ _ _ _ _ _ _ _ T1).
        simpl. now rewrite Hl.
  - inversion L; subst e'. exists [], ar, rest, [], e1, status, p.
    split; [reflexivity|]. split; [now rewrite app_nil_r|]. split.
    + reflexivity.
    + rewrite progress_messages_app, (turn_no_progress _ _ _ _ _ _ _ _ _ T1).
      reflexivity.
Qed.

(** C6, as stated, fails: [update_txt_record] reporting that it did not
    publish the record (it returns false) is not collected as an error. The
    loop reports "DNS challenge failed" for the domain and
    [handle_authorizations] then returns without raising. *)
Lemma txt_not_published_counterexample :
  let w := example_world [a_example] (fun _ => Returns false) (Returns tt)
             (Returns issued) [] in
  let run := handle_authorizations w (inject_Z 25)
               {| order_csr := CSR csr_ab;
                  authorizations := [authorization_for a_example] |}
               [(a_example, 1)] (str "key") [] in
  snd run = Ok tt /\
  progress_messages (fst run) = [str "DNS challenge failed for a.example.com"] /\
  In (UpdateTxtRecord 1 dns01 a_example (str "key") (Returns false)) (fst run).
Proof. vm_compute. repeat split. now left. Qed.

(** C6 (amended). For every world, order, mapping and key,
    [handle_authorizations] runs as a sequence of turns, one per
    authorization and in their order, each made of the calls to the
    collaborators with their answers and closed by its [set_progress].

    - A turn that finds no dns-01 challenge, whose [update_txt_record]
      raises [ValidationErrors] or whose [answer_challenge] raises
      [UnexpectedUpdate] adds its errors and the loop goes on. When no
      other exception occurs, every authorization is reported, and after
      the last turn one [ValidationErrors] holding exactly the errors of
      all turns is raised, or the function returns if the turns added
      none.
    - The value [update_txt_record] returns only chooses the message: a
      turn in which it returned [status] is reported with that status, a
      turn is reported as completed only if it returned true, and every
      error comes from one of the three sources above, so a false answer
      adds none.
    - Any other exception (the domain is not in the mapping, another
      exception of [update_txt_record] or of [answer_challenge]) leaves
      the loop at once: the transcript ends with the [set_progress] of
      that turn, nothing is done for the authorizations after it, and the
      exception is the result. *)
Theorem authorization_loop_aggregates (w : world) (progress : Q) (o : order)
    (m : mapping) (key : pystr) (h : list event) :
  exists evs errs leave,
    handle_authorizations w progress o m key h
      = (evs, loop_result errs leave) /\
    turns w m key h (authorizations o) evs errs leave /\
    (leave = None ->
       List.length (progress_messages evs) = List.length (authorizations o) /\
       (forall ar, In ar (authorizations o) ->
          find_dns01 (challenges ar) = None ->
          In (authorization_domain, msg_no_challenge (identifier ar)) errs) /\
       (forall a chg d k v,
          In (UpdateTxtRecord a chg d k (Raises (ValidationErrors v))) evs ->
          incl v errs) /\
       (forall chg k detail,
          In (AnswerChallenge chg k (Raises (AcmeUnexpectedUpdate detail))) evs ->
          exists ar, In ar (authorizations o) /\
            In (authorization_domain, msg_answer (identifier ar) detail) errs)) /\
    (forall x, In x errs ->
       (exists ar, In ar (authorizations o) /\
          find_dns01 (challenges ar) = None /\
          x = (authorization_domain, msg_no_challenge (identifier ar))) \/
       (exists a chg d k v,
          In (UpdateTxtRecord a chg d k (Raises (ValidationErrors v))) evs /\
          In x v) \/
       (exists ar chg k detail, In ar (authorizations o) /\
          In (AnswerChallenge chg k (Raises (AcmeUnexpectedUpdate detail))) evs /\
          x = (authorization_domain, msg_answer (identifier ar) detail))) /\
    (forall a chg d k status,
       In (UpdateTxtRecord a chg d k (Returns status)) evs ->
       In (msg_challenge status d) (progress_messages evs)) /\
    (forall d, In (msg_challenge true d) (progress_messages evs) ->
       exists a chg, In (UpdateTxtRecord a chg d key (Returns true)) evs) /\
    (forall e, leave = Some e ->
       exists before ar after earlier calls status p,
         authorizations o = before ++ ar :: after /\
         turn w m key ar (h ++ earlier) calls status [] (Some e) /\
         evs = earlier ++ calls
                 ++ [SetProgress p
                       (Some (msg_challenge status (identifier ar)))] /\
         List.length (progress_messages evs) = S (List.length before)).
Proof.
  destruct (authorize_each_turns w (max_progress_of progress)
              (List.length (authorizations o)) m key (authorizations o)
              (progress, []) h)
    as [evs [errs [leave [T E]]]].
  exists evs, errs, leave.
  split; [|split; [exact T|split; [|split; [|split; [|split]]]]].
  - unfold handle_authorizations, iobind. destruct leave as [e|].
    + rewrite E. reflexivity.
    + destruct E as [p E]. rewrite E. cbn [snd app loop_result].
      destruct errs; simpl; now rewrite app_nil_r.
  - intros L. split; [exact (turns_all_reported _ _ _ _ _ _ _ _ T L)|].
    split; [exact (turns_no_challenge _ _ _ _ _ _ _ _ T L)|].
    split; [exact (turns_txt_raised _ _ _ _ _ _ _ _ T L)|].
    exact (turns_answer_raised _ _ _ _ _ _ _ _ T L).
  - exact (turns_sources _ _ _ _ _ _ _ _ T).
  - exact (turns_status_reported _ _ _ _ _ _ _ _ T).
  - exact (turns_completed _ _ _ _ _ _ _ _ T).
  - exact (turns_left _ _ _ _ _ _ _ _ T).
Qed.

(** Three authorizations: the first is answered, the DNS authenticator
    refuses the second, the third offers no dns-01 challenge. *)
Definition txt_refuses_b (domain : pystr) : outcome bool :=
  if pystr_eqb domain b_example
  then Raises (ValidationErrors
                 [("dns_authenticator_update_record"%string, str "refused")])
  else Returns true.

Definition three_authorizations : order :=
  {| order_csr := CSR csr_ab;
     authorizations :=
       [authorization_for a_example; authorization_for b_example;
        {| identifier := str "c.example.com"; challenges := [http01] |}] |}.

Definition refusing_world : world :=
  example_world [a_example; b_example] txt_refuses_b (Returns tt)
    (Returns issued) [].

Example three_turns :
  let run := handle_authorizations refusing_world (inject_Z 25)
               three_authorizations [(a_example, 1); (b_example, 1)]
               (str "key") [] in
  snd run =
    Raise (ValidationErrors
             [("dns_authenticator_update_record"%string, str "refused");
              (authorization_domain,
               str "DNS Challenge not found for domain c.example.com")]) /\
  progress_messages (fst run) =
    [str "DNS challenge completed for a.example.com";
     str "DNS challenge failed for b.example.com";
     str "DNS challenge failed for c.example.com"].
Proof. vm_compute. split; reflexivity. Qed.

(** The same order with a mapping that lacks the second domain: the
    [KeyError] of the second turn leaves the loop, and the third
    authorization is not looked at. *)
Example second_turn_leaves :
  let run := handle_authorizations refusing_world (inject_Z 25)
               three_authorizations [(a_example, 1)] (str "key") [] in
  snd run = Raise (MappingKeyError b_example) /\
  progress_messages (fst run) =
    [str "DNS challenge completed for a.example.com";
     str "DNS challenge failed for b.example.com"].
Proof. vm_compute. split; reflexivity. Qed.

Lemma authorization_loop_aggregates_witness :
  exists evs errs leave,
    handle_authorizations refusing_world (inject_Z 25) three_authorizations
      [(a_example, 1); (b_example, 1)] (str "key") []
      = (evs, loop_result errs leave) /\
    turns refusing_world [(a_example, 1); (b_example, 1)] (str "key") []
      (authorizations three_authorizations) evs errs leave.
Proof.
  destruct (authorization_loop_aggregates refusing_world (inject_Z 25)
              three_authorizations [(a_example, 1); (b_example, 1)] (str "key") [])
    as [evs [errs [leave [E [T _]]]]].
  exists evs, errs, leave. auto.
Defined.

(** *** Finalization (C7) *)

(** An event that is neither a poll of the order nor an insert. *)
Definition calm (ev : event) : bool := negb (is_poll ev) && negb (is_insert ev).

Definition all_calm (evs : list event) : Prop := forallb calm evs = true.

Lemma all_calm_app (e1 e2 : list event) :
  all_calm (e1 ++ e2) <-> all_calm e1 /\ all_calm e2.
Proof. unfold all_calm. rewrite forallb_app. apply andb_true_iff. Qed.

Lemma authorize_try_calm (w : world) (m : mapping) (key : pystr)
    (ar : authorization_resource) (verrors : list verror) (h : list event) :
  all_calm (fst (fst (authorize_try w m key ar verrors h))).
Proof.
  unfold authorize_try.
  destruct (find_dns01 (challenges ar)) as [chg|]; [|reflexivity].
  destruct (mapping_get (identifier ar) m) as [a|]; [|reflexivity].
  destruct (update_txt_record w h a chg (identifier ar) key) as [status|e].
  - destruct (answer_challenge w _ chg key) as [u|e]; [reflexivity|].
    destruct e; reflexivity.
  - destruct e; reflexivity.
Qed.

Lemma authorize_each_calm (w : world) (maxp : Q) (n : nat) (m : mapping)
    (key : pystr) (ars : list authorization_resource) :
  forall st h, all_calm (fst (authorize_each w maxp n m key st ars h)).
Proof.
  induction ars as [|ar rest IH]; intros st h; [reflexivity|].
  cbn [authorize_each]. unfold iobind, authorize_one.
  pose proof (authorize_try_calm w m key ar (snd st) h) as C.
  destruct (authorize_try w m key ar (snd st) h) as [[e1 status] r].
  simpl in C.
  assert (C1 : all_calm (e1 ++ [SetProgress
                  (fst st + maxp / inject_Z (Z.of_nat n))%Q
                  (Some (msg_challenge status (identifier ar)))])).
  { apply all_calm_app. split; [exact C | reflexivity]. }
  destruct r as [v|e|]; try exact C1.
  match goal with
  | |- context [authorize_each w maxp n m key ?s rest ?hh] =>
      pose proof (IH s hh) as C2;
      destruct (authorize_each w maxp n m key s rest hh) as [e2 r2]
  end.
  simpl in C2 |- *. apply all_calm_app. split; assumption.
Qed.

Lemma handle_authorizations_calm (w : world) (progress : Q) (o : order)
    (m : mapping) (key : pystr) (h : list event) :
  all_calm (fst (handle_authorizations w progress o m key h)).
Proof.
  unfold handle_authorizations, iobind.
  pose proof (authorize_each_calm w (max_progress_of progress)
                (List.length (authorizations o)) m key (authorizations o)
                (progress, []) h) as C.
  destruct (authorize_each w (max_progress_of progress)
              (List.length (authorizations o)) m key
              (progress, []) (authorizations o) h) as [e1 [st|e|]];
    simpl in C |- *; auto.
  destruct (snd st); simpl; now rewrite app_nil_r.
Qed.

(** How a run of [issue_certificate] that polls the order ends. *)
Definition poll_result (a : outcome final_order) : result (option final_order) :=
  match a with
  | Returns fo => Ok (Some fo)
  | Raises AcmeTimeoutError => Raise (ValidationErrors [timeout_error])
  | Raises e => Raise e
  end.

(** The transcript of a run: either it holds no poll, or it ends with the
    only poll, whose deadline is ten minutes after the clock reading taken
    at that moment and whose answer decides the result. *)
Definition polls_once (w : world) (h evs : list event)
    (r : result (option final_order)) : Prop :=
  all_calm evs \/
  exists pre o,
    all_calm pre /\
    let d := now w (h ++ pre) + ten_minutes in
    let a := poll_and_finalize w (h ++ pre) o d in
    evs = pre ++ [PollAndFinalize o d a] /\ r = poll_result a.

Definition else_result (a : outcome final_order)
    : result (list verror * option final_order) :=
  match a with
  | Returns fo => Ok ([], Some fo)
  | Raises AcmeTimeoutError => Ok ([timeout_error], None)
  | Raises e => Raise e
  end.

Definition polls_once_try (w : world) (h evs : list event)
    (r : result (list verror * option final_order)) : Prop :=
  all_calm evs \/
  exists pre o,
    all_calm pre /\
    let d := now w (h ++ pre) + ten_minutes in
    let a := poll_and_finalize w (h ++ pre) o d in
    evs = pre ++ [PollAndFinalize o d a] /\ r = else_result a.

Lemma polls_once_try_prefix (w : world) (h e1 evs : list event)
    (r : result (list verror * option final_order)) :
  all_calm e1 -> polls_once_try w (h ++ e1) evs r ->
  polls_once_try w h (e1 ++ evs) r.
Proof.
  intros C [H|[pre [o [Cp [E R]]]]].
  - left. apply all_calm_app. auto.
  - right. exists (e1 ++ pre), o. split; [apply all_calm_app; auto|].
    cbv zeta in *. rewrite <- !app_assoc in *. rewrite E at 1.
    rewrite !app_assoc. split; [reflexivity|]. rewrite <- !app_assoc. exact R.
Qed.

Lemma issue_else_shape (w : world) (progress : Q) (data : issue_data)
    (key : pystr) (o : order) (h : list event) :
  polls_once_try w h (fst (issue_else w progress data key o h))
                     (snd (issue_else w progress data key o h)).
Proof.
  unfold issue_else, iobind, emit.
  set (ev0 := SetProgress progress
                (Some (str "New order for certificate issuance placed"))).
  pose proof (handle_authorizations_calm w progress o (dns_mapping data) key
                (h ++ [ev0])) as C.
  destruct (handle_authorizations w progress o (dns_mapping data) key
              (h ++ [ev0])) as [e1 [u|e|]]; simpl in C.
  - assert (Cp : all_calm ([ev0] ++ e1))
      by (apply all_calm_app; split; [reflexivity | exact C]).
    right. exists ([ev0] ++ e1), o. split; [exact Cp|].
    cbv zeta. rewrite <- !app_assoc.
    destruct (poll_and_finalize w (h ++ [ev0] ++ e1) o
                (now w (h ++ [ev0] ++ e1) + ten_minutes)) as [fo|e] eqn:P;
      simpl; rewrite ?P; [split; reflexivity|].
    destruct e; split; reflexivity.
  - left. simpl. exact C.
  - left. simpl. exact C.
Qed.

Lemma issue_try_shape (w : world) (progress : Q) (data : issue_data)
    (csr_data : certificate) (key : pystr) (h : list event) :
  polls_once_try w h (fst (issue_try w progress data csr_data key h))
                     (snd (issue_try w progress data csr_data key h)).
Proof.
  unfold issue_try.
  destruct (new_order w h (CSR csr_data)) as [o|e] eqn:N.
  - pose proof (issue_else_shape w progress data key o
                  (h ++ [NewOrder (CSR csr_data) (Returns o)])) as S.
    destruct (issue_else w progress data key o
                (h ++ [NewOrder (CSR csr_data) (Returns o)])) as [e2 r].
    simpl in S |- *.
    apply (polls_once_try_prefix w h [NewOrder (CSR csr_data) (Returns o)]);
      [reflexivity | exact S].
  - left. destruct e; reflexivity.
Qed.

Lemma issue_certificate_shape (w : world) (progress : Q) (data : issue_data)
    (csr_data : certificate) (h : list event) :
  polls_once w h (fst (issue_certificate w progress data csr_data h))
                 (snd (issue_certificate w progress data csr_data h)).
Proof.
  unfold issue_certificate, iobind, query.
  set (ev0 := DnsAuthenticatorQuery (dns_authenticator_query w h)).
  destruct (mapping_errors (dns_authenticator_query w h)
              (get_domain_names csr_data) (dns_mapping data)) as [|x t].
  2: { left. reflexivity. }
  unfold call.
  destruct (get_acme_client_and_key w (h ++ [ev0]) (acme_directory_uri data)
              (tos data)) as [key|e] eqn:G.
  2: { left. reflexivity. }
  set (ev1 := GetAcmeClientAndKey (acme_directory_uri data) (tos data)
                (Returns key)).
  pose proof (issue_try_shape w progress data csr_data key
                ((h ++ [ev0]) ++ [ev1])) as S.
  destruct (issue_try w progress data csr_data key ((h ++ [ev0]) ++ [ev1]))
    as [e2 r].
  simpl in S. destruct S as [C|[pre [o [Cp [E R]]]]].
  - left. destruct r as [[v ret]|e|]; simpl.
    + destruct v; simpl; rewrite app_nil_r; exact C.
    + exact C.
    + exact C.
  - cbv zeta in E, R. right. exists ([ev0; ev1] ++ pre), o.
    split; [apply all_calm_app; split; [reflexivity | exact Cp]|].
    cbv zeta. rewrite <- !app_assoc in E, R. simpl in E, R.
    rewrite <- !app_assoc. simpl. subst e2 r.
    destruct (poll_and_finalize w (h ++ ev0 :: ev1 :: pre) o
                (now w (h ++ ev0 :: ev1 :: pre) + ten_minutes)) as [fo|e];
      simpl.
    + rewrite app_nil_r. split; reflexivity.
    + destruct e; simpl; rewrite ?app_nil_r; split; reflexivity.
Qed.

Definition no_insert (evs : list event) : Prop :=
  forallb (fun ev => negb (is_insert ev)) evs = true.

Lemma no_insert_app (e1 e2 : list event) :
  no_insert (e1 ++ e2) <-> no_insert e1 /\ no_insert e2.
Proof. unfold no_insert. rewrite forallb_app. apply andb_true_iff. Qed.

Lemma all_calm_no_insert (evs : list event) : all_calm evs -> no_insert evs.
Proof.
  unfold all_calm, no_insert. rewrite !forallb_forall. intros H ev Hin.
  specialize (H ev Hin). unfold calm in H. apply andb_prop in H. tauto.
Qed.

Lemma all_calm_no_poll (evs : list event) (o : order) (d : Z)
    (a : outcome final_order) :
  all_calm evs -> ~ In (PollAndFinalize o d a) evs.
Proof.
  unfold all_calm. rewrite forallb_forall. intros H Hin.
  specialize (H _ Hin). discriminate.
Qed.

Lemma all_calm_filter_poll (evs : list event) :
  all_calm evs -> filter is_poll evs = [].
Proof.
  unfold all_calm. induction evs as [|ev evs IH]; simpl; [reflexivity|].
  intros H. apply andb_prop in H. destruct H as [Hc H].
  unfold calm in Hc. apply andb_prop in Hc. destruct Hc as [Hp _].
  destruct (is_poll ev); [discriminate | now apply IH].
Qed.

Lemma polls_once_no_insert (w : world) (h evs : list event)
    (r : result (option final_order)) :
  polls_once w h evs r -> no_insert evs.
Proof.
  intros [C|[pre [o [C [E _]]]]].
  - now apply all_calm_no_insert.
  - cbv zeta in E. rewrite E. apply no_insert_app. split.
    + now apply all_calm_no_insert.
    + reflexivity.
Qed.

Lemma polls_once_timeout (w : world) (h evs : list event)
    (r : result (option final_order)) (o : order) (d : Z) :
  polls_once w h evs r ->
  In (PollAndFinalize o d (Raises AcmeTimeoutError)) evs ->
  r = Raise (ValidationErrors [timeout_error]).
Proof.
  intros [C|[pre [o' [C [E R]]]]] Hin.
  - exfalso. revert Hin. now apply all_calm_no_poll.
  - cbv zeta in E, R. rewrite E in Hin. apply in_app_or in Hin.
    destruct Hin as [Hin|[Hin|[]]].
    + exfalso. revert Hin. now apply all_calm_no_poll.
    + injection Hin as Ho Hd Ha. rewrite R.
      match goal with
      | |- poll_result ?x = _ =>
          replace x with (@Raises final_order AcmeTimeoutError)
            by (symmetry; exact Ha)
      end.
      reflexivity.
Qed.

Lemma polls_once_count (w : world) (h evs : list event)
    (r : result (option final_order)) :
  polls_once w h evs r -> (List.length (filter is_poll evs) <= 1)%nat.
Proof.
  intros [C|[pre [o [C [E _]]]]].
  - rewrite (all_calm_filter_poll _ C). simpl. lia.
  - cbv zeta in E. rewrite E, filter_app, (all_calm_filter_poll _ C).
    simpl. lia.
Qed.

(** A strategy that saw the finalization time out raises, and no strategy
    inserts. *)
Definition strategy_shape (evs : list event) (r : result new_certificate) : Prop :=
  no_insert evs /\
  forall o d, In (PollAndFinalize o d (Raises AcmeTimeoutError)) evs ->
              r = Raise (ValidationErrors [timeout_error]).

Lemma create_acme_certificate_shape (w : world) (data : certificate_create)
    (h : list event) :
  strategy_shape (fst (create_acme_certificate w data h))
                 (snd (create_acme_certificate w data h)).
Proof.
  unfold create_acme_certificate, iobind, call.
  destruct (certificate_get_instance w h (c_csr_id data)) as [csr_data|e].
  2: { split; [reflexivity|]. intros o d [H|[]]. discriminate. }
  set (ev0 := CertificateGetInstance (c_csr_id data) (Returns csr_data)).
  match goal with
  | |- context [issue_certificate w ?p ?dt csr_data ?hh] =>
      pose proof (issue_certificate_shape w p dt csr_data hh) as S;
      destruct (issue_certificate w p dt csr_data hh) as [e1 r1]
  end.
  simpl in S.
  pose proof (polls_once_no_insert _ _ _ _ S) as NI.
  assert (T : forall o d, In (PollAndFinalize o d (Raises AcmeTimeoutError)) e1 ->
                r1 = Raise (ValidationErrors [timeout_error]))
    by (intros o d; apply (polls_once_timeout _ _ _ _ _ _ S)).
  destruct r1 as [fo|e|].
  - unfold emit, query.
    destruct (registration_query w _ (c_acme_directory_uri data)) as [|acme_id regs];
      [|destruct fo as [fo|]]; simpl; split;
      try (apply (no_insert_app [ev0]); split; [reflexivity|];
           apply no_insert_app; split; [exact NI | reflexivity]);
      intros o d [H|H]; try discriminate H;
      apply in_app_or in H; destruct H as [H|H];
      try (specialize (T _ _ H); discriminate T);
      simpl in H; repeat (destruct H as [H|H]; try discriminate H);
      try contradiction.
  - simpl. split.
    + apply (no_insert_app [ev0]). split; [reflexivity | exact NI].
    + intros o d [H|H]; [discriminate|].
      specialize (T o d H). injection T as ->. reflexivity.
  - simpl. split.
    + apply (no_insert_app [ev0]). split; [reflexivity | exact NI].
    + intros o d [H|H]; [discriminate|].
      specialize (T o d H). discriminate T.
Qed.

Lemma map_functions_shape (w : world) (t : create_type)
    (data : certificate_create) (h : list event) :
  strategy_shape (fst (map_functions w t data h))
                 (snd (map_functions w t data h)).
Proof.
  assert (O : forall t', strategy_shape
                (fst (call (fun h' => other_strategy w h' t' data)
                           (OtherStrategy t') h))
                (snd (call (fun h' => other_strategy w h' t' data)
                           (OtherStrategy t') h))).
  { intros t'. unfold call. destruct (other_strategy w h t' data);
      (split; [reflexivity | intros o d [H|[]]; discriminate]). }
  destruct t; try apply O.
  simpl. destruct (c_dns_mapping data).
  - split; [reflexivity | intros o d []].
  - apply create_acme_certificate_shape.
Qed.

Lemma do_create_timeout (w : world) (data : certificate_create)
    (h : list event) (o : order) (d : Z) :
  In (PollAndFinalize o d (Raises AcmeTimeoutError)) (fst (do_create w data h)) ->
  snd (do_create w data h) = Raise (ValidationErrors [timeout_error]) /\
  no_insert (fst (do_create w data h)).
Proof.
  unfold do_create, iobind, query.
  set (ev0 := ValidateCommonAttributes (validate_common_attributes w h data)).
  set (ev1 := StoredNamesQuery (stored_names w (h ++ [ev0]))).
  destruct (Names.validate_cert_name _ (c_name data) _ _) as [|x t].
  2: { simpl. intros [H|[H|[]]]; discriminate. }
  unfold emit.
  set (ev2 := SetProgress (inject_Z 10)
                (Some (str "Initial validation complete"))).
  match goal with
  | |- context [map_functions w ?t data ?hh] =>
      pose proof (map_functions_shape w t data hh) as [NI T];
      destruct (map_functions w t data hh) as [e1 r1]
  end.
  simpl in NI, T.
  destruct r1 as [row|e|].
  - intros Hin. exfalso.
    assert (Hin1 : In (PollAndFinalize o d (Raises AcmeTimeoutError)) e1).
    { unfold call in Hin.
      destruct (datastore_insert w _ row (join_san row)) as [pk|e];
        [destruct (certificate_get_instance w _ pk)|];
        simpl in Hin;
        repeat (destruct Hin as [Hin|Hin]; try discriminate Hin);
        apply in_app_or in Hin; destruct Hin as [Hin|Hin]; auto;
        simpl in Hin;
        repeat (destruct Hin as [Hin|Hin]; try discriminate Hin);
        contradiction. }
    specialize (T _ _ Hin1). discriminate T.
  - simpl. intros [H|[H|[H|H]]]; try discriminate H.
    specialize (T _ _ H). injection T as ->. split; [reflexivity|].
    apply (no_insert_app [ev0; ev1; ev2]). split; [reflexivity | exact NI].
  - simpl. intros [H|[H|[H|H]]]; try discriminate H.
    specialize (T _ _ H). discriminate T.
Qed.

(** C7. A run of [issue_certificate] polls the order at most once, as its
    last call, with a deadline ten minutes after the clock reading taken
    then; if that poll raises [TimeoutError] the run raises the
    [ValidationErrors] holding the one entry "Certificate request for final
    order timed out" and nothing is tried again. In a [do_create] whose
    transcript shows such a poll, the same error leaves [do_create] and the
    transcript holds no [datastore.insert]. *)
Theorem finalize_timeout (w : world) :
  (forall progress data csr_data h,
      let run := issue_certificate w progress data csr_data h in
      polls_once w h (fst run) (snd run) /\
      (List.length (filter is_poll (fst run)) <= 1)%nat /\
      forall o d,
        In (PollAndFinalize o d (Raises AcmeTimeoutError)) (fst run) ->
        snd run = Raise (ValidationErrors [timeout_error])) /\
  (forall data h o d,
      let run := do_create w data h in
      In (PollAndFinalize o d (Raises AcmeTimeoutError)) (fst run) ->
      snd run = Raise (ValidationErrors [timeout_error]) /\
      filter is_insert (fst run) = []).
Proof.
  split.
  - intros progress data csr_data h run.
    pose proof (issue_certificate_shape w progress data csr_data h) as S.
    fold run in S. split; [exact S | split].
    + apply (polls_once_count _ _ _ _ S).
    + intros o d. apply (polls_once_timeout _ _ _ _ _ _ S).
  - intros data h o d run Hin.
    destruct (do_create_timeout w data h o d Hin) as [R NI].
    split; [exact R|]. fold run in NI. clear - NI.
    unfold no_insert in NI. induction (fst run) as [|ev evs IH]; [reflexivity|].
    simpl in NI |- *. apply andb_prop in NI. destruct NI as [Hev NI].
    destruct (is_insert ev); [discriminate | now apply IH].
Qed.

(** A directory that never finalizes within the deadline. *)
Definition stalling_world : world :=
  example_world [a_example; b_example] (fun _ => Returns true) (Returns tt)
    (Raises AcmeTimeoutError) [csr_ab].

Definition acme_request : certificate_create :=
  {| c_create_type := CERTIFICATE_CREATE_ACME;
     c_name := str "web";
     c_tos := true;
     c_csr_id := 3;
     c_renew_days := 10;
     c_acme_directory_uri := str "https://acme.example/dir";
     c_dns_mapping := [(a_example, 1); (b_example, 1)] |}.

Definition the_order : order :=
  {| order_csr := CSR csr_ab;
     authorizations := [authorization_for a_example; authorization_for b_example] |}.

Example create_times_out :
  let run := do_create stalling_world acme_request [] in
  snd run = Raise (ValidationErrors [timeout_error]) /\
  In (PollAndFinalize the_order ten_minutes (Raises AcmeTimeoutError)) (fst run) /\
  filter is_insert (fst run) = [].
Proof. vm_compute. repeat split. do 14 right. now left. Qed.

Example create_succeeds :
  let run := do_create
               (example_world [a_example; b_example] (fun _ => Returns true)
                  (Returns tt) (Returns issued) [csr_ab])
               acme_request [] in
  List.length (filter is_insert (fst run)) = 1%nat /\
  List.length (filter is_poll (fst run)) = 1%nat.
Proof. vm_compute. split; reflexivity. Qed.

Lemma finalize_timeout_witness :
  snd (do_create stalling_world acme_request []) =
    Raise (ValidationErrors [timeout_error]) /\
  filter is_insert (fst (do_create stalling_world acme_request [])) = [].
Proof.
  apply (proj2 (finalize_timeout stalling_world) acme_request []
           the_order ten_minutes).
  vm_compute. do 14 right. now left.
Defined.

(** *** Renewal (C2) *)

Lemma renew_each_app (w : world) (n : nat) (done rest : list certificate) :
  forall p0 h evs0 p1,
    renew_each w n p0 done h = (evs0, Ok p1) ->
    renew_each w n p0 (done ++ rest) h =
      (let (e2, r) := renew_each w n p1 rest (h ++ evs0) in (evs0 ++ e2, r)).
Proof.
  induction done as [|c done IH]; intros p0 h evs0 p1 H.
  - inversion H; subst. simpl. rewrite app_nil_r.
    now destruct (renew_each w n p1 rest h).
  - simpl in H |- *. unfold iobind in H |- *.
    destruct (renew_one w n p0 c h) as [e1 [p|e|]]; try discriminate.
    destruct (renew_each w n p done (h ++ e1)) as [e2 r] eqn:E.
    inversion H; subst.
    rewrite (IH _ _ _ _ E). rewrite <- app_assoc.
    destruct (renew_each w n p1 rest (h ++ e1 ++ e2)) as [e3 r3].
    now rewrite app_assoc.
Qed.

Definition renewal_data (cert : certificate) : issue_data :=
  {| tos := true;
     acme_directory_uri := acme_directory cert;
     dns_mapping := domains_authenticators cert |}.

Definition msg_renewing (cert : certificate) : pystr :=
  str "Renewing certificate " ++ name cert.

Lemma renew_one_raises (w : world) (n : nat) (p : Q) (cert : certificate)
    (h evs : list event) (e : exn) :
  days_left (expire cert) (utcnow w h) < renew_days cert ->
  issue_certificate w
    ((p + inject_Z 100 / inject_Z (Z.of_nat n)) / inject_Z 4)%Q
    (renewal_data cert) cert (h ++ [LoggerDebug (msg_renewing cert)])
    = (evs, Raise e) ->
  renew_one w n p cert h = (LoggerDebug (msg_renewing cert) :: evs, Raise e).
Proof.
  intros Hdue Hissue. unfold renew_one, iobind, renew_if_due.
  apply Z.ltb_lt in Hdue. rewrite Hdue. unfold iobind, emit.
  unfold renewal_data, msg_renewing in Hissue. rewrite Hissue. reflexivity.
Qed.

Definition is_renewal_log (ev : event) : bool :=
  match ev with LoggerDebug _ => true | _ => false end.

Definition is_update (ev : event) : bool :=
  match ev with DatastoreUpdate _ _ _ => true | _ => false end.

Definition acme_cert (i : Z) (nm domain : pystr) : certificate :=
  {| id := i; name := nm; common := domain; san := [];
     CSR := str "-----BEGIN CERTIFICATE REQUEST-----"; privatekey := None;
     expire := 0; renew_days := 10;
     acme_directory := str "https://acme.example/dir";
     domains_authenticators := [(domain, 1)] |}.

Definition cert_one : certificate := acme_cert 1 (str "one") a_example.
Definition cert_two : certificate := acme_cert 2 (str "two") a_example.

(** Two ACME-managed certificates, both due; the directory never
    finalizes. *)
Definition stalling_renewal : world :=
  example_world [a_example] (fun _ => Returns true) (Returns tt)
    (Raises AcmeTimeoutError) [cert_one; cert_two].

(** The same two certificates with a directory that issues. *)
Definition issuing_renewal : world :=
  example_world [a_example] (fun _ => Returns true) (Returns tt)
    (Returns issued) [cert_one; cert_two].

Example both_renewed :
  let run := renew_certs issuing_renewal [] in
  snd run = Ok tt /\
  filter is_renewal_log (fst run) =
    [LoggerDebug (str "Renewing certificate one");
     LoggerDebug (str "Renewing certificate two")] /\
  map (fun ev => match ev with DatastoreUpdate i _ _ => i | _ => 0 end)
      (filter is_update (fst run)) = [1; 2] /\
  map (fun ev => match ev with DatastoreUpdate _ u _ => u_chain u | _ => false end)
      (filter is_update (fst run)) = [true; true].
Proof. vm_compute. repeat split. Qed.

(** C2, as stated, fails: when re-issuing the first due certificate raises,
    the exception leaves [renew_certs]; the second due certificate is not
    looked at in that run. *)
Lemma renewal_failure_counterexample :
  let run := renew_certs stalling_renewal [] in
  snd run = Raise (ValidationErrors [timeout_error]) /\
  filter is_renewal_log (fst run) =
    [LoggerDebug (str "Renewing certificate one")] /\
  List.length (filter is_poll (fst run)) = 1%nat /\
  filter is_update (fst run) = [].
Proof. vm_compute. repeat split. Qed.

(** C2 (amended). [renew_certs] has no handler around the re-issue: when
    the records before a due certificate have been processed and
    [issue_certificate] raises for that certificate, [renew_certs] ends
    with that exception right after the calls of the failing
    [issue_certificate]; the failing record is neither updated nor
    reported, and the records after it are not evaluated in that run. *)
Theorem renewal_stops_at_first_failure (w : world) (h : list event)
    (done rest : list certificate) (cert : certificate)
    (evs0 evs1 : list event) (p1 : Q) (e : exn) :
  let certs := certificate_query_acme w h in
  let h0 := h ++ [CertificateQueryAcme certs] in
  let n := List.length certs in
  certs = done ++ cert :: rest ->
  renew_each w n (inject_Z 0) done h0 = (evs0, Ok p1) ->
  days_left (expire cert) (utcnow w (h0 ++ evs0)) < renew_days cert ->
  issue_certificate w
    ((p1 + inject_Z 100 / inject_Z (Z.of_nat n)) / inject_Z 4)%Q
    (renewal_data cert) cert
    ((h0 ++ evs0) ++ [LoggerDebug (msg_renewing cert)])
    = (evs1, Raise e) ->
  renew_certs w h =
    (CertificateQueryAcme certs :: evs0
       ++ LoggerDebug (msg_renewing cert) :: evs1,
     Raise e).
Proof.
  intros certs h0 n Hc Hdone Hdue Hissue.
  assert (E : renew_each w n (inject_Z 0) certs h0 =
              (evs0 ++ LoggerDebug (msg_renewing cert) :: evs1, Raise e)).
  { rewrite Hc.
    rewrite (renew_each_app w n done (cert :: rest) _ _ _ _ Hdone).
    cbn [renew_each]. unfold iobind.
    rewrite (renew_one_raises w n p1 cert (h0 ++ evs0) evs1 e Hdue Hissue).
    reflexivity. }
  unfold renew_certs, iobind, query. fold certs. fold h0. fold n.
  rewrite E. reflexivity.
Qed.

Lemma renewal_stops_at_first_failure_witness :
  exists evs1,
    renew_certs stalling_renewal [] =
      (CertificateQueryAcme [cert_one; cert_two] :: []
         ++ LoggerDebug (msg_renewing cert_one) :: evs1,
       Raise (ValidationErrors [timeout_error])) /\
    filter is_renewal_log evs1 = [].
Proof.
  eexists. split.
  - apply (renewal_stops_at_first_failure stalling_renewal [] [] [cert_two]
             cert_one [] _ (inject_Z 0) (ValidationErrors [timeout_error]));
      vm_compute; reflexivity.
  - vm_compute. reflexivity.
Defined.

(** *** Which certificates a renewal run writes *)

Lemma authorize_try_no_update (w : world) (m : mapping) (key : pystr)
    (ar : authorization_resource) (verrors : list verror) (h : list event) :
  existsb is_update (fst (fst (authorize_try w m key ar verrors h))) = false.
Proof.
  unfold authorize_try.
  destruct (find_dns01 (challenges ar)) as [chg|]; [|reflexivity].
  destruct (mapping_get (identifier ar) m) as [a|]; [|reflexivity].
  destruct (update_txt_record w h a chg (identifier ar) key) as [status|e].
  - destruct (answer_challenge w _ chg key) as [u|e]; [reflexivity|].
    destruct e; reflexivity.
  - destruct e; reflexivity.
Qed.

Lemma authorize_each_no_update (w : world) (maxp : Q) (n : nat) (m : mapping)
    (key : pystr) (ars : list authorization_resource) :
  forall st h,
    existsb is_update (fst (authorize_each w maxp n m key st ars h)) = false.
Proof.
  induction ars as [|ar rest IH]; intros st h; [reflexivity|].
  cbn [authorize_each]. unfold iobind, authorize_one.
  pose proof (authorize_try_no_update w m key ar (snd st) h) as C.
  destruct (authorize_try w m key ar (snd st) h) as [[e1 status] r].
  simpl in C.
  assert (C1 : existsb is_update
                 (e1 ++ [SetProgress
                           (fst st + maxp / inject_Z (Z.of_nat n))%Q
                           (Some (msg_challenge status (identifier ar)))])
               = false).
  { rewrite existsb_app, C. reflexivity. }
  destruct r as [v|e|]; try exact C1.
  match goal with
  | |- context [authorize_each w maxp n m key ?s rest ?hh] =>
      pose proof (IH s hh) as C2;
      destruct (authorize_each w maxp n m key s rest hh) as [e2 r2]
  end.
  simpl in C2 |- *. rewrite existsb_app, C1, C2. reflexivity.
Qed.

Lemma handle_authorizations_no_update (w : world) (progress : Q) (o : order)
    (m : mapping) (key : pystr) (h : list event) :
  existsb is_update (fst (handle_authorizations w progress o m key h)) = false.
Proof.
  unfold handle_authorizations, iobind.
  pose proof (authorize_each_no_update w (max_progress_of progress)
                (List.length (authorizations o)) m key (authorizations o)
                (progress, []) h) as C.
  destruct (authorize_each w (max_progress_of progress)
              (List.length (authorizations o)) m key
              (progress, []) (authorizations o) h) as [e1 [st|e|]];
    simpl in C |- *; auto.
  destruct (snd st); simpl; now rewrite app_nil_r.
Qed.

Lemma issue_else_no_update (w : world) (progress : Q) (data : issue_data)
    (key : pystr) (o : order) (h : list event) :
  existsb is_update (fst (issue_else w progress data key o h)) = false.
Proof.
  unfold issue_else, iobind, emit.
  set (ev0 := SetProgress progress
                (Some (str "New order for certificate issuance placed"))).
  pose proof (handle_authorizations_no_update w progress o (dns_mapping data)
                key (h ++ [ev0])) as C.
  destruct (handle_authorizations w progress o (dns_mapping data) key
              (h ++ [ev0])) as [e1 [u|e|]]; simpl in C |- *; try exact C.
  destruct (poll_and_finalize w _ o _) as [fo|e]; simpl.
  - rewrite existsb_app, C. reflexivity.
  - destruct e; simpl; rewrite existsb_app, C; reflexivity.
Qed.

Lemma issue_try_no_update (w : world) (progress : Q) (data : issue_data)
    (csr_data : certificate) (key : pystr) (h : list event) :
  existsb is_update (fst (issue_try w progress data csr_data key h)) = false.
Proof.
  unfold issue_try.
  destruct (new_order w h (CSR csr_data)) as [o|e] eqn:N.
  - pose proof (issue_else_no_update w progress data key o
                  (h ++ [NewOrder (CSR csr_data) (Returns o)])) as S.
    destruct (issue_else w progress data key o
                (h ++ [NewOrder (CSR csr_data) (Returns o)])) as [e2 r].
    simpl in S |- *. exact S.
  - destruct e; reflexivity.
Qed.

Lemma issue_certificate_no_update (w : world) (progress : Q)
    (data : issue_data) (csr_data : certificate) (h : list event) :
  existsb is_update (fst (issue_certificate w progress data csr_data h))
    = false.
Proof.
  unfold issue_certificate, iobind, query.
  set (ev0 := DnsAuthenticatorQuery (dns_authenticator_query w h)).
  destruct (mapping_errors (dns_authenticator_query w h)
              (get_domain_names csr_data) (dns_mapping data)) as [|x t];
    [|reflexivity].
  unfold call.
  destruct (get_acme_client_and_key w (h ++ [ev0]) (acme_directory_uri data)
              (tos data)) as [key|e] eqn:G; [|reflexivity].
  set (ev1 := GetAcmeClientAndKey (acme_directory_uri data) (tos data)
                (Returns key)).
  pose proof (issue_try_no_update w progress data csr_data key
                ((h ++ [ev0]) ++ [ev1])) as S.
  destruct (issue_try w progress data csr_data key ((h ++ [ev0]) ++ [ev1]))
    as [e2 r].
  simpl in S. destruct r as [[v ret0]|e|]; simpl; try exact S.
  destruct v; simpl; rewrite existsb_app, S; reflexivity.
Qed.

Lemma in_update_exists (evs : list event) (i : Z) (u : certificate_update)
    (a : outcome unit) :
  In (DatastoreUpdate i u a) evs -> existsb is_update evs = true.
Proof.
  intros H. apply existsb_exists. exists (DatastoreUpdate i u a).
  split; [exact H | reflexivity].
Qed.

Lemma renew_if_due_updates (w : world) (p : Q) (cert : certificate)
    (h : list event) (i : Z) (u : certificate_update) (a : outcome unit) :
  In (DatastoreUpdate i u a) (fst (renew_if_due w p cert h)) ->
  i = id cert /\ days_left (expire cert) (utcnow w h) < renew_days cert.
Proof.
  unfold renew_if_due.
  destruct (days_left (expire cert) (utcnow w h) <? renew_days cert) eqn:Due;
    [|intros []].
  apply Z.ltb_lt in Due. unfold iobind at 1, emit. unfold iobind.
  pose proof (issue_certificate_no_update w (p / inject_Z 4)
                {| tos := true; acme_directory_uri := acme_directory cert;
                   dns_mapping := domains_authenticators cert |} cert
                (h ++ [LoggerDebug (str "Renewing certificate " ++ name cert)]))
    as N.
  destruct (issue_certificate w (p / inject_Z 4) _ cert _) as [e1 r1].
  cbn [fst] in N.
  assert (Not1 : ~ In (DatastoreUpdate i u a) e1).
  { intros H. apply in_update_exists in H. congruence. }
  destruct r1 as [[fo|]| |]; cbn [fst app].
  - unfold call. destruct (datastore_update w _ (id cert) (update_of w fo));
      cbn [fst]; intros [H|H]; try discriminate H;
      apply in_app_or in H; destruct H as [H|[H|[]]];
      try contradiction; inversion H; subst; auto.
  - unfold raise. cbn [fst]. rewrite app_nil_r.
    intros [H|H]; [discriminate H | contradiction].
  - intros [H|H]; [discriminate H | contradiction].
  - intros [H|H]; [discriminate H | contradiction].
Qed.

Lemma renew_each_updates (w : world) (n : nat) (certs : list certificate)
    (i : Z) (u : certificate_update) (a : outcome unit) :
  forall p h,
    In (DatastoreUpdate i u a) (fst (renew_each w n p certs h)) ->
    exists cert h',
      In cert certs /\ id cert = i /\
      days_left (expire cert) (utcnow w h') < renew_days cert.
Proof.
  induction certs as [|cert rest IH]; intros p h; [intros []|].
  cbn [renew_each]. unfold iobind at 1, renew_one. unfold iobind at 1.
  set (p' := (p + inject_Z 100 / inject_Z (Z.of_nat n))%Q).
  pose proof (renew_if_due_updates w p' cert h i u a) as D.
  destruct (renew_if_due w p' cert h) as [e1 [[]|e|]]; cbn [fst] in D |- *.
  - unfold iobind, emit, ret. cbn [app].
    match goal with
    | |- context [renew_each w n p' rest ?hh] =>
        pose proof (IH p' hh) as R;
        destruct (renew_each w n p' rest hh) as [e2 r2]
    end.
    cbn [fst] in R |- *. intros H.
    apply in_app_or in H. destruct H as [H|H].
    + apply in_app_or in H. destruct H as [H|[H|[]]]; [|discriminate H].
      destruct (D H) as [-> Due]. exists cert, h. split; [now left | auto].
    + destruct (R H) as [c [h' [Hc Hr]]]. exists c, h'.
      split; [now right | exact Hr].
  - intros H. destruct (D H) as [-> Due]. exists cert, h.
    split; [now left | auto].
  - intros H. destruct (D H) as [-> Due]. exists cert, h.
    split; [now left | auto].
Qed.

(** A renewal run writes only to certificates that were due. Every
    [datastore.update] of a run of [renew_certs] is for one of the
    ACME-managed certificates the query returned, and when that
    certificate was looked at, fewer than [renew_days] whole days were left
    until it expires. *)
Theorem renewal_writes_only_due_certificates (w : world)
    (h evs : list event) (r : result unit) (i : Z) (u : certificate_update)
    (a : outcome unit) :
  renew_certs w h = (evs, r) ->
  In (DatastoreUpdate i u a) evs ->
  exists cert h',
    In cert (certificate_query_acme w h) /\ id cert = i /\
    expire cert - utcnow w h' < renew_days cert * day.
Proof.
  unfold renew_certs, iobind at 1, query. intros H Hin.
  set (certs := certificate_query_acme w h) in *.
  assert (Hin' : In (DatastoreUpdate i u a)
                   (fst (renew_each w (List.length certs) (inject_Z 0) certs
                           (h ++ [CertificateQueryAcme certs])))).
  { unfold iobind, ret in H.
    destruct (renew_each w (List.length certs) (inject_Z 0) certs
                (h ++ [CertificateQueryAcme certs])) as [e2 [p| |]];
      inversion H; subst; cbn [fst app] in *;
      (destruct Hin as [Hin|Hin]; [discriminate Hin|]);
      rewrite ?app_nil_r in Hin; exact Hin. }
  destruct (renew_each_updates _ _ _ _ _ _ _ _ Hin')
    as [cert [h' [Hc [Hi Due]]]].
  exists cert, h'. split; [exact Hc|]. split; [exact Hi|].
  unfold days_left in Due.
  destruct (Z.lt_ge_cases (expire cert - utcnow w h') (renew_days cert * day))
    as [L|G]; [exact L|].
  exfalso.
  assert (renew_days cert <= (expire cert - utcnow w h') / day).
  { apply Z.div_le_lower_bound; [reflexivity | lia]. }
  lia.
Qed.

Lemma renewal_writes_only_due_certificates_witness :
  exists cert h',
    In cert (certificate_query_acme issuing_renewal []) /\ id cert = 2 /\
    expire cert - utcnow issuing_renewal h' < renew_days cert * day.
Proof.
  apply (renewal_writes_only_due_certificates issuing_renewal []
           (fst (renew_certs issuing_renewal []))
           (snd (renew_certs issuing_renewal [])) 2
           (update_of issuing_renewal issued) (Returns tt)).
  - vm_compute. reflexivity.
  - vm_compute. repeat (first [left; reflexivity | right]).
Defined.

(** *** What [do_create] inserts *)

(** [do_create] inserts nothing for a request that did not pass
    validation: whenever a run reaches [datastore.insert], the common
    checks have reported no error and [validate_cert_name] has accepted
    the name against the stored names. *)
Theorem create_inserts_only_valid_requests (w : world)
    (data : certificate_create) (h evs : list event) (r : result certificate)
    (row : new_certificate) (san_text : pystr) (a : outcome Z) :
  do_create w data h = (evs, r) ->
  In (DatastoreInsert row san_text a) evs ->
  validate_common_attributes w h data = [] /\
  Names.validate_cert_name
    (stored_names w (h ++ [ValidateCommonAttributes
                             (validate_common_attributes w h data)]))
    (c_name data) [] "certificate_create.name" = [].
Proof.
  unfold do_create, iobind at 1, query at 1. unfold iobind at 1, query at 1.
  set (verrors := validate_common_attributes w h data).
  set (stored := stored_names w (h ++ [ValidateCommonAttributes verrors])).
  intros H Hin.
  destruct (Names.validate_cert_name stored (c_name data) verrors
              "certificate_create.name") as [|v vs] eqn:V.
  - clear H Hin. unfold Names.validate_cert_name, Names.add in V.
    assert (A : forall (l : list verror) x, l ++ [x] <> []).
    { intros l x E. apply app_eq_nil in E. destruct E as [_ E].
      discriminate E. }
    unfold Names.validate_cert_name, Names.add.
    destruct (filter (pystr_eqb (c_name data)) stored);
      destruct (Names.is_reserved (c_name data));
      destruct (Names.name_re_search (c_name data));
      try (exfalso; exact (A _ _ V)).
    split; [exact V | reflexivity].
  - exfalso. unfold raise in H. inversion H; subst. cbn [app] in Hin.
    destruct Hin as [Hin|[Hin|[]]]; discriminate Hin.
Qed.

(** A directory that issues for the request [acme_request]. *)
Definition issuing_world : world :=
  example_world [a_example; b_example] (fun _ => Returns true) (Returns tt)
    (Returns issued) [csr_ab].

Lemma create_inserts_only_valid_requests_witness :
  validate_common_attributes issuing_world [] acme_request = [] /\
  Names.validate_cert_name
    (stored_names issuing_world
       ([] ++ [ValidateCommonAttributes
                 (validate_common_attributes issuing_world [] acme_request)]))
    (c_name acme_request) [] "certificate_create.name" = [].
Proof.
  eapply (create_inserts_only_valid_requests issuing_world acme_request []
            (fst (do_create issuing_world acme_request []))
            (snd (do_create issuing_world acme_request []))
            _ _ (Returns 42)).
  - vm_compute. reflexivity.
  - vm_compute. repeat (first [left; reflexivity | right]).
Defined.

End Acme.

(** ** Entity model and chain resolver ([cert_extend])

    Records are Python dicts here, because [cert_extend] depends on which
    keys a dict has and on the type of their values. *)

Module Resolver.

#[local] Unset Elimination Schemes.

Inductive pyval : Type :=
| VNone
| VBool (b : bool)
| VInt (z : Z)
| VStr (s : pystr)
| VList (l : list pyval)
| VDict (d : list (string * pyval)).

#[local] Set Elimination Schemes.

(** A dict with [str] keys, in insertion order. *)
Definition dict : Type := list (string * pyval).

Fixpoint dict_get (k : string) (d : dict) : option pyval :=
  match d with
  | [] => None
  | (k', v) :: rest => if String.eqb k k' then Some v else dict_get k rest
  end.

(** [d[k] = v]. *)
Fixpoint dict_set (k : string) (v : pyval) (d : dict) : dict :=
  match d with
  | [] => [(k, v)]
  | (k', v') :: rest =>
      if String.eqb k k' then (k, v) :: rest else (k', v') :: dict_set k v rest
  end.

(** [del d[k]] (a dict holds a key once). *)
Definition dict_remove (k : string) (d : dict) : dict :=
  filter (fun kv => negb (String.eqb k (fst kv))) d.

(** [d[k]]. *)
Definition getitem (k : string) (d : dict) : result pyval :=
  match dict_get k d with
  | Some v => Ok v
  | None => Raise (KeyError k)
  end.

(** [d.get(k)]. *)
Definition get_or_none (k : string) (d : dict) : pyval :=
  match dict_get k d with
  | Some v => v
  | None => VNone
  end.

(** [d.pop(k)]. *)
Definition pop (k : string) (d : dict) : result dict :=
  match dict_get k d with
  | Some _ => Ok (dict_remove k d)
  | None => Raise (KeyError k)
  end.

(** [d.pop(k, default)]: the value and the dict without the key. *)
Definition pop_default (k : string) (default : pyval) (d : dict)
    : pyval * dict :=
  match dict_get k d with
  | Some v => (v, dict_remove k d)
  | None => (default, d)
  end.

(** [v[k]] for a [str] key: only a dict can be subscripted that way. *)
Definition subscript (v : pyval) (k : string) : result pyval :=
  match v with
  | VDict d => getitem k d
  | _ => Raise TypeError
  end.

(** Truth value of an object. *)
Definition py_truthy (v : pyval) : bool :=
  match v with
  | VNone => false
  | VBool b => b
  | VInt z => negb (z =? 0)
  | VStr s => match s with [] => false | _ => true end
  | VList l => match l with [] => false | _ => true end
  | VDict d => match d with [] => false | _ => true end
  end.

(** The integer an object compares equal to, if any ([True == 1]). *)
Definition int_value (v : pyval) : option Z :=
  match v with
  | VInt z => Some z
  | VBool b => Some (if b then 1 else 0)
  | _ => None
  end.

(** [v in (t1, t2, ...)] for integer constants. *)
Definition in_ints (v : pyval) (ts : list Z) : bool :=
  match int_value v with
  | Some z => existsb (Z.eqb z) ts
  | None => false
  end.

Definition CA_TYPE_EXISTING : Z := 1.
Definition CA_TYPE_INTERNAL : Z := 2.
Definition CA_TYPE_INTERMEDIATE : Z := 4.
Definition CERT_TYPE_EXISTING : Z := 8.
Definition CERT_TYPE_INTERNAL : Z := 16.
Definition CERT_TYPE_CSR : Z := 32.

Definition CERT_ROOT_PATH : pystr := str "/etc/certificates".
Definition CERT_CA_ROOT_PATH : pystr := str "/etc/certificates/CA".

(** *** Collaborators *)

(** A certificate OpenSSL has parsed. *)
Record x509 : Type := {
  x_dump : pystr;                       (* dump_certificate(...).decode() *)
  x_not_before : pystr;
  x_not_after : pystr;
  x_components : list (pystr * pystr);  (* get_subject().get_components() *)
  x_country : option pystr;
  x_state : option pystr;
  x_city : option pystr;
  x_organization : option pystr;
  x_common : option pystr;
  x_san : option pystr;
  x_email : option pystr;
  x_serial : Z;
  (* the signature algorithm up to "with"/"With", upper-cased, if it has one *)
  x_digest_algorithm : option pystr
}.

(** A certificate request OpenSSL has parsed. *)
Record x509req : Type := {
  q_dump : pystr;
  q_components : list (pystr * pystr)
}.

Record env : Type := {
  ucd : Pem.unicode_tables;
  (* crypto.load_certificate; None when it raises *)
  load_certificate : pystr -> option x509;
  (* crypto.load_privatekey followed by dump_privatekey *)
  reload_privatekey : pystr -> option pystr;
  load_certificate_request : pystr -> option x509req;
  (* dateutil.parser.parse(t).astimezone(tzutc()).ctime() *)
  utc_ctime : pystr -> pystr;
  (* int(s) for a str; None when it raises ValueError *)
  int_of_str : pystr -> option Z;
  (* str(v) for an object that is not a str *)
  str_of : pyval -> pystr;
  (* export_private_key(key, passphrase); None when the key does not load *)
  export_private_key : pyval -> pyval -> option pystr;
  (* rows of system.certificateauthority, as datastore.query reads them
     before the extend hook *)
  ca_rows : list dict;
  (* what certificate.query answers *)
  certificate_rows : list dict
}.

(** A computation that writes to the debug log. *)
Definition logged (A : Type) : Type := (list pystr * result A)%type.

Definition lret {A} (a : A) : logged A := ([], Ok a).

Definition lbind {A B} (m : logged A) (k : A -> logged B) : logged B :=
  match m with
  | (l1, Ok a) => let (l2, r) := k a in (l1 ++ l2, r)
  | (l1, Raise e) => (l1, Raise e)
  | (l1, OutOfFuel) => (l1, OutOfFuel)
  end.

(** A step that does not log. *)
Definition quiet {A} (r : result A) : logged A := ([], r).

Declare Scope logged_scope.
Delimit Scope logged_scope with logged.
Notation "x <- c ;; k" := (lbind c (fun x => k))
  (at level 61, c at next level, right associativity) : logged_scope.

(** *** Small pieces of [cert_extend] *)

Section WithEnv.

Variable E : env.

Definition is_space (c : N) : bool :=
  if (c <? 128)%N then Pem.ascii_space c else Pem.uni_isspace (ucd E) c.

(** [s.split()]: the maximal runs without whitespace; [cur] is the run
    being read, last character first. *)
Fixpoint split_from (cur : pystr) (s : pystr) : list pystr :=
  match s with
  | [] => match cur with [] => [] | _ => [rev cur] end
  | c :: rest =>
      if is_space c
      then match cur with
           | [] => split_from [] rest
           | _ => rev cur :: split_from [] rest
           end
      else split_from (c :: cur) rest
  end.

Definition py_split (s : pystr) : list pystr := split_from [] s.

(** ['{0}'.format(v)]. *)
Definition format (v : pyval) : pystr :=
  match v with
  | VStr s => s
  | _ => str_of E v
  end.

(** [os.path.join(root, file)] for a [root] that does not end in a slash. *)
Definition path_join (root file : pystr) : pystr :=
  match file with
  | 47%N :: _ => file
  | _ => root ++ str "/" ++ file
  end.

(** [int(v)]. *)
Definition py_int (v : pyval) : result pyval :=
  match v with
  | VInt z => Ok (VInt z)
  | VBool b => Ok (VInt (if b then 1 else 0))
  | VStr s =>
      match int_of_str E s with
      | Some z => Ok (VInt z)
      | None => Raise ValueError
      end
  | _ => Raise TypeError
  end.

(** The inner [cert_issuer]. *)
Definition cert_issuer (cert : dict) : result pyval :=
  t <- getitem "type" cert ;;
  if in_ints t [CA_TYPE_EXISTING; CERT_TYPE_EXISTING] then
    Ok (VStr (str "external"))
  else if in_ints t [CA_TYPE_INTERNAL] then
    Ok (VStr (str "self-signed"))
  else if in_ints t [CERT_TYPE_INTERNAL; CA_TYPE_INTERMEDIATE] then
    getitem "signedby" cert
  else if in_ints t [CERT_TYPE_CSR] then
    Ok (VStr (str "external - signature pending"))
  else Ok VNone.

(** Whether [cert_issuer] answers with the object under ['signedby']. *)
Definition issuer_is_signedby (cert : dict) : bool :=
  match dict_get "type" cert with
  | Some t =>
      negb (in_ints t [CA_TYPE_EXISTING; CERT_TYPE_EXISTING])
      && negb (in_ints t [CA_TYPE_INTERNAL])
      && in_ints t [CERT_TYPE_INTERNAL; CA_TYPE_INTERMEDIATE]
  | None => false
  end.

(** [v in ["external", "self-signed", "external - signature pending", None]]. *)
Definition is_terminal (v : pyval) : bool :=
  match v with
  | VNone => true
  | VStr s => Names.is_reserved s
  | _ => false
  end.

(** The object [d] after the loop has gone on into the object [issuer]
    found under its ['issuer'] key and left it as [issuer']: ['issuer'] is
    that object, and so is ['signedby'] when [cert_issuer] took it from
    there (both keys name one object). *)
Definition write_back (d : dict) (issuer' : pyval) : dict :=
  let d := dict_set "issuer" issuer' d in
  if issuer_is_signedby d then dict_set "signedby" issuer' d else d.

(** The [while] loop: the certificates it appends to [certs] and the
    object [signing_CA] started from, as the loop leaves it. *)
Fixpoint walk (fuel : nat) (signing_CA : pyval)
    : result (list pyval * pyval) :=
  if is_terminal signing_CA then Ok ([], signing_CA)
  else
    match fuel with
    | O => OutOfFuel
    | S f =>
        c <- subscript signing_CA "certificate" ;;
        match signing_CA with
        | VDict d =>
            issuer <- cert_issuer d ;;
            r <- walk f issuer ;;
            Ok (c :: fst r, VDict (write_back d (snd r)))
        | _ => Raise TypeError
        end
    end.

(** [crypto.load_certificate(crypto.FILETYPE_PEM, c)] on any object; [None]
    when it raises. *)
Definition load_any (c : pyval) : option x509 :=
  match c with
  | VStr s => load_certificate E s
  | _ => None
  end.

(** The [try] block around [for c in certs]: the chain list, [cert_obj],
    and whether the block was left by an exception. *)
Fixpoint load_chain (certs : list pyval) (chain_list : list pystr)
    (cert_obj : option x509) : list pystr * option x509 * bool :=
  match certs with
  | [] => (chain_list, cert_obj, false)
  | c :: rest =>
      if py_truthy c then
        match load_any c with
        | Some x => load_chain rest (chain_list ++ [x_dump x]) (Some x)
        | None => (chain_list, cert_obj, true)
        end
      else load_chain rest chain_list cert_obj
  end.

(** The [try] block around the private key: the dict and whether the block
    was left by an exception. *)
Definition refresh_privatekey (cert : dict) : dict * bool :=
  match dict_get "privatekey" cert with
  | None => (cert, true)
  | Some v =>
      if py_truthy v then
        match v with
        | VStr s =>
            match reload_privatekey E s with
            | Some dumped => (dict_set "privatekey" (VStr dumped) cert, false)
            | None => (cert, true)
            end
        | _ => (cert, true)
        end
      else (cert, false)
  end.

(** The [try] block around the CSR: the dict, [csr_obj] if the block has
    bound it, and whether the block was left by an exception. *)
Definition refresh_csr (cert : dict) : dict * option x509req * bool :=
  match dict_get "CSR" cert with
  | None => (cert, None, true)
  | Some v =>
      if py_truthy v then
        match v with
        | VStr s =>
            match load_certificate_request E s with
            | Some q => (dict_set "CSR" (VStr (q_dump q)) cert, Some q, false)
            | None => (cert, None, true)
            end
        | _ => (cert, None, true)
        end
      else (cert, None, false)
  end.

Fixpoint join_with (sep : pystr) (parts : list pystr) : pystr :=
  match parts with
  | [] => []
  | [p] => p
  | p :: rest => p ++ sep ++ join_with sep rest
  end.

(** ['/' + '/'.join('%s=%s' % (c[0], c[1]) for c in components)]. *)
Definition distinguished_name (components : list (pystr * pystr)) : pystr :=
  str "/" ++ join_with (str "/")
                (map (fun c => fst c ++ str "=" ++ snd c) components).

Definition log_if (failed : bool) (message : pystr) : logged unit :=
  if failed then ([message], Ok tt) else ([], Ok tt).

Definition acme_keys : list string :=
  ["acme"; "acme_uri"; "domains_authenticators"; "renew_days"]%string.

(** [for key in keys: cert.pop(key)]. *)
Fixpoint pop_each (keys : list string) (cert : dict) : result dict :=
  match keys with
  | [] => Ok cert
  | key :: rest => cert' <- pop key cert ;; pop_each rest cert'
  end.

End WithEnv.

(** *** [cert_extend] *)

Section Extend.

Variable E : env.

Definition row_has_id (i : pyval) (row : dict) : bool :=
  match i, dict_get "id" row with
  | VInt a, Some (VInt b) => a =? b
  | _, _ => false
  end.

(** [datastore.query('system.certificateauthority', [('id', '=', i)],
    {'prefix': 'cert_', 'extend': 'certificate.cert_extend', 'get': True})];
    [id] is the primary key of the table. *)
Definition query_ca_get (extend : dict -> logged dict) (i : pyval)
    : logged dict :=
  match filter (row_has_id i) (ca_rows E) with
  | row :: _ => extend row
  | [] => quiet (Raise (OtherError "IndexError"))
  end.

Definition resolve_signedby (extend : dict -> logged dict) (cert : dict)
    : logged dict :=
  if py_truthy (get_or_none "signedby" cert) then
    (sb <- quiet (getitem "signedby" cert) ;;
     i <- quiet (subscript sb "id") ;;
     parent <- query_ca_get extend i ;;
     lret (dict_set "signedby" (VDict parent) cert))%logged
  else lret cert.

(** [if not cert.get('acme'): for key in [...]: cert.pop(key)]. *)
Definition drop_acme_keys (cert : dict) : result dict :=
  if py_truthy (get_or_none "acme" cert) then Ok cert
  else pop_each acme_keys cert.

(** [cert['san'] = (cert.pop('san', '') or '').split()]. *)
Definition convert_san (cert : dict) : result dict :=
  let (v, cert) := pop_default "san" (VStr []) cert in
  let v := if py_truthy v then v else VStr [] in
  match v with
  | VStr s => Ok (dict_set "san" (VList (map VStr (py_split E s))) cert)
  | _ => Raise (AttributeError "split")
  end.

Definition convert_serial (cert : dict) : result dict :=
  serial <- getitem "serial" cert ;;
  match serial with
  | VNone => Ok cert
  | _ => z <- py_int E serial ;; Ok (dict_set "serial" z cert)
  end.

Definition set_paths (cert : dict) : result dict :=
  t <- getitem "type" cert ;;
  let root_path :=
    if in_ints t [CA_TYPE_EXISTING; CA_TYPE_INTERNAL; CA_TYPE_INTERMEDIATE]
    then CERT_CA_ROOT_PATH else CERT_ROOT_PATH in
  let cert := dict_set "root_path" (VStr root_path) cert in
  name <- getitem "name" cert ;;
  let file := fun ext => VStr (path_join root_path (format E name ++ str ext)) in
  let cert := dict_set "certificate_path" (file ".crt"%string) cert in
  let cert := dict_set "privatekey_path" (file ".key"%string) cert in
  let cert := dict_set "csr_path" (file ".csr"%string) cert in
  Ok cert.

(** The [if cert['chain']: ... else: ...] statement: the list [certs], and
    the dict as the loop leaves it. *)
Definition gather_certs (fuel : nat) (cert : dict)
    : result (list pyval * dict) :=
  chain <- getitem "chain" cert ;;
  if py_truthy chain then
    c <- getitem "certificate" cert ;;
    match c with
    | VStr s => Ok (map VStr (Pem.findall (ucd E) s), cert)
    | _ => Raise TypeError
    end
  else
    c <- getitem "certificate" cert ;;
    signing_CA <- getitem "issuer" cert ;;
    r <- walk fuel signing_CA ;;
    Ok (c :: fst r, write_back cert (snd r)).

(** From [obj = None] to the end. *)
Definition finish (cert : dict) (t : pyval) (cert_obj : option x509)
    (csr_obj : option x509req) : result dict :=
  if in_ints t [CERT_TYPE_CSR] then
    match csr_obj with
    | None => Raise (UnboundLocalError "csr_obj")
    | Some q =>
        Ok (dict_set "DN" (VStr (distinguished_name (q_components q))) cert)
    end
  else
    match cert_obj with
    | None => Ok cert
    | Some _ =>
        c <- getitem "certificate" cert ;;
        match load_any E c with
        | None => Raise CryptoError
        | Some obj =>
            let cert :=
              dict_set "from" (VStr (utc_ctime E (x_not_before obj))) cert in
            let cert :=
              dict_set "until" (VStr (utc_ctime E (x_not_after obj))) cert in
            Ok (dict_set "DN"
                  (VStr (distinguished_name (x_components obj))) cert)
        end
    end.

Definition internal_label (t : pyval) : pyval :=
  VStr (if in_ints t [CA_TYPE_EXISTING; CERT_TYPE_EXISTING]
        then str "NO" else str "YES").

Local Open Scope logged_scope.

(** Everything after the [signedby] query. *)
Definition extend_rest (fuel : nat) (cert : dict) : logged dict :=
  cert <- quiet (drop_acme_keys cert) ;;
  cert <- quiet (convert_san cert) ;;
  cert <- quiet (convert_serial cert) ;;
  cert <- quiet (set_paths cert) ;;
  issuer <- quiet (cert_issuer cert) ;;
  let cert := dict_set "issuer" issuer cert in
  let cert := dict_set "chain_list" (VList []) cert in
  gathered <- quiet (gather_certs fuel cert) ;;
  let certs := fst gathered in
  let cert := snd gathered in
  let name := format E (get_or_none "name" cert) in
  let loaded := load_chain E certs [] None in
  let cert := dict_set "chain_list" (VList (map VStr (fst (fst loaded)))) cert in
  _ <- log_if (snd loaded) (str "Failed to load certificate " ++ name) ;;
  let key := refresh_privatekey E cert in
  _ <- log_if (snd key) (str "Failed to load privatekey " ++ name) ;;
  let csr := refresh_csr E (fst key) in
  _ <- log_if (snd csr) (str "Failed to load csr " ++ name) ;;
  let cert := fst (fst csr) in
  t <- quiet (getitem "type" cert) ;;
  let cert := dict_set "internal" (internal_label t) cert in
  let cert := dict_set "from" VNone cert in
  let cert := dict_set "until" VNone cert in
  quiet (finish cert t (snd (fst loaded)) (snd (fst csr))).

Fixpoint cert_extend (fuel : nat) (cert : dict) : logged dict :=
  match fuel with
  | O => ([], OutOfFuel)
  | S f =>
      cert <- resolve_signedby (cert_extend f) cert ;;
      extend_rest f cert
  end.

Local Close Scope logged_scope.

(** *** [__create_imported_certificate] *)

Definition of_option (o : option pystr) : pyval :=
  match o with
  | Some s => VStr s
  | None => VNone
  end.

(** [CertificateService.load_certificate]. *)
Definition service_load_certificate (certificate : pyval) : dict :=
  match load_any E certificate with
  | None => []
  | Some x =>
      [("country"%string, of_option (x_country x));
       ("state"%string, of_option (x_state x));
       ("city"%string, of_option (x_city x));
       ("organization"%string, of_option (x_organization x));
       ("common"%string, of_option (x_common x));
       ("san"%string, of_option (x_san x));
       ("email"%string, of_option (x_email x));
       ("serial"%string, VInt (x_serial x))]
      ++ match x_digest_algorithm x with
         | Some d => [("digest_algorithm"%string, VStr d)]
         | None => []
         end
  end.

(** [for k, v in info.items(): data[k] = v]. *)
Definition update_from (info : dict) (data : dict) : dict :=
  fold_left (fun d kv => dict_set (fst kv) (snd kv) d) info data.

(** [__create_certificate]. *)
Definition create_certificate (data : dict) : result dict :=
  c <- getitem "certificate" data ;;
  Ok (update_from (service_load_certificate c) data).

Definition is_none (v : pyval) : bool :=
  match v with VNone => true | _ => false end.

Definition chain_flag (certificate : pyval) : result pyval :=
  match certificate with
  | VStr s => Ok (VBool (1 <? List.length (Pem.findall (ucd E) s))%nat)
  | _ => Raise TypeError
  end.

Definition create_imported_certificate (data : dict) : result dict :=
  let (csr_id, data) := pop_default "csr_id" VNone data in
  data <-
    (if py_truthy csr_id then
       match filter (fun r => row_has_id csr_id r
                              && negb (is_none (get_or_none "CSR" r)))
                    (certificate_rows E) with
       | [] =>
           Raise (ValidationErrors
                    [("certificate_create.csr_id"%string,
                      str "No CSR exists with id " ++ format E csr_id)])
       | csr_obj :: _ =>
           pk <- getitem "privatekey" csr_obj ;;
           Ok (snd (pop_default "passphrase" VNone
                      (dict_set "privatekey" pk data)))
       end
     else if py_truthy (get_or_none "privatekey" data) then Ok data
     else
       Raise (ValidationErrors
                [("certificate_create.privatekey"%string,
                  str "Private key is required when importing a certificate")])) ;;
  let data := dict_set "type" (VInt CERT_TYPE_EXISTING) data in
  data <- create_certificate data ;;
  c <- getitem "certificate" data ;;
  chain <- chain_flag c ;;
  let data := dict_set "chain" chain data in
  data <-
    match dict_get "passphrase" data with
    | Some passphrase =>
        pk <- getitem "privatekey" data ;;
        Ok (dict_set "privatekey"
              (of_option (export_private_key E pk passphrase)) data)
    | None => Ok data
    end ;;
  Ok (snd (pop_default "passphrase" VNone data)).

End Extend.

(** *** An example store *)

Definition block_c : pystr :=
  str "-----BEGIN CERTIFICATE-----" ++ Pem.LF ++ str "MIIBcccc" ++ Pem.LF
    ++ str "-----END CERTIFICATE-----".

(** A block with the shape of a certificate that OpenSSL does not parse. *)
Definition block_corrupt : pystr :=
  str "-----BEGIN CERTIFICATE-----" ++ Pem.LF ++ str "!!!!" ++ Pem.LF
    ++ str "-----END CERTIFICATE-----".

Definition parsed (block subject : pystr) (serial : Z) : x509 :=
  {| x_dump := block ++ Pem.LF;
     x_not_before := str "20190101000000Z";
     x_not_after := str "20290101000000Z";
     x_components := [(str "CN", subject)];
     x_country := None; x_state := None; x_city := None;
     x_organization := None; x_common := Some subject; x_san := None;
     x_email := None; x_serial := serial;
     x_digest_algorithm := Some (str "SHA256") |}.

Definition parse_block (b : pystr) : option x509 :=
  if pystr_eqb b Pem.block_a then Some (parsed Pem.block_a (str "a") 5)
  else if pystr_eqb b Pem.block_b then Some (parsed Pem.block_b (str "b") 7)
  else if pystr_eqb b block_c then Some (parsed block_c (str "c") 9)
  else None.

(** OpenSSL reads the first certificate of a text. *)
Definition parse_first (s : pystr) : option x509 :=
  match Pem.findall Pem.ascii_only s with
  | b :: _ => parse_block b
  | [] => None
  end.

(** A row as [datastore.query] reads it before the extend hook. *)
Definition raw_row (i : Z) (name : pystr) (type : Z) (certificate signedby : pyval)
    (chain : bool) (san : pystr) (acme : pyval) : dict :=
  [("id"%string, VInt i); ("type"%string, VInt type);
   ("name"%string, VStr name); ("certificate"%string, certificate);
   ("privatekey"%string, VNone); ("CSR"%string, VNone);
   ("signedby"%string, signedby); ("serial"%string, VInt 5);
   ("chain"%string, VBool chain); ("san"%string, VStr san);
   ("acme"%string, acme); ("acme_uri"%string, VNone);
   ("domains_authenticators"%string, VNone); ("renew_days"%string, VInt 10)].

Definition root_ca_row : dict :=
  raw_row 1 (str "root") CA_TYPE_INTERNAL (VStr (Pem.block_a ++ Pem.LF)) VNone
    false [] VNone.

(** An intermediate CA whose stored certificate is corrupt. *)
Definition corrupt_ca_row : dict :=
  raw_row 2 (str "mid") CA_TYPE_INTERMEDIATE (VStr (block_corrupt ++ Pem.LF))
    (VDict [("id"%string, VInt 1)]) false [] VNone.

Definition example_env : env :=
  {| ucd := Pem.ascii_only;
     load_certificate := parse_first;
     reload_privatekey := fun s => Some s;
     load_certificate_request := fun s =>
       Some {| q_dump := s; q_components := [] |};
     utc_ctime := fun t => t;
     int_of_str := fun _ => None;
     str_of := fun _ => str "?";
     export_private_key := fun k _ =>
       match k with VStr s => Some s | _ => None end;
     ca_rows := [root_ca_row; corrupt_ca_row];
     certificate_rows := [] |}.

(** An imported certificate whose text holds two blocks. *)
Definition bundle_row : dict :=
  raw_row 10 (str "bundle") CERT_TYPE_EXISTING
    (VStr (Pem.block_a ++ Pem.LF ++ Pem.block_b ++ Pem.LF)) VNone true
    (str "a.example.com b.example.com") VNone.

(** An imported certificate whose text holds three blocks, the second of
    which is corrupt. *)
Definition damaged_bundle_row : dict :=
  raw_row 11 (str "damaged") CERT_TYPE_EXISTING
    (VStr (Pem.block_a ++ Pem.LF ++ block_corrupt ++ Pem.LF ++ block_c ++ Pem.LF))
    VNone true [] VNone.

(** A certificate signed by the root CA. *)
Definition leaf_row : dict :=
  raw_row 12 (str "leaf") CERT_TYPE_INTERNAL (VStr (Pem.block_b ++ Pem.LF))
    (VDict [("id"%string, VInt 1)]) false [] VNone.

(** A certificate signed by the corrupt intermediate CA. *)
Definition leaf_under_corrupt_row : dict :=
  raw_row 13 (str "leaf2") CERT_TYPE_INTERNAL (VStr (Pem.block_b ++ Pem.LF))
    (VDict [("id"%string, VInt 2)]) false [] VNone.

(** An ACME-issued certificate. *)
Definition acme_row : dict :=
  raw_row 14 (str "acme") CERT_TYPE_EXISTING
    (VStr (Pem.block_a ++ Pem.LF ++ Pem.block_b ++ Pem.LF)) VNone true
    (str "a.example.com")
    (VDict [("id"%string, VInt 1);
            ("directory"%string, VStr (str "https://acme.example/dir"))]).

Definition chain_list_of (r : logged dict) : option pyval :=
  match snd r with
  | Ok d => dict_get "chain_list" d
  | _ => None
  end.

Definition dump_a : pyval := VStr (Pem.block_a ++ Pem.LF).
Definition dump_b : pyval := VStr (Pem.block_b ++ Pem.LF).
Definition dump_c : pyval := VStr (block_c ++ Pem.LF).

Example bundle_extended :
  chain_list_of (cert_extend example_env 1 bundle_row)
    = Some (VList [dump_a; dump_b]) /\
  fst (cert_extend example_env 1 bundle_row) = [].
Proof. vm_compute. split; reflexivity. Qed.

Example leaf_extended :
  chain_list_of (cert_extend example_env 2 leaf_row)
    = Some (VList [dump_b; dump_a]).
Proof. vm_compute. reflexivity. Qed.

Example damaged_bundle_extended :
  chain_list_of (cert_extend example_env 1 damaged_bundle_row)
    = Some (VList [dump_a]) /\
  fst (cert_extend example_env 1 damaged_bundle_row)
    = [str "Failed to load certificate damaged"].
Proof. vm_compute. split; reflexivity. Qed.

Example leaf_under_corrupt_extended :
  chain_list_of (cert_extend example_env 3 leaf_under_corrupt_row)
    = Some (VList [dump_b]) /\
  fst (cert_extend example_env 3 leaf_under_corrupt_row)
    = [str "Failed to load certificate mid";
       str "Failed to load certificate leaf2"].
Proof. vm_compute. split; reflexivity. Qed.

(** *** Facts about dicts *)

Lemma dict_get_set_same (k : string) (v : pyval) (d : dict) :
  dict_get k (dict_set k v d) = Some v.
Proof.
  induction d as [|[k' v'] rest IH]; simpl.
  - now rewrite String.eqb_refl.
  - destruct (String.eqb k k') eqn:E; simpl.
    + now rewrite String.eqb_refl.
    + now rewrite E.
Qed.

Lemma dict_get_set_other (k k' : string) (v : pyval) (d : dict) :
  k <> k' -> dict_get k (dict_set k' v d) = dict_get k d.
Proof.
  intros Hk. apply String.eqb_neq in Hk.
  induction d as [|[k0 v0] rest IH]; simpl.
  - now rewrite Hk.
  - destruct (String.eqb k' k0) eqn:E; simpl.
    + apply String.eqb_eq in E. subst k0. now rewrite Hk.
    + destruct (String.eqb k k0); auto.
Qed.

Lemma dict_get_remove_same (k : string) (d : dict) :
  dict_get k (dict_remove k d) = None.
Proof.
  unfold dict_remove. induction d as [|[k' v'] rest IH]; simpl; auto.
  destruct (String.eqb k k') eqn:E; simpl; auto. now rewrite E.
Qed.

Lemma dict_get_remove_other (k k' : string) (d : dict) :
  k <> k' -> dict_get k (dict_remove k' d) = dict_get k d.
Proof.
  intros Hk. unfold dict_remove.
  induction d as [|[k0 v0] rest IH]; simpl; auto.
  destruct (String.eqb k' k0) eqn:E; simpl.
  - apply String.eqb_eq in E. subst k0.
    apply String.eqb_neq in Hk. now rewrite Hk.
  - destruct (String.eqb k k0); auto.
Qed.

Lemma dict_remove_absent (k : string) (d : dict) :
  dict_get k d = None -> dict_remove k d = d.
Proof.
  unfold dict_remove. induction d as [|[k' v'] rest IH]; simpl; auto.
  destruct (String.eqb k k') eqn:E; [discriminate|].
  simpl. intros H. f_equal. now apply IH.
Qed.

(** [writes ks d d']: [d'] is [d] after assignments to and removals of keys
    of [ks]. *)
Inductive writes (ks : list string) (d : dict) : dict -> Prop :=
| writes_none : writes ks d d
| writes_set : forall d' k v,
    writes ks d d' -> In k ks -> writes ks d (dict_set k v d')
| writes_remove : forall d' k,
    writes ks d d' -> In k ks -> writes ks d (dict_remove k d').

Lemma writes_frame (ks : list string) (d d' : dict) :
  writes ks d d' -> forall k, ~ In k ks -> dict_get k d' = dict_get k d.
Proof.
  induction 1 as [|d' k' v W IH Hin|d' k' W IH Hin]; intros k Hk; auto.
  - rewrite dict_get_set_other; auto. intros ->. contradiction.
  - rewrite dict_get_remove_other; auto. intros ->. contradiction.
Qed.

Lemma writes_trans (ks : list string) (d1 d2 d3 : dict) :
  writes ks d1 d2 -> writes ks d2 d3 -> writes ks d1 d3.
Proof.
  intros W1 W2. induction W2; auto; constructor; auto.
Qed.

Lemma writes_incl (ks ks' : list string) (d d' : dict) :
  incl ks ks' -> writes ks d d' -> writes ks' d d'.
Proof.
  intros Hi W. induction W; constructor; auto.
Qed.

(** One assignment or removal. *)
Lemma writes_set1 (ks : list string) (d : dict) (k : string) (v : pyval) :
  In k ks -> writes ks d (dict_set k v d).
Proof. intros H. constructor; [constructor | exact H]. Qed.

Lemma writes_remove1 (ks : list string) (d : dict) (k : string) :
  In k ks -> writes ks d (dict_remove k d).
Proof. intros H. constructor; [constructor | exact H]. Qed.

(** *** What each step of [cert_extend] writes *)

Lemma lbind_quiet_ok {A B} (r : result A) (k : A -> logged B)
    (log : list pystr) (b : B) :
  lbind (quiet r) k = (log, Ok b) -> exists a, r = Ok a /\ k a = (log, Ok b).
Proof.
  unfold lbind, quiet. destruct r as [a| |];
    try (intros H; discriminate H).
  destruct (k a) as [l2 r2] eqn:K. simpl. intros H. inversion H; subst.
  exists a. auto.
Qed.

Lemma lbind_ok {A B} (m : logged A) (k : A -> logged B)
    (log : list pystr) (b : B) :
  lbind m k = (log, Ok b) ->
  exists l1 a l2, m = (l1, Ok a) /\ k a = (l2, Ok b) /\ log = l1 ++ l2.
Proof.
  unfold lbind. destruct m as [l1 [a| |]];
    try (intros H; discriminate H).
  destruct (k a) as [l2 r2] eqn:K. intros H. inversion H; subst.
  exists l1, a, l2. auto.
Qed.

Lemma lbind_log_if_ok {B} (failed : bool) (m : pystr) (k : unit -> logged B)
    (log : list pystr) (b : B) :
  lbind (log_if failed m) k = (log, Ok b) ->
  exists l2, k tt = (l2, Ok b) /\ log = (if failed then [m] else []) ++ l2.
Proof.
  unfold lbind, log_if. destruct failed; destruct (k tt) as [l2 r2] eqn:K;
    intros H; inversion H; subst; eauto.
Qed.

Lemma pop_ok (k : string) (d d' : dict) :
  pop k d = Ok d' -> d' = dict_remove k d.
Proof. unfold pop. destruct (dict_get k d); intros H; now inversion H. Qed.

Lemma pop_each_ok (ks : list string) :
  forall d d', pop_each ks d = Ok d' ->
    writes ks d d' /\ forall k, In k ks -> dict_get k d' = None.
Proof.
  induction ks as [|k0 rest IH]; intros d d' H; simpl in H.
  - inversion H; subst. split; [constructor | intros k []].
  - apply bind_ok in H. destruct H as [d1 [H1 H2]].
    apply pop_ok in H1. subst d1. destruct (IH _ _ H2) as [W N]. split.
    + eapply writes_trans.
      * apply writes_remove1. now left.
      * eapply writes_incl; [|exact W]. intros x Hx. now right.
    + intros k [<-|Hin]; [|now apply N].
      destruct (in_dec string_dec k0 rest) as [Hin|Hout]; [now apply N|].
      rewrite (writes_frame _ _ _ W _ Hout). apply dict_get_remove_same.
Qed.

Section StepFacts.

Variable E : env.

Lemma convert_san_ok (d d' : dict) :
  convert_san E d = Ok d' ->
  exists s,
    d' = dict_set "san" (VList (map VStr (py_split E s))) (dict_remove "san" d) /\
    (forall s0, dict_get "san" d = Some (VStr s0) -> s = s0).
Proof.
  unfold convert_san, pop_default.
  destruct (dict_get "san" d) as [v|] eqn:G.
  - destruct (py_truthy v) eqn:T.
    + destruct v; try discriminate. intros H. inversion H; subst.
      exists s. split; [reflexivity|]. intros s0 H0. now inversion H0.
    + intros H. inversion H; subst. exists []. split; [reflexivity|].
      intros s0 H0. inversion H0; subst. simpl in T.
      destruct s0; [reflexivity | discriminate].
  - simpl. intros H. inversion H; subst. exists []. split.
    + now rewrite (dict_remove_absent _ _ G).
    + intros s0 H0. discriminate.
Qed.

Lemma convert_serial_ok (d d' : dict) :
  convert_serial E d = Ok d' -> writes ["serial"%string] d d'.
Proof.
  unfold convert_serial. intros H. apply bind_ok in H.
  destruct H as [serial [_ H]].
  assert (G : forall r, (z <- r ;; Ok (dict_set "serial" z d)) = Ok d' ->
                writes ["serial"%string] d d').
  { intros r Hr. apply bind_ok in Hr. destruct Hr as [z [_ Hr]].
    inversion Hr; subst. apply writes_set1. now left. }
  destruct serial; try (now apply (G _ H)).
  inversion H; subst. apply writes_none.
Qed.

Definition path_keys : list string :=
  ["root_path"; "certificate_path"; "privatekey_path"; "csr_path"]%string.

Lemma set_paths_ok (d d' : dict) :
  set_paths E d = Ok d' -> writes path_keys d d'.
Proof.
  unfold set_paths. intros H. apply bind_ok in H. destruct H as [t [_ H]].
  apply bind_ok in H. destruct H as [name [_ H]]. inversion H; subst.
  repeat (apply writes_set; [|unfold path_keys; simpl; tauto]).
  constructor.
Qed.

Lemma write_back_writes (d : dict) (v : pyval) :
  writes ["issuer"; "signedby"]%string d (write_back d v).
Proof.
  unfold write_back. destruct (issuer_is_signedby _).
  - apply writes_set; [apply writes_set1|]; simpl; tauto.
  - apply writes_set1; simpl; tauto.
Qed.

Lemma gather_certs_ok (fuel : nat) (d d' : dict) (certs : list pyval) :
  gather_certs E fuel d = Ok (certs, d') ->
  writes ["issuer"; "signedby"]%string d d'.
Proof.
  unfold gather_certs. intros H. apply bind_ok in H.
  destruct H as [chain [_ H]]. destruct (py_truthy chain).
  - apply bind_ok in H. destruct H as [c [_ H]].
    destruct c; try discriminate. inversion H; subst. constructor.
  - apply bind_ok in H. destruct H as [c [_ H]].
    apply bind_ok in H. destruct H as [s [_ H]].
    apply bind_ok in H. destruct H as [r [_ H]].
    inversion H; subst. apply write_back_writes.
Qed.

Lemma refresh_privatekey_writes (d : dict) :
  writes ["privatekey"%string] d (fst (refresh_privatekey E d)).
Proof.
  unfold refresh_privatekey. destruct (dict_get "privatekey" d) as [v|];
    [|constructor].
  destruct (py_truthy v); [|constructor].
  destruct v; try constructor.
  destruct (reload_privatekey E s); simpl; [|constructor].
  apply writes_set1. now left.
Qed.

Lemma refresh_csr_writes (d : dict) :
  writes ["CSR"%string] d (fst (fst (refresh_csr E d))).
Proof.
  unfold refresh_csr. destruct (dict_get "CSR" d) as [v|]; [|constructor].
  destruct (py_truthy v); [|constructor].
  destruct v; try constructor.
  destruct (load_certificate_request E s); simpl; [|constructor].
  apply writes_set1. now left.
Qed.

Lemma finish_ok (d d' : dict) (t : pyval) (co : option x509)
    (qo : option x509req) :
  finish E d t co qo = Ok d' -> writes ["from"; "until"; "DN"]%string d d'.
Proof.
  unfold finish. destruct (in_ints t [CERT_TYPE_CSR]).
  - destruct qo; intros H; inversion H; subst.
    apply writes_set1. simpl. tauto.
  - destruct co; intros H; [|inversion H; subst; constructor].
    apply bind_ok in H. destruct H as [c [_ H]].
    destruct (load_any E c); inversion H; subst.
    repeat (apply writes_set; [|simpl; tauto]). constructor.
Qed.

End StepFacts.

(** *** What [cert_extend] returns *)

(** Keys written after [san] has been converted, and after [chain_list]
    has been filled. *)
Definition later_keys : list string :=
  ["serial"; "root_path"; "certificate_path"; "privatekey_path"; "csr_path";
   "issuer"; "chain_list"; "signedby"; "privatekey"; "CSR"; "internal";
   "from"; "until"; "DN"]%string.

Definition after_chain_keys : list string :=
  ["privatekey"; "CSR"; "internal"; "from"; "until"; "DN"]%string.

(** Keys [cert_extend] never writes. *)
Definition kept (k : string) : Prop :=
  ~ In k (("san"%string :: acme_keys) ++ later_keys)%list.

Ltac in_keys := simpl; tauto.

Section ExtendFacts.

Variable E : env.

Lemma drop_acme_keys_ok (d d' : dict) :
  drop_acme_keys d = Ok d' ->
  writes acme_keys d d' /\
  (py_truthy (get_or_none "acme" d) = true -> d' = d) /\
  (py_truthy (get_or_none "acme" d) = false ->
     forall k, In k acme_keys -> dict_get k d' = None).
Proof.
  unfold drop_acme_keys. destruct (py_truthy (get_or_none "acme" d)).
  - intros H. inversion H; subst. repeat split; [constructor | discriminate].
  - intros H. destruct (pop_each_ok _ _ _ H) as [W N].
    repeat split; [exact W | discriminate | intros _; exact N].
Qed.

(** The steps of [extend_rest], made explicit for a run that returns. *)
Lemma extend_rest_inv (fuel : nat) (cert out : dict) (log : list pystr) :
  extend_rest E fuel cert = (log, Ok out) ->
  exists c1 c2 c4 issuer certs c5,
    drop_acme_keys cert = Ok c1 /\
    convert_san E c1 = Ok c2 /\
    writes later_keys c2 c4 /\
    gather_certs E fuel
      (dict_set "chain_list" (VList []) (dict_set "issuer" issuer c4))
      = Ok (certs, c5) /\
    writes after_chain_keys
      (dict_set "chain_list"
         (VList (map VStr (fst (fst (load_chain E certs [] None))))) c5)
      out /\
    (snd (load_chain E certs [] None) = true ->
     In (str "Failed to load certificate " ++ format E (get_or_none "name" c5))
        log).
Proof.
  unfold extend_rest. intros H.
  apply lbind_quiet_ok in H. destruct H as [c1 [H1 H]].
  apply lbind_quiet_ok in H. destruct H as [c2 [H2 H]].
  apply lbind_quiet_ok in H. destruct H as [c3 [H3 H]].
  apply lbind_quiet_ok in H. destruct H as [c4 [H4 H]].
  apply lbind_quiet_ok in H. destruct H as [issuer [H5 H]].
  apply lbind_quiet_ok in H. destruct H as [[certs c5] [H6 H]].
  cbn [fst snd] in H.
  apply lbind_log_if_ok in H. destruct H as [l2 [H L2]].
  apply lbind_log_if_ok in H. destruct H as [l3 [H L3]].
  apply lbind_log_if_ok in H. destruct H as [l4 [H L4]].
  apply lbind_quiet_ok in H. destruct H as [t [H7 H]].
  unfold quiet in H. inversion H as [[Hl Hf]]. clear H.
  apply finish_ok in Hf.
  exists c1, c2, c4, issuer, certs, c5.
  split; [exact H1|]. split; [exact H2|]. split.
  { eapply writes_trans.
    - eapply writes_incl; [|apply (convert_serial_ok E _ _ H3)].
      intros k [<-|[]]. in_keys.
    - eapply writes_incl; [|apply (set_paths_ok E _ _ H4)].
      intros k Hk. unfold path_keys in Hk. simpl in Hk.
      destruct Hk as [<-|[<-|[<-|[<-|[]]]]]; in_keys. }
  split; [exact H6|]. split.
  { eapply writes_trans; [|eapply writes_incl; [|exact Hf]].
    - repeat (apply writes_set; [|in_keys]).
      eapply writes_trans.
      + eapply writes_incl; [|apply (refresh_privatekey_writes E)].
        intros k [<-|[]]. in_keys.
      + eapply writes_incl; [|apply (refresh_csr_writes E)].
        intros k [<-|[]]. in_keys.
    - intros k Hk. simpl in Hk. destruct Hk as [<-|[<-|[<-|[]]]]; in_keys. }
  intros Hfail. rewrite L2, Hfail. now left.
Qed.

Lemma extend_rest_fields (fuel : nat) (cert out : dict) (log : list pystr) :
  extend_rest E fuel cert = (log, Ok out) ->
  (exists s, dict_get "san" out = Some (VList (map VStr (py_split E s))) /\
             forall s0, dict_get "san" cert = Some (VStr s0) -> s = s0) /\
  (py_truthy (get_or_none "acme" cert) = true ->
     dict_get "acme" out = dict_get "acme" cert) /\
  (py_truthy (get_or_none "acme" cert) = false -> dict_get "acme" out = None) /\
  (forall k, kept k -> dict_get k out = dict_get k cert).
Proof.
  intros H. apply extend_rest_inv in H.
  destruct H as [c1 [c2 [c4 [issuer [certs [c5 [H1 [H2 [W24 [H6 [W6 _]]]]]]]]]]].
  apply drop_acme_keys_ok in H1. destruct H1 as [W1 [T1 N1]].
  apply convert_san_ok in H2. destruct H2 as [s [E2 S2]].
  apply gather_certs_ok in H6.
  assert (W2out : writes later_keys c2 out).
  { eapply writes_trans; [exact W24|].
    apply (writes_trans _ _
             (dict_set "chain_list" (VList []) (dict_set "issuer" issuer c4))).
    - apply writes_set; [apply writes_set1|]; in_keys.
    - eapply writes_trans.
      + eapply writes_incl; [|exact H6]. intros k [<-|[<-|[]]]; in_keys.
      + eapply writes_trans.
        * apply (writes_set1 _ _ "chain_list"%string). in_keys.
        * eapply writes_incl; [|exact W6].
          intros k Hk. simpl in Hk.
          destruct Hk as [<-|[<-|[<-|[<-|[<-|[<-|[]]]]]]]; in_keys. }
  split; [|split; [|split]].
  - exists s. split.
    + rewrite (writes_frame _ _ _ W2out) by (simpl; intuition discriminate).
      rewrite E2. apply dict_get_set_same.
    + intros s0 Hs. apply S2.
      rewrite (writes_frame _ _ _ W1) by (simpl; intuition discriminate).
      exact Hs.
  - intros T. rewrite (T1 T) in *.
    rewrite (writes_frame _ _ _ W2out) by (simpl; intuition discriminate).
    rewrite E2. rewrite dict_get_set_other by discriminate.
    apply dict_get_remove_other. discriminate.
  - intros T.
    rewrite (writes_frame _ _ _ W2out) by (simpl; intuition discriminate).
    rewrite E2. rewrite dict_get_set_other by discriminate.
    rewrite dict_get_remove_other by discriminate.
    apply (N1 T). now left.
  - intros k Hk. unfold kept in Hk.
    rewrite (writes_frame _ _ _ W2out)
      by (intros Hin; apply Hk; rewrite in_app_iff; now right).
    rewrite E2.
    assert (k <> "san"%string) by (intros ->; apply Hk; now left).
    rewrite dict_get_set_other by assumption.
    rewrite dict_get_remove_other by assumption.
    apply (writes_frame _ _ _ W1).
    intros Hin. apply Hk. rewrite in_app_iff. left. now right.
Qed.

End ExtendFacts.

(** *** Applying [cert_extend] to its own result (C5) *)

Section Reapply.

Variable E : env.

Lemma resolve_signedby_ok (extend : dict -> logged dict) (cert c0 : dict)
    (log : list pystr) :
  resolve_signedby E extend cert = (log, Ok c0) ->
  writes ["signedby"%string] cert c0.
Proof.
  unfold resolve_signedby.
  destruct (py_truthy (get_or_none "signedby" cert)).
  - intros H. apply lbind_quiet_ok in H. destruct H as [sb [_ H]].
    apply lbind_quiet_ok in H. destruct H as [i [_ H]].
    apply lbind_ok in H. destruct H as [l1 [parent [l2 [_ [H _]]]]].
    inversion H; subst. apply writes_set1. now left.
  - intros H. inversion H; subst. constructor.
Qed.

Lemma cert_extend_inv (fuel : nat) (cert out : dict) (log : list pystr) :
  cert_extend E fuel cert = (log, Ok out) ->
  exists f l0 c0 l1,
    fuel = S f /\
    resolve_signedby E (cert_extend E f) cert = (l0, Ok c0) /\
    extend_rest E f c0 = (l1, Ok out) /\
    log = l0 ++ l1.
Proof.
  destruct fuel as [|f]; [discriminate|]. simpl. intros H.
  apply lbind_ok in H. destruct H as [l0 [c0 [l1 [H0 [H1 L]]]]].
  exists f, l0, c0, l1. auto.
Qed.

(** What the result of a run shows under ['acme'] and ['san']. *)
Lemma cert_extend_fields (fuel : nat) (row out : dict) (log : list pystr) :
  cert_extend E fuel row = (log, Ok out) ->
  (py_truthy (get_or_none "acme" row) = false -> dict_get "acme" out = None) /\
  (py_truthy (get_or_none "acme" row) = true ->
     dict_get "acme" out = dict_get "acme" row) /\
  (forall s, dict_get "san" row = Some (VStr s) ->
     dict_get "san" out = Some (VList (map VStr (py_split E s)))).
Proof.
  intros H. apply cert_extend_inv in H.
  destruct H as [f [l0 [c0 [l1 [_ [H0 [H1 _]]]]]]].
  apply resolve_signedby_ok in H0.
  assert (A : get_or_none "acme" c0 = get_or_none "acme" row).
  { unfold get_or_none.
    rewrite (writes_frame _ _ _ H0) by (simpl; intuition discriminate).
    reflexivity. }
  assert (S0 : dict_get "san" c0 = dict_get "san" row)
    by (apply (writes_frame _ _ _ H0); simpl; intuition discriminate).
  assert (A0 : dict_get "acme" c0 = dict_get "acme" row)
    by (apply (writes_frame _ _ _ H0); simpl; intuition discriminate).
  destruct (extend_rest_fields E _ _ _ _ H1) as [[s [Hs Hs0]] [Ht [Hf _]]].
  rewrite A in Ht, Hf. rewrite A0 in Ht. rewrite S0 in Hs0.
  split; [exact Hf | split; [exact Ht|]].
  intros s0 Hrow. rewrite Hs. now rewrite (Hs0 _ Hrow).
Qed.

(** The exception a second application ends with. *)
Definition reapply_error (row : dict) : exn :=
  if py_truthy (get_or_none "acme" row)
  then AttributeError "split"
  else KeyError "acme".

Lemma extend_rest_without_acme (fuel : nat) (c0 : dict) :
  dict_get "acme" c0 = None ->
  extend_rest E fuel c0 = ([], Raise (KeyError "acme")).
Proof.
  intros H. unfold extend_rest, drop_acme_keys, get_or_none.
  rewrite H. simpl. unfold pop. rewrite H. reflexivity.
Qed.

Lemma extend_rest_with_san_list (fuel : nat) (c0 : dict) (l : list pyval) :
  py_truthy (get_or_none "acme" c0) = true ->
  dict_get "san" c0 = Some (VList l) -> l <> [] ->
  extend_rest E fuel c0 = ([], Raise (AttributeError "split")).
Proof.
  intros A S L. unfold extend_rest, drop_acme_keys. rewrite A.
  unfold quiet at 1. cbn [lbind]. unfold convert_san, pop_default.
  rewrite S. destruct l; [contradiction|]. reflexivity.
Qed.

End Reapply.

(** Rows whose enriched form [cert_extend] cannot take again: those that
    are not ACME-managed, and the ACME-managed ones with a name in [san]. *)
Definition not_reapplicable (E : env) (row : dict) : Prop :=
  py_truthy (get_or_none "acme" row) = false \/
  exists s, dict_get "san" row = Some (VStr s) /\ py_split E s <> [].

(** C5, as stated, fails: applied to the record it has produced,
    [cert_extend] raises. For a record that is not ACME-managed the ACME
    keys are already gone and [cert.pop(key)] raises [KeyError]; for an
    ACME-managed record [san] is a list, which has no [split]. *)
Lemma reapplied_counterexample :
  (exists out,
      snd (cert_extend example_env 1 bundle_row) = Ok out /\
      cert_extend example_env 1 out = ([], Raise (KeyError "acme"))) /\
  (exists out,
      snd (cert_extend example_env 1 acme_row) = Ok out /\
      dict_get "san" out = Some (VList [VStr (str "a.example.com")]) /\
      cert_extend example_env 1 out = ([], Raise (AttributeError "split"))).
Proof.
  split; eexists; repeat split; vm_compute; reflexivity.
Qed.

(** C5 (amended). [cert_extend] is written for a row as the datastore
    reads it and cannot be applied to its own result. Let [out] be what it
    returns for a row that is not ACME-managed, or that is ACME-managed
    with at least one name in [san]. Then no application of [cert_extend]
    to [out] returns: once the [signedby] query of the second application
    has returned, it raises [KeyError] (the ACME keys were removed by the
    first application) or, for the ACME-managed row, [AttributeError] ([san]
    is a list by now). *)
Theorem resolve_not_reapplicable (E : env) (fuel : nat) (row out : dict)
    (log : list pystr) :
  cert_extend E fuel row = (log, Ok out) ->
  not_reapplicable E row ->
  (forall fuel' l0 c0,
      resolve_signedby E (cert_extend E fuel') out = (l0, Ok c0) ->
      cert_extend E (S fuel') out = (l0, Raise (reapply_error row))) /\
  (forall fuel' log' out', cert_extend E fuel' out <> (log', Ok out')).
Proof.
  intros H N.
  destruct (cert_extend_fields E _ _ _ _ H) as [Hf [Ht Hs]].
  assert (P : forall fuel' l0 c0,
             resolve_signedby E (cert_extend E fuel') out = (l0, Ok c0) ->
             cert_extend E (S fuel') out = (l0, Raise (reapply_error row))).
  { intros fuel' l0 c0 R. cbn [cert_extend]. rewrite R. cbn [lbind].
    apply resolve_signedby_ok in R.
    assert (A0 : dict_get "acme" c0 = dict_get "acme" out)
      by (apply (writes_frame _ _ _ R); simpl; intuition discriminate).
    assert (S0 : dict_get "san" c0 = dict_get "san" out)
      by (apply (writes_frame _ _ _ R); simpl; intuition discriminate).
    unfold reapply_error.
    destruct (py_truthy (get_or_none "acme" row)) eqn:T.
    - destruct N as [N|[s [Hsan Hne]]]; [congruence|].
      rewrite (extend_rest_with_san_list E fuel' c0 (map VStr (py_split E s))).
      + now rewrite app_nil_r.
      + unfold get_or_none. rewrite A0, (Ht eq_refl).
        exact T.
      + rewrite S0. now apply Hs.
      + destruct (py_split E s); [contradiction | discriminate].
    - rewrite (extend_rest_without_acme E fuel' c0).
      + now rewrite app_nil_r.
      + rewrite A0. now apply Hf. }
  split; [exact P|].
  intros fuel' log' out' H'.
  apply cert_extend_inv in H'.
  destruct H' as [f [l0 [c0 [l1 [-> [R [X _]]]]]]].
  specialize (P f l0 c0 R). cbn [cert_extend] in P. rewrite R in P.
  cbn [lbind] in P. rewrite X in P. cbv beta iota in P.
  inversion P.
Qed.

Lemma resolve_not_reapplicable_witness :
  exists out,
    snd (cert_extend example_env 1 bundle_row) = Ok out /\
    cert_extend example_env 1 out
      = ([], Raise (reapply_error bundle_row)).
Proof.
  destruct (cert_extend example_env 1 bundle_row) as [log [out| |]] eqn:R;
    try (vm_compute in R; discriminate R).
  exists out. split; [reflexivity|].
  apply (proj1 (resolve_not_reapplicable example_env 1 bundle_row out log R
                  (or_introl eq_refl)) 0%nat [] out).
  vm_compute in R. inversion R. vm_compute. reflexivity.
Defined.

(** *** The chain loop and its [try] (C8) *)

Section ChainLoop.

Variable E : env.

(** A link the loop gets past: it is skipped as empty, or it parses. *)
Definition link_ok (c : pyval) : bool :=
  negb (py_truthy c)
  || match load_any E c with Some _ => true | None => false end.

(** What the links of [certs] add to the chain list. *)
Definition dumps (certs : list pyval) : list pystr :=
  flat_map
    (fun c =>
       if py_truthy c then
         match load_any E c with
         | Some x => [x_dump x]
         | None => []
         end
       else [])
    certs.

Lemma load_chain_good (good rest : list pyval) :
  forallb link_ok good = true ->
  forall chain_list cert_obj,
    fst (fst (load_chain E (good ++ rest) chain_list cert_obj)) =
      fst (fst (load_chain E rest (chain_list ++ dumps good)
                  (snd (fst (load_chain E good chain_list cert_obj))))) /\
    snd (load_chain E (good ++ rest) chain_list cert_obj) =
      snd (load_chain E rest (chain_list ++ dumps good)
             (snd (fst (load_chain E good chain_list cert_obj)))).
Proof.
  induction good as [|c good IH]; intros Hall chain_list cert_obj.
  - simpl. now rewrite app_nil_r.
  - simpl in Hall. apply andb_prop in Hall. destruct Hall as [Hc Hall].
    unfold link_ok in Hc. simpl. destruct (py_truthy c).
    + destruct (load_any E c) as [x|]; [|discriminate].
      simpl.
      replace (chain_list ++ x_dump x :: dumps good)
        with ((chain_list ++ [x_dump x]) ++ dumps good)
        by (rewrite <- app_assoc; reflexivity).
      apply (IH Hall).
    + simpl. apply (IH Hall).
Qed.

Lemma load_chain_all_good (certs : list pyval) :
  forallb link_ok certs = true ->
  fst (fst (load_chain E certs [] None)) = dumps certs /\
  snd (load_chain E certs [] None) = false.
Proof.
  intros H. destruct (load_chain_good certs [] H [] None) as [A B].
  rewrite app_nil_r in A, B. simpl in A, B. split; assumption.
Qed.

Lemma load_chain_stops (good rest : list pyval) (bad : pyval) :
  forallb link_ok good = true ->
  py_truthy bad = true -> load_any E bad = None ->
  fst (fst (load_chain E (good ++ bad :: rest) [] None)) = dumps good /\
  snd (load_chain E (good ++ bad :: rest) [] None) = true.
Proof.
  intros H T L. destruct (load_chain_good good (bad :: rest) H [] None) as [A B].
  rewrite A, B. simpl. rewrite T, L. split; reflexivity.
Qed.

Lemma gather_certs_chain (fuel : nat) (d d' : dict) (certs : list pyval)
    (chain : pyval) :
  gather_certs E fuel d = Ok (certs, d') ->
  dict_get "chain" d = Some chain -> py_truthy chain = true ->
  exists text,
    dict_get "certificate" d = Some (VStr text) /\
    certs = map VStr (Pem.findall (ucd E) text).
Proof.
  unfold gather_certs, getitem. intros H C T. rewrite C in H. simpl in H.
  rewrite T in H. destruct (dict_get "certificate" d) as [c|]; [|discriminate].
  simpl in H. destruct c; try discriminate. inversion H; subst. eauto.
Qed.

(** The chain list of a result is what the loop made of the gathered
    links; a failure of the loop is in the log; and for a record with the
    chain flag the links are the matches of the pattern in its text. *)
Lemma cert_extend_chain_list (fuel : nat) (row out : dict) (log : list pystr) :
  cert_extend E fuel row = (log, Ok out) ->
  exists certs,
    dict_get "chain_list" out =
      Some (VList (map VStr (fst (fst (load_chain E certs [] None))))) /\
    (snd (load_chain E certs [] None) = true ->
     In (str "Failed to load certificate " ++ format E (get_or_none "name" row))
        log) /\
    (forall chain, dict_get "chain" row = Some chain -> py_truthy chain = true ->
     exists text, dict_get "certificate" row = Some (VStr text) /\
                  certs = map VStr (Pem.findall (ucd E) text)).
Proof.
  intros H. apply cert_extend_inv in H.
  destruct H as [f [l0 [c0 [l1 [_ [R [X Hlog]]]]]]].
  apply resolve_signedby_ok in R.
  apply extend_rest_inv in X.
  destruct X as [c1 [c2 [c4 [issuer [certs [c5 [H1 [H2 [W24 [H6 [W6 L]]]]]]]]]]].
  apply drop_acme_keys_ok in H1. destruct H1 as [W1 _].
  apply convert_san_ok in H2. destruct H2 as [s [E2 _]].
  (* keys that are never written read the same all along *)
  assert (K4 : forall k, kept k -> dict_get k c4 = dict_get k row).
  { intros k Hk. unfold kept in Hk. rewrite in_app_iff in Hk. simpl in Hk.
    rewrite (writes_frame _ _ _ W24) by tauto.
    rewrite E2.
    rewrite dict_get_set_other by (intros ->; tauto).
    rewrite dict_get_remove_other by (intros ->; tauto).
    rewrite (writes_frame _ _ _ W1) by (unfold acme_keys; simpl; tauto).
    apply (writes_frame _ _ _ R). simpl. intros [<-|[]]. tauto. }
  assert (Kmid : forall k, kept k ->
            dict_get k (dict_set "chain_list" (VList [])
                          (dict_set "issuer" issuer c4)) = dict_get k row).
  { intros k Hk. pose proof Hk as Hk'. unfold kept in Hk'.
    rewrite in_app_iff in Hk'. simpl in Hk'.
    rewrite !dict_get_set_other by (intros ->; tauto). now apply K4. }
  assert (K5 : forall k, kept k -> dict_get k c5 = dict_get k row).
  { intros k Hk. pose proof Hk as Hk'. unfold kept in Hk'.
    rewrite in_app_iff in Hk'. simpl in Hk'.
    rewrite (writes_frame _ _ _ (gather_certs_ok E _ _ _ _ H6))
      by (simpl; tauto).
    now apply Kmid. }
  assert (kept_name : kept "name"%string)
    by (unfold kept; simpl; intuition discriminate).
  assert (kept_chain : kept "chain"%string)
    by (unfold kept; simpl; intuition discriminate).
  assert (kept_cert : kept "certificate"%string)
    by (unfold kept; simpl; intuition discriminate).
  exists certs. split; [|split].
  - rewrite (writes_frame _ _ _ W6) by (simpl; intuition discriminate).
    apply dict_get_set_same.
  - intros F. rewrite Hlog. apply in_or_app. right.
    specialize (L F). unfold get_or_none in L |- *.
    now rewrite (K5 _ kept_name) in L.
  - intros chain C T.
    rewrite <- (Kmid _ kept_chain) in C.
    destruct (gather_certs_chain _ _ _ _ _ H6 C T) as [text [Ht Hc]].
    exists text. split; [|exact Hc]. now rewrite <- (Kmid _ kept_cert).
Qed.

End ChainLoop.

(** *** Imported chains (C9) *)

Section Imported.

Variable E : env.

Lemma pop_default_writes (k : string) (v : pyval) (d : dict) :
  writes [k] d (snd (pop_default k v d)).
Proof.
  unfold pop_default. destruct (dict_get k d); simpl.
  - apply writes_remove1. now left.
  - constructor.
Qed.

Lemma update_from_writes (info : dict) :
  forall d, writes (map fst info) d (update_from info d).
Proof.
  unfold update_from. induction info as [|[k v] rest IH]; intros d; simpl.
  - constructor.
  - eapply writes_trans.
    + apply (writes_set1 _ d k v). now left.
    + eapply writes_incl; [|apply IH]. intros x Hx. now right.
Qed.

Definition info_keys : list string :=
  ["country"; "state"; "city"; "organization"; "common"; "san"; "email";
   "serial"; "digest_algorithm"]%string.

Lemma service_load_certificate_keys (c : pyval) :
  incl (map fst (service_load_certificate E c)) info_keys.
Proof.
  unfold service_load_certificate. destruct (load_any E c) as [x|].
  - destruct (x_digest_algorithm x); intros k Hk; simpl in Hk;
      unfold info_keys; simpl; tauto.
  - intros k [].
Qed.

(** Keys [__create_imported_certificate] may write before it sets the
    chain flag, and after. *)
Definition import_keys : list string :=
  (["csr_id"; "privatekey"; "passphrase"; "type"] ++ info_keys)%list%string.

Lemma create_imported_certificate_chain (data out : dict) (text : pystr) :
  dict_get "certificate" data = Some (VStr text) ->
  create_imported_certificate E data = Ok out ->
  dict_get "chain" out
    = Some (VBool (1 <? List.length (Pem.findall (ucd E) text))%nat) /\
  dict_get "certificate" out = Some (VStr text) /\
  dict_get "type" out = Some (VInt CERT_TYPE_EXISTING).
Proof.
  intros C H. unfold create_imported_certificate in H.
  pose proof (pop_default_writes "csr_id" VNone data) as W0.
  destruct (pop_default "csr_id" VNone data) as [csr_id d0]. simpl in W0.
  apply bind_ok in H. destruct H as [d1 [H1 H]].
  assert (W1 : writes import_keys data d1).
  { apply (writes_trans _ _ d0).
    - eapply writes_incl; [|exact W0]. intros k [<-|[]]. unfold import_keys. in_keys.
    - destruct (py_truthy csr_id).
      + destruct (filter _ (certificate_rows E)) as [|csr_obj rows];
          [discriminate|].
        apply bind_ok in H1. destruct H1 as [pk [_ H1]]. inversion H1; subst.
        eapply writes_trans.
        * apply (writes_set1 _ d0 "privatekey"%string pk).
          unfold import_keys. in_keys.
        * eapply writes_incl; [|apply pop_default_writes].
          intros k [<-|[]]. unfold import_keys. in_keys.
      + destruct (py_truthy (get_or_none "privatekey" d0)); [|discriminate].
        inversion H1; subst. constructor. }
  apply bind_ok in H. destruct H as [d2 [H2 H]].
  unfold create_certificate in H2.
  apply bind_ok in H2. destruct H2 as [c0 [_ H2]]. inversion H2; subst d2.
  clear H2.
  assert (T2 : dict_get "type"
                 (update_from (service_load_certificate E c0)
                    (dict_set "type" (VInt CERT_TYPE_EXISTING) d1))
               = Some (VInt CERT_TYPE_EXISTING)).
  { rewrite (writes_frame _ _ _ (update_from_writes _ _)).
    - apply dict_get_set_same.
    - intros Hk. apply service_load_certificate_keys in Hk.
      unfold info_keys in Hk. simpl in Hk. intuition discriminate. }
  assert (W2 : writes import_keys data
                 (update_from (service_load_certificate E c0)
                    (dict_set "type" (VInt CERT_TYPE_EXISTING) d1))).
  { eapply writes_trans; [exact W1|].
    eapply writes_trans.
    - apply (writes_set1 _ d1 "type"%string). unfold import_keys. in_keys.
    - eapply writes_incl; [|apply update_from_writes].
      intros k Hk. apply service_load_certificate_keys in Hk.
      unfold import_keys. apply in_or_app. now right. }
  set (d2 := update_from (service_load_certificate E c0)
               (dict_set "type" (VInt CERT_TYPE_EXISTING) d1)) in *.
  assert (C2 : dict_get "certificate" d2 = Some (VStr text)).
  { rewrite (writes_frame _ _ _ W2); [exact C|].
    unfold import_keys, info_keys. simpl. intuition discriminate. }
  apply bind_ok in H. destruct H as [c [Hc H]].
  unfold getitem in Hc. rewrite C2 in Hc. inversion Hc; subst c. clear Hc.
  apply bind_ok in H. destruct H as [chain [Hch H]].
  simpl in Hch. inversion Hch; subst chain. clear Hch.
  apply bind_ok in H. destruct H as [d3 [H3 H]].
  inversion H; subst out. clear H.
  set (flag := VBool (1 <? List.length (Pem.findall (ucd E) text))%nat) in *.
  assert (W3 : writes ["privatekey"; "passphrase"]%string
                 (dict_set "chain" flag d2)
                 (snd (pop_default "passphrase" VNone d3))).
  { apply (writes_trans _ _ d3).
    - destruct (dict_get "passphrase" (dict_set "chain" flag d2)).
      + apply bind_ok in H3. destruct H3 as [pk [_ H3]]. inversion H3; subst.
        apply writes_set1. in_keys.
      + inversion H3; subst. constructor.
    - eapply writes_incl; [|apply pop_default_writes].
      intros k [<-|[]]. in_keys. }
  split; [|split].
  - rewrite (writes_frame _ _ _ W3) by (simpl; intuition discriminate).
    apply dict_get_set_same.
  - rewrite (writes_frame _ _ _ W3) by (simpl; intuition discriminate).
    rewrite dict_get_set_other by discriminate. exact C2.
  - rewrite (writes_frame _ _ _ W3) by (simpl; intuition discriminate).
    rewrite dict_get_set_other by discriminate. exact T2.
Qed.


End Imported.

(** The columns of a stored certificate that an import leaves alone, as
    [datastore.query] reads them: no signing CA and no ACME registration
    (the ACME columns are there all the same), a SAN that is empty or text,
    a serial that is empty or an integer, and a name. *)
Record import_columns (row : dict) : Prop := {
  ic_signedby : py_truthy (get_or_none "signedby" row) = false;
  ic_acme : py_truthy (get_or_none "acme" row) = false;
  ic_acme_keys : forall k, In k acme_keys -> dict_get k row <> None;
  ic_san : forall v, dict_get "san" row = Some v -> py_truthy v = true ->
           exists s, v = VStr s;
  ic_serial : dict_get "serial" row = Some VNone \/
              exists z, dict_get "serial" row = Some (VInt z);
  ic_name : dict_get "name" row <> None
}.

(** A computation that ends with a value. *)
Definition returns {A} (m : logged A) : Prop :=
  exists log a, m = (log, Ok a).

Lemma returns_quiet {A B} (r : result A) (k : A -> logged B) (a : A) :
  r = Ok a -> returns (k a) -> returns (lbind (quiet r) k).
Proof.
  intros -> [log [b H]]. unfold returns, lbind, quiet. rewrite H. eauto.
Qed.

Lemma returns_lret {A B} (a : A) (k : A -> logged B) :
  returns (k a) -> returns (lbind (lret a) k).
Proof. apply (returns_quiet (Ok a)). reflexivity. Qed.

Lemma returns_log_if {B} (failed : bool) (m : pystr) (k : unit -> logged B) :
  returns (k tt) -> returns (lbind (log_if failed m) k).
Proof.
  intros [log [b H]]. unfold returns, lbind, log_if.
  destruct failed; rewrite H; eauto.
Qed.

Section ImportedRead.

Variable E : env.

Lemma pop_each_total (ks : list string) :
  NoDup ks ->
  forall d, (forall k, In k ks -> dict_get k d <> None) ->
  exists d', pop_each ks d = Ok d'.
Proof.
  induction 1 as [|k rest Hk Hnd IH]; intros d Hd; simpl.
  - eauto.
  - unfold pop. destruct (dict_get k d) eqn:G.
    + cbn [bind]. apply IH. intros k' Hin.
      rewrite dict_get_remove_other; [apply Hd; now right|].
      intros ->. contradiction.
    + exfalso. apply (Hd k); [now left | exact G].
Qed.

Lemma convert_san_total (d : dict) :
  (forall v, dict_get "san" d = Some v -> py_truthy v = true ->
             exists s, v = VStr s) ->
  exists d', convert_san E d = Ok d'.
Proof.
  intros H. unfold convert_san, pop_default.
  destruct (dict_get "san" d) as [v|].
  - destruct (py_truthy v) eqn:T.
    + destruct (H v eq_refl T) as [s ->]. eauto.
    + eauto.
  - simpl. eauto.
Qed.

Lemma convert_serial_total (d : dict) :
  dict_get "serial" d = Some VNone \/
  (exists z, dict_get "serial" d = Some (VInt z)) ->
  exists d', convert_serial E d = Ok d'.
Proof.
  unfold convert_serial, getitem. intros [H|[z H]]; rewrite H; simpl; eauto.
Qed.

Lemma set_paths_total (d : dict) :
  dict_get "type" d <> None -> dict_get "name" d <> None ->
  exists d', set_paths E d = Ok d'.
Proof.
  intros T N. unfold set_paths, getitem.
  destruct (dict_get "type" d) as [t|]; [|contradiction]. cbn [bind].
  rewrite dict_get_set_other by discriminate.
  destruct (dict_get "name" d) as [n|]; [|contradiction]. cbn [bind].
  eauto.
Qed.


Lemma gather_certs_import (fuel : nat) (d : dict) (text : pystr) :
  dict_get "chain" d = Some (VBool true) ->
  dict_get "certificate" d = Some (VStr text) ->
  gather_certs E fuel d = Ok (map VStr (Pem.findall (ucd E) text), d).
Proof.
  intros C T. unfold gather_certs, getitem. rewrite C. cbn [bind py_truthy].
  rewrite T. reflexivity.
Qed.


Lemma refresh_frame (k : string) (d : dict) :
  k <> "privatekey"%string -> k <> "CSR"%string ->
  dict_get k (fst (fst (refresh_csr E (fst (refresh_privatekey E d)))))
    = dict_get k d.
Proof.
  intros P C.
  rewrite (writes_frame _ _ _ (refresh_csr_writes E _))
    by (simpl; intuition congruence).
  apply (writes_frame _ _ _ (refresh_privatekey_writes E _)).
  simpl; intuition congruence.
Qed.



(** Reading back an imported record with the chain flag returns whatever
    its links are, provided the record's text loads when the loop has
    loaded a link (it is loaded again after the loop). *)
Lemma cert_extend_bundle_returns (fuel : nat) (row : dict) (text : pystr)
    (t : Z) :
  import_columns row ->
  dict_get "type" row = Some (VInt t) ->
  t = CA_TYPE_EXISTING \/ t = CERT_TYPE_EXISTING ->
  dict_get "chain" row = Some (VBool true) ->
  dict_get "certificate" row = Some (VStr text) ->
  (snd (fst (load_chain E (map VStr (Pem.findall (ucd E) text)) [] None))
     <> None ->
   load_certificate E text <> None) ->
  returns (cert_extend E (S fuel) row).
Proof.
  intros [Hsb Hacme Hkeys Hsan Hserial Hname] T Ht C Tx Hobj.
  cbn [cert_extend]. unfold resolve_signedby. rewrite Hsb.
  apply returns_lret. unfold extend_rest.
  (* the ACME columns *)
  destruct (pop_each_total acme_keys) with (d := row) as [c1 H1].
  { unfold acme_keys. repeat constructor; simpl; intuition discriminate. }
  { exact Hkeys. }
  apply (returns_quiet _ _ c1).
  { unfold drop_acme_keys. now rewrite Hacme. }
  apply pop_each_ok in H1. destruct H1 as [W1 _].
  assert (K1 : forall k, ~ In k acme_keys -> dict_get k c1 = dict_get k row)
    by (apply (writes_frame _ _ _ W1)).
  (* san *)
  destruct (convert_san_total c1) as [c2 H2].
  { rewrite K1 by (unfold acme_keys; simpl; intuition discriminate).
    exact Hsan. }
  apply (returns_quiet _ _ c2 H2).
  apply convert_san_ok in H2. destruct H2 as [s [E2 _]].
  assert (K2 : forall k, k <> "san"%string -> ~ In k acme_keys ->
                 dict_get k c2 = dict_get k row).
  { intros k Hk Hk'. rewrite E2.
    rewrite dict_get_set_other by congruence.
    rewrite dict_get_remove_other by congruence. now apply K1. }
  (* serial *)
  destruct (convert_serial_total c2) as [c3 H3].
  { rewrite K2 by (unfold acme_keys; simpl; intuition discriminate).
    exact Hserial. }
  apply (returns_quiet _ _ c3 H3).
  apply convert_serial_ok in H3.
  assert (K3 : forall k, k <> "serial"%string -> k <> "san"%string ->
                 ~ In k acme_keys -> dict_get k c3 = dict_get k row).
  { intros k Hs Hk Hk'.
    rewrite (writes_frame _ _ _ H3) by (simpl; intuition congruence).
    now apply K2. }
  (* paths *)
  destruct (set_paths_total c3) as [c4 H4].
  { rewrite K3 by (unfold acme_keys; simpl; intuition discriminate).
    rewrite T. discriminate. }
  { rewrite K3 by (unfold acme_keys; simpl; intuition discriminate).
    exact Hname. }
  apply (returns_quiet _ _ c4 H4).
  apply set_paths_ok in H4.
  assert (K4 : forall k, In k ["type"; "chain"; "certificate"]%string ->
                 dict_get k c4 = dict_get k row).
  { intros k Hk.
    rewrite (writes_frame _ _ _ H4)
      by (unfold path_keys; simpl in *; intuition (subst; discriminate)).
    apply K3; unfold acme_keys; simpl in *; intuition (subst; discriminate). }
  (* issuer *)
  apply (returns_quiet _ _ (VStr (str "external"))).
  { unfold cert_issuer, getitem. rewrite K4 by (simpl; tauto). rewrite T.
    destruct Ht as [-> | ->]; reflexivity. }
  cbv zeta.
  set (cmid := dict_set "chain_list" (VList [])
                 (dict_set "issuer" (VStr (str "external")) c4)).
  assert (Kmid : forall k, In k ["type"; "chain"; "certificate"]%string ->
                   dict_get k cmid = dict_get k row).
  { intros k Hk. unfold cmid.
    rewrite !dict_get_set_other
      by (simpl in Hk; intuition (subst; discriminate)).
    now apply K4. }
  (* the certificates of the chain *)
  apply (returns_quiet _ _ (map VStr (Pem.findall (ucd E) text), cmid)).
  { apply gather_certs_import; rewrite Kmid by (simpl; tauto); assumption. }
  cbn [fst snd].
  set (loaded := load_chain E (map VStr (Pem.findall (ucd E) text)) [] None)
    in *.
  apply returns_log_if. apply returns_log_if. apply returns_log_if.
  set (c6 := dict_set "chain_list" _ cmid).
  assert (K7 : forall k, In k ["type"; "certificate"]%string ->
                 dict_get k (fst (fst (refresh_csr E
                                         (fst (refresh_privatekey E c6)))))
                 = dict_get k row).
  { intros k Hk.
    rewrite refresh_frame by (simpl in Hk; intuition (subst; discriminate)).
    unfold c6.
    rewrite dict_get_set_other
      by (simpl in Hk; intuition (subst; discriminate)).
    apply Kmid. simpl in *. tauto. }
  apply (returns_quiet _ _ (VInt t)).
  { unfold getitem. rewrite K7 by (simpl; tauto). now rewrite T. }
  unfold finish.
  assert (Hcsr : in_ints (VInt t) [CERT_TYPE_CSR] = false)
    by (destruct Ht as [-> | ->]; reflexivity).
  rewrite Hcsr.
  destruct (snd (fst loaded)) as [x|] eqn:Obj.
  - unfold getitem. rewrite !dict_get_set_other by discriminate.
    rewrite K7 by (simpl; tauto). rewrite Tx. cbn [bind load_any].
    destruct (load_certificate E text) as [x0|] eqn:L0.
    + unfold returns, quiet. eauto.
    + exfalso. apply Hobj; [discriminate | reflexivity].
  - unfold returns, quiet. eauto.
Qed.

End ImportedRead.

(** *** A failing link (C8) *)

(** C8, as stated, fails: the [try] is around the whole [for] loop, so the
    first link that does not parse ends the loop. The third block of this
    record parses, but it comes after a corrupt one and is not in
    [chain_list]. *)
Lemma later_link_dropped_counterexample :
  Pem.findall Pem.ascii_only
    (Pem.block_a ++ Pem.LF ++ block_corrupt ++ Pem.LF ++ block_c ++ Pem.LF)
    = [Pem.block_a; block_corrupt; block_c] /\
  load_any example_env (VStr block_c) = Some (parsed block_c (str "c") 9) /\
  load_any example_env (VStr block_corrupt) = None /\
  chain_list_of (cert_extend example_env 1 damaged_bundle_row)
    = Some (VList [dump_a]) /\
  fst (cert_extend example_env 1 damaged_bundle_row)
    = [str "Failed to load certificate damaged"].
Proof. vm_compute. repeat split. Qed.

(** The load after the loop is outside every [try]: a certificate signed
    by a CA whose own text is empty is read with the CA's certificate as
    [cert_obj], and loading its empty text then raises. *)
Definition unsigned_leaf_row : dict :=
  raw_row 15 (str "pending") CERT_TYPE_INTERNAL (VStr [])
    (VDict [("id"%string, VInt 1)]) false [] VNone.

Example load_after_the_loop_raises :
  snd (cert_extend example_env 2 unsigned_leaf_row) = Raise CryptoError.
Proof. vm_compute. reflexivity. Qed.

(** A record with the chain flag whose text holds a link that does not
    load, after links that do: the read returns. *)
Lemma cert_extend_failing_link (E : env) (fuel : nat) (row : dict)
    (text : pystr) (t : Z) (good rest : list pystr) (bad : pystr) :
  import_columns row ->
  dict_get "type" row = Some (VInt t) ->
  t = CA_TYPE_EXISTING \/ t = CERT_TYPE_EXISTING ->
  dict_get "chain" row = Some (VBool true) ->
  dict_get "certificate" row = Some (VStr text) ->
  Pem.findall (ucd E) text = good ++ bad :: rest ->
  (forall b, In b good -> load_certificate E b <> None) ->
  load_certificate E bad = None ->
  (good <> [] -> load_certificate E text <> None) ->
  exists log out,
    cert_extend E (S fuel) row = (log, Ok out) /\
    dict_get "chain_list" out
      = Some (VList (map VStr (dumps E (map VStr good)))) /\
    In (str "Failed to load certificate " ++ format E (get_or_none "name" row))
       log.
Proof.
  intros I T Ht C Tx F Hgood Hbad Htext.
  assert (Good : forallb (link_ok E) (map VStr good) = true).
  { apply forallb_forall. intros v Hv. apply in_map_iff in Hv.
    destruct Hv as [b [<- Hb]]. unfold link_ok. cbn [load_any].
    destruct (load_certificate E b) eqn:L; [apply orb_true_r|].
    exfalso. now apply (Hgood b Hb). }
  assert (Bad : py_truthy (VStr bad) = true).
  { assert (Hin : In bad (Pem.findall (ucd E) text))
      by (rewrite F; apply in_or_app; right; now left).
    unfold Pem.findall in Hin. apply Pem.findall_from_inside in Hin.
    destruct Hin as [B _]. apply Pem.block_not_empty in B.
    destruct B as [tl ->]. reflexivity. }
  pose proof (load_chain_stops E (map VStr good) (map VStr rest) (VStr bad)
                Good Bad Hbad) as [Hlist Hfailed].
  assert (Hcerts : map VStr (Pem.findall (ucd E) text)
                   = map VStr good ++ VStr bad :: map VStr rest).
  { rewrite F, map_app. reflexivity. }
  destruct (cert_extend_bundle_returns E fuel row text t I T Ht C Tx)
    as [log [out H]].
  { rewrite Hcerts. intros Obj. apply Htext. intros ->. apply Obj.
    cbn [map app load_chain]. rewrite Bad. cbn [load_any].
    rewrite Hbad. reflexivity. }
  exists log, out. split; [exact H|].
  destruct (cert_extend_chain_list E _ _ _ _ H) as [certs [CL [Hlog Hc]]].
  destruct (Hc _ C eq_refl) as [text' [Ht' ->]].
  rewrite Tx in Ht'. injection Ht' as <-.
  rewrite Hcerts in CL, Hlog. rewrite Hlist in CL.
  split; [exact CL | exact (Hlog Hfailed)].
Qed.

(** C8 (amended). A link that fails to parse is caught and logged ("Failed
    to load certificate" with the record's name) and ends the loop:
    [chain_list] holds the links before the failing one, and neither that
    link nor any link after it; it holds every link exactly when every
    link parses (or is empty). For a record that [cert_extend] returns,
    [chain_list] is what this loop made of the record's links. For an
    imported record with the chain flag the failing link does not make the
    read fail: when its text holds a link that does not load after links
    that do, [cert_extend] returns with the links before it and the log
    entry, provided the record's text loads as a whole when a link was
    loaded (that load, after the loop, is outside every [try]). *)
Theorem parse_failure_ends_chain (E : env) :
  (forall good bad rest,
      forallb (link_ok E) good = true ->
      py_truthy bad = true -> load_any E bad = None ->
      fst (fst (load_chain E (good ++ bad :: rest) [] None)) = dumps E good /\
      snd (load_chain E (good ++ bad :: rest) [] None) = true) /\
  (forall certs,
      forallb (link_ok E) certs = true ->
      fst (fst (load_chain E certs [] None)) = dumps E certs /\
      snd (load_chain E certs [] None) = false) /\
  (forall fuel row out log,
      cert_extend E fuel row = (log, Ok out) ->
      exists certs,
        dict_get "chain_list" out =
          Some (VList (map VStr (fst (fst (load_chain E certs [] None))))) /\
        (snd (load_chain E certs [] None) = true ->
         In (str "Failed to load certificate "
               ++ format E (get_or_none "name" row)) log) /\
        (forall chain,
            dict_get "chain" row = Some chain -> py_truthy chain = true ->
            exists text,
              dict_get "certificate" row = Some (VStr text) /\
              certs = map VStr (Pem.findall (ucd E) text))) /\
  (forall fuel row text t good bad rest,
      import_columns row ->
      dict_get "type" row = Some (VInt t) ->
      t = CA_TYPE_EXISTING \/ t = CERT_TYPE_EXISTING ->
      dict_get "chain" row = Some (VBool true) ->
      dict_get "certificate" row = Some (VStr text) ->
      Pem.findall (ucd E) text = good ++ bad :: rest ->
      (forall b, In b good -> load_certificate E b <> None) ->
      load_certificate E bad = None ->
      (good <> [] -> load_certificate E text <> None) ->
      exists log out,
        cert_extend E (S fuel) row = (log, Ok out) /\
        dict_get "chain_list" out
          = Some (VList (map VStr (dumps E (map VStr good)))) /\
        In (str "Failed to load certificate "
              ++ format E (get_or_none "name" row)) log).
Proof.
  split; [|split; [|split]].
  - intros good bad rest. apply load_chain_stops.
  - intros certs. apply load_chain_all_good.
  - intros fuel row out log. apply cert_extend_chain_list.
  - intros fuel row text t good bad rest. apply cert_extend_failing_link.
Qed.

Lemma damaged_bundle_row_columns : import_columns damaged_bundle_row.
Proof.
  constructor.
  - reflexivity.
  - reflexivity.
  - intros k [<-|[<-|[<-|[<-|[]]]]]; vm_compute; discriminate.
  - intros v H T. vm_compute in H. injection H as <-. discriminate T.
  - right. exists 5. reflexivity.
  - vm_compute. discriminate.
Defined.

Lemma parse_failure_ends_chain_witness :
  (fst (fst (load_chain example_env
               ([VStr Pem.block_a] ++ VStr block_corrupt :: [VStr block_c])
               [] None))
     = dumps example_env [VStr Pem.block_a] /\
   snd (load_chain example_env
          ([VStr Pem.block_a] ++ VStr block_corrupt :: [VStr block_c]) [] None)
     = true) /\
  exists log out,
    cert_extend example_env 1 damaged_bundle_row = (log, Ok out) /\
    dict_get "chain_list" out
      = Some (VList (map VStr (dumps example_env (map VStr [Pem.block_a])))) /\
    In (str "Failed to load certificate "
          ++ format example_env (get_or_none "name" damaged_bundle_row)) log.
Proof.
  split.
  - apply (proj1 (parse_failure_ends_chain example_env)
             [VStr Pem.block_a] (VStr block_corrupt) [VStr block_c]);
      vm_compute; reflexivity.
  - apply (proj2 (proj2 (proj2 (parse_failure_ends_chain example_env)))
             0%nat damaged_bundle_row
             (Pem.block_a ++ Pem.LF ++ block_corrupt ++ Pem.LF
                ++ block_c ++ Pem.LF)
             CERT_TYPE_EXISTING [Pem.block_a] block_corrupt [block_c]).
    + exact damaged_bundle_row_columns.
    + reflexivity.
    + right. reflexivity.
    + reflexivity.
    + reflexivity.
    + vm_compute. reflexivity.
    + intros b [<-|[]]. vm_compute. discriminate.
    + vm_compute. reflexivity.
    + intros _. vm_compute. discriminate.
Defined.


(** What a client sends to import the two-block text of [bundle_row]. *)
Definition import_data : dict :=
  [("name"%string, VStr (str "bundle"));
   ("certificate"%string,
    VStr (Pem.block_a ++ Pem.LF ++ Pem.block_b ++ Pem.LF));
   ("privatekey"%string, VStr (str "key"))].

Definition import_out : dict :=
  match create_imported_certificate example_env import_data with
  | Ok d => d
  | _ => []
  end.

Example import_data_created :
  create_imported_certificate example_env import_data = Ok import_out /\
  dict_get "chain" import_out = Some (VBool true) /\
  dict_get "type" import_out = Some (VInt CERT_TYPE_EXISTING) /\
  dict_get "serial" import_out = Some (VInt 5).
Proof. vm_compute. repeat split. Qed.








(** *** More about what [cert_extend] returns *)

(** A request filed but not signed yet. *)
Definition csr_row : dict :=
  dict_set "CSR" (VStr (str "REQ"))
    (raw_row 20 (str "req") CERT_TYPE_CSR VNone VNone false [] VNone).

(** The same record with an empty request. *)
Definition empty_csr_row : dict :=
  raw_row 21 (str "req2") CERT_TYPE_CSR VNone VNone false [] VNone.

Example csr_row_extended :
  exists out,
    cert_extend example_env 1 csr_row = ([], Ok out) /\
    dict_get "DN" out = Some (VStr (str "/")) /\
    dict_get "issuer" out = Some (VStr (str "external - signature pending")) /\
    dict_get "chain_list" out = Some (VList []).
Proof. eexists. vm_compute. repeat split. Qed.

Example empty_csr_row_fails :
  cert_extend example_env 1 empty_csr_row
    = ([], Raise (UnboundLocalError "csr_obj")).
Proof. vm_compute. reflexivity. Qed.

(** Keys written after the paths have been set. *)
Definition after_path_keys : list string :=
  ["issuer"; "chain_list"; "signedby"; "privatekey"; "CSR"; "internal";
   "from"; "until"; "DN"]%string.

(** Keys written before the private key and the request are reloaded. *)
Definition before_refresh_keys : list string :=
  (("san" :: acme_keys)
     ++ ["serial"; "root_path"; "certificate_path"; "privatekey_path";
         "csr_path"; "issuer"; "chain_list"; "signedby"])%list%string.

Section ExtendSteps.

Variable E : env.

Definition chain_filled (certs : list pyval) (c5 : dict) : dict :=
  dict_set "chain_list"
    (VList (map VStr (fst (fst (load_chain E certs [] None))))) c5.

Definition after_refresh (certs : list pyval) (c5 : dict) : dict :=
  fst (fst (refresh_csr E (fst (refresh_privatekey E (chain_filled certs c5))))).

Definition csr_object (certs : list pyval) (c5 : dict) : option x509req :=
  snd (fst (refresh_csr E (fst (refresh_privatekey E (chain_filled certs c5))))).

Definition before_finish (certs : list pyval) (c5 : dict) (t : pyval) : dict :=
  dict_set "until" VNone
    (dict_set "from" VNone
       (dict_set "internal" (internal_label t) (after_refresh certs c5))).

(** Every step of a run of [extend_rest] that returns. *)
Lemma extend_rest_steps (fuel : nat) (cert out : dict) (log : list pystr) :
  extend_rest E fuel cert = (log, Ok out) ->
  exists c1 c2 c3 c4 issuer certs c5 t,
    drop_acme_keys cert = Ok c1 /\
    convert_san E c1 = Ok c2 /\
    convert_serial E c2 = Ok c3 /\
    set_paths E c3 = Ok c4 /\
    cert_issuer c4 = Ok issuer /\
    gather_certs E fuel
      (dict_set "chain_list" (VList []) (dict_set "issuer" issuer c4))
      = Ok (certs, c5) /\
    getitem "type" (after_refresh certs c5) = Ok t /\
    finish E (before_finish certs c5 t) t
      (snd (fst (load_chain E certs [] None))) (csr_object certs c5) = Ok out.
Proof.
  unfold extend_rest. intros H.
  apply lbind_quiet_ok in H. destruct H as [c1 [H1 H]].
  apply lbind_quiet_ok in H. destruct H as [c2 [H2 H]].
  apply lbind_quiet_ok in H. destruct H as [c3 [H3 H]].
  apply lbind_quiet_ok in H. destruct H as [c4 [H4 H]].
  apply lbind_quiet_ok in H. destruct H as [issuer [H5 H]].
  apply lbind_quiet_ok in H. destruct H as [[certs c5] [H6 H]].
  cbn [fst snd] in H.
  apply lbind_log_if_ok in H. destruct H as [l2 [H _]].
  apply lbind_log_if_ok in H. destruct H as [l3 [H _]].
  apply lbind_log_if_ok in H. destruct H as [l4 [H _]].
  apply lbind_quiet_ok in H. destruct H as [t [H7 H]].
  unfold quiet in H. inversion H as [[Hl Hf]]. clear H.
  exists c1, c2, c3, c4, issuer, certs, c5, t.
  repeat split; assumption.
Qed.

Lemma steps_before_refresh (fuel : nat) (cert c1 c2 c3 c4 c5 : dict)
    (issuer : pyval) (certs : list pyval) :
  drop_acme_keys cert = Ok c1 ->
  convert_san E c1 = Ok c2 ->
  convert_serial E c2 = Ok c3 ->
  set_paths E c3 = Ok c4 ->
  gather_certs E fuel
    (dict_set "chain_list" (VList []) (dict_set "issuer" issuer c4))
    = Ok (certs, c5) ->
  writes before_refresh_keys cert (chain_filled certs c5).
Proof.
  intros H1 H2 H3 H4 H6.
  apply drop_acme_keys_ok in H1. destruct H1 as [W1 _].
  apply convert_san_ok in H2. destruct H2 as [s [E2 _]].
  apply convert_serial_ok in H3. apply set_paths_ok in H4.
  apply gather_certs_ok in H6.
  unfold chain_filled. apply writes_set; [|unfold before_refresh_keys; in_keys].
  eapply writes_trans;
    [|eapply writes_incl; [|exact H6];
      intros k [<-|[<-|[]]]; unfold before_refresh_keys; in_keys].
  apply writes_set; [|unfold before_refresh_keys; in_keys].
  apply writes_set; [|unfold before_refresh_keys; in_keys].
  eapply writes_trans;
    [|eapply writes_incl; [|exact H4];
      intros k Hk; unfold path_keys in Hk; simpl in Hk;
      destruct Hk as [<-|[<-|[<-|[<-|[]]]]]; unfold before_refresh_keys;
      in_keys].
  eapply writes_trans;
    [|eapply writes_incl; [|exact H3];
      intros k [<-|[]]; unfold before_refresh_keys; in_keys].
  rewrite E2.
  apply writes_set; [|unfold before_refresh_keys; in_keys].
  apply writes_remove; [|unfold before_refresh_keys; in_keys].
  eapply writes_incl; [|exact W1].
  intros k Hk. unfold before_refresh_keys. apply in_or_app. left. now right.
Qed.

Lemma steps_after_paths (fuel : nat) (c4 c5 out : dict) (issuer t : pyval)
    (certs : list pyval) :
  gather_certs E fuel
    (dict_set "chain_list" (VList []) (dict_set "issuer" issuer c4))
    = Ok (certs, c5) ->
  finish E (before_finish certs c5 t) t
    (snd (fst (load_chain E certs [] None))) (csr_object certs c5) = Ok out ->
  writes after_path_keys c4 out.
Proof.
  intros H6 Hf. apply gather_certs_ok in H6. apply finish_ok in Hf.
  eapply writes_trans;
    [|eapply writes_incl; [|exact Hf];
      intros k [<-|[<-|[<-|[]]]]; unfold after_path_keys; in_keys].
  unfold before_finish.
  repeat (apply writes_set; [|unfold after_path_keys; in_keys]).
  unfold after_refresh.
  eapply writes_trans;
    [|eapply writes_incl; [|apply (refresh_csr_writes E)];
      intros k [<-|[]]; unfold after_path_keys; in_keys].
  eapply writes_trans;
    [|eapply writes_incl; [|apply (refresh_privatekey_writes E)];
      intros k [<-|[]]; unfold after_path_keys; in_keys].
  unfold chain_filled. apply writes_set; [|unfold after_path_keys; in_keys].
  eapply writes_trans;
    [|eapply writes_incl; [|exact H6];
      intros k [<-|[<-|[]]]; unfold after_path_keys; in_keys].
  apply writes_set; [apply writes_set1|]; unfold after_path_keys; in_keys.
Qed.

Lemma set_paths_values (d d' : dict) :
  set_paths E d = Ok d' ->
  exists t n,
    dict_get "type" d = Some t /\ dict_get "name" d = Some n /\
    let root :=
      if in_ints t [CA_TYPE_EXISTING; CA_TYPE_INTERNAL; CA_TYPE_INTERMEDIATE]
      then CERT_CA_ROOT_PATH else CERT_ROOT_PATH in
    dict_get "root_path" d' = Some (VStr root) /\
    dict_get "certificate_path" d'
      = Some (VStr (path_join root (format E n ++ str ".crt"))) /\
    dict_get "privatekey_path" d'
      = Some (VStr (path_join root (format E n ++ str ".key"))) /\
    dict_get "csr_path" d'
      = Some (VStr (path_join root (format E n ++ str ".csr"))).
Proof.
  unfold set_paths, getitem. intros H.
  destruct (dict_get "type" d) as [t|] eqn:T; [|discriminate].
  cbn [bind] in H. rewrite dict_get_set_other in H by discriminate.
  destruct (dict_get "name" d) as [n|] eqn:N; [|discriminate].
  cbn [bind] in H. inversion H; subst. clear H.
  exists t, n. split; [reflexivity|]. split; [reflexivity|].
  cbv zeta. repeat split.
  - rewrite !dict_get_set_other by discriminate. apply dict_get_set_same.
  - rewrite !dict_get_set_other by discriminate. apply dict_get_set_same.
  - rewrite !dict_get_set_other by discriminate. apply dict_get_set_same.
  - apply dict_get_set_same.
Qed.

Lemma refresh_csr_some (d : dict) (q : x509req) :
  snd (fst (refresh_csr E d)) = Some q ->
  exists s,
    dict_get "CSR" d = Some (VStr s) /\ s <> [] /\
    load_certificate_request E s = Some q /\
    fst (fst (refresh_csr E d)) = dict_set "CSR" (VStr (q_dump q)) d.
Proof.
  unfold refresh_csr. destruct (dict_get "CSR" d) as [v|]; [|discriminate].
  destruct (py_truthy v) eqn:T; [|discriminate].
  destruct v; try discriminate.
  destruct (load_certificate_request E s) as [q'|] eqn:L; [|discriminate].
  simpl. intros H. inversion H; subst. exists s. repeat split; auto.
  intros ->. discriminate.
Qed.

End ExtendSteps.

(** [cert_extend] leaves alone every key but the ones it computes: the
    record it returns reads as the row did under [id], [name], [type],
    [certificate], [chain] and any other key outside [san], the four ACME
    keys, [serial], the paths, [issuer], [chain_list], [signedby],
    [privatekey], [CSR], [internal], [from], [until] and [DN]. *)
Theorem cert_extend_keeps_columns (E : env) (fuel : nat) (row out : dict)
    (log : list pystr) (k : string) :
  cert_extend E fuel row = (log, Ok out) ->
  kept k ->
  dict_get k out = dict_get k row.
Proof.
  intros H Hk. apply cert_extend_inv in H.
  destruct H as [f [l0 [c0 [l1 [_ [H0 [H1 _]]]]]]].
  apply resolve_signedby_ok in H0.
  destruct (extend_rest_fields E _ _ _ _ H1) as [_ [_ [_ K]]].
  rewrite (K k Hk). apply (writes_frame _ _ _ H0).
  intros [<-|[]]. apply Hk. unfold later_keys. apply in_or_app. right. in_keys.
Qed.

Lemma cert_extend_keeps_columns_witness :
  exists out,
    cert_extend example_env 1 bundle_row = ([], Ok out) /\
    dict_get "certificate" out = dict_get "certificate" bundle_row.
Proof.
  destruct (cert_extend example_env 1 bundle_row) as [log [out| |]] eqn:R;
    try (vm_compute in R; discriminate R).
  assert (L : log = []) by (vm_compute in R; now inversion R).
  exists out. split; [now rewrite L|].
  apply (cert_extend_keeps_columns example_env 1 bundle_row out log
           "certificate" R).
  unfold kept. vm_compute. intuition discriminate.
Defined.

(** The paths and the [internal] label of a returned record follow from
    the row's type and name alone: the root is the CA directory for the
    three CA types and the certificate directory otherwise, the three file
    paths are the name with [.crt], [.key] and [.csr] under that root, and
    [internal] is ['NO'] exactly for the two imported types. *)
Theorem cert_extend_paths (E : env) (fuel : nat) (row out : dict)
    (log : list pystr) :
  cert_extend E fuel row = (log, Ok out) ->
  exists t n,
    dict_get "type" row = Some t /\ dict_get "name" row = Some n /\
    let root :=
      if in_ints t [CA_TYPE_EXISTING; CA_TYPE_INTERNAL; CA_TYPE_INTERMEDIATE]
      then CERT_CA_ROOT_PATH else CERT_ROOT_PATH in
    dict_get "root_path" out = Some (VStr root) /\
    dict_get "certificate_path" out
      = Some (VStr (path_join root (format E n ++ str ".crt"))) /\
    dict_get "privatekey_path" out
      = Some (VStr (path_join root (format E n ++ str ".key"))) /\
    dict_get "csr_path" out
      = Some (VStr (path_join root (format E n ++ str ".csr"))) /\
    dict_get "internal" out
      = Some (VStr (if in_ints t [CA_TYPE_EXISTING; CERT_TYPE_EXISTING]
                    then str "NO" else str "YES")).
Proof.
  intros H. apply cert_extend_inv in H.
  destruct H as [f [l0 [c0 [l1 [_ [H0 [H1 _]]]]]]].
  apply resolve_signedby_ok in H0.
  destruct (extend_rest_steps E _ _ _ _ H1)
    as [c1 [c2 [c3 [c4 [issuer [certs [c5 [t7 [S1 [S2 [S3 [S4 [S5 [S6 [S7 S8]]]]]]]]]]]]]]].
  pose proof (steps_before_refresh E _ _ _ _ _ _ _ _ _ S1 S2 S3 S4 S6) as Wb.
  pose proof (steps_after_paths E _ _ _ _ _ _ _ S6 S8) as Wa.
  destruct (set_paths_values E _ _ S4) as [t [n [T3 [N3 P]]]].
  cbv zeta in P. destruct P as [P1 [P2 [P3 P4]]].
  (* type and name are never written *)
  assert (K3 : forall k, k <> "san"%string -> ~ In k acme_keys ->
                 k <> "serial"%string -> k <> "signedby"%string ->
                 dict_get k c3 = dict_get k row).
  { intros k Hs Ha Hser Hsb.
    rewrite (writes_frame _ _ _ (convert_serial_ok E _ _ S3))
      by (simpl; intuition congruence).
    apply convert_san_ok in S2. destruct S2 as [s [E2 _]]. rewrite E2.
    rewrite dict_get_set_other by congruence.
    rewrite dict_get_remove_other by congruence.
    apply drop_acme_keys_ok in S1. destruct S1 as [W1 _].
    rewrite (writes_frame _ _ _ W1) by exact Ha.
    apply (writes_frame _ _ _ H0). simpl. intuition congruence. }
  rewrite K3 in T3, N3
    by (unfold acme_keys; simpl; intuition discriminate).
  assert (T7 : dict_get "type" (after_refresh E certs c5) = Some t).
  { unfold after_refresh. rewrite refresh_frame by discriminate.
    rewrite (writes_frame _ _ _ Wb)
      by (unfold before_refresh_keys, acme_keys; simpl; intuition discriminate).
    rewrite (writes_frame _ _ _ H0) by (simpl; intuition discriminate).
    exact T3. }
  unfold getitem in S7. rewrite T7 in S7. inversion S7; subst t7. clear S7.
  exists t, n. split; [exact T3|]. split; [exact N3|]. cbv zeta.
  repeat split.
  - rewrite (writes_frame _ _ _ Wa)
      by (unfold after_path_keys; simpl; intuition discriminate). exact P1.
  - rewrite (writes_frame _ _ _ Wa)
      by (unfold after_path_keys; simpl; intuition discriminate). exact P2.
  - rewrite (writes_frame _ _ _ Wa)
      by (unfold after_path_keys; simpl; intuition discriminate). exact P3.
  - rewrite (writes_frame _ _ _ Wa)
      by (unfold after_path_keys; simpl; intuition discriminate). exact P4.
  - rewrite (writes_frame _ _ _ (finish_ok E _ _ _ _ _ S8))
      by (simpl; intuition discriminate).
    unfold before_finish. rewrite !dict_get_set_other by discriminate.
    apply dict_get_set_same.
Qed.

Lemma cert_extend_paths_witness :
  exists out,
    cert_extend example_env 2 leaf_row
      = ([], Ok out) /\
    dict_get "certificate_path" out
      = Some (VStr (str "/etc/certificates/leaf.crt")) /\
    dict_get "internal" out = Some (VStr (str "YES")).
Proof.
  destruct (cert_extend example_env 2 leaf_row) as [log [out| |]] eqn:R;
    try (vm_compute in R; discriminate R).
  assert (L : log = []) by (vm_compute in R; now inversion R).
  exists out. split; [now rewrite L|].
  destruct (cert_extend_paths example_env 2 leaf_row out log R)
    as [t [n [T [N [_ [P [_ [_ I]]]]]]]].
  vm_compute in T. inversion T; subst t.
  vm_compute in N. inversion N; subst n.
  split; [exact P | exact I].
Defined.

(** A record of type CSR can be read only if its request parses. When
    [cert_extend] returns for such a row, the row holds a request that is
    not empty and that OpenSSL loads; the record comes back with the
    request re-dumped, with the [DN] of the request's subject, and with
    neither [from] nor [until]. *)
Theorem csr_record_needs_request (E : env) (fuel : nat) (row out : dict)
    (log : list pystr) :
  cert_extend E fuel row = (log, Ok out) ->
  dict_get "type" row = Some (VInt CERT_TYPE_CSR) ->
  exists s q,
    dict_get "CSR" row = Some (VStr s) /\ s <> [] /\
    load_certificate_request E s = Some q /\
    dict_get "CSR" out = Some (VStr (q_dump q)) /\
    dict_get "DN" out = Some (VStr (distinguished_name (q_components q))) /\
    dict_get "from" out = Some VNone /\
    dict_get "until" out = Some VNone.
Proof.
  intros H T. apply cert_extend_inv in H.
  destruct H as [f [l0 [c0 [l1 [_ [H0 [H1 _]]]]]]].
  apply resolve_signedby_ok in H0.
  destruct (extend_rest_steps E _ _ _ _ H1)
    as [c1 [c2 [c3 [c4 [issuer [certs [c5 [t7 [S1 [S2 [S3 [S4 [S5 [S6 [S7 S8]]]]]]]]]]]]]]].
  pose proof (steps_before_refresh E _ _ _ _ _ _ _ _ _ S1 S2 S3 S4 S6) as Wb.
  assert (K6 : forall k, ~ In k before_refresh_keys ->
                 dict_get k (chain_filled E certs c5) = dict_get k row).
  { intros k Hk. rewrite (writes_frame _ _ _ Wb) by exact Hk.
    apply (writes_frame _ _ _ H0). intros [<-|[]]. apply Hk.
    unfold before_refresh_keys. apply in_or_app. right. in_keys. }
  assert (T7 : dict_get "type" (after_refresh E certs c5)
               = Some (VInt CERT_TYPE_CSR)).
  { unfold after_refresh. rewrite refresh_frame by discriminate.
    rewrite K6
      by (unfold before_refresh_keys, acme_keys; simpl; intuition discriminate).
    exact T. }
  unfold getitem in S7. rewrite T7 in S7. inversion S7; subst t7. clear S7.
  unfold finish in S8.
  change (in_ints (VInt CERT_TYPE_CSR) [CERT_TYPE_CSR]) with true in S8.
  cbv iota in S8.
  destruct (csr_object E certs c5) as [q|] eqn:Q; [|discriminate].
  inversion S8; subst out. clear S8.
  unfold csr_object in Q. apply refresh_csr_some in Q.
  destruct Q as [s [Cs [Ns [Ls Eq]]]].
  rewrite (writes_frame _ _ _ (refresh_privatekey_writes E _)) in Cs
    by (simpl; intuition discriminate).
  rewrite K6 in Cs
    by (unfold before_refresh_keys, acme_keys; simpl; intuition discriminate).
  exists s, q. split; [exact Cs|]. split; [exact Ns|]. split; [exact Ls|].
  unfold before_finish, after_refresh. rewrite Eq. repeat split.
  - rewrite !dict_get_set_other by discriminate. apply dict_get_set_same.
  - apply dict_get_set_same.
  - rewrite !dict_get_set_other by discriminate. apply dict_get_set_same.
  - rewrite dict_get_set_other by discriminate. apply dict_get_set_same.
Qed.

Lemma csr_record_needs_request_witness :
  exists out s q,
    cert_extend example_env 1 csr_row = ([], Ok out) /\
    dict_get "CSR" csr_row = Some (VStr s) /\ s <> [] /\
    load_certificate_request example_env s = Some q /\
    dict_get "DN" out = Some (VStr (distinguished_name (q_components q))).
Proof.
  destruct (cert_extend example_env 1 csr_row) as [log [out| |]] eqn:R;
    try (vm_compute in R; discriminate R).
  assert (L : log = []) by (vm_compute in R; now inversion R).
  destruct (csr_record_needs_request example_env 1 csr_row out log R eq_refl)
    as [s [q [C [N [Lq [_ [D _]]]]]]].
  exists out, s, q. rewrite L. auto.
Defined.

(** *** The [san] column, written and read *)

Fixpoint only_strs (l : list pyval) : option (list pystr) :=
  match l with
  | [] => Some []
  | VStr s :: rest => option_map (cons s) (only_strs rest)
  | _ :: _ => None
  end.

(** [' '.join(v or [])], what [do_create] and [do_update] store under
    [san]. A [str] is joined character by character, a dict by its keys;
    an integer cannot be iterated, and an item that is not a [str] cannot
    be joined. *)
Definition san_column (v : pyval) : result pystr :=
  if py_truthy v then
    match v with
    | VList l =>
        match only_strs l with
        | Some parts => Ok (join_with (str " ") parts)
        | None => Raise TypeError
        end
    | VStr s => Ok (join_with (str " ") (map (fun c => [c]) s))
    | VDict d => Ok (join_with (str " ") (map (fun kv => str (fst kv)) d))
    | _ => Raise TypeError
    end
  else Ok [].

(** A name that [split] gives back whole: not empty, no whitespace. *)
Definition one_word (E : env) (name : pystr) : bool :=
  match name with
  | [] => false
  | _ => forallb (fun c => negb (is_space E c)) name
  end.

Example san_column_names :
  san_column (VList [VStr (str "a.example.com"); VStr (str "b.example.com")])
    = Ok (str "a.example.com b.example.com").
Proof. reflexivity. Qed.

Example san_column_of_text :
  san_column (VStr (str "DNS:a")) = Ok (str "D N S : a").
Proof. reflexivity. Qed.

Example san_column_absent : san_column VNone = Ok [].
Proof. reflexivity. Qed.

Section SanColumn.

Variable E : env.

Lemma only_strs_map (names : list pystr) :
  only_strs (map VStr names) = Some names.
Proof.
  induction names as [|n rest IH]; simpl; [reflexivity | now rewrite IH].
Qed.

Lemma space_is_space : is_space E 32 = true.
Proof. reflexivity. Qed.

Lemma split_from_word (w : pystr) :
  forallb (fun c => negb (is_space E c)) w = true ->
  forall cur rest,
    split_from E cur (w ++ rest) = split_from E (rev w ++ cur) rest.
Proof.
  induction w as [|c w IH]; intros H cur rest; [reflexivity|].
  simpl in H. apply andb_prop in H. destruct H as [Hc Hw].
  simpl. apply negb_true_iff in Hc. rewrite Hc.
  rewrite (IH Hw). now rewrite <- app_assoc.
Qed.

Lemma split_from_end (cur : pystr) :
  cur <> [] -> split_from E cur [] = [rev cur].
Proof. destruct cur; [contradiction | reflexivity]. Qed.

Lemma py_split_join (names : list pystr) :
  forallb (one_word E) names = true ->
  py_split E (join_with (str " ") names) = names.
Proof.
  unfold py_split. induction names as [|p rest IH]; intros H; [reflexivity|].
  simpl in H. apply andb_prop in H. destruct H as [Hp Hrest].
  unfold one_word in Hp. destruct p as [|c p]; [discriminate|].
  destruct rest as [|q rest].
  - cbn [join_with].
    pose proof (split_from_word (c :: p) Hp [] []) as W.
    rewrite !app_nil_r in W. rewrite W.
    rewrite split_from_end; [now rewrite rev_involutive|].
    simpl. intros A. apply app_eq_nil in A. destruct A as [_ A]. discriminate.
  - change (join_with (str " ") ((c :: p) :: q :: rest))
      with ((c :: p) ++ str " " ++ join_with (str " ") (q :: rest)).
    rewrite (split_from_word _ Hp). rewrite app_nil_r.
    change (str " " ++ join_with (str " ") (q :: rest))
      with (32%N :: join_with (str " ") (q :: rest)).
    cbn [split_from]. rewrite space_is_space.
    destruct (rev (c :: p)) as [|r0 r] eqn:R.
    + apply (f_equal (@rev N)) in R. rewrite rev_involutive in R. discriminate.
    + rewrite <- R. rewrite rev_involutive. f_equal. apply (IH Hrest).
Qed.

Lemma py_split_spaced (s : pystr) :
  py_split E (join_with (str " ") (map (fun c => [c]) s))
    = map (fun c => [c]) (filter (fun c => negb (is_space E c)) s).
Proof.
  unfold py_split. induction s as [|c s IH]; [reflexivity|].
  destruct s as [|c' s].
  - cbn [map join_with filter split_from].
    destruct (is_space E c); reflexivity.
  - change (join_with (str " ") (map (fun c => [c]) (c :: c' :: s)))
      with (c :: 32%N :: join_with (str " ") (map (fun c => [c]) (c' :: s))).
    cbn [split_from filter]. destruct (is_space E c) eqn:Hc; cbn [negb].
    + rewrite space_is_space. exact IH.
    + rewrite space_is_space. cbn [rev app map]. f_equal. exact IH.
Qed.

Lemma convert_san_of_text (row : dict) (s : pystr) :
  dict_get "san" row = Some (VStr s) ->
  convert_san E row
    = Ok (dict_set "san" (VList (map VStr (py_split E s)))
            (dict_remove "san" row)).
Proof.
  intros H. unfold convert_san, pop_default. rewrite H.
  destruct s; reflexivity.
Qed.

End SanColumn.

(** The names of a request come back as they were given. [do_create]
    stores the list under [san] joined by spaces and [cert_extend] splits
    the column at whitespace: for names that are not empty and hold no
    whitespace, the list read is the list written. *)
Theorem san_list_round_trip (E : env) (names : list pystr) (row : dict) :
  forallb (one_word E) names = true ->
  exists joined,
    san_column (VList (map VStr names)) = Ok joined /\
    (dict_get "san" row = Some (VStr joined) ->
     exists row',
       convert_san E row = Ok row' /\
       dict_get "san" row' = Some (VList (map VStr names))).
Proof.
  intros H. exists (join_with (str " ") names). split.
  - unfold san_column. destruct names as [|n rest]; [reflexivity|].
    change (py_truthy (VList (map VStr (n :: rest)))) with true.
    cbv iota. now rewrite (only_strs_map (n :: rest)).
  - intros Hrow. rewrite (convert_san_of_text E _ _ Hrow).
    eexists. split; [reflexivity|].
    rewrite dict_get_set_same. now rewrite (py_split_join E names H).
Qed.

Lemma san_list_round_trip_witness :
  exists joined,
    san_column (VList (map VStr [str "a.example.com"; str "b.example.com"]))
      = Ok joined /\
    (dict_get "san" bundle_row = Some (VStr joined) ->
     exists row',
       convert_san example_env bundle_row = Ok row' /\
       dict_get "san" row'
         = Some (VList (map VStr [str "a.example.com"; str "b.example.com"]))).
Proof.
  apply (san_list_round_trip example_env
           [str "a.example.com"; str "b.example.com"] bundle_row).
  reflexivity.
Defined.

(** A [san] that is a text and not a list is stored character by
    character. [load_certificate] reports the subject's [subjectAltName]
    as one [str]; [' '.join] of a [str] puts a space between its
    characters, so what [cert_extend] reads back for an imported
    certificate is the list of the characters of that text, whitespace
    left out, and not its names. *)
Theorem san_text_read_as_characters (E : env) (s : pystr) (row : dict) :
  exists joined,
    san_column (VStr s) = Ok joined /\
    (dict_get "san" row = Some (VStr joined) ->
     exists row',
       convert_san E row = Ok row' /\
       dict_get "san" row'
         = Some (VList (map (fun c => VStr [c])
                          (filter (fun c => negb (is_space E c)) s)))).
Proof.
  exists (join_with (str " ") (map (fun c => [c]) s)). split.
  - unfold san_column. destruct s; reflexivity.
  - intros Hrow. rewrite (convert_san_of_text E _ _ Hrow).
    eexists. split; [reflexivity|].
    rewrite dict_get_set_same. rewrite (py_split_spaced E s).
    now rewrite map_map.
Qed.

(** *** The other imports *)

(** [get_x509_subject]. *)
Record subject : Type := {
  s_country : option pystr;
  s_state : option pystr;
  s_city : option pystr;
  s_organization : option pystr;
  s_common : option pystr;
  s_san : option pystr;
  s_email : option pystr
}.

Definition subject_dict (s : subject) : dict :=
  [("country"%string, of_option (s_country s));
   ("state"%string, of_option (s_state s));
   ("city"%string, of_option (s_city s));
   ("organization"%string, of_option (s_organization s));
   ("common"%string, of_option (s_common s));
   ("san"%string, of_option (s_san s));
   ("email"%string, of_option (s_email s))].

Definition subject_keys : list string :=
  ["country"; "state"; "city"; "organization"; "common"; "san"; "email"]%string.

Section Imports.

Variable E : env.

(** The subject of a request OpenSSL has parsed. *)
Variable request_subject : x509req -> subject.

(** [CertificateService.load_certificate_request]. *)
Definition service_load_certificate_request (csr : pyval) : dict :=
  match csr with
  | VStr s =>
      match load_certificate_request E s with
      | Some q => subject_dict (request_subject q)
      | None => []
      end
  | _ => []
  end.

(** [CertificateService.__create_imported_csr]. *)
Definition create_imported_csr (data : dict) : result dict :=
  let data := dict_set "type" (VInt CERT_TYPE_CSR) data in
  csr <- getitem "CSR" data ;;
  let data := update_from (service_load_certificate_request csr) data in
  data <-
    match dict_get "passphrase" data with
    | Some passphrase =>
        pk <- getitem "privatekey" data ;;
        Ok (dict_set "privatekey"
              (of_option (export_private_key E pk passphrase)) data)
    | None => Ok data
    end ;;
  Ok (snd (pop_default "passphrase" VNone data)).

(** [CertificateAuthorityService.__create_imported_ca]. *)
Definition create_imported_ca (data : dict) : result dict :=
  let data := dict_set "type" (VInt CA_TYPE_EXISTING) data in
  c <- getitem "certificate" data ;;
  chain <- chain_flag E c ;;
  let data := dict_set "chain" chain data in
  c <- getitem "certificate" data ;;
  let data := update_from (service_load_certificate E c) data in
  let data :=
    match dict_get "passphrase" data, dict_get "privatekey" data with
    | Some passphrase, Some pk =>
        dict_set "privatekey"
          (of_option (export_private_key E pk passphrase)) data
    | _, _ => data
    end in
  Ok (snd (pop_default "passphrase" VNone data)).

Lemma pop_default_gone (k : string) (v : pyval) (d : dict) :
  dict_get k (snd (pop_default k v d)) = None.
Proof.
  unfold pop_default. destruct (dict_get k d) eqn:G; simpl.
  - apply dict_get_remove_same.
  - exact G.
Qed.

Lemma update_from_other (info d : dict) (k : string) :
  ~ In k (map fst info) ->
  dict_get k (update_from info d) = dict_get k d.
Proof. intros H. apply (writes_frame _ _ _ (update_from_writes info d) k H). Qed.

Lemma certificate_info_other (c : pyval) (d : dict) (k : string) :
  ~ In k info_keys ->
  dict_get k (update_from (service_load_certificate E c) d) = dict_get k d.
Proof.
  intros H. apply update_from_other. intros Hin. apply H.
  exact (service_load_certificate_keys E c k Hin).
Qed.

Lemma create_imported_certificate_last (data out : dict) :
  create_imported_certificate E data = Ok out ->
  exists d, out = snd (pop_default "passphrase" VNone d).
Proof.
  unfold create_imported_certificate.
  destruct (pop_default "csr_id" VNone data) as [csr_id d0].
  intros H. apply bind_ok in H. destruct H as [d1 [_ H]].
  apply bind_ok in H. destruct H as [d2 [_ H]].
  apply bind_ok in H. destruct H as [c [_ H]].
  apply bind_ok in H. destruct H as [chain [_ H]].
  apply bind_ok in H. destruct H as [d3 [_ H]].
  inversion H. eauto.
Qed.

End Imports.

(** No import stores the passphrase: whatever [__create_imported_certificate],
    [__create_imported_ca] or [__create_imported_csr] returns has no
    [passphrase] key. *)
Theorem imports_drop_passphrase (E : env) (request_subject : x509req -> subject)
    (data : dict) :
  (forall out, create_imported_certificate E data = Ok out ->
               dict_get "passphrase" out = None) /\
  (forall out, create_imported_ca E data = Ok out ->
               dict_get "passphrase" out = None) /\
  (forall out, create_imported_csr E request_subject data = Ok out ->
               dict_get "passphrase" out = None).
Proof.
  split; [|split]; intros out H.
  - apply create_imported_certificate_last in H. destruct H as [d ->].
    apply pop_default_gone.
  - unfold create_imported_ca in H.
    apply bind_ok in H. destruct H as [c [_ H]].
    apply bind_ok in H. destruct H as [chain [_ H]].
    apply bind_ok in H. destruct H as [c' [_ H]].
    inversion H. apply pop_default_gone.
  - unfold create_imported_csr in H.
    apply bind_ok in H. destruct H as [csr [_ H]].
    apply bind_ok in H. destruct H as [d [_ H]].
    inversion H. apply pop_default_gone.
Qed.

(** Imports that come with a passphrase. *)
Definition locked_import_data : dict :=
  [("name"%string, VStr (str "locked"));
   ("certificate"%string, VStr (Pem.block_a ++ Pem.LF));
   ("privatekey"%string, VStr (str "key"));
   ("passphrase"%string, VStr (str "secret"))].

Definition locked_csr_data : dict :=
  [("name"%string, VStr (str "locked-request"));
   ("CSR"%string, VStr (str "REQ"));
   ("privatekey"%string, VStr (str "key"));
   ("passphrase"%string, VStr (str "secret"))].

Definition no_subject (q : x509req) : subject :=
  {| s_country := None; s_state := None; s_city := None;
     s_organization := None; s_common := None; s_san := None;
     s_email := None |}.

Definition stored (r : result dict) : dict :=
  match r with
  | Ok d => d
  | _ => []
  end.

Lemma imports_drop_passphrase_witness :
  (dict_get "passphrase" locked_import_data = Some (VStr (str "secret")) /\
   dict_get "passphrase" locked_csr_data = Some (VStr (str "secret"))) /\
  (create_imported_certificate example_env locked_import_data
     = Ok (stored (create_imported_certificate example_env locked_import_data)) /\
   dict_get "passphrase"
     (stored (create_imported_certificate example_env locked_import_data))
     = None) /\
  (create_imported_ca example_env locked_import_data
     = Ok (stored (create_imported_ca example_env locked_import_data)) /\
   dict_get "passphrase"
     (stored (create_imported_ca example_env locked_import_data))
     = None) /\
  (create_imported_csr example_env no_subject locked_csr_data
     = Ok (stored (create_imported_csr example_env no_subject locked_csr_data)) /\
   dict_get "passphrase"
     (stored (create_imported_csr example_env no_subject locked_csr_data))
     = None).
Proof.
  split; [split; reflexivity|].
  split; [|split].
  - assert (H : create_imported_certificate example_env locked_import_data
                = Ok (stored (create_imported_certificate example_env
                                locked_import_data)))
      by (vm_compute; reflexivity).
    split; [exact H|].
    exact (proj1 (imports_drop_passphrase example_env no_subject
                    locked_import_data) _ H).
  - assert (H : create_imported_ca example_env locked_import_data
                = Ok (stored (create_imported_ca example_env
                                locked_import_data)))
      by (vm_compute; reflexivity).
    split; [exact H|].
    exact (proj1 (proj2 (imports_drop_passphrase example_env no_subject
                           locked_import_data)) _ H).
  - assert (H : create_imported_csr example_env no_subject locked_csr_data
                = Ok (stored (create_imported_csr example_env no_subject
                                locked_csr_data)))
      by (vm_compute; reflexivity).
    split; [exact H|].
    exact (proj2 (proj2 (imports_drop_passphrase example_env no_subject
                           locked_csr_data)) _ H).
Defined.

(** Importing a CA. Given a certificate text, [__create_imported_ca]
    returns: the record has type [CA_TYPE_EXISTING] and the text as it was,
    its chain flag says whether the pattern finds more than one block, and
    its private key is the one given, re-exported under the passphrase
    only when both a key and a passphrase were given. Without a
    certificate it raises [KeyError]. *)
Theorem imported_ca_record (E : env) (data : dict) :
  (forall text,
      dict_get "certificate" data = Some (VStr text) ->
      exists out,
        create_imported_ca E data = Ok out /\
        dict_get "type" out = Some (VInt CA_TYPE_EXISTING) /\
        dict_get "certificate" out = Some (VStr text) /\
        dict_get "chain" out
          = Some (VBool (1 <? List.length (Pem.findall (ucd E) text))%nat) /\
        dict_get "privatekey" out
          = match dict_get "passphrase" data, dict_get "privatekey" data with
            | Some passphrase, Some pk =>
                Some (of_option (export_private_key E pk passphrase))
            | _, _ => dict_get "privatekey" data
            end) /\
  (dict_get "certificate" data = None ->
   create_imported_ca E data = Raise (KeyError "certificate")).
Proof.
  split.
  - intros text C. unfold create_imported_ca, getitem.
    rewrite dict_get_set_other by discriminate. rewrite C.
    cbn [bind chain_flag].
    rewrite !dict_get_set_other by discriminate. rewrite C. cbn [bind].
    set (flag := VBool (1 <? List.length (Pem.findall (ucd E) text))%nat).
    set (d1 := dict_set "chain" flag
                 (dict_set "type" (VInt CA_TYPE_EXISTING) data)).
    set (d2 := update_from (service_load_certificate E (VStr text)) d1).
    assert (K : forall k, ~ In k info_keys -> dict_get k d2 = dict_get k d1)
      by (intros k Hk; apply certificate_info_other; exact Hk).
    assert (P2 : dict_get "passphrase" d2 = dict_get "passphrase" data).
    { rewrite K by (unfold info_keys; simpl; intuition discriminate).
      unfold d1. now rewrite !dict_get_set_other by discriminate. }
    assert (K2 : dict_get "privatekey" d2 = dict_get "privatekey" data).
    { rewrite K by (unfold info_keys; simpl; intuition discriminate).
      unfold d1. now rewrite !dict_get_set_other by discriminate. }
    assert (T2 : dict_get "type" d2 = Some (VInt CA_TYPE_EXISTING)).
    { rewrite K by (unfold info_keys; simpl; intuition discriminate).
      unfold d1. rewrite dict_get_set_other by discriminate.
      apply dict_get_set_same. }
    assert (C2 : dict_get "certificate" d2 = Some (VStr text)).
    { rewrite K by (unfold info_keys; simpl; intuition discriminate).
      unfold d1. now rewrite !dict_get_set_other by discriminate. }
    assert (F2 : dict_get "chain" d2 = Some flag).
    { rewrite K by (unfold info_keys; simpl; intuition discriminate).
      unfold d1. apply dict_get_set_same. }
    eexists. split; [reflexivity|].
    rewrite P2, K2.
    assert (W : forall d k, k <> "passphrase"%string ->
                  dict_get k (snd (pop_default "passphrase" VNone d))
                  = dict_get k d).
    { intros d k Hk. apply (writes_frame _ _ _ (pop_default_writes _ _ d)).
      intros [<-|[]]. congruence. }
    destruct (dict_get "passphrase" data) as [pp|];
      [destruct (dict_get "privatekey" data) as [pk|]|];
      rewrite !W by discriminate;
      rewrite ?dict_get_set_other by discriminate;
      rewrite ?dict_get_set_same; auto.
  - intros C. unfold create_imported_ca, getitem.
    rewrite dict_get_set_other by discriminate. now rewrite C.
Qed.

Lemma imported_ca_record_witness :
  exists out,
    create_imported_ca example_env import_data = Ok out /\
    dict_get "type" out = Some (VInt CA_TYPE_EXISTING) /\
    dict_get "chain" out = Some (VBool true) /\
    dict_get "privatekey" out = Some (VStr (str "key")).
Proof.
  destruct (proj1 (imported_ca_record example_env import_data)
              (Pem.block_a ++ Pem.LF ++ Pem.block_b ++ Pem.LF) eq_refl)
    as [out [H [T [_ [C P]]]]].
  exists out. split; [exact H|]. split; [exact T|]. split; [|exact P].
  rewrite C. vm_compute. reflexivity.
Defined.

(** Importing a certificate for a request already filed. With a [csr_id]
    the private key stored is the one of that request, whatever key or
    passphrase came with the import; and when no certificate with that id
    holds a request, the import is refused with one error under
    [certificate_create.csr_id]. *)
Theorem import_for_filed_request (E : env) (data : dict) (csr_id : pyval) :
  dict_get "csr_id" data = Some csr_id -> py_truthy csr_id = true ->
  let found :=
    filter (fun r => row_has_id csr_id r
                     && negb (is_none (get_or_none "CSR" r)))
           (certificate_rows E) in
  (found = [] ->
   create_imported_certificate E data
     = Raise (ValidationErrors
                [("certificate_create.csr_id"%string,
                  str "No CSR exists with id " ++ format E csr_id)])) /\
  (forall csr_obj rest pk text,
      found = csr_obj :: rest ->
      dict_get "privatekey" csr_obj = Some pk ->
      dict_get "certificate" data = Some (VStr text) ->
      exists out,
        create_imported_certificate E data = Ok out /\
        dict_get "privatekey" out = Some pk).
Proof.
  intros I T found. split.
  - intros F. unfold create_imported_certificate, pop_default.
    rewrite I, T. fold found. now rewrite F.
  - intros csr_obj rest pk text F P C.
    unfold create_imported_certificate, pop_default.
    rewrite I, T. fold found. rewrite F.
    unfold getitem at 1. rewrite P. cbn [bind].
    set (d1 := snd (match dict_get "passphrase"
                            (dict_set "privatekey" pk
                               (dict_remove "csr_id" data)) with
                    | Some v =>
                        (v, dict_remove "passphrase"
                              (dict_set "privatekey" pk
                                 (dict_remove "csr_id" data)))
                    | None =>
                        (VNone,
                         dict_set "privatekey" pk (dict_remove "csr_id" data))
                    end)).
    assert (E1 : d1 = snd (pop_default "passphrase" VNone
                             (dict_set "privatekey" pk
                                (dict_remove "csr_id" data))))
      by reflexivity.
    assert (N1 : dict_get "passphrase" d1 = None)
      by (rewrite E1; apply pop_default_gone).
    assert (K1 : forall k, k <> "passphrase"%string ->
                   dict_get k d1
                   = dict_get k (dict_set "privatekey" pk
                                   (dict_remove "csr_id" data))).
    { intros k Hk. rewrite E1.
      apply (writes_frame _ _ _ (pop_default_writes _ _ _)).
      intros [<-|[]]. congruence. }
    unfold create_certificate, getitem.
    rewrite dict_get_set_other by discriminate.
    rewrite K1 by discriminate.
    rewrite dict_get_set_other by discriminate.
    rewrite dict_get_remove_other by discriminate. rewrite C. cbn [bind].
    set (d2 := update_from (service_load_certificate E (VStr text))
                 (dict_set "type" (VInt CERT_TYPE_EXISTING) d1)).
    assert (K2 : forall k, ~ In k info_keys -> k <> "type"%string ->
                   dict_get k d2 = dict_get k d1).
    { intros k Hk Ht. unfold d2. rewrite certificate_info_other by exact Hk.
      now rewrite dict_get_set_other by congruence. }
    rewrite K2 by (unfold info_keys; simpl; intuition discriminate).
    rewrite K1 by discriminate.
    rewrite dict_get_set_other by discriminate.
    rewrite dict_get_remove_other by discriminate. rewrite C.
    cbn [bind chain_flag].
    rewrite dict_get_set_other by discriminate.
    rewrite K2 by (unfold info_keys; simpl; intuition discriminate).
    rewrite N1. cbn [bind].
    eexists. split; [reflexivity|].
    assert (Wp : forall d k, k <> "passphrase"%string ->
                   dict_get k (snd (pop_default "passphrase" VNone d))
                   = dict_get k d).
    { intros d k Hk. apply (writes_frame _ _ _ (pop_default_writes _ _ d)).
      intros [<-|[]]. congruence. }
    unfold pop_default in Wp. rewrite Wp by discriminate.
    rewrite dict_get_set_other by discriminate.
    rewrite K2 by (unfold info_keys; simpl; intuition discriminate).
    rewrite K1 by discriminate. apply dict_get_set_same.
Qed.

(** Two blocks with nothing between them are not seen as a chain: the
    repeated group of the pattern takes both in one match and keeps the
    last, so [findall] has one entry and the import sets the chain flag to
    [False]. *)
Theorem glued_blocks_are_no_chain (E : env) (data out : dict)
    (b1 b2 post : pystr) :
  Pem.is_block (ucd E) b1 -> Pem.is_block (ucd E) b2 ->
  forallb Pem.not_dash post = true ->
  dict_get "certificate" data = Some (VStr (b1 ++ b2 ++ post)) ->
  create_imported_certificate E data = Ok out ->
  Pem.findall (ucd E) (b1 ++ b2 ++ post) = [b2] /\
  dict_get "chain" out = Some (VBool false).
Proof.
  intros B1 B2 P C H.
  pose proof (Pem.findall_glued (ucd E) b1 b2 post B1 B2 P) as F.
  split; [exact F|].
  destruct (create_imported_certificate_chain E data out _ C H) as [Hc _].
  rewrite F in Hc. exact Hc.
Qed.

(** The two-block text of [import_data] without the line breaks. *)
Definition glued_import_data : dict :=
  [("name"%string, VStr (str "glued"));
   ("certificate"%string, VStr (Pem.block_a ++ Pem.block_b ++ []));
   ("privatekey"%string, VStr (str "key"))].

Definition glued_import_out : dict :=
  match create_imported_certificate example_env glued_import_data with
  | Ok d => d
  | _ => []
  end.

Lemma glued_blocks_are_no_chain_witness :
  Pem.findall Pem.ascii_only (Pem.block_a ++ Pem.block_b ++ [])
    = [Pem.block_b] /\
  dict_get "chain" glued_import_out = Some (VBool false).
Proof.
  apply (glued_blocks_are_no_chain example_env glued_import_data
           glued_import_out Pem.block_a Pem.block_b []
           Pem.block_a_is_block Pem.block_b_is_block eq_refl eq_refl).
  vm_compute. reflexivity.
Defined.

(** An import that names a request no certificate holds. *)
Definition import_for_request_5 : dict :=
  [("name"%string, VStr (str "signed"));
   ("certificate"%string, VStr (Pem.block_a ++ Pem.LF));
   ("csr_id"%string, VInt 5)].

Lemma import_for_filed_request_witness :
  create_imported_certificate example_env import_for_request_5
    = Raise (ValidationErrors
               [("certificate_create.csr_id"%string,
                 str "No CSR exists with id "
                   ++ format example_env (VInt 5))]).
Proof.
  apply (proj1 (import_for_filed_request example_env import_for_request_5
                  (VInt 5) eq_refl eq_refl)).
  reflexivity.
Defined.

(** *** [san_to_string] *)

(** [san_string[:-2]]. *)
Definition drop_last_two (s : pystr) : pystr :=
  firstn (List.length s - 2) s.

Section SanToString.

(** [IpAddress()(san)] does not raise [ShouldBe]: [ipaddress.ip_address]
    takes the text. *)
Variable is_ip_address : pystr -> bool.

Definition san_entry (san : pystr) : pystr :=
  (if is_ip_address san then str "IP: " else str "DNS: ") ++ san.

(** [CertificateService.san_to_string]; [None] stands for a [san_list] that
    is [None]. *)
Definition san_to_string (san_list : option (list pystr)) : pystr :=
  let items := match san_list with Some l => l | None => [] end in
  let san_string :=
    fold_left (fun acc san => acc ++ san_entry san ++ str ", ") items [] in
  match san_list with
  | Some (_ :: _) => drop_last_two san_string
  | _ => []
  end.

Lemma san_fold (items : list pystr) :
  forall acc,
    fold_left (fun acc san => acc ++ san_entry san ++ str ", ") items acc
    = acc ++ List.concat (map (fun san => san_entry san ++ str ", ") items).
Proof.
  induction items as [|x rest IH]; intros acc; simpl.
  - now rewrite app_nil_r.
  - rewrite IH. now rewrite <- !app_assoc.
Qed.

Lemma concat_entries (x : pystr) (rest : list pystr) :
  List.concat (map (fun san => san_entry san ++ str ", ") (x :: rest))
  = join_with (str ", ") (map san_entry (x :: rest)) ++ str ", ".
Proof.
  revert x. induction rest as [|y rest IH]; intros x.
  - simpl. now rewrite app_nil_r.
  - change (List.concat (map (fun san => san_entry san ++ str ", ") (x :: y :: rest)))
      with ((san_entry x ++ str ", ")
              ++ List.concat (map (fun san => san_entry san ++ str ", ") (y :: rest))).
    rewrite IH.
    change (join_with (str ", ") (map san_entry (x :: y :: rest)))
      with (san_entry x ++ str ", "
              ++ join_with (str ", ") (map san_entry (y :: rest))).
    now rewrite <- !app_assoc.
Qed.

Lemma drop_last_two_app (s : pystr) : drop_last_two (s ++ str ", ") = s.
Proof.
  unfold drop_last_two. rewrite length_app.
  change (List.length (str ", ")) with 2%nat.
  replace (List.length s + 2 - 2)%nat with (List.length s + 0)%nat by lia.
  rewrite firstn_app_2. simpl. now rewrite app_nil_r.
Qed.

End SanToString.

(** [san_to_string] labels each name [IP: ] or [DNS: ] and joins the
    entries with a comma and a space, with nothing after the last one; it
    is the empty text for [None] and for the empty list, and only then. *)
Theorem san_to_string_joins (is_ip_address : pystr -> bool)
    (names : list pystr) :
  san_to_string is_ip_address (Some names)
    = join_with (str ", ") (map (san_entry is_ip_address) names) /\
  san_to_string is_ip_address None = [] /\
  (san_to_string is_ip_address (Some names) = [] <-> names = []).
Proof.
  assert (J : san_to_string is_ip_address (Some names)
              = join_with (str ", ") (map (san_entry is_ip_address) names)).
  { destruct names as [|x rest]; [reflexivity|].
    unfold san_to_string. rewrite san_fold. cbn [app].
    rewrite concat_entries. apply drop_last_two_app. }
  split; [exact J|]. split; [reflexivity|].
  rewrite J. split.
  - destruct names as [|x rest]; [reflexivity|]. intros H. exfalso.
    destruct rest as [|y rest]; cbn [map join_with] in H;
      unfold san_entry in H; destruct (is_ip_address x); discriminate H.
  - intros ->. reflexivity.
Qed.

(** *** The order of [chain_list] *)

Section ChainOrder.

Variable E : env.

Lemma load_chain_keeps (certs : list pyval) :
  forall acc co,
    exists more, fst (fst (load_chain E certs acc co)) = acc ++ more.
Proof.
  induction certs as [|c rest IH]; intros acc co; simpl.
  - exists []. now rewrite app_nil_r.
  - destruct (py_truthy c).
    + destruct (load_any E c) as [x|].
      * destruct (IH (acc ++ [x_dump x]) (Some x)) as [more Hm].
        exists (x_dump x :: more). rewrite Hm. now rewrite <- app_assoc.
      * exists []. simpl. now rewrite app_nil_r.
    + apply IH.
Qed.

Lemma steps_after_chain (c5 out : dict) (t : pyval) (certs : list pyval) :
  finish E (before_finish E certs c5 t) t
    (snd (fst (load_chain E certs [] None))) (csr_object E certs c5) = Ok out ->
  writes after_chain_keys (chain_filled E certs c5) out.
Proof.
  intros Hf. apply finish_ok in Hf.
  eapply writes_trans;
    [|eapply writes_incl; [|exact Hf];
      intros k [<-|[<-|[<-|[]]]]; unfold after_chain_keys; in_keys].
  unfold before_finish.
  repeat (apply writes_set; [|unfold after_chain_keys; in_keys]).
  unfold after_refresh.
  eapply writes_trans;
    [|eapply writes_incl; [|apply (refresh_csr_writes E)];
      intros k [<-|[]]; unfold after_chain_keys; in_keys].
  eapply writes_incl; [|apply (refresh_privatekey_writes E)].
  intros k [<-|[]]. unfold after_chain_keys. in_keys.
Qed.

Lemma gather_certs_walk (fuel : nat) (d d' : dict) (certs : list pyval)
    (chain : pyval) :
  gather_certs E fuel d = Ok (certs, d') ->
  dict_get "chain" d = Some chain -> py_truthy chain = false ->
  exists c issuer r,
    dict_get "certificate" d = Some c /\
    dict_get "issuer" d = Some issuer /\
    walk fuel issuer = Ok r /\ certs = c :: fst r.
Proof.
  unfold gather_certs, getitem. intros H C T. rewrite C in H. cbn [bind] in H.
  rewrite T in H.
  destruct (dict_get "certificate" d) as [c|]; [|discriminate].
  cbn [bind] in H.
  destruct (dict_get "issuer" d) as [issuer|]; [|discriminate].
  cbn [bind] in H.
  destruct (walk fuel issuer) as [r| |] eqn:W; try discriminate.
  cbn [bind] in H. inversion H; subst. exists c, issuer, r.
  repeat split; auto.
Qed.

Lemma cert_issuer_terminal (d : dict) (t issuer : pyval) :
  cert_issuer d = Ok issuer -> dict_get "type" d = Some t ->
  in_ints t [CERT_TYPE_INTERNAL; CA_TYPE_INTERMEDIATE] = false ->
  is_terminal issuer = true.
Proof.
  unfold cert_issuer, getitem. intros H T N. rewrite T in H. cbn [bind] in H.
  rewrite N in H.
  destruct (in_ints t [CA_TYPE_EXISTING; CERT_TYPE_EXISTING]);
    [inversion H; reflexivity|].
  destruct (in_ints t [CA_TYPE_INTERNAL]); [inversion H; reflexivity|].
  destruct (in_ints t [CERT_TYPE_CSR]); inversion H; reflexivity.
Qed.

Lemma walk_terminal (fuel : nat) (v : pyval) :
  is_terminal v = true -> walk fuel v = Ok ([], v).
Proof. intros H. destruct fuel; simpl; now rewrite H. Qed.

End ChainOrder.

(** [chain_list] starts with the record's own certificate. For a record
    without the chain flag whose certificate parses, the chain list of
    what [cert_extend] returns begins with the dump of that certificate;
    and unless the record is an internal certificate or an intermediate CA
    (the two types whose issuer is a stored CA), the list holds nothing
    else. *)
Theorem chain_list_starts_with_own_certificate (E : env) (fuel : nat)
    (row out : dict) (log : list pystr) (chain : pyval) (text : pystr)
    (x : x509) :
  cert_extend E fuel row = (log, Ok out) ->
  dict_get "chain" row = Some chain -> py_truthy chain = false ->
  dict_get "certificate" row = Some (VStr text) -> text <> [] ->
  load_certificate E text = Some x ->
  exists more,
    dict_get "chain_list" out = Some (VList (VStr (x_dump x) :: more)) /\
    (forall t, dict_get "type" row = Some t ->
               in_ints t [CERT_TYPE_INTERNAL; CA_TYPE_INTERMEDIATE] = false ->
               more = []).
Proof.
  intros H C T Tx Ne L. apply cert_extend_inv in H.
  destruct H as [f [l0 [c0 [l1 [_ [H0 [H1 _]]]]]]].
  apply resolve_signedby_ok in H0.
  destruct (extend_rest_steps E _ _ _ _ H1)
    as [c1 [c2 [c3 [c4 [issuer [certs [c5 [t7 [S1 [S2 [S3 [S4 [S5 [S6 [S7 S8]]]]]]]]]]]]]]].
  pose proof (steps_after_chain E _ _ _ _ S8) as Wc.
  assert (K4 : forall k, In k ["type"; "chain"; "certificate"]%string ->
                 dict_get k c4 = dict_get k row).
  { intros k Hk.
    rewrite (writes_frame _ _ _ (set_paths_ok E _ _ S4))
      by (unfold path_keys; simpl in *; intuition (subst; discriminate)).
    rewrite (writes_frame _ _ _ (convert_serial_ok E _ _ S3))
      by (simpl in *; intuition (subst; discriminate)).
    pose proof S2 as S2'. apply convert_san_ok in S2'.
    destruct S2' as [s [E2 _]]. rewrite E2.
    rewrite dict_get_set_other
      by (simpl in Hk; intuition (subst; discriminate)).
    rewrite dict_get_remove_other
      by (simpl in Hk; intuition (subst; discriminate)).
    pose proof S1 as S1'. apply drop_acme_keys_ok in S1'.
    destruct S1' as [W1 _].
    rewrite (writes_frame _ _ _ W1)
      by (unfold acme_keys; simpl in *; intuition (subst; discriminate)).
    apply (writes_frame _ _ _ H0).
    simpl in *; intuition (subst; discriminate). }
  set (cmid := dict_set "chain_list" (VList [])
                 (dict_set "issuer" issuer c4)) in *.
  assert (Kmid : forall k, In k ["type"; "chain"; "certificate"]%string ->
                   dict_get k cmid = dict_get k row).
  { intros k Hk. unfold cmid.
    rewrite !dict_get_set_other
      by (simpl in Hk; intuition (subst; discriminate)).
    now apply K4. }
  assert (Cm : dict_get "chain" cmid = Some chain)
    by (rewrite Kmid by (simpl; tauto); exact C).
  destruct (gather_certs_walk E _ _ _ _ _ S6 Cm T)
    as [c [issuer' [r [Gc [Gi [Gw ->]]]]]].
  rewrite Kmid in Gc by (simpl; tauto). rewrite Tx in Gc.
  inversion Gc; subst c. clear Gc.
  assert (Ei : issuer' = issuer).
  { unfold cmid in Gi. rewrite dict_get_set_other in Gi by discriminate.
    rewrite dict_get_set_same in Gi. now inversion Gi. }
  subst issuer'.
  assert (Lc : load_chain E (VStr text :: fst r) [] None
               = load_chain E (fst r) [x_dump x] (Some x)).
  { destruct text as [|ch text]; [contradiction|].
    cbn [load_chain py_truthy load_any]. now rewrite L. }
  assert (Cl : dict_get "chain_list" out
               = Some (VList (map VStr
                         (fst (fst (load_chain E (fst r) [x_dump x]
                                      (Some x))))))).
  { rewrite (writes_frame _ _ _ Wc)
      by (unfold after_chain_keys; simpl; intuition discriminate).
    unfold chain_filled. rewrite dict_get_set_same. now rewrite Lc. }
  destruct (load_chain_keeps E (fst r) [x_dump x] (Some x)) as [more Hm].
  exists (map VStr more). split.
  - rewrite Cl, Hm. reflexivity.
  - intros t Ty Nt.
    assert (T4 : dict_get "type" c4 = Some t)
      by (rewrite K4 by (simpl; tauto); exact Ty).
    pose proof (cert_issuer_terminal _ _ _ S5 T4 Nt) as Term.
    rewrite (walk_terminal f issuer Term) in Gw. inversion Gw; subst r.
    cbn [fst load_chain] in Hm. cbn [fst] in Hm.
    destruct more; [reflexivity|].
    apply (f_equal (@List.length pystr)) in Hm. simpl in Hm. lia.
Qed.

Lemma chain_list_starts_with_own_certificate_witness :
  exists out more,
    cert_extend example_env 2 leaf_row = ([], Ok out) /\
    dict_get "chain_list" out
      = Some (VList (VStr (x_dump (parsed Pem.block_b (str "b") 7)) :: more)).
Proof.
  destruct (cert_extend example_env 2 leaf_row) as [log [out| |]] eqn:R;
    try (vm_compute in R; discriminate R).
  assert (Lg : log = []) by (vm_compute in R; now inversion R).
  destruct (chain_list_starts_with_own_certificate example_env 2 leaf_row out
              log (VBool false) (Pem.block_b ++ Pem.LF)
              (parsed Pem.block_b (str "b") 7) R eq_refl eq_refl eq_refl)
    as [more [Hc _]].
  - discriminate.
  - reflexivity.
  - exists out, more. rewrite Lg. auto.
Defined.

End Resolver.

(** ** Validators ([middlewared/validators.py])

    A validator is called with a value and either returns or raises
    [ShouldBe] with a text that says what the value should be. *)

Module Validators.

Inductive verdict : Type :=
| Accepted
| ShouldBe (what : pystr).

Definition accepted (v : verdict) : bool :=
  match v with
  | Accepted => true
  | ShouldBe _ => false
  end.

(** [f"{z}"] for an [int]. *)
Definition format_int (z : Z) : pystr :=
  str (DecimalString.NilZero.string_of_int (Z.to_int z)).

(** *** [Range] and [Port] *)

Record Range : Type := { min : option Z; max : option Z }.

(** The entry of the [error] table for the bounds that are set. *)
Definition range_error (r : Range) : pystr :=
  match min r, max r with
  | Some a, Some b =>
      str "between " ++ format_int a ++ str " and " ++ format_int b
  | None, Some b => str "less or equal than " ++ format_int b
  | Some a, None => str "greater or equal than " ++ format_int a
  | None, None => []
  end.

(** [Range.__call__] on [None] or an [int]. *)
Definition Range_call (r : Range) (value : option Z) : verdict :=
  match value with
  | None => Accepted
  | Some v =>
      let error := range_error r in
      if match min r with Some a => v <? a | None => false end
      then ShouldBe error
      else if match max r with Some b => b <? v | None => false end
      then ShouldBe error
      else Accepted
  end.

(** [Port.__call__]. *)
Definition Port_call (value : option Z) : verdict :=
  Range_call {| min := Some 1; max := Some 65535 |} value.

(** *** [Or] *)

Section OrValidator.

Variable V : Type.

(** The loop of [Or.__call__]; [patterns] collects what the validators
    tried so far asked for. *)
Fixpoint Or_loop (validators : list (V -> verdict)) (value : V)
    (patterns : list pystr) : verdict :=
  match validators with
  | [] => ShouldBe (Resolver.join_with (str " or ") patterns)
  | validator :: rest =>
      match validator value with
      | Accepted => Accepted
      | ShouldBe what => Or_loop rest value (patterns ++ [what])
      end
  end.

Definition Or_call (validators : list (V -> verdict)) (value : V) : verdict :=
  Or_loop validators value [].

(** What a validator asks for ([e.what]); the empty text if it accepts. *)
Definition asked (value : V) (validator : V -> verdict) : pystr :=
  match validator value with
  | Accepted => []
  | ShouldBe what => what
  end.

Lemma Or_loop_accepted (validators : list (V -> verdict)) (value : V) :
  forall patterns,
    accepted (Or_loop validators value patterns)
    = existsb (fun validator => accepted (validator value)) validators.
Proof.
  induction validators as [|v rest IH]; intros patterns; simpl.
  - reflexivity.
  - destruct (v value); simpl; [reflexivity | apply IH].
Qed.

Lemma Or_loop_rejected (validators : list (V -> verdict)) (value : V) :
  forall patterns,
    existsb (fun validator => accepted (validator value)) validators = false ->
    Or_loop validators value patterns
    = ShouldBe (Resolver.join_with (str " or ")
                  (patterns ++ map (asked value) validators)).
Proof.
  induction validators as [|v rest IH]; intros patterns H; simpl.
  - now rewrite app_nil_r.
  - simpl in H. unfold asked at 1. destruct (v value) as [|what].
    + discriminate.
    + rewrite (IH _ H). now rewrite <- app_assoc.
Qed.

End OrValidator.

(** *** [Match] *)

Section MatchValidator.

(** [re.compile(pattern, flags).match(value)] finds a match. *)
Variable re_match : pystr -> Z -> pystr -> bool.

Record Match : Type := {
  pattern : pystr;
  flags : Z;
  explanation : option pystr
}.

(** [self.explanation or f"{self.pattern}"]. *)
Definition match_error (m : Match) : pystr :=
  match explanation m with
  | Some (c :: e) => c :: e
  | _ => pattern m
  end.

Definition Match_call (m : Match) (value : pystr) : verdict :=
  if re_match (pattern m) (flags m) value then Accepted
  else ShouldBe (match_error m).

(** [Match.__deepcopy__]: [Match(self.pattern, self.flags)]. *)
Definition deepcopy (m : Match) : Match :=
  {| pattern := pattern m; flags := flags m; explanation := None |}.

End MatchValidator.

(** [Range] accepts [None] and exactly the integers within the bounds that
    are set; any other integer is refused with the text for the bounds that
    are set, the same text whichever bound was missed. *)
Theorem range_accepts_the_interval (r : Range) (v : Z) :
  Range_call r None = Accepted /\
  (Range_call r (Some v) = Accepted <->
     (forall a, min r = Some a -> a <= v) /\
     (forall b, max r = Some b -> v <= b)) /\
  (Range_call r (Some v) = Accepted \/
   Range_call r (Some v) = ShouldBe (range_error r)).
Proof.
  split; [reflexivity|]. unfold Range_call.
  destruct (min r) as [a|], (max r) as [b|]; cbv zeta.
  - destruct (Z.ltb_spec v a), (Z.ltb_spec b v); split;
      try (right; reflexivity); try (left; reflexivity); split;
      try discriminate; try reflexivity.
    + intros [Ha Hb]. specialize (Ha a eq_refl). lia.
    + intros [Ha Hb]. specialize (Ha a eq_refl). lia.
    + intros [Ha Hb]. specialize (Hb b eq_refl). lia.
    + intros _. split; intros x Hx; inversion Hx; subst; lia.
  - destruct (Z.ltb_spec v a); split;
      try (right; reflexivity); try (left; reflexivity); split;
      try discriminate; try reflexivity.
    + intros [Ha Hb]. specialize (Ha a eq_refl). lia.
    + intros _. split; intros x Hx; inversion Hx; subst; lia.
  - destruct (Z.ltb_spec b v); split;
      try (right; reflexivity); try (left; reflexivity); split;
      try discriminate; try reflexivity.
    + intros [Ha Hb]. specialize (Hb b eq_refl). lia.
    + intros _. split; intros x Hx; inversion Hx; subst; lia.
  - split; [|left; reflexivity]. split; [|reflexivity].
    intros _. split; intros x Hx; discriminate.
Qed.

(** [Port] accepts [None] and the integers from 1 to 65535, and refuses
    every other integer with "between 1 and 65535". *)
Theorem port_accepts_1_to_65535 (value : option Z) :
  (Port_call value = Accepted <->
     value = None \/ exists v, value = Some v /\ 1 <= v <= 65535) /\
  (Port_call value = Accepted \/
   Port_call value = ShouldBe (str "between 1 and 65535")).
Proof.
  destruct value as [v|].
  - unfold Port_call, Range_call. cbn [min max]. cbv zeta.
    change (range_error {| min := Some 1; max := Some 65535 |})
      with (str "between 1 and 65535").
    destruct (Z.ltb_spec v 1), (Z.ltb_spec 65535 v); split;
      try (right; reflexivity); try (left; reflexivity); split;
      try discriminate; try reflexivity;
      try (intros [H'|[x [Hx Hr]]]; [discriminate | inversion Hx; subst; lia]).
    intros _. right. exists v. split; [reflexivity | lia].
  - split; [|left; reflexivity]. split; [|reflexivity]. intros _. now left.
Qed.

(** [Or] accepts a value exactly when one of its validators does; when
    none does, it asks for what each of them asked for, in their order,
    joined by " or ". With no validator at all it refuses every value. *)
Theorem or_accepts_if_one_does (V : Type) (validators : list (V -> verdict))
    (value : V) :
  accepted (Or_call V validators value)
    = existsb (fun validator => accepted (validator value)) validators /\
  (existsb (fun validator => accepted (validator value)) validators = false ->
   Or_call V validators value
   = ShouldBe (Resolver.join_with (str " or ")
                 (map (asked V value) validators))) /\
  Or_call V [] value = ShouldBe [].
Proof.
  split; [apply Or_loop_accepted|]. split; [|reflexivity].
  intros H. unfold Or_call. now rewrite (Or_loop_rejected V _ _ [] H).
Qed.

Lemma or_accepts_if_one_does_witness :
  Or_call (option Z)
    [Range_call {| min := Some 10; max := None |}; Port_call] (Some 0)
  = ShouldBe (str "greater or equal than 10 or between 1 and 65535").
Proof.
  apply (proj1 (proj2 (or_accepts_if_one_does (option Z)
                  [Range_call {| min := Some 10; max := None |}; Port_call]
                  (Some 0)))).
  reflexivity.
Defined.

(** A deep copy of a [Match] accepts the same values, but it has lost the
    explanation: what it asks for is always the pattern. *)
Theorem match_copy_loses_explanation (re_match : pystr -> Z -> pystr -> bool)
    (m : Match) (value : pystr) :
  accepted (Match_call re_match (deepcopy m) value)
    = accepted (Match_call re_match m value) /\
  (Match_call re_match m value = ShouldBe (match_error m) <->
   Match_call re_match (deepcopy m) value = ShouldBe (pattern m)) /\
  deepcopy (deepcopy m) = deepcopy m.
Proof.
  unfold Match_call, deepcopy. cbn [pattern flags explanation].
  destruct (re_match (pattern m) (flags m) value); simpl.
  - split; [reflexivity|]. split; [|reflexivity].
    split; intros H; discriminate.
  - split; [reflexivity|]. split; [|reflexivity].
    split; intros _; reflexivity.
Qed.

End Validators.

(** ** Deleting, renaming and signing

    [CertificateService.do_delete], [CertificateService.do_update] and
    [CertificateAuthorityService.ca_sign_csr], with a transcript of the
    calls to the datastore, the services, the ACME client and OpenSSL. *)

Module Crud.

Import Resolver.

Inductive outcome (A : Type) : Type :=
| Returns (a : A)
| Raises (e : exn).

Arguments Returns {A} a.
Arguments Raises {A} e.

(** How [client.revoke] ends: it returns, it raises an
    [errors.ClientError] [e] (with [text] for [f'{e}']), or it raises
    something else. *)
Inductive revoke_answer : Type :=
| Revoked
| ClientError (text : pystr)
| RevokeRaises (e : exn).

(** The two tables, [system.certificate] and
    [system.certificateauthority]. *)
Inductive table : Type := Certificates | Authorities.

Inductive event : Type :=
| CertificateQueryAcme (id : Z) (answer : list dict)
| GetAcmeClientAndKey (directory : pyval) (tos : bool) (answer : outcome unit)
| SetProgress (percent : Z) (message : option pystr)
| Revoke (certificate : x509) (reason : Z) (answer : revoke_answer)
| DatastoreDelete (t : table) (id : Z) (answer : outcome pyval)
| ServiceStart (answer : outcome unit)
| GetInstance (t : table) (id : Z) (answer : outcome dict)
| StoredNamesQuery (t : table) (names : list pystr)
| DatastoreUpdate (t : table) (id : Z) (row : dict) (answer : outcome unit)
| AuthorityQuery (id : Z) (answer : list dict)
| CertificateQuery (id : Z) (answer : list dict)
| GetSerialForCertificate (ca_id : pyval) (answer : outcome Z)
| CertificateCreate (data : dict) (answer : outcome pyval).

(** The collaborators; each answers as a function of its arguments and of
    the transcript at the time of the call. *)
Record world : Type := {
  openssl : env;
  (* certificate.query([['id', '=', id], ['acme', '!=', None]]) *)
  certificate_query_acme : list event -> Z -> list dict;
  get_acme_client_and_key : list event -> pyval -> bool -> outcome unit;
  revoke : list event -> x509 -> Z -> revoke_answer;
  datastore_delete : list event -> table -> Z -> outcome pyval;
  service_start : list event -> outcome unit;
  get_instance : list event -> table -> Z -> outcome dict;
  (* the cert_name column of a table *)
  stored_names : list event -> table -> list pystr;
  datastore_update : list event -> table -> Z -> dict -> outcome unit;
  (* certificateauthority.query([('id', '=', id)]) *)
  authority_query : list event -> Z -> list dict;
  (* certificate.query([('id', '=', id)]) *)
  certificate_query : list event -> Z -> list dict;
  get_serial_for_certificate : list event -> pyval -> outcome Z;
  (* load_private_key(buffer): None when OpenSSL does not load the key *)
  load_private_key : pyval -> outcome (option pystr);
  (* the calls on the new X509 up to set_pubkey *)
  prepare_certificate : Z -> x509 -> x509req -> outcome pystr;
  (* cert.sign(PKey, digest) and dump_certificate(...).decode() *)
  sign_certificate : pystr -> option pystr -> pyval -> outcome pystr;
  certificate_create : list event -> dict -> outcome pyval
}.

Definition io (A : Type) : Type := list event -> list event * result A.

Definition ret {A} (a : A) : io A := fun _ => ([], Ok a).

Definition raise {A} (e : exn) : io A := fun _ => ([], Raise e).

(** A step that calls no collaborator. *)
Definition lift {A} (r : result A) : io A := fun _ => ([], r).

Definition iobind {A B} (m : io A) (k : A -> io B) : io B :=
  fun h =>
    match m h with
    | (e1, Ok a) =>
        let (e2, r) := k a (h ++ e1) in (e1 ++ e2, r)
    | (e1, Raise e) => (e1, Raise e)
    | (e1, OutOfFuel) => (e1, OutOfFuel)
    end.

Definition call {A} (ask : list event -> outcome A) (ev : outcome A -> event)
    : io A :=
  fun h =>
    match ask h with
    | Returns a => ([ev (Returns a)], Ok a)
    | Raises e => ([ev (Raises e)], Raise e)
    end.

Definition query {A} (ask : list event -> A) (ev : A -> event) : io A :=
  fun h => ([ev (ask h)], Ok (ask h)).

Definition emit (ev : event) : io unit := fun _ => ([ev], Ok tt).

(** An answer of OpenSSL, which is not written to the transcript. *)
Definition pure_call {A} (answer : outcome A) : io A :=
  fun _ =>
    match answer with
    | Returns a => ([], Ok a)
    | Raises e => ([], Raise e)
    end.

Declare Scope crud_scope.
Notation "x <- c ;; k" := (iobind c (fun x => k))
  (at level 61, c at next level, right associativity) : crud_scope.
Local Open Scope crud_scope.

(** [crypto.load_certificate(crypto.FILETYPE_PEM, c)]. *)
Definition crypto_load_certificate (E : env) (c : pyval) : result x509 :=
  match c with
  | VStr s =>
      match load_certificate E s with
      | Some x => Ok x
      | None => Raise CryptoError
      end
  | _ => Raise TypeError
  end.

(** *** [CertificateService.do_delete] *)

Definition msg_revoke (text : pystr) : pystr :=
  str "Unable to revoke certificate :" ++ text.

(** The [try] statement around [client.revoke]: the errors it leaves in
    [verrors]. *)
Definition revoke_try (w : world) (cert : dict) : io (list verror) :=
  c <- lift (getitem "certificate" cert) ;;
  x <- lift (crypto_load_certificate (openssl w) c) ;;
  fun h =>
    match revoke w h x 0 with
    | Revoked =>
        ([Revoke x 0 Revoked;
          SetProgress 80 (Some (str "Certificate successfully revoked"))],
         Ok [])
    | ClientError text =>
        ([Revoke x 0 (ClientError text)],
         Ok [("acme_revoke.id"%string, msg_revoke text)])
    | RevokeRaises e => ([Revoke x 0 (RevokeRaises e)], Raise e)
    end.

(** The [if cert:] statement. *)
Definition revoke_if_acme (w : world) (force : bool) (found : list dict)
    : io unit :=
  match found with
  | [] => ret tt
  | cert :: _ =>
      acme <- lift (getitem "acme" cert) ;;
      directory <- lift (subscript acme "directory") ;;
      _ <- call (fun h => get_acme_client_and_key w h directory true)
                (GetAcmeClientAndKey directory true) ;;
      _ <- emit (SetProgress 60 None) ;;
      verrors <- revoke_try w cert ;;
      match verrors with
      | [] => ret tt
      | _ :: _ => if force then ret tt else raise (ValidationErrors verrors)
      end
  end.

Definition do_delete (w : world) (id : Z) (force : bool) : io pyval :=
  found <- query (fun h => certificate_query_acme w h id)
                 (CertificateQueryAcme id) ;;
  _ <- revoke_if_acme w force found ;;
  response <- call (fun h => datastore_delete w h Certificates id)
                   (DatastoreDelete Certificates id) ;;
  _ <- call (service_start w) ServiceStart ;;
  _ <- emit (SetProgress 100 None) ;;
  ret response.

Definition is_delete (ev : event) : bool :=
  match ev with DatastoreDelete _ _ _ => true | _ => false end.

Definition is_revoked (ev : event) : bool :=
  match ev with Revoke _ _ Revoked => true | _ => false end.

Definition is_acme_call (ev : event) : bool :=
  match ev with
  | GetAcmeClientAndKey _ _ _ | Revoke _ _ _ => true
  | _ => false
  end.

(** *** Facts about transcripts *)

Lemma bind_inv_crud {A B} (m : io A) (k : A -> io B) (h evs : list event)
    (r : result B) :
  iobind m k h = (evs, r) ->
  (exists e1 a e2,
     m h = (e1, Ok a) /\ k a (h ++ e1) = (e2, r) /\ evs = e1 ++ e2) \/
  (exists e, m h = (evs, Raise e) /\ r = Raise e) \/
  (m h = (evs, OutOfFuel) /\ r = OutOfFuel).
Proof.
  unfold iobind. destruct (m h) as [e1 [a|e|]] eqn:M.
  - destruct (k a (h ++ e1)) as [e2 r2] eqn:K. intros H. inversion H; subst.
    left. exists e1, a, e2. auto.
  - intros H. inversion H; subst. right. left. eauto.
  - intros H. inversion H; subst. right. right. auto.
Qed.

Lemma revoke_try_inv (w : world) (cert : dict) (h evs : list event)
    (r : result (list verror)) :
  revoke_try w cert h = (evs, r) ->
  existsb is_delete evs = false /\
  (r = Ok [] -> existsb is_revoked evs = true).
Proof.
  unfold revoke_try, iobind, lift.
  destruct (getitem "certificate" cert) as [c| |];
    try (intros H; inversion H; subst; split;
         [reflexivity | intros Hr; discriminate Hr]).
  destruct (crypto_load_certificate (openssl w) c) as [x| |];
    try (intros H; inversion H; subst; split;
         [reflexivity | intros Hr; discriminate Hr]).
  destruct (revoke w ((h ++ []) ++ []) x 0); intros H; inversion H; subst;
    split; try reflexivity; intros Hr; discriminate Hr.
Qed.


Lemma revoke_if_acme_inv (w : world) (force : bool) (found : list dict)
    (h evs : list event) (r : result unit) :
  revoke_if_acme w force found h = (evs, r) ->
  existsb is_delete evs = false /\
  (r = Ok tt ->
   found = [] \/ force = true \/ existsb is_revoked evs = true).
Proof.
  destruct found as [|cert rest]; simpl.
  - intros H. inversion H; subst. split; [reflexivity | now left].
  - unfold iobind at 1, lift at 1.
    destruct (getitem "acme" cert) as [acme| |];
      try (intros H; inversion H; subst; split;
           [reflexivity | intros Hr; discriminate Hr]).
    unfold iobind at 1, lift at 1.
    destruct (subscript acme "directory") as [directory| |];
      try (intros H; inversion H; subst; split;
           [reflexivity | intros Hr; discriminate Hr]).
    unfold iobind at 1, call at 1.
    destruct (get_acme_client_and_key w ((h ++ []) ++ []) directory true)
      as [[]|e];
      [|intros H; inversion H; subst; split;
        [reflexivity | intros Hr; discriminate Hr]].
    unfold iobind at 1, emit at 1. unfold iobind at 1.
    set (h' := (((h ++ []) ++ [])
                  ++ [GetAcmeClientAndKey directory true (Returns tt)])
                 ++ [SetProgress 60 None]).
    destruct (revoke_try w cert h') as [e3 [verrors|e|]] eqn:R;
      destruct (revoke_try_inv _ _ _ _ _ R) as [Hd Hr].
    + destruct verrors as [|v vs].
      * simpl. intros H. inversion H; subst. split.
        -- rewrite app_nil_r. simpl. exact Hd.
        -- intros _. right. right. rewrite app_nil_r. simpl.
           now apply Hr.
      * destruct force; simpl; intros H; inversion H; subst;
          rewrite app_nil_r; simpl.
        -- split; [exact Hd | intros _; right; now left].
        -- split; [exact Hd | intros Hx; discriminate Hx].
    + intros H. inversion H; subst. simpl. split; [exact Hd|].
      intros Hx. discriminate Hx.
    + intros H. inversion H; subst. simpl. split; [exact Hd|].
      intros Hx. discriminate Hx.
Qed.

(** An example world: certificate 14 is ACME-managed and the server
    refuses to revoke it; every other call goes through. *)
Definition acme_certificate : dict :=
  [("id"%string, VInt 14);
   ("name"%string, VStr (str "web"));
   ("acme"%string,
    VDict [("id"%string, VInt 1);
           ("directory"%string, VStr (str "https://acme.example/dir"))]);
   ("certificate"%string, VStr (Pem.block_a ++ Pem.LF));
   ("signedby"%string, VNone);
   ("san"%string, VList [VStr (str "a.example.com")])].

Definition refusing_world : world :=
  {| openssl := example_env;
     certificate_query_acme := fun _ id =>
       if id =? 14 then [acme_certificate] else [];
     get_acme_client_and_key := fun _ _ _ => Returns tt;
     revoke := fun _ _ _ => ClientError (str "denied");
     datastore_delete := fun _ _ _ => Returns (VBool true);
     service_start := fun _ => Returns tt;
     get_instance := fun _ _ id =>
       if id =? 14 then Returns acme_certificate
       else Raises (InstanceNotFound id);
     stored_names := fun _ _ => [str "web"; str "mail"];
     datastore_update := fun _ _ _ _ => Returns tt;
     authority_query := fun _ _ => [];
     certificate_query := fun _ _ => [];
     get_serial_for_certificate := fun _ _ => Returns 2;
     load_private_key := fun _ => Returns None;
     prepare_certificate := fun _ _ _ => Returns (str "draft");
     sign_certificate := fun _ _ _ => Returns (str "signed");
     certificate_create := fun _ _ => Returns (VInt 1) |}.

Example delete_refused :
  do_delete refusing_world 14 false []
  = ([CertificateQueryAcme 14 [acme_certificate];
      GetAcmeClientAndKey (VStr (str "https://acme.example/dir")) true
        (Returns tt);
      SetProgress 60 None;
      Revoke (parsed Pem.block_a (str "a") 5) 0 (ClientError (str "denied"))],
     Raise (ValidationErrors
              [("acme_revoke.id"%string,
                str "Unable to revoke certificate :denied")])).
Proof. vm_compute. reflexivity. Qed.

Example delete_other :
  do_delete refusing_world 3 false []
  = ([CertificateQueryAcme 3 [];
      DatastoreDelete Certificates 3 (Returns (VBool true));
      ServiceStart (Returns tt);
      SetProgress 100 None],
     Ok (VBool true)).
Proof. vm_compute. reflexivity. Qed.

(** Without [force], an ACME-managed certificate is deleted only after
    the ACME server has revoked it: if a run of [do_delete] without
    [force] reaches [datastore.delete], then the certificate was not
    ACME-managed or [client.revoke] has returned. *)
Theorem acme_delete_needs_revocation (w : world) (id : Z)
    (h evs : list event) (r : result pyval) :
  do_delete w id false h = (evs, r) ->
  existsb is_delete evs = true ->
  certificate_query_acme w h id = [] \/ existsb is_revoked evs = true.
Proof.
  unfold do_delete. intros H D.
  apply bind_inv_crud in H.
  destruct H as [[e1 [found [e2 [H1 [H Ev]]]]]|[[e [H1 _]]|[H1 _]]];
    try (unfold query in H1; discriminate H1).
  unfold query in H1. inversion H1; subst e1 found. clear H1.
  apply bind_inv_crud in H.
  destruct H as [[e1 [[] [e3 [H1 [H Ev']]]]]|[[e [H1 _]]|[H1 _]]].
  - destruct (revoke_if_acme_inv _ _ _ _ _ _ H1) as [_ Hr].
    destruct (Hr eq_refl) as [F|[F|F]].
    + now left.
    + discriminate F.
    + right. subst evs e2. rewrite !existsb_app. rewrite F.
      now rewrite orb_true_r.
  - destruct (revoke_if_acme_inv _ _ _ _ _ _ H1) as [Hd _].
    subst evs. rewrite existsb_app in D. rewrite Hd in D. discriminate D.
  - destruct (revoke_if_acme_inv _ _ _ _ _ _ H1) as [Hd _].
    subst evs. rewrite existsb_app in D. rewrite Hd in D. discriminate D.
Qed.

(** The same world with an ACME server that revokes. *)
Definition revoking_world : world :=
  {| openssl := example_env;
     certificate_query_acme := fun _ id =>
       if id =? 14 then [acme_certificate] else [];
     get_acme_client_and_key := fun _ _ _ => Returns tt;
     revoke := fun _ _ _ => Revoked;
     datastore_delete := fun _ _ _ => Returns (VBool true);
     service_start := fun _ => Returns tt;
     get_instance := fun _ _ id =>
       if id =? 14 then Returns acme_certificate
       else Raises (InstanceNotFound id);
     stored_names := fun _ _ => [str "web"; str "mail"];
     datastore_update := fun _ _ _ _ => Returns tt;
     authority_query := fun _ _ => [];
     certificate_query := fun _ _ => [];
     get_serial_for_certificate := fun _ _ => Returns 2;
     load_private_key := fun _ => Returns None;
     prepare_certificate := fun _ _ _ => Returns (str "draft");
     sign_certificate := fun _ _ _ => Returns (str "signed");
     certificate_create := fun _ _ => Returns (VInt 1) |}.

Example delete_revoked :
  do_delete revoking_world 14 false []
  = ([CertificateQueryAcme 14 [acme_certificate];
      GetAcmeClientAndKey (VStr (str "https://acme.example/dir")) true
        (Returns tt);
      SetProgress 60 None;
      Revoke (parsed Pem.block_a (str "a") 5) 0 Revoked;
      SetProgress 80 (Some (str "Certificate successfully revoked"));
      DatastoreDelete Certificates 14 (Returns (VBool true));
      ServiceStart (Returns tt);
      SetProgress 100 None],
     Ok (VBool true)).
Proof. vm_compute. reflexivity. Qed.

Lemma acme_delete_needs_revocation_witness :
  certificate_query_acme revoking_world [] 14 = [acme_certificate] /\
  existsb is_delete (fst (do_delete revoking_world 14 false [])) = true /\
  (certificate_query_acme revoking_world [] 14 = [] \/
   existsb is_revoked (fst (do_delete revoking_world 14 false [])) = true).
Proof.
  split; [reflexivity|]. split; [vm_compute; reflexivity|].
  apply (acme_delete_needs_revocation revoking_world 14 []
           (fst (do_delete revoking_world 14 false []))
           (snd (do_delete revoking_world 14 false []))).
  - vm_compute. reflexivity.
  - vm_compute. reflexivity.
Defined.

(** When the ACME server refuses the revocation with a [ClientError],
    [do_delete] without [force] raises one validation error under
    [acme_revoke.id] and deletes nothing; with [force] it goes on, deletes
    the row, restarts the service and returns what [datastore.delete]
    answered. *)
Theorem refused_revocation (w : world) (id : Z) (h : list event)
    (cert : dict) (rest : list dict) (acme directory : pyval)
    (text : pystr) (x : x509) (reason : pystr) :
  certificate_query_acme w h id = cert :: rest ->
  dict_get "acme" cert = Some acme ->
  subscript acme "directory" = Ok directory ->
  (forall h', get_acme_client_and_key w h' directory true = Returns tt) ->
  dict_get "certificate" cert = Some (VStr text) ->
  load_certificate (openssl w) text = Some x ->
  (forall h', revoke w h' x 0 = ClientError reason) ->
  let tried :=
    [CertificateQueryAcme id (cert :: rest);
     GetAcmeClientAndKey directory true (Returns tt);
     SetProgress 60 None;
     Revoke x 0 (ClientError reason)] in
  do_delete w id false h
    = (tried,
       Raise (ValidationErrors [("acme_revoke.id"%string, msg_revoke reason)]))
  /\
  (forall response,
      (forall h', datastore_delete w h' Certificates id = Returns response) ->
      (forall h', service_start w h' = Returns tt) ->
      do_delete w id true h
        = (tried ++ [DatastoreDelete Certificates id (Returns response);
                     ServiceStart (Returns tt);
                     SetProgress 100 None],
           Ok response)).
Proof.
  intros Q A D G C L R tried.
  assert (T : forall force,
            revoke_if_acme w force (cert :: rest)
              (h ++ [CertificateQueryAcme id (cert :: rest)])
            = ([GetAcmeClientAndKey directory true (Returns tt);
                SetProgress 60 None;
                Revoke x 0 (ClientError reason)],
               if force then Ok tt
               else Raise (ValidationErrors
                             [("acme_revoke.id"%string, msg_revoke reason)]))).
  { intros force. unfold revoke_if_acme, revoke_try.
    unfold iobind, lift, call, emit, getitem, crypto_load_certificate.
    rewrite A. cbv beta iota zeta. rewrite D. cbv beta iota zeta.
    rewrite G. cbv beta iota zeta. rewrite C. cbv beta iota zeta.
    rewrite L. cbv beta iota zeta. rewrite R.
    destruct force; reflexivity. }
  split.
  - unfold do_delete, iobind at 1, query. rewrite Q.
    unfold iobind at 1. rewrite (T false). reflexivity.
  - intros response Dd Ss. unfold do_delete, iobind at 1, query. rewrite Q.
    unfold iobind at 1. rewrite (T true).
    unfold iobind, call, emit, ret. rewrite Dd, Ss. reflexivity.
Qed.

Lemma refused_revocation_witness :
  do_delete refusing_world 14 false []
    = ([CertificateQueryAcme 14 [acme_certificate];
        GetAcmeClientAndKey (VStr (str "https://acme.example/dir")) true
          (Returns tt);
        SetProgress 60 None;
        Revoke (parsed Pem.block_a (str "a") 5) 0 (ClientError (str "denied"))],
       Raise (ValidationErrors
                [("acme_revoke.id"%string, msg_revoke (str "denied"))])).
Proof.
  apply (proj1 (refused_revocation refusing_world 14 [] acme_certificate []
                  (VDict [("id"%string, VInt 1);
                          ("directory"%string,
                           VStr (str "https://acme.example/dir"))])
                  (VStr (str "https://acme.example/dir"))
                  (Pem.block_a ++ Pem.LF) (parsed Pem.block_a (str "a") 5)
                  (str "denied")
                  eq_refl eq_refl eq_refl (fun _ => eq_refl) eq_refl eq_refl
                  (fun _ => eq_refl))).
Defined.

(** A certificate that is not ACME-managed is deleted without any call to
    the ACME server. *)
Theorem plain_delete_skips_acme (w : world) (id : Z) (force : bool)
    (h : list event) :
  certificate_query_acme w h id = [] ->
  existsb is_acme_call (fst (do_delete w id force h)) = false /\
  existsb is_delete (fst (do_delete w id force h)) = true.
Proof.
  intros Q. unfold do_delete, iobind, query, revoke_if_acme, ret, call, emit.
  rewrite Q.
  destruct (datastore_delete w _ Certificates id) as [resp|e]; simpl;
    [|split; reflexivity].
  destruct (service_start w _) as [[]|e]; simpl; split; reflexivity.
Qed.

Lemma plain_delete_skips_acme_witness :
  existsb is_acme_call (fst (do_delete refusing_world 3 false [])) = false /\
  existsb is_delete (fst (do_delete refusing_world 3 false [])) = true.
Proof.
  apply (plain_delete_skips_acme refusing_world 3 false []). reflexivity.
Defined.

(** *** [CertificateService.do_update] *)

(** [old['signedby'] = old['signedby']['id'] if old.get('signedby') else None]. *)
Definition restore_signedby (old : dict) : result dict :=
  if py_truthy (get_or_none "signedby" old) then
    bind (getitem "signedby" old) (fun signedby =>
    bind (subscript signedby "id") (fun i =>
    Ok (dict_set "signedby" i old)))
  else Ok (dict_set "signedby" VNone old).

(** [name != old_name] for a [str] [name]. *)
Definition differs (name : pystr) (old_name : pyval) : bool :=
  match old_name with
  | VStr m => negb (pystr_eqb name m)
  | _ => true
  end.

Definition update_name_attr : string := "certificate_update.name".

(** The body of [if new['name'] != old['name']:] for the new name [name]. *)
Definition rename (w : world) (id : Z) (name : pystr) (new : dict) : io unit :=
  stored <- query (fun h => stored_names w h Certificates)
                  (StoredNamesQuery Certificates) ;;
  match Names.validate_cert_name stored name [] update_name_attr with
  | (_ :: _) as verrors => raise (ValidationErrors verrors)
  | [] =>
      let (san, new) := pop_default "san" (VList []) new in
      joined <- lift (san_column san) ;;
      let new := dict_set "san" (VStr joined) new in
      _ <- call (fun h => datastore_update w h Certificates id new)
                (DatastoreUpdate Certificates id new) ;;
      call (service_start w) ServiceStart
  end.

(** [do_update(job, id, data)]; the schema of [data] has one attribute,
    the [str] [name], which need not be given. *)
Definition do_update (w : world) (id : Z) (data : option pystr) : io dict :=
  old <- call (fun h => get_instance w h Certificates id)
              (GetInstance Certificates id) ;;
  old <- lift (restore_signedby old) ;;
  old_name <- lift (getitem "name" old) ;;
  _ <- match data with
       | Some name =>
           if differs name old_name
           then rename w id name (dict_set "name" (VStr name) old)
           else ret tt
       | None => ret tt
       end ;;
  call (fun h => get_instance w h Certificates id)
       (GetInstance Certificates id).

Definition is_update (ev : event) : bool :=
  match ev with DatastoreUpdate _ _ _ _ => true | _ => false end.

Definition is_write (ev : event) : bool :=
  match ev with
  | DatastoreUpdate _ _ _ _ | DatastoreDelete _ _ _ | ServiceStart _
  | CertificateCreate _ _ => true
  | _ => false
  end.

Example rename_to_taken_name :
  do_update refusing_world 14 (Some (str "mail")) []
  = ([GetInstance Certificates 14 (Returns acme_certificate);
      StoredNamesQuery Certificates [str "web"; str "mail"]],
     Raise (ValidationErrors
              [(update_name_attr, Names.msg_exists)])).
Proof. vm_compute. reflexivity. Qed.

Example rename_to_free_name :
  exists row,
    do_update refusing_world 14 (Some (str "www")) []
    = ([GetInstance Certificates 14 (Returns acme_certificate);
        StoredNamesQuery Certificates [str "web"; str "mail"];
        DatastoreUpdate Certificates 14 row (Returns tt);
        ServiceStart (Returns tt);
        GetInstance Certificates 14 (Returns acme_certificate)],
       Ok acme_certificate) /\
    dict_get "name" row = Some (VStr (str "www")) /\
    dict_get "san" row = Some (VStr (str "a.example.com")) /\
    dict_get "signedby" row = Some VNone.
Proof. eexists. vm_compute. repeat split. Qed.

Lemma rename_inv (w : world) (id : Z) (name : pystr) (new : dict)
    (h evs : list event) (r : result unit) (ev : event) :
  rename w id name new h = (evs, r) ->
  In ev evs -> is_write ev = true ->
  Names.validate_cert_name (stored_names w h Certificates) name []
    update_name_attr = [] /\
  exists joined,
    san_column (fst (pop_default "san" (VList []) new)) = Ok joined /\
    In (DatastoreUpdate Certificates id
          (dict_set "san" (VStr joined)
             (snd (pop_default "san" (VList []) new)))
          (datastore_update w (h ++ [StoredNamesQuery Certificates
                                       (stored_names w h Certificates)])
             Certificates id
             (dict_set "san" (VStr joined)
                (snd (pop_default "san" (VList []) new)))))
       evs.
Proof.
  unfold rename, iobind at 1, query.
  destruct (Names.validate_cert_name (stored_names w h Certificates) name []
              update_name_attr) as [|v vs] eqn:V.
  2:{ unfold raise. intros H. inversion H; subst. intros [<-|[]].
      discriminate. }
  destruct (pop_default "san" (VList []) new) as [san new'] eqn:P.
  cbn [fst snd]. unfold iobind at 1, lift.
  destruct (san_column san) as [joined| |].
  2,3: intros H; inversion H; subst; intros [<-|[]]; discriminate.
  intros H Hin Hw. split; [reflexivity|]. exists joined.
  split; [reflexivity|].
  unfold iobind, call in H.
  set (h1 := (h ++ [StoredNamesQuery Certificates
                      (stored_names w h Certificates)]) ++ []) in *.
  assert (E1 : h1 = h ++ [StoredNamesQuery Certificates
                            (stored_names w h Certificates)])
    by (unfold h1; now rewrite app_nil_r).
  rewrite <- E1.
  destruct (datastore_update w h1 Certificates id
              (dict_set "san" (VStr joined) new')) as [[]|e].
  - destruct (service_start w _) as [[]|e]; inversion H; subst;
      right; now left.
  - inversion H; subst. right. now left.
Qed.

(** [do_update] writes only when it renames. If a run calls the datastore
    or a service to change anything, the request carried a name that
    differs from the stored one and that [validate_cert_name] accepted
    against the names in the table; what it writes is the stored record
    with that name, with the stored [san] joined into one text by
    [' '.join(new.pop('san', []) or [])], with [signedby] turned back from
    a record into an id (or [None]), and with every other column as
    [_get_instance] returned it. *)
Theorem update_writes_only_on_rename (w : world) (id : Z)
    (data : option pystr) (h evs : list event) (r : result dict)
    (ev : event) :
  do_update w id data h = (evs, r) ->
  In ev evs -> is_write ev = true ->
  exists name old stored row,
    data = Some name /\
    In (GetInstance Certificates id (Returns old)) evs /\
    (forall m, dict_get "name" old = Some (VStr m) -> m <> name) /\
    In (StoredNamesQuery Certificates stored) evs /\
    Names.validate_cert_name stored name [] update_name_attr = [] /\
    (exists a, In (DatastoreUpdate Certificates id row a) evs) /\
    dict_get "name" row = Some (VStr name) /\
    (exists joined,
       san_column (fst (pop_default "san" (VList []) old)) = Ok joined /\
       dict_get "san" row = Some (VStr joined)) /\
    (dict_get "signedby" row = Some VNone \/
     exists signedby, dict_get "signedby" old = Some signedby /\
                      Ok (get_or_none "signedby" row) = subscript signedby "id") /\
    (forall k, ~ In k ["name"; "san"; "signedby"]%string ->
               dict_get k row = dict_get k old).
Proof.
  unfold do_update. intros H Hin Hw.
  unfold iobind at 1, call at 1 in H.
  destruct (get_instance w h Certificates id) as [old|e] eqn:G.
  2:{ inversion H; subst. destruct Hin as [<-|[]]. discriminate. }
  unfold iobind at 1, lift at 1 in H.
  destruct (restore_signedby old) as [old'| |] eqn:RS.
  2,3: inversion H; subst; destruct Hin as [<-|[]]; discriminate.
  unfold iobind at 1, lift at 1 in H.
  destruct (getitem "name" old') as [old_name| |] eqn:N.
  2,3: inversion H; subst; destruct Hin as [<-|[]]; discriminate.
  set (h1 := ((h ++ [GetInstance Certificates id (Returns old)]) ++ []) ++ [])
    in *.
  match type of H with
  | context [iobind ?m ?k h1] =>
      destruct (iobind m k h1) as [e4 r4] eqn:K; set (renaming := m) in K
  end.
  cbn [app] in H. inversion H; subst evs r. clear H.
  destruct Hin as [<-|Hin]; [discriminate Hw|].
  assert (M : exists em rm,
             renaming h1 = (em, rm) /\ (forall x, In x em -> In x e4) /\
             In ev em).
  { apply bind_inv_crud in K.
    destruct K as [[e1 [[] [e2 [K1 [K2 Ev]]]]]|[[e [K1 _]]|[K1 _]]].
    - exists e1, (Ok tt). split; [exact K1|]. subst e4. split.
      + intros x Hx. apply in_or_app. now left.
      + apply in_app_or in Hin. destruct Hin as [Hin|Hin]; [exact Hin|].
        exfalso. unfold call in K2.
        destruct (get_instance w (h1 ++ e1) Certificates id) as [o|e];
          inversion K2; subst; destruct Hin as [<-|[]]; discriminate Hw.
    - exists e4, (Raise e). auto.
    - exists e4, OutOfFuel. auto. }
  destruct M as [em [rm [Rn [Sub' Hin']]]].
  assert (Sub : forall x, In x em ->
                  In x (GetInstance Certificates id (Returns old) :: e4))
    by (intros x Hx; right; now apply Sub').
  assert (First : In (GetInstance Certificates id (Returns old))
                     (GetInstance Certificates id (Returns old) :: e4))
    by now left.
  unfold renaming in Rn. clear renaming K.
  destruct data as [name|];
    [|unfold ret in Rn; inversion Rn; subst; destruct Hin'].
  destruct (differs name old_name) eqn:Df;
    [|unfold ret in Rn; inversion Rn; subst; destruct Hin'].
  destruct (rename_inv _ _ _ _ _ _ _ _ Rn Hin' Hw) as [V [joined [Sc Hu]]].
  assert (Qr : In (StoredNamesQuery Certificates
                     (stored_names w h1 Certificates)) em).
  { unfold rename, iobind at 1, query in Rn. rewrite V in Rn.
    destruct (pop_default "san" (VList [])
                (dict_set "name" (VStr name) old')) as [san0 new0].
    match type of Rn with
    | (let (_, _) := ?c in _) = _ => destruct c as [e3 r3]
    end.
    inversion Rn; subst. now left. }
  set (row := dict_set "san" (VStr joined)
                (snd (pop_default "san" (VList [])
                        (dict_set "name" (VStr name) old')))) in *.
  assert (Krow : forall k, k <> "san"%string ->
                   dict_get k row
                   = dict_get k (dict_set "name" (VStr name) old')).
  { intros k Hk. unfold row. rewrite dict_get_set_other by congruence.
    apply (writes_frame _ _ _ (pop_default_writes _ _ _)).
    intros [<-|[]]. congruence. }
  assert (Kold : forall k, k <> "signedby"%string ->
                   dict_get k old' = dict_get k old).
  { intros k Hk. unfold restore_signedby in RS.
    destruct (py_truthy (get_or_none "signedby" old)).
    - destruct (getitem "signedby" old) as [sb| |]; try discriminate.
      cbn [bind] in RS.
      destruct (subscript sb "id") as [i| |]; try discriminate.
      inversion RS; subst. now rewrite dict_get_set_other by congruence.
    - inversion RS; subst. now rewrite dict_get_set_other by congruence. }
  assert (Ksan : fst (pop_default "san" (VList [])
                        (dict_set "name" (VStr name) old'))
                 = fst (pop_default "san" (VList []) old)).
  { unfold pop_default. rewrite dict_get_set_other by discriminate.
    rewrite Kold by discriminate.
    destruct (dict_get "san" old); reflexivity. }
  rewrite Ksan in Sc.
  exists name, old, (stored_names w h1 Certificates), row.
  split; [reflexivity|]. split; [exact First|]. split.
  { intros m Hm. unfold restore_signedby in RS.
    assert (N' : dict_get "name" old' = Some (VStr m)).
    { destruct (py_truthy (get_or_none "signedby" old)).
      - destruct (getitem "signedby" old) as [sb| |]; try discriminate.
        cbn [bind] in RS.
        destruct (subscript sb "id") as [i| |]; try discriminate.
        inversion RS; subst. now rewrite dict_get_set_other by discriminate.
      - inversion RS; subst. now rewrite dict_get_set_other by discriminate. }
    unfold getitem in N. rewrite N' in N. inversion N; subst old_name.
    unfold differs in Df. apply negb_true_iff in Df.
    apply pystr_eqb_neq in Df. congruence. }
  split; [apply Sub; exact Qr|]. split; [exact V|].
  split; [eexists; apply Sub; exact Hu|]. split.
  { rewrite Krow by discriminate. apply dict_get_set_same. }
  split.
  { exists joined. split; [exact Sc|]. unfold row. apply dict_get_set_same. }
  split.
  2:{ intros k Hk. rewrite Krow by (simpl in Hk; intuition congruence).
      rewrite dict_get_set_other by (simpl in Hk; intuition congruence).
      apply Kold. simpl in Hk. intuition congruence. }
  unfold get_or_none. rewrite Krow by discriminate.
  rewrite dict_get_set_other by discriminate.
  unfold restore_signedby in RS.
  destruct (py_truthy (get_or_none "signedby" old)).
  - right. unfold getitem in RS.
    destruct (dict_get "signedby" old) as [sb|] eqn:Sb; [|discriminate].
    cbn [bind] in RS.
    destruct (subscript sb "id") as [i| |] eqn:Si; try discriminate.
    inversion RS; subst. exists sb. split; [reflexivity|].
    now rewrite dict_get_set_same.
  - left. inversion RS; subst. apply dict_get_set_same.
Qed.

Lemma update_writes_only_on_rename_witness :
  exists name old stored row,
    Some (str "www") = Some name /\
    In (GetInstance Certificates 14 (Returns old))
       (fst (do_update refusing_world 14 (Some (str "www")) [])) /\
    (forall m, dict_get "name" old = Some (VStr m) -> m <> name) /\
    In (StoredNamesQuery Certificates stored)
       (fst (do_update refusing_world 14 (Some (str "www")) [])) /\
    Names.validate_cert_name stored name [] update_name_attr = [] /\
    (exists a, In (DatastoreUpdate Certificates 14 row a)
                  (fst (do_update refusing_world 14 (Some (str "www")) []))) /\
    dict_get "name" row = Some (VStr name) /\
    (exists joined,
       san_column (fst (pop_default "san" (VList []) old)) = Ok joined /\
       dict_get "san" row = Some (VStr joined)) /\
    (dict_get "signedby" row = Some VNone \/
     exists signedby, dict_get "signedby" old = Some signedby /\
                      Ok (get_or_none "signedby" row) = subscript signedby "id") /\
    (forall k, ~ In k ["name"; "san"; "signedby"]%string ->
               dict_get k row = dict_get k old).
Proof.
  apply (update_writes_only_on_rename refusing_world 14 (Some (str "www")) []
           (fst (do_update refusing_world 14 (Some (str "www")) []))
           (snd (do_update refusing_world 14 (Some (str "www")) []))
           (ServiceStart (Returns tt))).
  - vm_compute. reflexivity.
  - vm_compute. right. right. right. left. reflexivity.
  - reflexivity.
Defined.

(** *** [CertificateAuthorityService.ca_sign_csr] *)

(** The request, as the schema [ca_sign_csr] lets it through. *)
Record sign_request : Type := {
  ca_id : Z;
  csr_cert_id : Z;
  name : pystr
}.

Definition ca_id_attr (schema_name : string) : string :=
  (schema_name ++ ".ca_id")%string.

Definition csr_cert_id_attr (schema_name : string) : string :=
  (schema_name ++ ".csr_cert_id")%string.

(** What the first [if ... else] adds to [verrors]. *)
Definition ca_errors (schema_name : string) (data : sign_request)
    (ca_data : list dict) : list verror :=
  match ca_data with
  | [] =>
      [(ca_id_attr schema_name,
        str "No Certificate Authority found for id "
          ++ Validators.format_int (ca_id data))]
  | ca :: _ =>
      if py_truthy (get_or_none "privatekey" ca) then []
      else [(ca_id_attr schema_name,
             str "Please use a CA which has a private key assigned")]
  end.

(** What the second [if ... else] adds to [verrors], and [csr] if it has
    been bound. *)
Definition csr_errors (E : env) (schema_name : string) (data : sign_request)
    (csr_cert_data : list dict) : result (list verror * option x509req) :=
  match csr_cert_data with
  | [] =>
      Ok ([(csr_cert_id_attr schema_name,
            str "No Certificate found for id "
              ++ Validators.format_int (csr_cert_id data))], None)
  | csr_cert :: _ =>
      let v := get_or_none "CSR" csr_cert in
      if py_truthy v then
        match v with
        | VStr s =>
            match load_certificate_request E s with
            | Some csr => Ok ([], Some csr)
            | None =>
                Ok ([(csr_cert_id_attr schema_name, str "CSR not valid")],
                    None)
            end
        | _ => Raise TypeError
        end
      else
        Ok ([(csr_cert_id_attr schema_name,
              str "No CSR has been filed by this certificate")], None)
  end.

(** From [cert_info = crypto.load_certificate(...)] to the end, for the CA
    row, the certificate row and the request the checks have found. *)
Definition sign_and_create (w : world) (data : sign_request) (ca csr_cert : dict)
    (csr : x509req) : io pyval :=
  c <- lift (getitem "certificate" ca) ;;
  cert_info <- lift (crypto_load_certificate (openssl w) c) ;;
  pk <- lift (getitem "privatekey" ca) ;;
  PKey <- pure_call (load_private_key w pk) ;;
  i <- lift (getitem "id" ca) ;;
  serial <- call (fun h => get_serial_for_certificate w h i)
                 (GetSerialForCertificate i) ;;
  draft <- pure_call (prepare_certificate w serial cert_info csr) ;;
  digest <- lift (getitem "digest_algorithm" ca) ;;
  new_cert <- pure_call (sign_certificate w draft PKey digest) ;;
  csr_pk <- lift (getitem "privatekey" csr_cert) ;;
  signedby <- lift (getitem "id" ca) ;;
  let new_csr :=
    [("type"%string, VInt CERT_TYPE_INTERNAL);
     ("name"%string, VStr (name data));
     ("certificate"%string, VStr new_cert);
     ("privatekey"%string, csr_pk);
     ("create_type"%string, VStr (str "CERTIFICATE_CREATE"));
     ("signedby"%string, signedby)] in
  call (fun h => certificate_create w h new_csr) (CertificateCreate new_csr).

(** [__ca_sign_csr(data, schema_name)]. *)
Definition sign_csr (w : world) (data : sign_request) (schema_name : string)
    : io pyval :=
  ca_data <- query (fun h => authority_query w h (ca_id data))
                   (AuthorityQuery (ca_id data)) ;;
  csr_cert_data <- query (fun h => certificate_query w h (csr_cert_id data))
                         (CertificateQuery (csr_cert_id data)) ;;
  checked <- lift (csr_errors (openssl w) schema_name data csr_cert_data) ;;
  match ca_errors schema_name data ca_data ++ fst checked with
  | (_ :: _) as verrors => raise (ValidationErrors verrors)
  | [] =>
      match ca_data, csr_cert_data, snd checked with
      | ca :: _, csr_cert :: _, Some csr =>
          sign_and_create w data ca csr_cert csr
      | _, _, _ =>
          (* not reached: each of these cases has added an error *)
          raise (UnboundLocalError "csr")
      end
  end.

(** [ca_sign_csr(data)]. *)
Definition ca_sign_csr (w : world) (data : sign_request) : io pyval :=
  sign_csr w data "certificate_authority_update".

Definition is_create (ev : event) : bool :=
  match ev with CertificateCreate _ _ => true | _ => false end.

(** A world with one CA that has a key and one certificate that holds a
    request. *)
Definition signing_ca : dict :=
  [("id"%string, VInt 1); ("name"%string, VStr (str "root"));
   ("certificate"%string, VStr (Pem.block_a ++ Pem.LF));
   ("privatekey"%string, VStr (str "ca-key"));
   ("digest_algorithm"%string, VStr (str "SHA256"))].

Definition filed_request : dict :=
  [("id"%string, VInt 20); ("name"%string, VStr (str "req"));
   ("CSR"%string, VStr (str "REQ"));
   ("privatekey"%string, VStr (str "req-key"))].

Definition signing_world : world :=
  {| openssl := example_env;
     certificate_query_acme := fun _ _ => [];
     get_acme_client_and_key := fun _ _ _ => Returns tt;
     revoke := fun _ _ _ => Revoked;
     datastore_delete := fun _ _ _ => Returns (VBool true);
     service_start := fun _ => Returns tt;
     get_instance := fun _ _ id => Raises (InstanceNotFound id);
     stored_names := fun _ _ => [];
     datastore_update := fun _ _ _ _ => Returns tt;
     authority_query := fun _ id => if id =? 1 then [signing_ca] else [];
     certificate_query := fun _ id => if id =? 20 then [filed_request] else [];
     get_serial_for_certificate := fun _ _ => Returns 6;
     load_private_key := fun k =>
       Returns (match k with VStr s => Some s | _ => None end);
     prepare_certificate := fun _ _ _ => Returns (str "draft");
     sign_certificate := fun _ _ _ => Returns (str "signed");
     certificate_create := fun _ _ => Returns (VInt 77) |}.

Example sign_filed_request :
  exists new_csr,
    ca_sign_csr signing_world
      {| ca_id := 1; csr_cert_id := 20; name := str "signed-req" |} []
    = ([AuthorityQuery 1 [signing_ca];
        CertificateQuery 20 [filed_request];
        GetSerialForCertificate (VInt 1) (Returns 6);
        CertificateCreate new_csr (Returns (VInt 77))],
       Ok (VInt 77)) /\
    dict_get "signedby" new_csr = Some (VInt 1) /\
    dict_get "privatekey" new_csr = Some (VStr (str "req-key")).
Proof. eexists. vm_compute. repeat split. Qed.

Example sign_nothing_found :
  ca_sign_csr signing_world
    {| ca_id := 5; csr_cert_id := 9; name := str "x" |} []
  = ([AuthorityQuery 5 []; CertificateQuery 9 []],
     Raise (ValidationErrors
              [("certificate_authority_update.ca_id"%string,
                str "No Certificate Authority found for id 5");
               ("certificate_authority_update.csr_cert_id"%string,
                str "No Certificate found for id 9")])).
Proof. vm_compute. reflexivity. Qed.

Definition msg_no_ca (data : sign_request) : pystr :=
  str "No Certificate Authority found for id "
    ++ Validators.format_int (ca_id data).
Definition msg_ca_without_key : pystr :=
  str "Please use a CA which has a private key assigned".
Definition msg_no_certificate (data : sign_request) : pystr :=
  str "No Certificate found for id "
    ++ Validators.format_int (csr_cert_id data).
Definition msg_no_csr : pystr :=
  str "No CSR has been filed by this certificate".
Definition msg_csr_not_valid : pystr := str "CSR not valid".

(** With a [CSR] column that is text or null, the second check raises
    nothing. *)
Lemma csr_errors_returns (E : env) (schema_name : string)
    (data : sign_request) (csr_cert_data : list dict) :
  (forall c rest, csr_cert_data = c :: rest ->
     get_or_none "CSR" c = VNone \/ exists s, get_or_none "CSR" c = VStr s) ->
  exists errs csr,
    csr_errors E schema_name data csr_cert_data = Ok (errs, csr) /\
    (csr_cert_data = [] ->
     errs = [(csr_cert_id_attr schema_name, msg_no_certificate data)]) /\
    (forall c rest, csr_cert_data = c :: rest ->
       py_truthy (get_or_none "CSR" c) = false ->
       errs = [(csr_cert_id_attr schema_name, msg_no_csr)]) /\
    (forall c rest s, csr_cert_data = c :: rest ->
       get_or_none "CSR" c = VStr s -> s <> [] ->
       load_certificate_request E s = None ->
       errs = [(csr_cert_id_attr schema_name, msg_csr_not_valid)]).
Proof.
  intros Hcol. destruct csr_cert_data as [|c rest].
  - eexists _, _. split; [reflexivity|].
    split; [reflexivity|]. split; intros; discriminate.
  - unfold csr_errors.
    destruct (Hcol c rest eq_refl) as [N|[s S]].
    + rewrite N. cbn [py_truthy]. eexists _, _. split; [reflexivity|].
      split; [discriminate|]. split.
      * reflexivity.
      * intros c' rest' s' Hc S'. inversion Hc; subst. congruence.
    + rewrite S. destruct s as [|ch s].
      * cbn [py_truthy]. eexists _, _. split; [reflexivity|].
        split; [discriminate|]. split; [reflexivity|].
        intros c' rest' s' Hc S' Ne. inversion Hc; subst.
        rewrite S in S'. inversion S'; subst. contradiction.
      * cbn [py_truthy].
        destruct (load_certificate_request E (ch :: s)) as [q|] eqn:L.
        -- eexists _, _. split; [reflexivity|].
           split; [discriminate|]. split.
           ++ intros c' rest' Hc T. inversion Hc; subst.
              rewrite S in T. discriminate T.
           ++ intros c' rest' s' Hc S' _ L'. inversion Hc; subst.
              rewrite S in S'. inversion S'; subst. congruence.
        -- eexists _, _. split; [reflexivity|].
           split; [discriminate|]. split.
           ++ intros c' rest' Hc T. inversion Hc; subst.
              rewrite S in T. discriminate T.
           ++ reflexivity.
Qed.

(** [ca_sign_csr] checks both ids before it does anything. Let the [CSR]
    column of the certificate found be text or null. If the CA is missing
    or has no private key, or the certificate is missing, holds no request
    or holds one that does not parse, [__ca_sign_csr] raises one
    [ValidationErrors] and has only made its two queries: no serial is
    allocated and no certificate is created. The aggregate holds the error
    of each of these conditions that applies, under [<schema>.ca_id] for
    the CA and [<schema>.csr_cert_id] for the request. *)
Theorem sign_is_refused_before_it_starts (w : world) (data : sign_request)
    (schema_name : string) (h : list event) :
  let ca_data := authority_query w h (ca_id data) in
  let csr_cert_data :=
    certificate_query w (h ++ [AuthorityQuery (ca_id data) ca_data])
      (csr_cert_id data) in
  (forall c rest, csr_cert_data = c :: rest ->
     get_or_none "CSR" c = VNone \/ exists s, get_or_none "CSR" c = VStr s) ->
  (ca_data = [] \/
   (exists ca rest, ca_data = ca :: rest /\
                    py_truthy (get_or_none "privatekey" ca) = false) \/
   csr_cert_data = [] \/
   (exists c rest, csr_cert_data = c :: rest /\
                   py_truthy (get_or_none "CSR" c) = false) \/
   (exists c rest s, csr_cert_data = c :: rest /\
                     get_or_none "CSR" c = VStr s /\
                     load_certificate_request (openssl w) s = None)) ->
  exists errs,
    sign_csr w data schema_name h
      = ([AuthorityQuery (ca_id data) ca_data;
          CertificateQuery (csr_cert_id data) csr_cert_data],
         Raise (ValidationErrors errs)) /\
    (ca_data = [] ->
     In (ca_id_attr schema_name, msg_no_ca data) errs) /\
    (forall ca rest, ca_data = ca :: rest ->
       py_truthy (get_or_none "privatekey" ca) = false ->
       In (ca_id_attr schema_name, msg_ca_without_key) errs) /\
    (csr_cert_data = [] ->
     In (csr_cert_id_attr schema_name, msg_no_certificate data) errs) /\
    (forall c rest, csr_cert_data = c :: rest ->
       py_truthy (get_or_none "CSR" c) = false ->
       In (csr_cert_id_attr schema_name, msg_no_csr) errs) /\
    (forall c rest s, csr_cert_data = c :: rest ->
       get_or_none "CSR" c = VStr s -> s <> [] ->
       load_certificate_request (openssl w) s = None ->
       In (csr_cert_id_attr schema_name, msg_csr_not_valid) errs).
Proof.
  intros ca_data csr_cert_data Hcol Hbad.
  destruct (csr_errors_returns (openssl w) schema_name data csr_cert_data Hcol)
    as [ce [csr [C [C0 [C1 C2]]]]].
  assert (A0 : ca_data = [] ->
               ca_errors schema_name data ca_data
               = [(ca_id_attr schema_name, msg_no_ca data)])
    by (intros ->; reflexivity).
  assert (A1 : forall ca rest, ca_data = ca :: rest ->
                 py_truthy (get_or_none "privatekey" ca) = false ->
                 ca_errors schema_name data ca_data
                 = [(ca_id_attr schema_name, msg_ca_without_key)])
    by (intros ca rest -> T; unfold ca_errors; rewrite T; reflexivity).
  exists (ca_errors schema_name data ca_data ++ ce). split.
  - unfold sign_csr, iobind at 1, query at 1. fold ca_data.
    unfold iobind at 1, query at 1. fold csr_cert_data.
    unfold iobind at 1, lift at 1. rewrite C. cbn [fst snd].
    destruct (ca_errors schema_name data ca_data ++ ce) as [|v vs] eqn:V;
      [|reflexivity].
    exfalso. apply app_eq_nil in V. destruct V as [Va Vc].
    destruct Hbad as [B|[[ca [rest [B T]]]|[B|[[c [rest [B T]]]
                     |[c [rest [s [B [S L]]]]]]]]].
    + rewrite (A0 B) in Va. discriminate Va.
    + rewrite (A1 _ _ B T) in Va. discriminate Va.
    + rewrite (C0 B) in Vc. discriminate Vc.
    + rewrite (C1 _ _ B T) in Vc. discriminate Vc.
    + destruct s as [|ch s].
      * rewrite (C1 _ _ B) in Vc by (rewrite S; reflexivity).
        discriminate Vc.
      * rewrite (C2 _ _ _ B S) in Vc by (discriminate || exact L).
        discriminate Vc.
  - split; [|split; [|split; [|split]]].
    + intros B. apply in_or_app. left. rewrite (A0 B). now left.
    + intros ca rest B T. apply in_or_app. left. rewrite (A1 _ _ B T).
      now left.
    + intros B. apply in_or_app. right. rewrite (C0 B). now left.
    + intros c rest B T. apply in_or_app. right. rewrite (C1 _ _ B T).
      now left.
    + intros c rest s B S Ne L. apply in_or_app. right.
      rewrite (C2 _ _ _ B S Ne L). now left.
Qed.

(** A CA without a private key and a request that does not parse. *)
Definition keyless_ca : dict :=
  [("id"%string, VInt 2); ("name"%string, VStr (str "keyless"));
   ("certificate"%string, VStr (Pem.block_a ++ Pem.LF));
   ("privatekey"%string, VNone);
   ("digest_algorithm"%string, VStr (str "SHA256"))].

Definition damaged_request : dict :=
  [("id"%string, VInt 21); ("name"%string, VStr (str "damaged"));
   ("CSR"%string, VStr (str "???"));
   ("privatekey"%string, VStr (str "req-key"))].

Definition careless_world : world :=
  {| openssl :=
       {| ucd := Pem.ascii_only;
          load_certificate := load_certificate example_env;
          reload_privatekey := reload_privatekey example_env;
          load_certificate_request := fun _ => None;
          utc_ctime := utc_ctime example_env;
          int_of_str := int_of_str example_env;
          str_of := str_of example_env;
          export_private_key := export_private_key example_env;
          ca_rows := [];
          certificate_rows := [] |};
     certificate_query_acme := fun _ _ => [];
     get_acme_client_and_key := fun _ _ _ => Returns tt;
     revoke := fun _ _ _ => Revoked;
     datastore_delete := fun _ _ _ => Returns (VBool true);
     service_start := fun _ => Returns tt;
     get_instance := fun _ _ id => Raises (InstanceNotFound id);
     stored_names := fun _ _ => [];
     datastore_update := fun _ _ _ _ => Returns tt;
     authority_query := fun _ id => if id =? 2 then [keyless_ca] else [];
     certificate_query := fun _ id =>
       if id =? 21 then [damaged_request] else [];
     get_serial_for_certificate := fun _ _ => Returns 6;
     load_private_key := fun _ => Returns None;
     prepare_certificate := fun _ _ _ => Returns (str "draft");
     sign_certificate := fun _ _ _ => Returns (str "signed");
     certificate_create := fun _ _ => Returns (VInt 77) |}.

Lemma sign_is_refused_before_it_starts_witness :
  exists errs,
    sign_csr careless_world
      {| ca_id := 2; csr_cert_id := 21; name := str "x" |}
      "certificate_authority_update" []
    = ([AuthorityQuery 2 [keyless_ca]; CertificateQuery 21 [damaged_request]],
       Raise (ValidationErrors errs)) /\
    In ("certificate_authority_update.ca_id"%string, msg_ca_without_key) errs /\
    In ("certificate_authority_update.csr_cert_id"%string, msg_csr_not_valid)
       errs.
Proof.
  destruct (sign_is_refused_before_it_starts careless_world
              {| ca_id := 2; csr_cert_id := 21; name := str "x" |}
              "certificate_authority_update" [])
    as [errs [H [_ [Hca [_ [_ Hcsr]]]]]].
  - intros c rest Hc. vm_compute in Hc. inversion Hc; subst.
    right. eexists. reflexivity.
  - right. left. exists keyless_ca, []. split; reflexivity.
  - exists errs. split; [exact H|]. split.
    + apply (Hca keyless_ca []); reflexivity.
    + apply (Hcsr damaged_request [] (str "???")); try reflexivity.
      discriminate.
Defined.

Ltac no_create H Hin :=
  inversion H; subst; cbn [app] in Hin;
  repeat (destruct Hin as [Hin|Hin]; [discriminate Hin|]);
  destruct Hin.

Lemma sign_and_create_inv (w : world) (data : sign_request)
    (ca csr_cert : dict) (csr : x509req) (h evs : list event)
    (r : result pyval) (d : dict) (a : outcome pyval) :
  sign_and_create w data ca csr_cert csr h = (evs, r) ->
  In (CertificateCreate d a) evs ->
  exists i serial text cert_info draft pk key digest new_cert,
    dict_get "id" ca = Some i /\
    In (GetSerialForCertificate i (Returns serial)) evs /\
    dict_get "certificate" ca = Some (VStr text) /\
    load_certificate (openssl w) text = Some cert_info /\
    prepare_certificate w serial cert_info csr = Returns draft /\
    dict_get "privatekey" ca = Some pk /\
    load_private_key w pk = Returns key /\
    dict_get "digest_algorithm" ca = Some digest /\
    sign_certificate w draft key digest = Returns new_cert /\
    d = [("type"%string, VInt CERT_TYPE_INTERNAL);
         ("name"%string, VStr (name data));
         ("certificate"%string, VStr new_cert);
         ("privatekey"%string, get_or_none "privatekey" csr_cert);
         ("create_type"%string, VStr (str "CERTIFICATE_CREATE"));
         ("signedby"%string, i)] /\
    dict_get "privatekey" csr_cert <> None.
Proof.
  unfold sign_and_create. intros H Hin.
  unfold iobind at 1, lift at 1, getitem at 1 in H.
  destruct (dict_get "certificate" ca) as [c|] eqn:C; [|no_create H Hin].
  unfold iobind at 1, lift at 1, crypto_load_certificate in H.
  destruct c as [| | |text| |]; try (no_create H Hin).
  destruct (load_certificate (openssl w) text) as [cert_info|] eqn:L;
    [|no_create H Hin].
  unfold iobind at 1, lift at 1, getitem at 1 in H.
  destruct (dict_get "privatekey" ca) as [pk|] eqn:P; [|no_create H Hin].
  unfold iobind at 1, pure_call at 1 in H.
  destruct (load_private_key w pk) as [key|e] eqn:K; [|no_create H Hin].
  unfold iobind at 1, lift at 1, getitem at 1 in H.
  destruct (dict_get "id" ca) as [i|] eqn:I; [|no_create H Hin].
  unfold iobind at 1, call at 1 in H.
  match type of H with
  | context [get_serial_for_certificate w ?h' i] =>
      destruct (get_serial_for_certificate w h' i) as [serial|e] eqn:S;
        [|no_create H Hin]
  end.
  unfold iobind at 1, pure_call at 1 in H.
  destruct (prepare_certificate w serial cert_info csr) as [draft|e] eqn:D;
    [|no_create H Hin].
  unfold iobind at 1, lift at 1, getitem at 1 in H.
  destruct (dict_get "digest_algorithm" ca) as [digest|] eqn:G;
    [|no_create H Hin].
  unfold iobind at 1, pure_call at 1 in H.
  destruct (sign_certificate w draft key digest) as [new_cert|e] eqn:Sg;
    [|no_create H Hin].
  unfold iobind at 1, lift at 1, getitem at 1 in H.
  destruct (dict_get "privatekey" csr_cert) as [csr_pk|] eqn:Cp;
    [|no_create H Hin].
  unfold iobind at 1, lift at 1, getitem at 1 in H. rewrite I in H.
  unfold call in H.
  match type of H with
  | context [certificate_create w ?h' ?row] =>
      destruct (certificate_create w h' row) as [job|e] eqn:Cc
  end;
    inversion H; subst; cbn [app] in Hin;
    (destruct Hin as [Hin|Hin]; [discriminate Hin|]);
    (destruct Hin as [Hin|[]]); inversion Hin; subst;
    exists i, serial, text, cert_info, draft, pk, key, digest, new_cert;
    unfold get_or_none; rewrite Cp;
    repeat split; auto; try (now left); discriminate.
Qed.

(** What [ca_sign_csr] hands to [certificate.create]. Whenever it gets
    that far, both checks have passed (the CA has a private key, the
    certificate holds a request that parses), the serial was allocated
    for this very CA, the certificate was signed with the CA's key and
    digest over a draft carrying that serial, and the new record is an
    internal certificate with the requested name, the private key of the
    request's record, and [signedby] the CA's id. *)
Theorem signed_certificate_record (w : world) (data : sign_request)
    (schema_name : string) (h evs : list event) (r : result pyval)
    (d : dict) (a : outcome pyval) :
  sign_csr w data schema_name h = (evs, r) ->
  In (CertificateCreate d a) evs ->
  exists ca csr_cert text_csr csr i serial text cert_info draft pk key digest
         new_cert,
    In ca (authority_query w h (ca_id data)) /\
    py_truthy (get_or_none "privatekey" ca) = true /\
    In (CertificateQuery (csr_cert_id data)
          (certificate_query w (h ++ [AuthorityQuery (ca_id data)
                                        (authority_query w h (ca_id data))])
             (csr_cert_id data))) evs /\
    dict_get "CSR" csr_cert = Some (VStr text_csr) /\
    load_certificate_request (openssl w) text_csr = Some csr /\
    dict_get "id" ca = Some i /\
    In (GetSerialForCertificate i (Returns serial)) evs /\
    dict_get "certificate" ca = Some (VStr text) /\
    load_certificate (openssl w) text = Some cert_info /\
    prepare_certificate w serial cert_info csr = Returns draft /\
    dict_get "privatekey" ca = Some pk /\
    load_private_key w pk = Returns key /\
    dict_get "digest_algorithm" ca = Some digest /\
    sign_certificate w draft key digest = Returns new_cert /\
    d = [("type"%string, VInt CERT_TYPE_INTERNAL);
         ("name"%string, VStr (name data));
         ("certificate"%string, VStr new_cert);
         ("privatekey"%string, get_or_none "privatekey" csr_cert);
         ("create_type"%string, VStr (str "CERTIFICATE_CREATE"));
         ("signedby"%string, i)].
Proof.
  unfold sign_csr. intros H Hin.
  unfold iobind at 1, query at 1 in H.
  set (ca_data := authority_query w h (ca_id data)) in *.
  unfold iobind at 1, query at 1 in H.
  set (h1 := h ++ [AuthorityQuery (ca_id data) ca_data]) in *.
  set (csr_cert_data := certificate_query w h1 (csr_cert_id data)) in *.
  unfold iobind at 1, lift at 1 in H.
  destruct (csr_errors (openssl w) schema_name data csr_cert_data)
    as [[errs ocsr]| |] eqn:Ce; try (no_create H Hin).
  cbn [fst snd] in H.
  destruct (ca_errors schema_name data ca_data ++ errs) as [|v vs] eqn:V;
    [|unfold raise in H; no_create H Hin].
  apply app_eq_nil in V. destruct V as [Vca ->].
  destruct ca_data as [|ca rest] eqn:Cd;
    [unfold raise in H; no_create H Hin|].
  destruct csr_cert_data as [|csr_cert rest'] eqn:Cc;
    [unfold raise in H; no_create H Hin|].
  destruct ocsr as [csr|]; [|unfold raise in H; no_create H Hin].
  match type of H with
  | (let (_, _) := (let (_, _) := (let (_, _) := ?c in _) in _) in _) = _ =>
      destruct c as [e4 r4] eqn:Sc
  end.
  inversion H; subst evs r. clear H. cbn [app] in Hin.
  destruct Hin as [Hin|Hin]; [discriminate Hin|].
  destruct Hin as [Hin|Hin]; [discriminate Hin|].
  destruct (sign_and_create_inv _ _ _ _ _ _ _ _ _ _ Sc Hin)
    as [i [serial [text [cert_info [draft [pk [key [digest [new_cert
         [I [Sv [C [L [D [P [K [G [Sg [Ed _]]]]]]]]]]]]]]]]]]].
  unfold csr_errors in Ce.
  destruct (py_truthy (get_or_none "CSR" csr_cert)) eqn:T;
    [|discriminate Ce].
  unfold get_or_none in Ce, T.
  destruct (dict_get "CSR" csr_cert) as [[| | |text_csr| |]|] eqn:Cs;
    try discriminate Ce.
  destruct (load_certificate_request (openssl w) text_csr) as [csr'|] eqn:Lr;
    [|discriminate Ce].
  inversion Ce; subst csr'. clear Ce.
  unfold ca_errors in Vca.
  destruct (py_truthy (get_or_none "privatekey" ca)) eqn:Tk;
    [|discriminate Vca].
  exists ca, csr_cert, text_csr, csr, i, serial, text, cert_info, draft, pk,
    key, digest, new_cert.
  repeat split; auto.
  - now left.
  - right. now left.
  - right. right. exact Sv.
Qed.

Lemma signed_certificate_record_witness :
  exists ca csr_cert text_csr csr i serial text cert_info draft pk key digest
         new_cert,
    In ca (authority_query signing_world [] 1) /\
    py_truthy (get_or_none "privatekey" ca) = true /\
    In (CertificateQuery 20
          (certificate_query signing_world
             ([] ++ [AuthorityQuery 1 (authority_query signing_world [] 1)])
             20))
       (fst (ca_sign_csr signing_world
               {| ca_id := 1; csr_cert_id := 20; name := str "signed-req" |}
               [])) /\
    dict_get "CSR" csr_cert = Some (VStr text_csr) /\
    load_certificate_request (openssl signing_world) text_csr = Some csr /\
    dict_get "id" ca = Some i /\
    In (GetSerialForCertificate i (Returns serial))
       (fst (ca_sign_csr signing_world
               {| ca_id := 1; csr_cert_id := 20; name := str "signed-req" |}
               [])) /\
    dict_get "certificate" ca = Some (VStr text) /\
    load_certificate (openssl signing_world) text = Some cert_info /\
    prepare_certificate signing_world serial cert_info csr = Returns draft /\
    dict_get "privatekey" ca = Some pk /\
    load_private_key signing_world pk = Returns key /\
    dict_get "digest_algorithm" ca = Some digest /\
    sign_certificate signing_world draft key digest = Returns new_cert /\
    [("type"%string, VInt CERT_TYPE_INTERNAL);
     ("name"%string, VStr (str "signed-req"));
     ("certificate"%string, VStr (str "signed"));
     ("privatekey"%string, VStr (str "req-key"));
     ("create_type"%string, VStr (str "CERTIFICATE_CREATE"));
     ("signedby"%string, VInt 1)]
    = [("type"%string, VInt CERT_TYPE_INTERNAL);
       ("name"%string,
        VStr (name {| ca_id := 1; csr_cert_id := 20;
                      name := str "signed-req" |}));
       ("certificate"%string, VStr new_cert);
       ("privatekey"%string, get_or_none "privatekey" csr_cert);
       ("create_type"%string, VStr (str "CERTIFICATE_CREATE"));
       ("signedby"%string, i)].
Proof.
  apply (signed_certificate_record signing_world
           {| ca_id := 1; csr_cert_id := 20; name := str "signed-req" |}
           "certificate_authority_update" []
           (fst (ca_sign_csr signing_world
                   {| ca_id := 1; csr_cert_id := 20; name := str "signed-req" |}
                   []))
           (snd (ca_sign_csr signing_world
                   {| ca_id := 1; csr_cert_id := 20; name := str "signed-req" |}
                   []))
           _ (Returns (VInt 77))).
  - vm_compute. reflexivity.
  - vm_compute. right. right. right. left. reflexivity.
Defined.

End Crud.

(** ** The common checks ([_validate_common_attributes]) *)

Module Attributes.

Import Resolver.

(** The collaborators of the checks. *)
Record checks : Type := {
  openssl : env;
  (* get_x509_subject of a request *)
  request_subject : x509req -> subject;
  (* what validate_country adds to verrors for a country and a field name *)
  validate_country : pyval -> string -> result (list verror);
  (* crypto.load_privatekey(crypto.FILETYPE_PEM, buffer, passphrase=...) *)
  crypto_load_privatekey : pyval -> option pystr -> result pystr;
  (* certificateauthority.query for a CA with a certificate, a private key
     and this id; the query runs cert_extend on what it finds *)
  valid_signing_ca : pyval -> result (list dict);
  (* certificate.query([['id', '=', csr_id]]) *)
  certificate_query : pyval -> result (list dict);
  (* `attribute in verrors` *)
  contains : list verror -> string -> bool;
  (* the [try] block of use_certificate, use_privatekey and check_privatekey
     for a certificate and what load_private_key gave: the text of the
     SSL.Error it catches, None when the three calls pass *)
  check_privatekey : x509 -> option pystr -> result (option pystr)
}.

(** [f'{schema_name}.field']. *)
Definition attr (schema_name field : string) : string :=
  (schema_name ++ "." ++ field)%string.

Definition msg_no_certificate : pystr := str "Not a valid certificate".
Definition msg_not_pem : pystr := str "Certificate not in PEM format".
Definition msg_private_key : pystr :=
  str "Please provide a valid private key with matching passphrase ( if any )".
Definition msg_key_length : pystr :=
  str "Key length must be a valid value ( 1024, 2048, 4096 )".
Definition msg_signedby : pystr :=
  str "Please provide a valid signing authority".
Definition msg_csr : pystr := str "Please provide a valid CSR".
Definition msg_csr_id : pystr := str "Please provide a valid csr_id".
Definition msg_no_match (e : pystr) : pystr :=
  str "Private key does not match certificate: " ++ e.

Section Checks.

Variable K : checks.

(** [passphrase.encode() if passphrase else None]. *)
Definition encoded (passphrase : pyval) : result (option pystr) :=
  if py_truthy passphrase then
    match passphrase with
    | VStr s => Ok (Some s)
    | _ => Raise (AttributeError "encode")
    end
  else Ok None.

(** [load_private_key(buffer, passphrase)]: [None] for a [crypto.Error]. *)
Definition load_private_key (buffer passphrase : pyval)
    : result (option pystr) :=
  bind (encoded passphrase) (fun pass =>
    match crypto_load_privatekey K buffer pass with
    | Ok key => Ok (Some key)
    | Raise CryptoError => Ok None
    | Raise e => Raise e
    | OutOfFuel => OutOfFuel
    end).

(** The inner [_validate_certificate_with_key]; [passphrase] is the
    variable of the enclosing function. *)
Definition validate_certificate_with_key
    (certificate private_key passphrase : pyval) (schema_name : string)
    (verrors : list verror) : result (list verror) :=
  if py_truthy certificate && py_truthy private_key
     && negb (contains K verrors (attr schema_name "certificate"))
     && negb (contains K verrors (attr schema_name "privatekey"))
  then
    bind (Crud.crypto_load_certificate (openssl K) certificate)
      (fun public_key_obj =>
    bind (load_private_key private_key passphrase)
      (fun private_key_obj =>
    bind (check_privatekey K public_key_obj private_key_obj)
      (fun error =>
         match error with
         | Some e =>
             Ok (Names.add verrors (attr schema_name "privatekey")
                   (msg_no_match e))
         | None => Ok verrors
         end)))
  else Ok verrors.

(** The check of [data.get('country')]. *)
Definition check_country (country : pyval) (schema_name : string)
    (verrors : list verror) : result (list verror) :=
  if py_truthy country then
    bind (validate_country K country (attr schema_name "country"))
      (fun added => Ok (verrors ++ added))
  else Ok verrors.

(** The check of [data.get('certificate')]. *)
Definition check_certificate (certificate : pyval) (schema_name : string)
    (verrors : list verror) : result (list verror) :=
  if py_truthy certificate then
    match certificate with
    | VStr s =>
        match Pem.findall (ucd (openssl K)) s with
        | [] =>
            Ok (Names.add verrors (attr schema_name "certificate")
                  msg_no_certificate)
        | _ :: _ =>
            if py_truthy (VDict (service_load_certificate (openssl K)
                                   certificate))
            then Ok verrors
            else Ok (Names.add verrors (attr schema_name "certificate")
                       msg_not_pem)
        end
    | _ => Raise TypeError
    end
  else Ok verrors.

(** A check that adds one error when [failed]. *)
Definition add_if (failed : bool) (attribute : string) (message : pystr)
    (verrors : list verror) : list verror :=
  if failed then Names.add verrors attribute message else verrors.

(** The check of [data.get('privatekey')]. *)
Definition check_private_key (private_key passphrase : pyval)
    (schema_name : string) (verrors : list verror) : result (list verror) :=
  if py_truthy private_key then
    bind (load_private_key private_key passphrase) (fun key =>
      Ok (add_if (match key with Some _ => false | None => true end)
            (attr schema_name "privatekey") msg_private_key verrors))
  else Ok verrors.

(** A check that asks a query when [value] is given and adds one error
    when the query finds nothing. *)
Definition check_found (value : pyval) (found : result (list dict))
    (attribute : string) (message : pystr) (verrors : list verror)
    : result (list verror) :=
  if py_truthy value then
    bind found (fun rows =>
      Ok (add_if (negb (py_truthy (VList (map VDict rows))))
            attribute message verrors))
  else Ok verrors.

Definition validate_common_attributes (data : dict) (verrors : list verror)
    (schema_name : string) : result (list verror) :=
  let country := get_or_none "country" data in
  bind (check_country country schema_name verrors) (fun verrors =>
  let certificate := get_or_none "certificate" data in
  bind (check_certificate certificate schema_name verrors) (fun verrors =>
  let private_key := get_or_none "privatekey" data in
  let passphrase := get_or_none "passphrase" data in
  bind (check_private_key private_key passphrase schema_name verrors)
    (fun verrors =>
  let key_length := get_or_none "key_length" data in
  let verrors :=
    add_if (py_truthy key_length
            && negb (in_ints key_length [1024; 2048; 4096]))
      (attr schema_name "key_length") msg_key_length verrors in
  let signedby := get_or_none "signedby" data in
  bind (check_found signedby (valid_signing_ca K signedby)
          (attr schema_name "signedby") msg_signedby verrors)
    (fun verrors =>
  let csr := get_or_none "CSR" data in
  let verrors :=
    add_if (py_truthy csr
            && negb (py_truthy
                       (VDict (service_load_certificate_request (openssl K)
                                 (request_subject K) csr))))
      (attr schema_name "CSR") msg_csr verrors in
  let csr_id := get_or_none "csr_id" data in
  bind (check_found csr_id (certificate_query K csr_id)
          (attr schema_name "csr_id") msg_csr_id verrors)
    (fun verrors =>
  validate_certificate_with_key certificate private_key passphrase
    schema_name verrors))))).

(** *** Facts *)

(** [verrors'] is [verrors] with errors added at the end. *)
Definition extends (verrors verrors' : list verror) : Prop :=
  exists added, verrors' = verrors ++ added.

Lemma extends_refl (v : list verror) : extends v v.
Proof. exists []. now rewrite app_nil_r. Qed.

Lemma extends_trans (a b c : list verror) :
  extends a b -> extends b c -> extends a c.
Proof.
  intros [x ->] [y ->]. exists (x ++ y). now rewrite app_assoc.
Qed.

Lemma extends_add_if (failed : bool) (attribute : string) (message : pystr)
    (v : list verror) :
  extends v (add_if failed attribute message v).
Proof.
  unfold add_if, Names.add. destruct failed; [eexists; reflexivity|].
  apply extends_refl.
Qed.

Lemma extends_in (a b : list verror) (x : verror) :
  extends a b -> In x a -> In x b.
Proof. intros [y ->] H. apply in_or_app. now left. Qed.

Lemma check_country_extends (country : pyval) (schema_name : string)
    (v v' : list verror) :
  check_country country schema_name v = Ok v' -> extends v v'.
Proof.
  unfold check_country.
  destruct (py_truthy country);
    [|intros H; inversion H; apply extends_refl].
  intros H. apply bind_ok in H. destruct H as [added [_ H]].
  inversion H. eexists. reflexivity.
Qed.

Lemma check_certificate_extends (certificate : pyval) (schema_name : string)
    (v v' : list verror) :
  check_certificate certificate schema_name v = Ok v' -> extends v v'.
Proof.
  unfold check_certificate, Names.add.
  destruct (py_truthy certificate);
    [|intros H; inversion H; apply extends_refl].
  destruct certificate; try discriminate.
  destruct (Pem.findall (ucd (openssl K)) s).
  - intros H. inversion H. eexists. reflexivity.
  - destruct (py_truthy _); intros H; inversion H;
      [apply extends_refl | eexists; reflexivity].
Qed.

Lemma check_private_key_extends (private_key passphrase : pyval)
    (schema_name : string) (v v' : list verror) :
  check_private_key private_key passphrase schema_name v = Ok v' ->
  extends v v'.
Proof.
  unfold check_private_key.
  destruct (py_truthy private_key);
    [|intros H; inversion H; apply extends_refl].
  intros H. apply bind_ok in H. destruct H as [key [_ H]].
  inversion H. apply extends_add_if.
Qed.

Lemma check_found_extends (value : pyval) (found : result (list dict))
    (attribute : string) (message : pystr) (v v' : list verror) :
  check_found value found attribute message v = Ok v' -> extends v v'.
Proof.
  unfold check_found.
  destruct (py_truthy value); [|intros H; inversion H; apply extends_refl].
  intros H. apply bind_ok in H. destruct H as [rows [_ H]].
  inversion H. apply extends_add_if.
Qed.

Lemma with_key_extends (certificate private_key passphrase : pyval)
    (schema_name : string) (v v' : list verror) :
  validate_certificate_with_key certificate private_key passphrase
    schema_name v = Ok v' ->
  extends v v'.
Proof.
  unfold validate_certificate_with_key, Names.add.
  destruct (_ && _); [|intros H; inversion H; apply extends_refl].
  intros H.
  apply bind_ok in H. destruct H as [x [_ H]].
  apply bind_ok in H. destruct H as [key [_ H]].
  apply bind_ok in H. destruct H as [[e|] [_ H]];
    inversion H; [eexists; reflexivity | apply extends_refl].
Qed.

(** *** No [crypto.Error] leaves the checks *)

Lemma bind_no_crypto_error {A B} (r : result A) (k : A -> result B) :
  r <> Raise CryptoError ->
  (forall a, r = Ok a -> k a <> Raise CryptoError) ->
  bind r k <> Raise CryptoError.
Proof.
  intros Hr Hk. destruct r as [a|e|]; cbn [bind].
  - now apply Hk.
  - intros H. apply Hr. inversion H. reflexivity.
  - discriminate.
Qed.

Lemma load_private_key_no_crypto_error (buffer passphrase : pyval) :
  load_private_key buffer passphrase <> Raise CryptoError.
Proof.
  unfold load_private_key, encoded.
  apply bind_no_crypto_error.
  - destruct (py_truthy passphrase); [|discriminate].
    destruct passphrase; discriminate.
  - intros pass _.
    destruct (crypto_load_privatekey K buffer pass) as [key|e|];
      try discriminate.
    destruct e; discriminate.
Qed.

(** [attribute in verrors] read as: some error is filed under the
    attribute. *)
Definition filed_under (verrors : list verror) (attribute : string) : bool :=
  existsb (String.eqb attribute) (map fst verrors).

Lemma filed_under_extends (a b : list verror) (k : string) :
  extends a b -> filed_under b k = false -> filed_under a k = false.
Proof.
  intros [x ->]. unfold filed_under.
  rewrite map_app, existsb_app. intros H.
  now apply orb_false_iff in H.
Qed.

Lemma filed_under_add (v : list verror) (k : string) (m : pystr) :
  filed_under (Names.add v k m) k = true.
Proof.
  unfold filed_under, Names.add. rewrite map_app, existsb_app.
  cbn. rewrite String.eqb_refl. cbn. apply orb_true_r.
Qed.

Lemma passed_certificate_loads (certificate : pyval) (schema_name : string)
    (v v' : list verror) :
  check_certificate certificate schema_name v = Ok v' ->
  py_truthy certificate = true ->
  filed_under v' (attr schema_name "certificate") = false ->
  exists x, Crud.crypto_load_certificate (openssl K) certificate = Ok x.
Proof.
  unfold check_certificate. intros H T F. rewrite T in H.
  destruct certificate; try discriminate.
  destruct (Pem.findall (ucd (openssl K)) s).
  - inversion H. subst v'. now rewrite filed_under_add in F.
  - unfold service_load_certificate, load_any in H.
    unfold Crud.crypto_load_certificate.
    destruct (load_certificate (openssl K) s) as [x|].
    + now exists x.
    + cbn in H. inversion H. subst v'. now rewrite filed_under_add in F.
Qed.

End Checks.

(** Collaborators that load no key and know no country. *)
Definition example_checks : checks :=
  {| openssl := example_env;
     request_subject := fun _ =>
       {| s_country := None; s_state := None; s_city := None;
          s_organization := None; s_common := None; s_san := None;
          s_email := None |};
     validate_country := fun c n => Ok [(n, str "not recognized")];
     crypto_load_privatekey := fun _ _ => Raise CryptoError;
     valid_signing_ca := fun _ => Ok [];
     certificate_query := fun _ => Ok [];
     contains := filed_under;
     check_privatekey := fun _ _ => Ok None |}.

(** A request with a key of 512 bits. *)
Definition short_key_data : dict :=
  [("name"%string, VStr (str "web")); ("key_length"%string, VInt 512)].

(** A certificate OpenSSL does not load, with a key. *)
Definition corrupt_data : dict :=
  [("certificate"%string, VStr (block_corrupt ++ Pem.LF));
   ("privatekey"%string, VStr (str "key"))].

Example corrupt_data_checked :
  validate_common_attributes example_checks corrupt_data [] "certificate_create"
  = Ok [("certificate_create.certificate"%string, msg_not_pem);
        ("certificate_create.privatekey"%string, msg_private_key)].
Proof. vm_compute. reflexivity. Qed.

(** The checks only add to [verrors], and a key length that is given and
    is not 1024, 2048 or 4096 is always reported: whenever
    [_validate_common_attributes] returns, the errors it was given come
    first and in their order, and for such a key length the result holds
    the error under [<schema>.key_length]. *)
Theorem bad_key_length_is_reported (K : checks) (data : dict)
    (verrors out : list verror) (schema_name : string) :
  validate_common_attributes K data verrors schema_name = Ok out ->
  extends verrors out /\
  (py_truthy (get_or_none "key_length" data) = true ->
   in_ints (get_or_none "key_length" data) [1024; 2048; 4096] = false ->
   In (attr schema_name "key_length", msg_key_length) out).
Proof.
  unfold validate_common_attributes. cbv zeta. intros H.
  apply bind_ok in H. destruct H as [v0 [H0 H]].
  apply bind_ok in H. destruct H as [v1 [H1 H]].
  apply bind_ok in H. destruct H as [v2 [H2 H]].
  apply bind_ok in H. destruct H as [v4 [H4 H]].
  apply bind_ok in H. destruct H as [v6 [H6 H]].
  apply check_country_extends in H0.
  apply check_certificate_extends in H1.
  apply check_private_key_extends in H2.
  apply check_found_extends in H4.
  apply check_found_extends in H6.
  apply with_key_extends in H.
  set (v3 := add_if _ (attr schema_name "key_length") _ v2) in *.
  set (v5 := add_if _ (attr schema_name "CSR") _ v4) in *.
  assert (E36 : extends v3 out).
  { apply (extends_trans _ v6); [|exact H].
    apply (extends_trans _ v5); [|exact H6].
    apply (extends_trans _ v4); [exact H4 | apply extends_add_if]. }
  split.
  - apply (extends_trans _ v0); [exact H0|].
    apply (extends_trans _ v1); [exact H1|].
    apply (extends_trans _ v2); [exact H2|].
    apply (extends_trans _ v3); [apply extends_add_if | exact E36].
  - intros T N. apply (extends_in v3); [exact E36|].
    unfold v3, add_if, Names.add. rewrite T, N. cbn [negb andb].
    apply in_or_app. right. now left.
Qed.

Lemma bad_key_length_is_reported_witness :
  In (attr "certificate_create" "key_length", msg_key_length)
    [("certificate_create.key_length"%string, msg_key_length)].
Proof.
  refine (proj2 (bad_key_length_is_reported example_checks short_key_data []
                   _ "certificate_create" _) _ _);
    vm_compute; reflexivity.
Defined.

(** None of the collaborators the checks call raises a [crypto.Error]. *)
Definition collaborators_raise_no_crypto_error (K : checks) : Prop :=
  (forall c n, validate_country K c n <> Raise CryptoError) /\
  (forall i, valid_signing_ca K i <> Raise CryptoError) /\
  (forall i, certificate_query K i <> Raise CryptoError) /\
  (forall x key, check_privatekey K x key <> Raise CryptoError).

(** The certificate is handed to [crypto.load_certificate] only after it
    passed its own check: when [attribute in verrors] tells whether an
    error is filed under the attribute, and none of the collaborators
    called ([validate_country], the two queries, the OpenSSL context)
    raises a [crypto.Error], no [crypto.Error] leaves
    [_validate_common_attributes], whatever the certificate and the key
    are: the unguarded load of the certificate cannot raise, and
    [load_private_key] turns its own into [None]. *)
Theorem no_crypto_error_leaves_the_checks (K : checks) (data : dict)
    (verrors : list verror) (schema_name : string) :
  (forall v k, contains K v k = filed_under v k) ->
  collaborators_raise_no_crypto_error K ->
  validate_common_attributes K data verrors schema_name
    <> Raise CryptoError.
Proof.
  intros HC [HV [HQ1 [HQ2 HS]]].
  assert (Found : forall value found attribute message v,
            found <> Raise CryptoError ->
            check_found value found attribute message v
              <> Raise CryptoError).
  { intros value found attribute message v Hf. unfold check_found.
    destruct (py_truthy value); [|discriminate].
    apply bind_no_crypto_error; [exact Hf | discriminate]. }
  unfold validate_common_attributes. cbv zeta.
  apply bind_no_crypto_error.
  { unfold check_country. destruct (py_truthy _); [|discriminate].
    apply bind_no_crypto_error; [apply HV | discriminate]. }
  intros v0 _.
  apply bind_no_crypto_error.
  { unfold check_certificate. destruct (py_truthy _); [|discriminate].
    destruct (get_or_none "certificate" data); try discriminate.
    destruct (Pem.findall _ _); [discriminate|].
    destruct (py_truthy _); discriminate. }
  intros v1 H1.
  apply bind_no_crypto_error.
  { unfold check_private_key. destruct (py_truthy _); [|discriminate].
    apply bind_no_crypto_error;
      [apply load_private_key_no_crypto_error | discriminate]. }
  intros v2 H2.
  apply check_private_key_extends in H2.
  set (v3 := add_if _ (attr schema_name "key_length") _ v2).
  apply bind_no_crypto_error; [apply Found; apply HQ1|].
  intros v4 H4. apply check_found_extends in H4.
  set (v5 := add_if _ (attr schema_name "CSR") _ v4).
  apply bind_no_crypto_error; [apply Found; apply HQ2|].
  intros v6 H6. apply check_found_extends in H6.
  assert (E16 : extends v1 v6).
  { apply (extends_trans _ v2); [exact H2|].
    apply (extends_trans _ v3); [apply extends_add_if|].
    apply (extends_trans _ v4); [exact H4|].
    apply (extends_trans _ v5); [apply extends_add_if | exact H6]. }
  unfold validate_certificate_with_key. rewrite !HC.
  destruct (py_truthy (get_or_none "certificate" data)) eqn:T;
    [|discriminate].
  destruct (py_truthy (get_or_none "privatekey" data)); [|discriminate].
  destruct (filed_under v6 (attr schema_name "certificate")) eqn:F;
    [discriminate|].
  destruct (filed_under v6 (attr schema_name "privatekey"));
    [discriminate|].
  cbn [andb negb].
  apply (filed_under_extends _ _ _ E16) in F.
  destruct (passed_certificate_loads K _ _ _ _ H1 T F) as [x Hx].
  rewrite Hx. cbn [bind].
  apply bind_no_crypto_error; [apply load_private_key_no_crypto_error|].
  intros key _.
  apply bind_no_crypto_error; [apply HS|].
  intros [e|] _; discriminate.
Qed.

Lemma no_crypto_error_leaves_the_checks_witness :
  validate_common_attributes example_checks corrupt_data []
    "certificate_create" <> Raise CryptoError.
Proof.
  apply (no_crypto_error_leaves_the_checks example_checks corrupt_data []
           "certificate_create").
  - intros v k. reflexivity.
  - repeat split; intros; discriminate.
Defined.

End Attributes.
